(** * BMX: the MXF file reader and the raw essence reader

    A shallow embedding of [src/essence_parser/RawEssenceReader.cpp] and of
    the clip-level parts of [src/mxf_reader/MXFFileReader.cpp], with the
    properties of the reader specification stated and proved over it.

    Fixed-width C++ integers are modelled as [Z] with the wrap-around of
    each conversion written out ([uint32], [sint64], [sint16], [sint8]).
    Stateful methods are functions in a small state-and-exception monad
    over the object's fields. *)

From Stdlib Require Import String.
From Stdlib Require Import QArith.
From Stdlib Require Import ZArith List Bool Lia.
From Stdlib Require Import Sorting.Permutation Sorting.Sorted.
Import ListNotations.

Local Open Scope Z_scope.

(** ** Machine integers *)

Definition UINT32_MAX : Z := 4294967295.
Definition INT64_MAX : Z := 9223372036854775807.
Definition INT64_MIN : Z := -9223372036854775808.

(** Conversion to [uint32_t]. *)
Definition uint32 (z : Z) : Z := z mod 2 ^ 32.

(** Conversion to a signed integer of [w] bits. *)
Definition swrap (w : Z) (z : Z) : Z := (z + 2 ^ (w - 1)) mod 2 ^ w - 2 ^ (w - 1).

Definition sint8 : Z -> Z := swrap 8.
Definition sint16 : Z -> Z := swrap 16.
Definition sint64 : Z -> Z := swrap 64.

(** ** Exceptions and the state monad *)

(** The exceptions the modelled code raises.  [BMX_ASSERT] and [BMX_CHECK]
    raise a [BMXException]; [THROW_RESULT] raises an open result. *)
Inductive Exn : Type :=
| BMXException (msg : String.string)
| MXFException (msg : String.string)
| OpenResultException (code : nat).

(** How a call ends: with a value, with an exception, or (for a model loop
    that is bounded by fuel) without having finished. *)
Inductive Outcome (A : Type) : Type :=
| Done (a : A)
| Throw (e : Exn)
| OutOfFuel.

Arguments Done {A} a.
Arguments Throw {A} e.
Arguments OutOfFuel {A}.

Definition M (St A : Type) : Type := St -> Outcome A * St.

Definition ret {St A} (a : A) : M St A := fun s => (Done a, s).

Definition bind {St A B} (c : M St A) (k : A -> M St B) : M St B :=
  fun s =>
    match c s with
    | (Done a, s') => k a s'
    | (Throw e, s') => (Throw e, s')
    | (OutOfFuel, s') => (OutOfFuel, s')
    end.

Definition gets {St A} (f : St -> A) : M St A := fun s => (Done (f s), s).
Definition modify {St} (f : St -> St) : M St unit := fun s => (Done tt, f s).
Definition throw {St A} (e : Exn) : M St A := fun s => (Throw e, s).
Definition out_of_fuel {St A} : M St A := fun s => (OutOfFuel, s).

(** [BMX_ASSERT(cond)] and [BMX_CHECK(cond)]. *)
Definition bmx_check {St} (cond : bool) (what : String.string) : M St unit :=
  if cond then ret tt else throw (BMXException what).

Arguments bmx_check {St} cond what%_string.
Arguments BMXException msg%_string.
Arguments MXFException msg%_string.

Declare Scope monad_scope.
Delimit Scope monad_scope with monad.
Notation "x <- c ;; k" := (bind c (fun x => k))
  (at level 61, c at next level, right associativity) : monad_scope.
Notation "c ;;; k" := (bind c (fun _ => k))
  (at level 61, right associativity) : monad_scope.

(** * RawEssenceReader *)

Module RawEssenceReader.

Local Open Scope monad_scope.

Definition byte : Type := Byte.byte.

Definition READ_BLOCK_SIZE : Z := 8192.
Definition PARSE_FRAME_START_SIZE : Z := 8192.
Definition ESSENCE_PARSER_NULL_OFFSET : Z := 4294967295.

(** The [EssenceSource] interface.  [es_Read s n] is [Read(dest, n)]: the
    bytes written to [dest] (their number is the returned count) and the
    source afterwards.  [es_SeekStart] gives [None] where the C++ method
    returns [false]. *)
Class EssenceSource (S : Type) : Type := {
  es_Read : S -> Z -> list byte * S;
  es_SeekStart : S -> option S;
  es_HaveError : S -> bool;
  es_Read_bound : forall s n, 0 <= n -> Z.of_nat (length (fst (es_Read s n))) <= n
}.

(** Modelled from the spec: [ParsedFrameSize], whose methods are declared in
    [EssenceParser.h] and defined outside the sources at hand.  It is the
    three-state value of the specification: unknown, null, or complete as a
    frame or as two fields. *)
Inductive ParsedFrameSize : Type :=
| Unknown
| Null
| Frame (size : Z)
| Fields (first second : Z).

Definition IsUnknown (p : ParsedFrameSize) : bool :=
  match p with Unknown => true | _ => false end.
Definition IsNull (p : ParsedFrameSize) : bool :=
  match p with Null => true | _ => false end.
Definition IsComplete (p : ParsedFrameSize) : bool :=
  match p with Frame _ | Fields _ _ => true | _ => false end.
Definition GetSize (p : ParsedFrameSize) : Z :=
  match p with
  | Frame s => s
  | Fields a b => uint32 (a + b)
  | _ => 0
  end.

(** The [EssenceParser] interface; the parser keeps private state between
    the resumable calls, so every method returns the parser afterwards. *)
Class EssenceParser (P : Type) : Type := {
  ParseFrameStart : P -> list byte -> Z -> Z * P;
  ResetParseFrameSize : P -> P;
  ParseFrameSize2 : P -> list byte -> Z -> ParsedFrameSize * P
}.

Section Reader.

Context {S P : Type} `{EssenceSource S} `{EssenceParser P}.

(** [ParsedFrameSize::CompleteSize(data_size)]: the completed size when the
    heuristic accepts, [None] when it returns [false]. *)
Variable CompleteSize : ParsedFrameSize -> Z -> option ParsedFrameSize.

(** The fields of the class.  [mSampleBuffer] is the [ByteArray]; its
    [GetSize()] is the length of the list. *)
Record t : Type := mk {
  mEssenceSource : S;
  mMaxReadLength : Z;        (* int64_t *)
  mTotalReadLength : Z;      (* int64_t *)
  mMaxSampleSize : Z;        (* uint32_t *)
  mFixedSampleSize : Z;      (* uint32_t *)
  mEssenceParser : option P;
  mSampleBuffer : list byte;
  mSampleDataSize : Z;       (* uint32_t *)
  mNumSamples : Z;           (* uint32_t *)
  mFrameStartSize : Z;       (* uint32_t *)
  mReadBlockSize : Z;        (* uint32_t *)
  mReadFirstSample : bool;
  mLastSampleRead : bool
}.

Definition set_mEssenceSource (v : S) (r : t) : t :=
  mk v (mMaxReadLength r) (mTotalReadLength r) (mMaxSampleSize r) (mFixedSampleSize r)
     (mEssenceParser r) (mSampleBuffer r) (mSampleDataSize r) (mNumSamples r)
     (mFrameStartSize r) (mReadBlockSize r) (mReadFirstSample r) (mLastSampleRead r).
Definition set_mMaxReadLength (v : Z) (r : t) : t :=
  mk (mEssenceSource r) v (mTotalReadLength r) (mMaxSampleSize r) (mFixedSampleSize r)
     (mEssenceParser r) (mSampleBuffer r) (mSampleDataSize r) (mNumSamples r)
     (mFrameStartSize r) (mReadBlockSize r) (mReadFirstSample r) (mLastSampleRead r).
Definition set_mTotalReadLength (v : Z) (r : t) : t :=
  mk (mEssenceSource r) (mMaxReadLength r) v (mMaxSampleSize r) (mFixedSampleSize r)
     (mEssenceParser r) (mSampleBuffer r) (mSampleDataSize r) (mNumSamples r)
     (mFrameStartSize r) (mReadBlockSize r) (mReadFirstSample r) (mLastSampleRead r).
Definition set_mMaxSampleSize (v : Z) (r : t) : t :=
  mk (mEssenceSource r) (mMaxReadLength r) (mTotalReadLength r) v (mFixedSampleSize r)
     (mEssenceParser r) (mSampleBuffer r) (mSampleDataSize r) (mNumSamples r)
     (mFrameStartSize r) (mReadBlockSize r) (mReadFirstSample r) (mLastSampleRead r).
Definition set_mFixedSampleSize (v : Z) (r : t) : t :=
  mk (mEssenceSource r) (mMaxReadLength r) (mTotalReadLength r) (mMaxSampleSize r) v
     (mEssenceParser r) (mSampleBuffer r) (mSampleDataSize r) (mNumSamples r)
     (mFrameStartSize r) (mReadBlockSize r) (mReadFirstSample r) (mLastSampleRead r).
Definition set_mEssenceParser (v : option P) (r : t) : t :=
  mk (mEssenceSource r) (mMaxReadLength r) (mTotalReadLength r) (mMaxSampleSize r)
     (mFixedSampleSize r) v (mSampleBuffer r) (mSampleDataSize r) (mNumSamples r)
     (mFrameStartSize r) (mReadBlockSize r) (mReadFirstSample r) (mLastSampleRead r).
Definition set_mSampleBuffer (v : list byte) (r : t) : t :=
  mk (mEssenceSource r) (mMaxReadLength r) (mTotalReadLength r) (mMaxSampleSize r)
     (mFixedSampleSize r) (mEssenceParser r) v (mSampleDataSize r) (mNumSamples r)
     (mFrameStartSize r) (mReadBlockSize r) (mReadFirstSample r) (mLastSampleRead r).
Definition set_mSampleDataSize (v : Z) (r : t) : t :=
  mk (mEssenceSource r) (mMaxReadLength r) (mTotalReadLength r) (mMaxSampleSize r)
     (mFixedSampleSize r) (mEssenceParser r) (mSampleBuffer r) v (mNumSamples r)
     (mFrameStartSize r) (mReadBlockSize r) (mReadFirstSample r) (mLastSampleRead r).
Definition set_mNumSamples (v : Z) (r : t) : t :=
  mk (mEssenceSource r) (mMaxReadLength r) (mTotalReadLength r) (mMaxSampleSize r)
     (mFixedSampleSize r) (mEssenceParser r) (mSampleBuffer r) (mSampleDataSize r) v
     (mFrameStartSize r) (mReadBlockSize r) (mReadFirstSample r) (mLastSampleRead r).
Definition set_mFrameStartSize (v : Z) (r : t) : t :=
  mk (mEssenceSource r) (mMaxReadLength r) (mTotalReadLength r) (mMaxSampleSize r)
     (mFixedSampleSize r) (mEssenceParser r) (mSampleBuffer r) (mSampleDataSize r)
     (mNumSamples r) v (mReadBlockSize r) (mReadFirstSample r) (mLastSampleRead r).
Definition set_mReadBlockSize (v : Z) (r : t) : t :=
  mk (mEssenceSource r) (mMaxReadLength r) (mTotalReadLength r) (mMaxSampleSize r)
     (mFixedSampleSize r) (mEssenceParser r) (mSampleBuffer r) (mSampleDataSize r)
     (mNumSamples r) (mFrameStartSize r) v (mReadFirstSample r) (mLastSampleRead r).
Definition set_mReadFirstSample (v : bool) (r : t) : t :=
  mk (mEssenceSource r) (mMaxReadLength r) (mTotalReadLength r) (mMaxSampleSize r)
     (mFixedSampleSize r) (mEssenceParser r) (mSampleBuffer r) (mSampleDataSize r)
     (mNumSamples r) (mFrameStartSize r) (mReadBlockSize r) v (mLastSampleRead r).
Definition set_mLastSampleRead (v : bool) (r : t) : t :=
  mk (mEssenceSource r) (mMaxReadLength r) (mTotalReadLength r) (mMaxSampleSize r)
     (mFixedSampleSize r) (mEssenceParser r) (mSampleBuffer r) (mSampleDataSize r)
     (mNumSamples r) (mFrameStartSize r) (mReadBlockSize r) (mReadFirstSample r) v.

(** The constructor: [RawEssenceReader(EssenceSource *essence_source)]. *)
Definition new (essence_source : S) : t :=
  mk essence_source 0 0 0 0 None [] 0 0
     PARSE_FRAME_START_SIZE READ_BLOCK_SIZE false false.

(** [mSampleBuffer.GetSize()]. *)
Definition BufferSize (r : t) : Z := Z.of_nat (length (mSampleBuffer r)).

(** [mSampleBuffer.SetSize(n)], used by the class only to shrink. *)
Definition SetSize (n : Z) : M t unit :=
  modify (fun r => set_mSampleBuffer (firstn (Z.to_nat n) (mSampleBuffer r)) r).

(** ** The setters *)

Definition SetMaxReadLength (len : Z) : M t unit :=
  modify (set_mMaxReadLength len).

Definition SetFrameStartSize (len : Z) : M t unit :=
  bmx_check (len <=? UINT32_MAX) "len <= UINT32_MAX" ;;;
  modify (set_mFrameStartSize (uint32 len)).

Definition SetReadBlockSize (len : Z) : M t unit :=
  bmx_check (len <=? UINT32_MAX) "len <= UINT32_MAX" ;;;
  modify (set_mReadBlockSize (uint32 len)).

Definition SetFixedSampleSize (size : Z) : M t unit :=
  modify (set_mFixedSampleSize size).

Definition SetEssenceParser (essence_parser : option P) : M t unit :=
  modify (set_mEssenceParser essence_parser).

Definition SetCheckMaxSampleSize (size : Z) : M t unit :=
  modify (set_mMaxSampleSize size).

(** ** [ReadBytes], [AppendBytes], [ShiftSampleData] *)

Definition ReadBytes (size : Z) : M t Z :=
  max_len <- gets mMaxReadLength ;;
  total <- gets mTotalReadLength ;;
  bmx_check ((max_len =? 0) || (total <=? max_len))
            "mMaxReadLength == 0 || mTotalReadLength <= mMaxReadLength" ;;;
  let actual_size :=
    if (0 <? max_len) && (max_len <? sint64 (total + size))
    then uint32 (sint64 (max_len - total))
    else size in
  if actual_size =? 0 then ret 0
  else
    src <- gets mEssenceSource ;;
    let '(bytes, src') := es_Read src actual_size in
    let num_read := Z.of_nat (length bytes) in
    modify (set_mEssenceSource src') ;;;
    modify (fun r => set_mTotalReadLength (sint64 (mTotalReadLength r + num_read)) r) ;;;
    modify (fun r => set_mSampleBuffer (mSampleBuffer r ++ bytes) r) ;;;
    ret num_read.

Definition ShiftSampleData (to_offset from_offset : Z) : M t unit :=
  bmx_check (to_offset <=? from_offset) "to_offset <= from_offset" ;;;
  size0 <- gets BufferSize ;;
  bmx_check (from_offset <=? size0) "from_offset <= mSampleBuffer.GetSize()" ;;;
  modify (fun r =>
    set_mSampleBuffer (firstn (Z.to_nat to_offset) (mSampleBuffer r)
                       ++ skipn (Z.to_nat from_offset) (mSampleBuffer r)) r).

Definition AppendBytes (bytes : list byte) (size : Z) : M t Z :=
  max_len <- gets mMaxReadLength ;;
  total <- gets mTotalReadLength ;;
  bmx_check ((max_len =? 0) || (total <=? max_len))
            "mMaxReadLength == 0 || mTotalReadLength <= mMaxReadLength" ;;;
  let actual_size :=
    if (0 <? max_len) && (max_len <? sint64 (total + size))
    then uint32 (sint64 (max_len - total))
    else size in
  if actual_size =? 0 then ret 0
  else
    modify (fun r => set_mSampleBuffer
                       (mSampleBuffer r ++ firstn (Z.to_nat actual_size) bytes) r) ;;;
    modify (fun r => set_mTotalReadLength (sint64 (mTotalReadLength r + actual_size)) r) ;;;
    ret actual_size.

(** ** [ReadAndParseSample] *)

(** Calls on [mEssenceParser]; [BMX_CHECK(mEssenceParser)] guards the null
    pointer. *)
Definition with_parser {A} (f : P -> A * P) : M t A :=
  parser <- gets mEssenceParser ;;
  match parser with
  | None => throw (BMXException "mEssenceParser")
  | Some p =>
      let '(a, p') := f p in
      modify (set_mEssenceParser (Some p')) ;;; ret a
  end.

(** The bytes [mSampleBuffer.GetBytes() + offset] of length [size]. *)
Definition window (offset size : Z) (r : t) : list byte :=
  firstn (Z.to_nat size) (skipn (Z.to_nat offset) (mSampleBuffer r)).

(** The [while (true)] loop that grows the buffer until the parser knows
    the frame size.  Every round that does not leave the loop has read at
    least one byte; the model bounds the number of rounds by [fuel]. *)
Fixpoint parse_size_loop (fuel : nat) (sample_start_offset sample_num_read : Z)
  : M t (ParsedFrameSize * Z) :=
  match fuel with
  | O => out_of_fuel
  | Datatypes.S fuel' =>
      data <- gets (window sample_start_offset sample_num_read) ;;
      sample_size <- with_parser (fun p => ParseFrameSize2 p data sample_num_read) ;;
      if negb (IsUnknown sample_size) then ret (sample_size, sample_num_read)
      else
        max_size <- gets mMaxSampleSize ;;
        size <- gets BufferSize ;;
        bmx_check ((max_size =? 0) || (uint32 (size - sample_start_offset) <=? max_size))
                  "Max raw sample size exceeded" ;;;
        block <- gets mReadBlockSize ;;
        num_read <- ReadBytes block ;;
        if num_read =? 0 then ret (sample_size, sample_num_read)
        else parse_size_loop fuel' sample_start_offset (uint32 (sample_num_read + num_read))
  end.

Definition ReadAndParseSample (fuel : nat) : M t bool :=
  parser <- gets mEssenceParser ;;
  bmx_check (match parser with Some _ => true | None => false end) "mEssenceParser" ;;;
  sample_start_offset <- gets mSampleDataSize ;;
  size <- gets BufferSize ;;
  let sample_num_read := uint32 (size - sample_start_offset) in
  read_first <- gets mReadFirstSample ;;
  (* find the start of the first sample; [None] is the early [return false] *)
  started <-
    (if negb read_first then
       frame_start_size <- gets mFrameStartSize ;;
       k <- ReadBytes frame_start_size ;;
       let sample_num_read := uint32 (sample_num_read + k) in
       data <- gets (window sample_start_offset sample_num_read) ;;
       offset <- with_parser (fun p => ParseFrameStart p data sample_num_read) ;;
       if offset =? ESSENCE_PARSER_NULL_OFFSET then
         modify (set_mLastSampleRead true) ;;; ret None
       else
         sample_num_read <-
           (if 0 <? offset then
              ShiftSampleData sample_start_offset (uint32 (sample_start_offset + offset)) ;;;
              ret (uint32 (sample_num_read - offset))
            else ret sample_num_read) ;;
         modify (set_mReadFirstSample true) ;;;
         ret (Some sample_num_read)
     else
       block <- gets mReadBlockSize ;;
       k <- ReadBytes block ;;
       ret (Some (uint32 (sample_num_read + k)))) ;;
  match started with
  | None => ret false
  | Some sample_num_read =>
      with_parser (fun p => (tt, ResetParseFrameSize p)) ;;;
      parsed <- parse_size_loop fuel sample_start_offset sample_num_read ;;
      let '(sample_size, sample_num_read) := parsed in
      (* read remaining bytes if sample_size is larger *)
      remaining <-
        (if IsComplete sample_size && (sample_num_read <? GetSize sample_size) then
           k <- ReadBytes (uint32 (GetSize sample_size - sample_num_read)) ;;
           ret (uint32 (sample_num_read + k))
         else ret sample_num_read) ;;
      if IsComplete sample_size && (remaining <? GetSize sample_size) then
        modify (set_mLastSampleRead true) ;;; ret false
      else if IsNull sample_size then
        modify (set_mLastSampleRead true) ;;; ret false
      else if IsUnknown sample_size then
        modify (set_mLastSampleRead true) ;;;
        match CompleteSize sample_size remaining with
        | Some completed =>
            modify (fun r => set_mSampleDataSize
                               (uint32 (mSampleDataSize r + GetSize completed)) r) ;;;
            modify (fun r => set_mNumSamples (uint32 (mNumSamples r + 1)) r) ;;;
            ret false
        | None => ret false
        end
      else
        modify (fun r => set_mSampleDataSize
                           (uint32 (mSampleDataSize r + GetSize sample_size)) r) ;;;
        modify (fun r => set_mNumSamples (uint32 (mNumSamples r + 1)) r) ;;;
        ret true
  end.

(** ** [ReadSamples], [GetSampleSize], [Reset] *)

(** The [for] loop of the parsing branch: up to [count] samples, leaving at
    the first [false] of [ReadAndParseSample]. *)
Fixpoint read_parse_loop (fuel : nat) (count : nat) : M t unit :=
  match count with
  | O => ret tt
  | Datatypes.S count' =>
      more <- ReadAndParseSample fuel ;;
      if more then read_parse_loop fuel count' else ret tt
  end.

Definition ReadSamples (fuel : nat) (num_samples : Z) : M t Z :=
  last <- gets mLastSampleRead ;;
  if last then ret 0
  else
    (* shift data from previous read to start of sample data *)
    data_size <- gets mSampleDataSize ;;
    ShiftSampleData 0 data_size ;;;
    modify (set_mSampleDataSize 0) ;;;
    modify (set_mNumSamples 0) ;;;
    fixed <- gets mFixedSampleSize ;;
    (if fixed =? 0 then read_parse_loop fuel (Z.to_nat num_samples)
     else
       size <- gets BufferSize ;;
       ReadBytes (uint32 (uint32 (fixed * num_samples) - size)) ;;;
       size' <- gets BufferSize ;;
       (if size' <? uint32 (fixed * num_samples)
        then modify (set_mLastSampleRead true) else ret tt) ;;;
       modify (set_mNumSamples (size' / fixed)) ;;;
       SetSize (uint32 (size' / fixed * fixed)) ;;;
       modify (set_mSampleDataSize (uint32 (size' / fixed * fixed)))) ;;;
    gets mNumSamples.

Definition GetSampleSize : M t Z :=
  num <- gets mNumSamples ;;
  fixed <- gets mFixedSampleSize ;;
  bmx_check ((0 <? num) && ((0 <? fixed) || (num =? 1)))
            "mNumSamples > 0 && (mFixedSampleSize > 0 || mNumSamples == 1)" ;;;
  data_size <- gets mSampleDataSize ;;
  ret (data_size / num).

Definition Reset : M t unit :=
  src <- gets mEssenceSource ;;
  match es_SeekStart src with
  | None => throw (BMXException "Failed to seek to essence start")
  | Some src' =>
      modify (set_mEssenceSource src') ;;;
      modify (set_mTotalReadLength 0) ;;;
      SetSize 0 ;;;
      modify (set_mSampleDataSize 0) ;;;
      modify (set_mNumSamples 0) ;;;
      modify (set_mReadFirstSample false) ;;;
      modify (set_mLastSampleRead false)
  end.

(** ** The methods as operations *)

(** One call on the reader, by method; [run_call] performs it and gives
    the returned count (0 for the [void] methods). *)
Inductive Call : Type :=
| CallSetMaxReadLength (len : Z)
| CallSetFrameStartSize (len : Z)
| CallSetReadBlockSize (len : Z)
| CallSetFixedSampleSize (size : Z)
| CallSetEssenceParser (parser : option P)
| CallSetCheckMaxSampleSize (size : Z)
| CallReadSamples (fuel : nat) (num_samples : Z)
| CallGetSampleSize
| CallReset
| CallReadBytes (size : Z)
| CallAppendBytes (bytes : list byte) (size : Z).

Definition void (c : M t unit) : M t Z := c ;;; ret 0.

Definition run_call (c : Call) : M t Z :=
  match c with
  | CallSetMaxReadLength len => void (SetMaxReadLength len)
  | CallSetFrameStartSize len => void (SetFrameStartSize len)
  | CallSetReadBlockSize len => void (SetReadBlockSize len)
  | CallSetFixedSampleSize size => void (SetFixedSampleSize size)
  | CallSetEssenceParser parser => void (SetEssenceParser parser)
  | CallSetCheckMaxSampleSize size => void (SetCheckMaxSampleSize size)
  | CallReadSamples fuel n => ReadSamples fuel n
  | CallGetSampleSize => GetSampleSize
  | CallReset => void Reset
  | CallReadBytes size => ReadBytes size
  | CallAppendBytes bytes size => AppendBytes bytes size
  end.

(** A sequence of calls, stopping at the first that does not return; the
    result lists the counts returned so far. *)
Fixpoint run_calls (cs : list Call) (r : t) : list Z * t :=
  match cs with
  | [] => ([], r)
  | c :: cs' =>
      match run_call c r with
      | (Done k, r') => let '(ks, r'') := run_calls cs' r' in (k :: ks, r'')
      | (_, r') => ([], r')
      end
  end.

End Reader.

(** ** A source over a byte list *)

(** An essence source that holds its bytes in memory: the bytes not yet
    delivered and the whole content (to seek back to the start).
    [chunk] bounds the bytes one [Read] delivers, so that short reads
    before the end can be exercised; [chunk = 0] means no bound. *)
Record ListSource : Type := mkListSource {
  ls_content : list byte;
  ls_rest : list byte;
  ls_chunk : Z
}.

Definition ls_read (s : ListSource) (n : Z) : list byte * ListSource :=
  let k := if (0 <? ls_chunk s) && (ls_chunk s <? n) then ls_chunk s else n in
  (firstn (Z.to_nat k) (ls_rest s),
   mkListSource (ls_content s) (skipn (Z.to_nat k) (ls_rest s)) (ls_chunk s)).

Lemma ls_read_bound s n :
  0 <= n -> Z.of_nat (length (fst (ls_read s n))) <= n.
Proof.
  intros Hn. unfold ls_read. cbn [fst].
  rewrite length_firstn.
  destruct ((0 <? ls_chunk s) && (ls_chunk s <? n)) eqn:E.
  - apply andb_prop in E. destruct E as [E1 E2].
    apply Z.ltb_lt in E1. apply Z.ltb_lt in E2. lia.
  - lia.
Qed.

#[export] Instance ListSource_EssenceSource : EssenceSource ListSource := {
  es_Read := ls_read;
  es_SeekStart := fun s => Some (mkListSource (ls_content s) (ls_content s) (ls_chunk s));
  es_HaveError := fun _ => false;
  es_Read_bound := ls_read_bound
}.

(** A parser for frames of one fixed size, used to exercise the parsing
    branch: the frame starts at offset 0 and its size is known as soon as
    that many bytes are in the window. *)
Record FixedParser : Type := mkFixedParser { fp_size : Z }.

#[export] Instance FixedParser_EssenceParser : EssenceParser FixedParser := {
  ParseFrameStart := fun p _ data_size =>
    (if 0 <? data_size then 0 else ESSENCE_PARSER_NULL_OFFSET, p);
  ResetParseFrameSize := fun p => p;
  ParseFrameSize2 := fun p _ data_size =>
    (if fp_size p <=? data_size then Frame (fp_size p) else Unknown, p)
}.

End RawEssenceReader.

(** * MXFFileReader *)

Module MXFFileReader.

Local Open Scope monad_scope.

(** ** Data *)

(** An edit rate, [mxfRational]: two [int32_t]. *)
Record Rational : Type := mkRational { numerator : Z; denominator : Z }.

Definition Rational_eqb (a b : Rational) : bool :=
  (numerator a =? numerator b) && (denominator a =? denominator b).

Definition ZERO_RATIONAL : Rational := mkRational 0 0.

(** The essence types the reader tells apart; every other type is
    [OTHER_ESSENCE_TYPE] with its enumerator value. *)
Inductive EssenceType : Type :=
| MPEG2LG_422P_ML_576I | MPEG2LG_MP_ML_576I
| MPEG2LG_422P_HL_1080I | MPEG2LG_422P_HL_1080P | MPEG2LG_422P_HL_720P
| MPEG2LG_MP_HL_1920_1080I | MPEG2LG_MP_HL_1920_1080P
| MPEG2LG_MP_HL_1440_1080I | MPEG2LG_MP_HL_1440_1080P
| MPEG2LG_MP_HL_720P | MPEG2LG_MP_H14_1080I | MPEG2LG_MP_H14_1080P
| AVC_BASELINE | AVC_CONSTRAINED_BASELINE | AVC_MAIN | AVC_EXTENDED
| AVC_HIGH | AVC_HIGH_10 | AVC_HIGH_422 | AVC_HIGH_444
| D10_AES3_PCM
| AVCI200_1080I | AVCI200_1080P | AVCI200_720P
| AVCI100_1080I | AVCI100_1080P | AVCI100_720P
| AVCI50_1080I | AVCI50_1080P | AVCI50_720P
| VBI_DATA | ANC_DATA | TIMED_TEXT
| OTHER_ESSENCE_TYPE (tag : nat).

(** The fields of [MXFTrackInfo] the clip logic reads.  [data_def] is the
    value of the [MXFDataDefEnum] enumerator. *)
Record MXFTrackInfo : Type := mkTrackInfo {
  data_def : Z;
  material_track_id : Z;       (* uint32_t *)
  material_track_number : Z;   (* uint32_t *)
  file_track_id : Z;           (* uint32_t *)
  file_track_number : Z;       (* uint32_t *)
  edit_rate : Rational;
  duration : Z;                (* int64_t, negative when unknown *)
  lead_filler_offset : Z;      (* int64_t *)
  essence_type : EssenceType
}.

(** A track reader: its track info, whether it is enabled, and whether it
    is a [MXFTimedTextTrackReader]. *)
Record MXFTrackReader : Type := mkTrackReader {
  GetTrackInfo : MXFTrackInfo;
  tr_enabled : bool;
  tr_timed_text : bool
}.

(** [MXFIndexEntryExt]: the offsets are [int8_t]. *)
Record MXFIndexEntryExt : Type := mkIndexEntry {
  temporal_offset : Z;
  key_frame_offset : Z;
  flags : Z;
  container_offset : Z
}.

(** What the frames of one edit unit give to [ExtractFrameInfo]: no track
    has a non-empty frame, some track has one and its information was
    extracted, or parsing a frame raised an exception. *)
Inductive FrameInfo : Type := NoFrame | FrameExtracted | FrameParseFails.

(** Modelled from the spec: the [EssenceReader], an external collaborator
    of the file reader.  It has a cursor [er_position] that [Seek] sets;
    the other fields say how the essence behaves: [er_read pos n] is the
    result of [Read(n)] with the cursor at [pos] (an exception or the
    number of samples read, and the cursor afterwards), [er_index] is [GetIndexEntry],
    [er_legitimise] is [LegitimisePosition], [er_complete] is
    [IsComplete()]. *)
Record EssenceReader : Type := mkEssenceReader {
  er_position : Z;
  er_complete : bool;
  er_read : Z -> Z -> (Exn + Z) * Z;
  er_index : Z -> option MXFIndexEntryExt;
  er_legitimise : Z -> Z;
  er_frame_info : Z -> FrameInfo
}.

Definition er_Seek (er : EssenceReader) (position : Z) : EssenceReader :=
  mkEssenceReader position (er_complete er) (er_read er) (er_index er)
                  (er_legitimise er) (er_frame_info er).

(** [Read(num_samples)], which returns a [uint32_t]. *)
Definition er_Read (er : EssenceReader) (num_samples : Z) : (Exn + Z) * EssenceReader :=
  let '(o, pos') := er_read er (er_position er) num_samples in
  (match o with inl e => inl e | inr k => inr (uint32 k) end, er_Seek er pos').

(** An entry of [mTrackReaders]: a pointer to one of this reader's own
    track readers, or to an internal track reader of one of its external
    readers. *)
Inductive TrackRef : Type :=
| OwnTrack (k : nat)
| ExternalTrack (i : nat) (k : nat).

(** The fields of [MXFFileReader].  External readers are file readers
    themselves, held in [mExternalReaders]; the sample sequence of the
    [i]-th is the [i]-th of [mExternalSampleSequences]. *)
#[local] Unset Elimination Schemes.
Inductive t : Type := mk {
  mFileId : nat;
  mEditRate : Rational;
  mFileOrigin : Z;
  mOrigin : Z;
  mDuration : Z;
  mEssenceReader : option EssenceReader;
  mRequireFrameInfoCount : Z;      (* uint32_t *)
  mReadError : bool;
  mReadErrorMessage : string;
  mInternalTrackReaders : list MXFTrackReader;
  mTrackReaders : list TrackRef;
  mExternalTrackReaders : list TrackRef;
  mExternalReaders : list t;
  mExternalSampleSequences : list (list Z);
  mExternalSampleSequenceSizes : list Z
}.
#[local] Set Elimination Schemes.

Definition set_mEditRate (v : Rational) (r : t) : t :=
  mk (mFileId r) v (mFileOrigin r) (mOrigin r) (mDuration r) (mEssenceReader r)
     (mRequireFrameInfoCount r) (mReadError r) (mReadErrorMessage r)
     (mInternalTrackReaders r) (mTrackReaders r) (mExternalTrackReaders r)
     (mExternalReaders r) (mExternalSampleSequences r) (mExternalSampleSequenceSizes r).
Definition set_mFileOrigin (v : Z) (r : t) : t :=
  mk (mFileId r) (mEditRate r) v (mOrigin r) (mDuration r) (mEssenceReader r)
     (mRequireFrameInfoCount r) (mReadError r) (mReadErrorMessage r)
     (mInternalTrackReaders r) (mTrackReaders r) (mExternalTrackReaders r)
     (mExternalReaders r) (mExternalSampleSequences r) (mExternalSampleSequenceSizes r).
Definition set_mOrigin (v : Z) (r : t) : t :=
  mk (mFileId r) (mEditRate r) (mFileOrigin r) v (mDuration r) (mEssenceReader r)
     (mRequireFrameInfoCount r) (mReadError r) (mReadErrorMessage r)
     (mInternalTrackReaders r) (mTrackReaders r) (mExternalTrackReaders r)
     (mExternalReaders r) (mExternalSampleSequences r) (mExternalSampleSequenceSizes r).
Definition set_mDuration (v : Z) (r : t) : t :=
  mk (mFileId r) (mEditRate r) (mFileOrigin r) (mOrigin r) v (mEssenceReader r)
     (mRequireFrameInfoCount r) (mReadError r) (mReadErrorMessage r)
     (mInternalTrackReaders r) (mTrackReaders r) (mExternalTrackReaders r)
     (mExternalReaders r) (mExternalSampleSequences r) (mExternalSampleSequenceSizes r).
Definition set_mEssenceReader (v : option EssenceReader) (r : t) : t :=
  mk (mFileId r) (mEditRate r) (mFileOrigin r) (mOrigin r) (mDuration r) v
     (mRequireFrameInfoCount r) (mReadError r) (mReadErrorMessage r)
     (mInternalTrackReaders r) (mTrackReaders r) (mExternalTrackReaders r)
     (mExternalReaders r) (mExternalSampleSequences r) (mExternalSampleSequenceSizes r).
Definition set_mRequireFrameInfoCount (v : Z) (r : t) : t :=
  mk (mFileId r) (mEditRate r) (mFileOrigin r) (mOrigin r) (mDuration r) (mEssenceReader r)
     v (mReadError r) (mReadErrorMessage r)
     (mInternalTrackReaders r) (mTrackReaders r) (mExternalTrackReaders r)
     (mExternalReaders r) (mExternalSampleSequences r) (mExternalSampleSequenceSizes r).
Definition set_mReadError (v : bool) (r : t) : t :=
  mk (mFileId r) (mEditRate r) (mFileOrigin r) (mOrigin r) (mDuration r) (mEssenceReader r)
     (mRequireFrameInfoCount r) v (mReadErrorMessage r)
     (mInternalTrackReaders r) (mTrackReaders r) (mExternalTrackReaders r)
     (mExternalReaders r) (mExternalSampleSequences r) (mExternalSampleSequenceSizes r).
Definition set_mReadErrorMessage (v : string) (r : t) : t :=
  mk (mFileId r) (mEditRate r) (mFileOrigin r) (mOrigin r) (mDuration r) (mEssenceReader r)
     (mRequireFrameInfoCount r) (mReadError r) v
     (mInternalTrackReaders r) (mTrackReaders r) (mExternalTrackReaders r)
     (mExternalReaders r) (mExternalSampleSequences r) (mExternalSampleSequenceSizes r).
Definition set_mInternalTrackReaders (v : list MXFTrackReader) (r : t) : t :=
  mk (mFileId r) (mEditRate r) (mFileOrigin r) (mOrigin r) (mDuration r) (mEssenceReader r)
     (mRequireFrameInfoCount r) (mReadError r) (mReadErrorMessage r)
     v (mTrackReaders r) (mExternalTrackReaders r)
     (mExternalReaders r) (mExternalSampleSequences r) (mExternalSampleSequenceSizes r).
Definition set_mTrackReaders (v : list TrackRef) (r : t) : t :=
  mk (mFileId r) (mEditRate r) (mFileOrigin r) (mOrigin r) (mDuration r) (mEssenceReader r)
     (mRequireFrameInfoCount r) (mReadError r) (mReadErrorMessage r)
     (mInternalTrackReaders r) v (mExternalTrackReaders r)
     (mExternalReaders r) (mExternalSampleSequences r) (mExternalSampleSequenceSizes r).
Definition set_mExternalTrackReaders (v : list TrackRef) (r : t) : t :=
  mk (mFileId r) (mEditRate r) (mFileOrigin r) (mOrigin r) (mDuration r) (mEssenceReader r)
     (mRequireFrameInfoCount r) (mReadError r) (mReadErrorMessage r)
     (mInternalTrackReaders r) (mTrackReaders r) v
     (mExternalReaders r) (mExternalSampleSequences r) (mExternalSampleSequenceSizes r).
Definition set_mExternalReaders (v : list t) (r : t) : t :=
  mk (mFileId r) (mEditRate r) (mFileOrigin r) (mOrigin r) (mDuration r) (mEssenceReader r)
     (mRequireFrameInfoCount r) (mReadError r) (mReadErrorMessage r)
     (mInternalTrackReaders r) (mTrackReaders r) (mExternalTrackReaders r)
     v (mExternalSampleSequences r) (mExternalSampleSequenceSizes r).
Definition set_mExternalSampleSequences (v : list (list Z)) (r : t) : t :=
  mk (mFileId r) (mEditRate r) (mFileOrigin r) (mOrigin r) (mDuration r) (mEssenceReader r)
     (mRequireFrameInfoCount r) (mReadError r) (mReadErrorMessage r)
     (mInternalTrackReaders r) (mTrackReaders r) (mExternalTrackReaders r)
     (mExternalReaders r) v (mExternalSampleSequenceSizes r).
Definition set_mExternalSampleSequenceSizes (v : list Z) (r : t) : t :=
  mk (mFileId r) (mEditRate r) (mFileOrigin r) (mOrigin r) (mDuration r) (mEssenceReader r)
     (mRequireFrameInfoCount r) (mReadError r) (mReadErrorMessage r)
     (mInternalTrackReaders r) (mTrackReaders r) (mExternalTrackReaders r)
     (mExternalReaders r) (mExternalSampleSequences r) v.

(** The state the constructor leaves: [MXFFileReader::MXFFileReader()]. *)
Definition new (file_id : nat) : t :=
  mk file_id ZERO_RATIONAL 0 0 0 None 0 false "" [] [] [] [] [] [].

(** ** Track readers *)

(** The track reader a [mTrackReaders] entry points to. *)
Definition deref (r : t) (ref : TrackRef) : option MXFTrackReader :=
  match ref with
  | OwnTrack k => nth_error (mInternalTrackReaders r) k
  | ExternalTrack i k =>
      match nth_error (mExternalReaders r) i with
      | Some e => nth_error (mInternalTrackReaders e) k
      | None => None
      end
  end.

Definition ref_enabled (r : t) (ref : TrackRef) : bool :=
  match deref r ref with
  | Some tr => tr_enabled tr
  | None => false
  end.

Definition IsEnabled (r : t) : bool := existsb (ref_enabled r) (mTrackReaders r).

Definition InternalIsEnabled (r : t) : bool :=
  existsb tr_enabled (mInternalTrackReaders r).

Definition is_inter_frame (e : EssenceType) : bool :=
  match e with
  | MPEG2LG_422P_ML_576I | MPEG2LG_MP_ML_576I
  | MPEG2LG_422P_HL_1080I | MPEG2LG_422P_HL_1080P | MPEG2LG_422P_HL_720P
  | MPEG2LG_MP_HL_1920_1080I | MPEG2LG_MP_HL_1920_1080P
  | MPEG2LG_MP_HL_1440_1080I | MPEG2LG_MP_HL_1440_1080P
  | MPEG2LG_MP_HL_720P | MPEG2LG_MP_H14_1080I | MPEG2LG_MP_H14_1080P
  | AVC_BASELINE | AVC_CONSTRAINED_BASELINE | AVC_MAIN | AVC_EXTENDED
  | AVC_HIGH | AVC_HIGH_10 | AVC_HIGH_422 | AVC_HIGH_444 => true
  | _ => false
  end.

Definition HaveInterFrameEncodingTrack (r : t) : bool :=
  existsb (fun tr => tr_enabled tr && is_inter_frame (essence_type (GetTrackInfo tr)))
          (mInternalTrackReaders r).

(** [InternalIsEnabled() && mEssenceReader]. *)
Definition internal_essence (r : t) : option EssenceReader :=
  if InternalIsEnabled r then mEssenceReader r else None.

Definition TO_ESS_READER_POS (r : t) (pos : Z) : Z := sint64 (pos + mFileOrigin r).
Definition FROM_ESS_READER_POS (r : t) (pos : Z) : Z := sint64 (pos - mFileOrigin r).

(** ** Frame buffers *)

(** The calls the reader makes on the frame buffers of its track readers,
    in the order made.  The frame buffers are collaborators of the reader;
    the model records the calls. *)
Inductive Event : Type :=
| EvStartRead (file : nat) (track : TrackRef)
| EvCompleteRead (file : nat) (track : TrackRef)
| EvAbortRead (file : nat) (track : TrackRef)
| EvSetNextFramePosition (file : nat) (track : TrackRef) (rate : Rational) (position : Z)
| EvSetNextFrameTrackPosition (file : nat) (track : TrackRef).

Definition Trace : Type := list Event.

(** The loop over the enabled entries of [mTrackReaders] that
    [StartRead], [CompleteRead], [AbortRead], [SetNextFramePosition] and
    [SetNextFrameTrackPositions] share. *)
Definition for_enabled_tracks (r : t) (ev : TrackRef -> Event) : Trace :=
  map ev (filter (ref_enabled r) (mTrackReaders r)).

Definition StartRead (r : t) : Trace := for_enabled_tracks r (EvStartRead (mFileId r)).
Definition CompleteRead (r : t) : Trace := for_enabled_tracks r (EvCompleteRead (mFileId r)).
Definition AbortRead (r : t) : Trace := for_enabled_tracks r (EvAbortRead (mFileId r)).
Definition SetNextFramePosition (r : t) (rate : Rational) (position : Z) : Trace :=
  for_enabled_tracks r (fun ref => EvSetNextFramePosition (mFileId r) ref rate position).
Definition SetNextFrameTrackPositions (r : t) : Trace :=
  for_enabled_tracks r (EvSetNextFrameTrackPosition (mFileId r)).

Section Clip.

(** ** The helpers of [bmx/Utils] and the constants of [MXFReader.h]

    These are used by the file reader and defined outside the sources at
    hand; the model takes them as parameters.  The conversions between a
    position or duration at the clip rate and one at an external reader's
    rate take the sample sequence and its size. *)
Variable convert_position_lower : Z -> list Z -> Z -> Z.
Variable convert_position_higher : Z -> list Z -> Z -> Z.
Variable convert_duration_lower : Z -> list Z -> Z -> Z.
Variable convert_duration_higher : Z -> list Z -> Z -> Z.
(** The overloads that take the start position as their second argument. *)
Variable convert_duration_lower_at : Z -> Z -> list Z -> Z -> Z.
Variable convert_duration_higher_at : Z -> Z -> list Z -> Z -> Z.

Variable CURRENT_POSITION_VALUE : Z.

(** The macros over the [i]-th external reader; the conversions return
    [int64_t]. *)
Definition sample_sequence (r : t) (i : nat) : list Z :=
  nth i (mExternalSampleSequences r) [].
Definition sample_sequence_size (r : t) (i : nat) : Z :=
  nth i (mExternalSampleSequenceSizes r) 0.

Definition CONVERT_INTERNAL_DUR (r : t) (i : nat) (dur : Z) : Z :=
  sint64 (convert_duration_higher dur (sample_sequence r i) (sample_sequence_size r i)).
Definition CONVERT_EXTERNAL_DUR (r : t) (i : nat) (dur : Z) : Z :=
  sint64 (convert_duration_lower dur (sample_sequence r i) (sample_sequence_size r i)).
Definition CONVERT_INTERNAL_POS (r : t) (i : nat) (pos : Z) : Z :=
  sint64 (convert_position_higher pos (sample_sequence r i) (sample_sequence_size r i)).
Definition CONVERT_EXTERNAL_POS (r : t) (i : nat) (pos : Z) : Z :=
  sint64 (convert_position_lower pos (sample_sequence r i) (sample_sequence_size r i)).

(** ** Position *)

(** The loop of [GetPosition] over the external readers from index [i]
    on: the position of the first enabled one, converted to the clip rate.
    [position_of] stands for [GetPosition] on an external reader. *)
Fixpoint first_enabled_position (position_of : t -> Z) (r : t) (i : nat) (es : list t)
  : Z :=
  match es with
  | [] => 0
  | e :: es' =>
      if IsEnabled e then CONVERT_EXTERNAL_POS r i (position_of e)
      else first_enabled_position position_of r (Datatypes.S i) es'
  end.

Fixpoint GetPosition (r : t) : Z :=
  match internal_essence r with
  | Some er => FROM_ESS_READER_POS r (er_position er)
  | None => first_enabled_position GetPosition r O (mExternalReaders r)
  end.

(** The loop of [Seek] over the external readers from index [i] on;
    [seek] stands for [Seek] on an external reader. *)
Fixpoint seek_externals (seek : t -> Z -> t) (r : t) (position : Z) (i : nat) (es : list t)
  : list t :=
  match es with
  | [] => []
  | e :: es' =>
      (if IsEnabled e then seek e (CONVERT_INTERNAL_POS r i position) else e)
        :: seek_externals seek r position (Datatypes.S i) es'
  end.

Fixpoint Seek (r : t) (position : Z) : t :=
  let ess :=
    match internal_essence r with
    | Some er => Some (er_Seek er (TO_ESS_READER_POS r position))
    | None => mEssenceReader r
    end in
  set_mExternalReaders (seek_externals Seek r position O (mExternalReaders r))
                       (set_mEssenceReader ess r).

(** ** Complete files *)

Fixpoint IsComplete (r : t) : bool :=
  if (mDuration r <? 0)
     || match mEssenceReader r with Some er => negb (er_complete er) | None => false end
  then false
  else forallb IsComplete (mExternalReaders r).

(** ** [ExtractFrameInfo]

    The model follows the count of frames that await information and the
    cursor of the essence reader: the reads, the end of the [try] block
    and the seek back.  What the method writes into the track infos (the
    VBI/ANC manifests, the D-10 AES-3 flags and the AVC-Intra header) and
    its calls on the frame buffers are outside the fields of the model;
    no statement below is about them.  The method is called with an
    essence reader ([CheckRequireFrameInfo], the only place that raises
    the count, runs after the essence reader is created). *)

(** How the [try] block of [ExtractFrameInfo] ends. *)
Inductive ExtractEnd : Type := ExtractDone | ExtractThrowTrue | ExtractThrowOther.

(** The loop [for (f = 0; f < mRequireFrameInfoCount; f++)]. *)
Fixpoint extract_loop (count : nat) (er : EssenceReader) (have_first : bool)
  : ExtractEnd * EssenceReader * bool :=
  match count with
  | O => (ExtractDone, er, have_first)
  | Datatypes.S count' =>
      let pos := er_position er in
      let '(o, er') := er_Read er 1 in
      match o with
      | inl _ => (ExtractThrowOther, er', have_first)
      | inr k =>
          if negb (k =? 1) then (ExtractThrowTrue, er', have_first)
          else
            match er_frame_info er pos with
            | NoFrame => extract_loop count' er' have_first
            | FrameExtracted => extract_loop count' er' true
            | FrameParseFails => (ExtractThrowOther, er', have_first)
            end
      end
  end.

Definition ExtractFrameInfo (r : t) : t :=
  match mEssenceReader r with
  | None => r
  | Some er =>
      let ess_reader_pos := er_position er in
      let '(how, er', have_first) :=
        extract_loop (Z.to_nat (mRequireFrameInfoCount r)) (er_Seek er 0) false in
      let count :=
        match how with
        | ExtractDone => 0
        | ExtractThrowTrue => if have_first then 0 else mRequireFrameInfoCount r
        | ExtractThrowOther => mRequireFrameInfoCount r
        end in
      set_mEssenceReader (Some (er_Seek er' ess_reader_pos))
                         (set_mRequireFrameInfoCount count r)
  end.

(** ** [Read] *)

(** The message a [catch] clause of [Read] stores: [ex.getMessage()],
    [ex.what()], or nothing in [catch (...)]. *)
Definition catch_message (e : Exn) (cleared : string) : string :=
  match e with
  | MXFException msg => msg
  | BMXException msg => msg
  | OpenResultException _ => cleared
  end.

(** A call [rec e n false] stands for [e->Read(n, false)] on an external
    reader [e]; it gives the result, the external reader afterwards and the
    frame-buffer calls it made. *)
Section ReadBody.

Variable rec : t -> Z -> bool -> Outcome Z * t * Trace.

(** The loop over [mExternalReaders] inside the [try] block.  It gives the
    external readers as the loop leaves them. *)
Fixpoint read_externals (r : t) (num_samples current_position : Z)
         (i : nat) (es : list t) (max_num_read : Z) {struct es}
  : Outcome Z * list t * Trace :=
  match es with
  | [] => (Done max_num_read, [], [])
  | e :: es' =>
      if negb (IsEnabled e) then
        let '(o, es'', tr) :=
          read_externals r num_samples current_position (Datatypes.S i) es' max_num_read in
        (o, e :: es'', tr)
      else
        let external_current_position := CONVERT_INTERNAL_POS r i current_position in
        (* ensure external reader is in sync *)
        let e1 := if GetPosition e =? external_current_position then e
                  else Seek e external_current_position in
        let num_external_samples :=
          uint32 (sint64 (convert_duration_higher_at num_samples current_position
                            (sample_sequence r i) (sample_sequence_size r i))) in
        let '(o, e2, tr_e) := rec e1 num_external_samples false in
        match o with
        | Done external_num_read =>
            if (external_num_read <? num_external_samples) && mReadError e2 then
              (Throw (BMXException (mReadErrorMessage e2)), e2 :: es', tr_e)
            else
              let internal_num_read :=
                uint32 (sint64 (convert_duration_lower_at external_num_read
                                  external_current_position
                                  (sample_sequence r i) (sample_sequence_size r i))) in
              let max_num_read' :=
                if max_num_read <? internal_num_read then internal_num_read
                else max_num_read in
              let '(o', es'', tr) :=
                read_externals r num_samples current_position (Datatypes.S i) es'
                               max_num_read' in
              (o', e2 :: es'', tr_e ++ tr)
        | Throw ex => (Throw ex, e2 :: es', tr_e)
        | OutOfFuel => (OutOfFuel, e2 :: es', tr_e)
        end
  end.

(** The [try] block of [Read]. *)
Definition Read_try (r : t) (num_samples : Z) (is_top : bool) (current_position : Z)
  : Outcome Z * t * Trace :=
  let tr_next :=
    if is_top then
      SetNextFramePosition r (mEditRate r) current_position
      ++ SetNextFrameTrackPositions r
    else [] in
  let '(o, r1) :=
    match internal_essence r with
    | Some er =>
        let '(res, er') := er_Read er num_samples in
        (res, set_mEssenceReader (Some er') r)
    | None => (inr 0, r)
    end in
  match o with
  | inl ex => (Throw ex, r1, tr_next)
  | inr max_num_read =>
      let '(o', es', tr_ext) :=
        read_externals r1 num_samples current_position O (mExternalReaders r1)
                       max_num_read in
      let r2 := set_mExternalReaders es' r1 in
      match o' with
      | Done max_num_read' =>
          if max_num_read' <=? num_samples then
            (Done max_num_read', r2, tr_next ++ tr_ext ++ CompleteRead r2)
          else
            (Throw (BMXException "max_num_read <= num_samples"), r2, tr_next ++ tr_ext)
      | Throw ex => (Throw ex, r2, tr_next ++ tr_ext)
      | OutOfFuel => (OutOfFuel, r2, tr_next ++ tr_ext)
      end
  end.

(** The reader when the [try] block is entered: the error state cleared
    and the deferred frame information extracted. *)
Definition Read_enter (r : t) : t :=
  let r0 := set_mReadErrorMessage "" (set_mReadError false r) in
  if 0 <? mRequireFrameInfoCount r0 then ExtractFrameInfo r0 else r0.

Definition Read_body (r : t) (num_samples : Z) (is_top : bool)
  : Outcome Z * t * Trace :=
  let r1 := Read_enter r in
  if 0 <? mRequireFrameInfoCount r1 then
    (Done 0,
     set_mReadErrorMessage "Failed to extract information from frame(s)"
                           (set_mReadError true r1),
     [])
  else
    let current_position := GetPosition r1 in
    let tr_start := StartRead r1 in
    match Read_try r1 num_samples is_top current_position with
    | (Done k, r2, tr) => (Done k, r2, tr_start ++ tr)
    | (Throw ex, r2, tr) =>
        let r3 := set_mReadErrorMessage (catch_message ex (mReadErrorMessage r2)) r2 in
        let r4 := set_mReadError true r3 in
        (Done 0, Seek r4 current_position, tr_start ++ tr ++ AbortRead r4)
    | (OutOfFuel, r2, tr) => (OutOfFuel, r2, tr_start ++ tr)
    end.

End ReadBody.

(** [Read(num_samples, is_top)].  The method calls itself on the external
    readers after seeking them; [fuel] bounds the nesting of these calls,
    and a reader needs as much fuel as external readers are nested in it
    ([depth]). *)
Fixpoint Read (fuel : nat) (r : t) (num_samples : Z) (is_top : bool)
  : Outcome Z * t * Trace :=
  match fuel with
  | O => (OutOfFuel, r, [])
  | Datatypes.S fuel' => Read_body (Read fuel') r num_samples is_top
  end.

Fixpoint depth (r : t) : nat :=
  Datatypes.S (fold_right Nat.max O (map depth (mExternalReaders r))).

(** ** Precharge and rollout *)

(** The result of a [const] method that may raise an exception. *)
Inductive Result (A : Type) : Type :=
| Ok (a : A)
| Raise (e : Exn).

Arguments Ok {A} a.
Arguments Raise {A} e.

Definition PC_RO_NOT_AVAILABLE : Exn :=
  BMXException "Precharge and rollout information are not available when the file is incomplete or duration is unknown".

Definition READ_LIMITS_NOT_SUPPORTED : Exn :=
  BMXException "Read limits are not supported when the file is incomplete or duration is unknown".

Definition GetInternalIndexEntry (r : t) (position : Z) : option MXFIndexEntryExt :=
  match mEssenceReader r with
  | Some er => er_index er (TO_ESS_READER_POS r position)
  | None => None
  end.

Definition GetInternalPrecharge (r : t) (position : Z) (limit_to_available : bool)
  : Result Z :=
  if negb (IsComplete r) then Raise PC_RO_NOT_AVAILABLE
  else
    match mEssenceReader r with
    | None => Ok 0
    | Some er =>
        if negb (HaveInterFrameEncodingTrack r) then Ok 0
        else
          let target_position :=
            if position =? CURRENT_POSITION_VALUE then GetPosition r else position in
          (* no precharge if target position outside essence range *)
          if negb (FROM_ESS_READER_POS r
                     (er_legitimise er (TO_ESS_READER_POS r target_position))
                   =? target_position)
          then Ok 0
          else
            let precharge :=
              match GetInternalIndexEntry r target_position with
              | Some index_entry =>
                  let target_index_entry_offset := sint8 (temporal_offset index_entry) in
                  if negb (target_index_entry_offset =? 0) then
                    match GetInternalIndexEntry r
                            (sint64 (target_position + target_index_entry_offset)) with
                    | Some index_entry' =>
                        sint16 (target_index_entry_offset
                                + sint8 (key_frame_offset index_entry'))
                    | None => 0
                    end
                  else sint8 (key_frame_offset index_entry)
              | None => 0
              end in
            let precharge' :=
              if 0 <? precharge then precharge
              else if (precharge <? 0) && limit_to_available then
                sint16 (sint64 (FROM_ESS_READER_POS r
                                  (er_legitimise er
                                     (TO_ESS_READER_POS r
                                        (sint64 (target_position + precharge))))
                                - target_position))
              else precharge in
            Ok (if precharge' <? 0 then precharge' else 0)
    end.

Definition GetInternalRollout (r : t) (position : Z) (limit_to_available : bool)
  : Result Z :=
  if negb (IsComplete r) then Raise PC_RO_NOT_AVAILABLE
  else
    match mEssenceReader r with
    | None => Ok 0
    | Some er =>
        if negb (HaveInterFrameEncodingTrack r) then Ok 0
        else
          let target_position :=
            if position =? CURRENT_POSITION_VALUE then GetPosition r else position in
          (* no rollout if target position outside essence range *)
          if negb (FROM_ESS_READER_POS r
                     (er_legitimise er (TO_ESS_READER_POS r target_position))
                   =? target_position)
          then Ok 0
          else
            let rollout :=
              match GetInternalIndexEntry r target_position with
              | Some index_entry =>
                  if 0 <? sint8 (temporal_offset index_entry)
                  then sint8 (temporal_offset index_entry) else 0
              | None => 0
              end in
            let rollout' :=
              if rollout <? 0 then rollout
              else if (0 <? rollout) && limit_to_available then
                sint16 (sint64 (FROM_ESS_READER_POS r
                                  (er_legitimise er
                                     (TO_ESS_READER_POS r
                                        (sint64 (target_position + rollout))))
                                - target_position))
              else rollout in
            Ok (if 0 <? rollout' then rollout' else 0)
    end.

(** [GetInternalAvailableReadLimits]: the start position and the duration. *)
Definition GetInternalAvailableReadLimits (r : t) : Result (Z * Z) :=
  if negb (IsComplete r) then Raise PC_RO_NOT_AVAILABLE
  else
    match GetInternalPrecharge r 0 true with
    | Raise e => Raise e
    | Ok precharge =>
        match GetInternalRollout r (sint64 (mDuration r - 1)) true with
        | Raise e => Raise e
        | Ok rollout =>
            Ok (sint64 (0 + precharge),
                sint64 (sint64 (- precharge + mDuration r) + rollout))
        end
    end.

(** [GetReadLimits] over given precharge and rollout queries; it is used
    on the external readers inside [GetMaxPrecharge] and [GetMaxRollout],
    and on the reader itself below. *)
Definition read_limits_of (complete : bool) (duration : Z)
           (max_precharge max_rollout : Z -> bool -> Result Z)
           (limit_to_available : bool) : Result (Z * Z) :=
  if negb complete then Raise READ_LIMITS_NOT_SUPPORTED
  else
    match max_precharge 0 limit_to_available with
    | Raise e => Raise e
    | Ok precharge =>
        match max_rollout (sint64 (duration - 1)) limit_to_available with
        | Raise e => Raise e
        | Ok rollout =>
            Ok (sint64 (0 + precharge),
                sint64 (sint64 (- precharge + duration) + rollout))
        end
    end.

Definition EDIT_RATE_MISMATCH_PRECHARGE : Exn :=
  BMXException "Currently only support precharge in external reader if external reader edit rate equals group edit rate".

Definition EDIT_RATE_MISMATCH_ROLLOUT : Exn :=
  BMXException "Currently only support rollout in external reader if external reader edit rate equals group edit rate".

(** The loop of [GetMaxPrecharge] over the external readers from index [i]
    on, from the precharge and the maximum start position so far.
    [max_precharge] and [read_limits] stand for [GetMaxPrecharge] and
    [GetReadLimits(true, ...)] on an external reader. *)
Fixpoint precharge_externals (max_precharge : t -> Z -> bool -> Result Z)
         (read_limits : t -> Result (Z * Z))
         (r : t) (target_position : Z) (limit_to_available : bool)
         (i : nat) (es : list t) (precharge max_start_position : Z) {struct es}
  : Result (Z * Z) :=
  match es with
  | [] => Ok (precharge, max_start_position)
  | e :: es' =>
      if negb (IsEnabled e) then
        precharge_externals max_precharge read_limits r target_position limit_to_available
                            (Datatypes.S i) es' precharge max_start_position
      else
        match max_precharge e (CONVERT_INTERNAL_POS r i target_position)
                            limit_to_available with
        | Raise ex => Raise ex
        | Ok ext_reader_precharge =>
            let checked : Result Z :=
              if negb (ext_reader_precharge =? 0) then
                if Rational_eqb (mEditRate e) (mEditRate r) then
                  Ok (if ext_reader_precharge <? precharge
                      then ext_reader_precharge else precharge)
                else Raise EDIT_RATE_MISMATCH_PRECHARGE
              else Ok precharge in
            match checked with
            | Raise ex => Raise ex
            | Ok precharge' =>
                if limit_to_available then
                  match read_limits e with
                  | Raise ex => Raise ex
                  | Ok (ext_start_position, _) =>
                      let int_max_start_position :=
                        CONVERT_EXTERNAL_POS r i ext_start_position in
                      precharge_externals max_precharge read_limits r target_position
                        limit_to_available (Datatypes.S i) es' precharge'
                        (if max_start_position <? int_max_start_position
                         then int_max_start_position else max_start_position)
                  end
                else
                  precharge_externals max_precharge read_limits r target_position
                    limit_to_available (Datatypes.S i) es' precharge' max_start_position
            end
        end
  end.

(** The loop of [GetMaxRollout], likewise, from the rollout and the
    minimum end position so far. *)
Fixpoint rollout_externals (max_rollout : t -> Z -> bool -> Result Z)
         (read_limits : t -> Result (Z * Z))
         (r : t) (target_position : Z) (limit_to_available : bool)
         (i : nat) (es : list t) (rollout min_end_position : Z) {struct es}
  : Result (Z * Z) :=
  match es with
  | [] => Ok (rollout, min_end_position)
  | e :: es' =>
      if negb (IsEnabled e) then
        rollout_externals max_rollout read_limits r target_position limit_to_available
                          (Datatypes.S i) es' rollout min_end_position
      else
        match max_rollout e
                (sint64 (CONVERT_INTERNAL_POS r i (sint64 (target_position + 1)) - 1))
                limit_to_available with
        | Raise ex => Raise ex
        | Ok ext_reader_rollout =>
            let checked : Result Z :=
              if negb (ext_reader_rollout =? 0) then
                if Rational_eqb (mEditRate e) (mEditRate r) then
                  Ok (if rollout <? ext_reader_rollout
                      then ext_reader_rollout else rollout)
                else Raise EDIT_RATE_MISMATCH_ROLLOUT
              else Ok rollout in
            match checked with
            | Raise ex => Raise ex
            | Ok rollout' =>
                if limit_to_available then
                  match read_limits e with
                  | Raise ex => Raise ex
                  | Ok (ext_start_position, ext_duration) =>
                      let int_min_end_position :=
                        CONVERT_EXTERNAL_DUR r i
                          (sint64 (ext_start_position + ext_duration)) in
                      rollout_externals max_rollout read_limits r target_position
                        limit_to_available (Datatypes.S i) es' rollout'
                        (if int_min_end_position <? min_end_position
                         then int_min_end_position else min_end_position)
                  end
                else
                  rollout_externals max_rollout read_limits r target_position
                    limit_to_available (Datatypes.S i) es' rollout' min_end_position
            end
        end
  end.

(** The internal part of [GetMaxPrecharge]: the internal precharge and
    the maximum start position to begin with. *)
Definition precharge_internal (r : t) (target_position : Z) (limit_to_available : bool)
  : Result (Z * Z) :=
  if InternalIsEnabled r then
    match GetInternalPrecharge r target_position limit_to_available with
    | Raise e => Raise e
    | Ok precharge =>
        if limit_to_available then
          match GetInternalAvailableReadLimits r with
          | Raise e => Raise e
          | Ok (start_position, _) => Ok (precharge, start_position)
          end
        else Ok (precharge, INT64_MIN)
    end
  else Ok (0, INT64_MIN).

(** The internal part of [GetMaxRollout]: the internal rollout and the
    minimum end position to begin with. *)
Definition rollout_internal (r : t) (target_position : Z) (limit_to_available : bool)
  : Result (Z * Z) :=
  if InternalIsEnabled r then
    match GetInternalRollout r target_position limit_to_available with
    | Raise e => Raise e
    | Ok rollout =>
        if limit_to_available then
          match GetInternalAvailableReadLimits r with
          | Raise e => Raise e
          | Ok (start_position, duration) =>
              Ok (rollout, sint64 (start_position + duration))
          end
        else Ok (rollout, INT64_MAX)
    end
  else Ok (0, INT64_MAX).

Fixpoint GetMaxPrecharge (r : t) (position : Z) (limit_to_available : bool) {struct r}
  : Result Z :=
  if negb (IsComplete r) then Raise PC_RO_NOT_AVAILABLE
  else
    let target_position :=
      if position =? CURRENT_POSITION_VALUE then GetPosition r else position in
    match precharge_internal r target_position limit_to_available with
    | Raise e => Raise e
    | Ok (precharge0, max_start_position0) =>
        match precharge_externals
                GetMaxPrecharge
                (fun e => read_limits_of (IsComplete e) (mDuration e)
                                         (GetMaxPrecharge e) (GetMaxRollout e) true)
                r target_position limit_to_available O (mExternalReaders r)
                precharge0 max_start_position0 with
        | Raise e => Raise e
        | Ok (precharge, max_start_position) =>
            let precharge' :=
              if limit_to_available
                 && (precharge <? sint64 (max_start_position - target_position))
              then sint64 (max_start_position - target_position)
              else precharge in
            Ok (if precharge' <? 0 then sint16 precharge' else 0)
        end
    end

with GetMaxRollout (r : t) (position : Z) (limit_to_available : bool) {struct r}
  : Result Z :=
  if negb (IsComplete r) then Raise PC_RO_NOT_AVAILABLE
  else
    let target_position :=
      if position =? CURRENT_POSITION_VALUE then GetPosition r else position in
    match rollout_internal r target_position limit_to_available with
    | Raise e => Raise e
    | Ok (rollout0, min_end_position0) =>
        match rollout_externals
                GetMaxRollout
                (fun e => read_limits_of (IsComplete e) (mDuration e)
                                         (GetMaxPrecharge e) (GetMaxRollout e) true)
                r target_position limit_to_available O (mExternalReaders r)
                rollout0 min_end_position0 with
        | Raise e => Raise e
        | Ok (rollout, min_end_position) =>
            let rollout' :=
              if limit_to_available
                 && (sint64 (min_end_position - target_position) <? rollout)
              then sint64 (min_end_position - target_position)
              else rollout in
            Ok (if 0 <? rollout' then sint16 rollout' else 0)
        end
    end.

(** The external readers, at every level, have the edit rate of the reader
    that holds them: the case in which [GetMaxPrecharge] and
    [GetMaxRollout] cannot fail their edit-rate check. *)
Fixpoint rates_agree (r : t) : bool :=
  forallb (fun e => Rational_eqb (mEditRate e) (mEditRate r) && rates_agree e)
          (mExternalReaders r).

Definition GetReadLimits (r : t) (limit_to_available : bool) : Result (Z * Z) :=
  read_limits_of (IsComplete r) (mDuration r) (GetMaxPrecharge r) (GetMaxRollout r)
                 limit_to_available.

(** ** Track readers through [mTrackReaders] *)

Definition NULL_TRACK_INFO : MXFTrackInfo :=
  mkTrackInfo 0 0 0 0 0 ZERO_RATIONAL 0 0 (OTHER_ESSENCE_TYPE 0).

Definition NULL_TRACK_READER : MXFTrackReader :=
  mkTrackReader NULL_TRACK_INFO false false.

(** [mTrackReaders[i]], the track reader an entry points to. *)
Definition GetTrackReader (r : t) (ref : TrackRef) : MXFTrackReader :=
  match deref r ref with
  | Some tr => tr
  | None => NULL_TRACK_READER
  end.

Definition TrackRef_eqb (a b : TrackRef) : bool :=
  match a, b with
  | OwnTrack k, OwnTrack k' => Nat.eqb k k'
  | ExternalTrack i k, ExternalTrack i' k' => Nat.eqb i i' && Nat.eqb k k'
  | _, _ => false
  end.

Fixpoint update_nth {A} (n : nat) (f : A -> A) (l : list A) : list A :=
  match l, n with
  | [], _ => []
  | x :: l', O => f x :: l'
  | x :: l', Datatypes.S n' => x :: update_nth n' f l'
  end.

(** A write through a track-reader pointer: the track reader is changed
    where it lives, in this reader or in the external reader. *)
Definition update_track (ref : TrackRef) (f : MXFTrackReader -> MXFTrackReader) (r : t) : t :=
  match ref with
  | OwnTrack k =>
      set_mInternalTrackReaders (update_nth k f (mInternalTrackReaders r)) r
  | ExternalTrack i k =>
      set_mExternalReaders
        (update_nth i
           (fun e => set_mInternalTrackReaders
                       (update_nth k f (mInternalTrackReaders e)) e)
           (mExternalReaders r)) r
  end.

Definition update_info (f : MXFTrackInfo -> MXFTrackInfo) (tr : MXFTrackReader)
  : MXFTrackReader :=
  mkTrackReader (f (GetTrackInfo tr)) (tr_enabled tr) (tr_timed_text tr).

Definition SetEnable (enable : bool) (tr : MXFTrackReader) : MXFTrackReader :=
  mkTrackReader (GetTrackInfo tr) enable (tr_timed_text tr).

(** ** [GetFixedLeadFillerOffset] *)

Inductive Rounding : Type := ROUND_AUTO | ROUND_DOWN | ROUND_UP | ROUND_NEAREST.

(** [convert_position] and [convert_duration] of [bmx/Utils] between two
    edit rates, taken as parameters like the other helpers. *)
Variable convert_position : Rational -> Z -> Rational -> Rounding -> Z.
Variable convert_duration : Rational -> Z -> Rational -> Rounding -> Z.

(** The lead-filler offset of a track converted to the clip edit rate. *)
Definition lead_filler_at_clip_rate (r : t) (ref : TrackRef) : Z :=
  sint64 (convert_position (edit_rate (GetTrackInfo (GetTrackReader r ref)))
                           (lead_filler_offset (GetTrackInfo (GetTrackReader r ref)))
                           (mEditRate r) ROUND_UP).

(** The loop of [GetFixedLeadFillerOffset] from index [i] on. *)
Fixpoint fixed_lead_filler_from (r : t) (i : nat) (refs : list TrackRef) (fixed_offset : Z)
  : Z :=
  match refs with
  | [] => fixed_offset
  | ref :: refs' =>
      let offset := lead_filler_at_clip_rate r ref in
      if Nat.eqb i O then fixed_lead_filler_from r (Datatypes.S i) refs' offset
      else if negb (fixed_offset =? offset) then 0 (* not fixed for all tracks *)
      else fixed_lead_filler_from r (Datatypes.S i) refs' fixed_offset
  end.

Definition GetFixedLeadFillerOffset (r : t) : Z :=
  fixed_lead_filler_from r O (mTrackReaders r) 0.

(** ** Track order *)

Definition compare_track_reader (left_reader right_reader : MXFTrackReader) : bool :=
  let left := GetTrackInfo left_reader in
  let right := GetTrackInfo right_reader in
  (* data kind *)
  if negb (data_def left =? data_def right) then data_def left <? data_def right
  (* track number *)
  else if negb (material_track_number left =? 0) then
    (material_track_number right =? 0)
    || (material_track_number left <? material_track_number right)
  else if negb (material_track_number right =? 0) then false
  (* track id *)
  else if negb (material_track_id left =? 0) then
    (material_track_id right =? 0)
    || (material_track_id left <? material_track_id right)
  else material_track_id right =? 0.

(** [std::stable_sort(first, last, comp)].  For a comparison that is a
    strict weak ordering the standard fixes the result: the sorted
    permutation in which equivalent elements keep their order.  The model
    is the insertion sort that computes it: an element is put after the
    elements that compare less than it and before the others. *)
Fixpoint stable_insert {A} (comp : A -> A -> bool) (x : A) (l : list A) : list A :=
  match l with
  | [] => [x]
  | y :: l' => if comp y x then y :: stable_insert comp x l' else x :: y :: l'
  end.

Definition stable_sort {A} (comp : A -> A -> bool) (l : list A) : list A :=
  fold_right (stable_insert comp) [] l.

(** [stable_sort(mTrackReaders.begin(), mTrackReaders.end(),
    compare_track_reader)]: the entries are pointers and the comparison
    reads the track readers they point to. *)
Definition sort_track_readers (r : t) : t :=
  set_mTrackReaders
    (stable_sort (fun a b => compare_track_reader (GetTrackReader r a) (GetTrackReader r b))
                 (mTrackReaders r)) r.

(** ** [ProcessMetadata]

    The header metadata object graph and the package resolver are
    collaborators of the reader.  The model starts from what they deliver
    for each material-package track that reaches the creation of a track
    reader, and covers the statements of [ProcessMetadata] that write the
    fields above: the track loop, the lead-filler check, the track order,
    the disabling of unused external tracks, the clip edit rate, the sample
    sequences, the clip duration and the clip origin.  The statements
    before the loop over the material tracks (the MXF version, the material
    package and its name, and the check that a file source package
    exists), timecodes, BodySID discovery and text objects are left out;
    they write none of these fields, and those that throw add ways for
    the real method to fail before it succeeds. *)

Definition MXF_RESULT_INVALID_FILE : nat := 2.
Definition MXF_RESULT_NOT_SUPPORTED : nat := 3.
Definition MXF_RESULT_NO_ESSENCE : nat := 6.

(** [THROW_RESULT(result)]. *)
Definition THROW_RESULT {A} (result : nat) : M t A := throw (OpenResultException result).

(** A file-source-package track of this file, as [CreateInternalTrackReader]
    reads it. *)
Record FileSourceTrack : Type := mkFileSourceTrack {
  fsp_edit_rate : Rational;       (* normalize_rate(fsp_track->getEditRate()) *)
  fsp_origin : Z;                 (* fsp_track->getOrigin() *)
  fsp_track_id : Z;               (* fsp_track->getTrackID(), 0 without one *)
  fsp_track_number : Z;           (* fsp_track->getTrackNumber() *)
  fsp_have_file_desc : bool;      (* GetFileDescriptor(...) found a descriptor *)
  fsp_essence_type : EssenceType  (* the essence type the descriptor gives *)
}.

(** Where the essence of a material track is: in this file, or in an
    external file; for the latter, the file reader and the track id that
    the resolver gives ([None] when it gives no file with the essence). *)
Inductive EssenceLocation : Type :=
| InThisFile (fsp_track : FileSourceTrack)
| InExternalFile (resolved : option (t * Z)).

Record MaterialTrack : Type := mkMaterialTrack {
  mp_data_def : Z;
  mp_track_id : Z;                (* 0 without a TrackID property *)
  mp_track_number : Z;
  mp_edit_rate : Rational;        (* normalize_rate(mp_track->getEditRate()) *)
  mp_lead_filler_offset : Z;
  mp_source_clip_duration : Z;    (* mp_source_clip->getDuration() *)
  mp_source_clip_start_position : Z;
  mp_essence : EssenceLocation
}.

Definition CreateInternalTrackReader (mp_track : MaterialTrack) (fsp_track : FileSourceTrack)
  : M t (option TrackRef) :=
  (* set or check the clip edit rate *)
  clip_rate <- gets mEditRate ;;
  (if numerator clip_rate =? 0 then modify (set_mEditRate (fsp_edit_rate fsp_track))
   else if negb (Rational_eqb clip_rate (fsp_edit_rate fsp_track)) then
     throw (BMXException "FSP track edit rate does not match existing edit rate")
   else ret tt) ;;;
  (* get track origin (pre-charge) *)
  if fsp_origin fsp_track <? 0 then THROW_RESULT MXF_RESULT_NOT_SUPPORTED
  else
    let origin :=
      if 0 <? mp_source_clip_start_position mp_track then
        sint64 (fsp_origin fsp_track
                + convert_position (mp_edit_rate mp_track)
                                   (mp_source_clip_start_position mp_track)
                                   (fsp_edit_rate fsp_track) ROUND_AUTO)
      else fsp_origin fsp_track in
    (* get the file descriptor associated with the track *)
    if negb (fsp_have_file_desc fsp_track) then ret None
    else
      (* fill in track info *)
      let track_info :=
        mkTrackInfo (mp_data_def mp_track) (mp_track_id mp_track)
                    (mp_track_number mp_track) (fsp_track_id fsp_track)
                    (fsp_track_number fsp_track) (mp_edit_rate mp_track)
                    (mp_source_clip_duration mp_track) 0
                    (fsp_essence_type fsp_track) in
      bmx_check (negb (fsp_track_number fsp_track =? 0))
                "track_info->file_track_number != 0" ;;;
      (* check the File Package origins *)
      let timed_text :=
        match fsp_essence_type fsp_track with TIMED_TEXT => true | _ => false end in
      internal <- gets mInternalTrackReaders ;;
      file_origin <- gets mFileOrigin ;;
      (if timed_text then
         if negb (origin =? 0) then THROW_RESULT MXF_RESULT_NOT_SUPPORTED else ret tt
       else
         if negb (Nat.eqb (length internal) O) && negb (origin =? file_origin)
         then THROW_RESULT MXF_RESULT_NOT_SUPPORTED
         else modify (set_mFileOrigin origin)) ;;;
      (* create the track reader *)
      modify (fun r => set_mInternalTrackReaders
                         (mInternalTrackReaders r
                          ++ [mkTrackReader track_info true timed_text]) r) ;;;
      ret (Some (OwnTrack (length internal))).

(** The index of the first element that satisfies [p]. *)
Fixpoint find_index {A} (p : A -> bool) (l : list A) : option nat :=
  match l with
  | [] => None
  | x :: l' =>
      if p x then Some O
      else match find_index p l' with
           | Some i => Some (Datatypes.S i)
           | None => None
           end
  end.

(** [GetInternalTrackReaderById(id)], as the index of the track reader. *)
Definition GetInternalTrackReaderById (r : t) (id : Z) : option nat :=
  find_index (fun tr => file_track_id (GetTrackInfo tr) =? id) (mInternalTrackReaders r).

(** [GetExternalTrackReader].  A file reader is one object however often
    the resolver gives it; the model tells file readers apart by their
    file id. *)
Definition GetExternalTrackReader (resolved : option (t * Z)) : M t (option TrackRef) :=
  match resolved with
  | None => ret None
  | Some (file_reader, track_id) =>
      match GetInternalTrackReaderById file_reader track_id with
      | None => ret None
      | Some k =>
          externals <- gets mExternalReaders ;;
          match find_index (fun e => Nat.eqb (mFileId e) (mFileId file_reader)) externals with
          | Some i =>
              (* don't support external tracks referenced by multiple material tracks *)
              tracks <- gets mTrackReaders ;;
              if existsb (TrackRef_eqb (ExternalTrack i k)) tracks then
                THROW_RESULT MXF_RESULT_NOT_SUPPORTED
              else
                modify (fun r => set_mExternalTrackReaders
                                   (mExternalTrackReaders r ++ [ExternalTrack i k]) r) ;;;
                ret (Some (ExternalTrack i k))
          | None =>
              (* add external reader if not already present *)
              modify (set_mExternalReaders (externals ++ [file_reader])) ;;;
              modify (fun r => set_mExternalTrackReaders
                                 (mExternalTrackReaders r
                                  ++ [ExternalTrack (length externals) k]) r) ;;;
              ret (Some (ExternalTrack (length externals) k))
          end
      end
  end.

Definition set_lead_filler_offset (v : Z) (info : MXFTrackInfo) : MXFTrackInfo :=
  mkTrackInfo (data_def info) (material_track_id info) (material_track_number info)
              (file_track_id info) (file_track_number info) (edit_rate info)
              (duration info) v (essence_type info).

Definition set_duration (v : Z) (info : MXFTrackInfo) : MXFTrackInfo :=
  mkTrackInfo (data_def info) (material_track_id info) (material_track_number info)
              (file_track_id info) (file_track_number info) (edit_rate info)
              v (lead_filler_offset info) (essence_type info).

(** The material-package side an external track is given in this file. *)
Definition reparent (mp_track : MaterialTrack) (info : MXFTrackInfo) : MXFTrackInfo :=
  mkTrackInfo (data_def info) (mp_track_id mp_track) (mp_track_number mp_track)
              (file_track_id info) (file_track_number info) (mp_edit_rate mp_track)
              (mp_source_clip_duration mp_track) (mp_lead_filler_offset mp_track)
              (essence_type info).

(** The body of the loop over the material-package tracks, from the
    creation of the track reader on. *)
Definition add_track (mp_track : MaterialTrack) : M t unit :=
  match mp_essence mp_track with
  | InExternalFile resolved =>
      track_reader <- GetExternalTrackReader resolved ;;
      match track_reader with
      | None => ret tt
      | Some ref =>
          (* change external track's material package info to internal material package info *)
          modify (update_track ref (update_info (reparent mp_track))) ;;;
          modify (fun r => set_mTrackReaders (mTrackReaders r ++ [ref]) r)
      end
  | InThisFile fsp_track =>
      track_reader <- CreateInternalTrackReader mp_track fsp_track ;;
      match track_reader with
      | None => ret tt
      | Some ref =>
          modify (update_track ref
                    (update_info (set_lead_filler_offset (mp_lead_filler_offset mp_track)))) ;;;
          modify (fun r => set_mTrackReaders (mTrackReaders r ++ [ref]) r)
      end
  end.

Fixpoint add_tracks (mp_tracks : list MaterialTrack) : M t unit :=
  match mp_tracks with
  | [] => ret tt
  | mp_track :: rest => add_track mp_track ;;; add_tracks rest
  end.

(** Check and post-process lead filler offset in Timed Text tracks. *)
Fixpoint fold_lead_filler (refs : list TrackRef) : M t unit :=
  match refs with
  | [] => ret tt
  | ref :: refs' =>
      track_reader <- gets (fun r => GetTrackReader r ref) ;;
      (if 0 <? lead_filler_offset (GetTrackInfo track_reader) then
         if negb (tr_timed_text track_reader) then THROW_RESULT MXF_RESULT_NOT_SUPPORTED
         else
           (* include the lead filler in the track duration *)
           modify (update_track ref (update_info (fun info =>
             set_lead_filler_offset 0
               (set_duration (sint64 (duration info + lead_filler_offset info)) info))))
       else ret tt) ;;;
      fold_lead_filler refs'
  end.

Definition check_lead_filler : M t unit :=
  refs <- gets mTrackReaders ;;
  all_timed_text <- gets (fun r => forallb (fun ref => tr_timed_text (GetTrackReader r ref)) refs) ;;
  fixed <- gets GetFixedLeadFillerOffset ;;
  if (fixed =? 0) || all_timed_text then fold_lead_filler refs else ret tt.

(** Disable unused external tracks, i.e. external tracks not contained in
    [mExternalTrackReaders].  An entry [ref] of the [i]-th external
    reader's own [mTrackReaders] is the same track reader as an entry of
    [mExternalTrackReaders] when it is the external reader's own track [k]
    and the entry is [ExternalTrack i k]. *)
Definition same_track_reader (i : nat) (ref_in_external ref : TrackRef) : bool :=
  match ref_in_external with
  | OwnTrack k => TrackRef_eqb (ExternalTrack i k) ref
  | ExternalTrack _ _ => false
  end.

Definition disable_unused_in (used : list TrackRef) (i : nat) (e : t) : t :=
  fold_left (fun e' ref =>
               if existsb (same_track_reader i ref) used then e'
               else update_track ref (SetEnable false) e')
            (mTrackReaders e) e.

Definition disable_unused_external_tracks (r : t) : t :=
  set_mExternalReaders
    ((fix each (i : nat) (es : list t) {struct es} : list t :=
        match es with
        | [] => []
        | e :: es' =>
            disable_unused_in (mExternalTrackReaders r) i e :: each (Datatypes.S i) es'
        end) O (mExternalReaders r)) r.

(** *** The clip edit rate *)

(** Single-precision arithmetic, as the code uses it to compare edit
    rates: the conversion of an [int32_t], the division, the comparison
    and the constant [1000000.0]. *)
Variable float : Type.
Variable float_of_int : Z -> float.
Variable float_div : float -> float -> float.
Variable float_lt : float -> float -> bool.
Variable FLOAT_1000000 : float.

(** [mTrackReaders[i]->GetEditRate()]; the track reader classes are outside
    the sources at hand. *)
Variable track_GetEditRate : t -> TrackRef -> Rational.

Definition float_rate (rate : Rational) : float :=
  float_div (float_of_int (numerator rate)) (float_of_int (denominator rate)).

(** The loop that picks the lowest edit rate: the clip rate and the lowest
    rate so far, after the given tracks. *)
Fixpoint lowest_edit_rate (r : t) (refs : list TrackRef)
         (clip_rate : Rational) (lowest : float) : Rational * float :=
  match refs with
  | [] => (clip_rate, lowest)
  | ref :: refs' =>
      let track_edit_rate := float_rate (track_GetEditRate r ref) in
      if float_lt track_edit_rate lowest
      then lowest_edit_rate r refs' (track_GetEditRate r ref) track_edit_rate
      else lowest_edit_rate r refs' clip_rate lowest
  end.

(** Set the clip edit rate if required, i.e. when there are no internal
    essence tracks. *)
Definition set_clip_edit_rate : M t unit :=
  clip_rate <- gets mEditRate ;;
  internal <- gets mInternalTrackReaders ;;
  bmx_check (negb (numerator clip_rate =? 0) || Nat.eqb (length internal) O)
            "mEditRate.numerator != 0 || mInternalTrackReaders.empty()" ;;;
  if numerator clip_rate =? 0 then
    (* the lowest external edit rate is the clip edit rate *)
    lowest <- gets (fun r => fst (lowest_edit_rate r (mTrackReaders r) clip_rate FLOAT_1000000)) ;;
    modify (set_mEditRate lowest) ;;;
    bmx_check (negb (numerator lowest =? 0)) "mEditRate.numerator != 0"
  else ret tt.

(** *** The sample sequences *)

Variable get_sample_sequence : Rational -> Rational -> option (list Z).
Variable get_sequence_size : list Z -> Z.

Fixpoint extract_sample_sequences (es : list t) : M t unit :=
  match es with
  | [] => ret tt
  | e :: es' =>
      clip_rate <- gets mEditRate ;;
      match get_sample_sequence clip_rate (mEditRate e) with
      | None => THROW_RESULT MXF_RESULT_NOT_SUPPORTED
      | Some sample_sequence =>
          modify (fun r => set_mExternalSampleSequences
                             (mExternalSampleSequences r ++ [sample_sequence]) r) ;;;
          modify (fun r => set_mExternalSampleSequenceSizes
                             (mExternalSampleSequenceSizes r
                              ++ [get_sequence_size sample_sequence]) r) ;;;
          extract_sample_sequences es'
      end
  end.

(** *** The clip duration *)

(** The first loop: over the internal track readers, from [mDuration]. *)
Fixpoint internal_duration (r : t) (trs : list MXFTrackReader) (mDuration' : Z) : Z :=
  match trs with
  | [] => mDuration'
  | tr :: trs' =>
      if duration (GetTrackInfo tr) <? 0 then -1
      else
        let track_duration :=
          sint64 (convert_duration (edit_rate (GetTrackInfo tr))
                                   (duration (GetTrackInfo tr))
                                   (mEditRate r) ROUND_AUTO) in
        internal_duration r trs'
          (if (mDuration' =? -2) || (track_duration <? mDuration')
           then track_duration else mDuration')
  end.

(** The second loop: over the external readers, [i] being the index. *)
Fixpoint external_duration (r : t) (i : nat) (es : list t) (mDuration' : Z) : Z :=
  match es with
  | [] => mDuration'
  | e :: es' =>
      if mDuration e <? 0 then -1
      else
        let internal_duration := CONVERT_EXTERNAL_DUR r i (mDuration e) in
        external_duration r (Datatypes.S i) es'
          (if (mDuration' =? -2) || (internal_duration <? mDuration')
           then internal_duration else mDuration')
  end.

(** Determine the clip duration, which is the minimum track duration or
    unknown (-1). *)
Definition clip_duration (r : t) : Z :=
  let mDuration' := internal_duration r (mInternalTrackReaders r) (-2) in
  if negb (mDuration' =? -1)
  then external_duration r O (mExternalReaders r) mDuration'
  else mDuration'.

Definition determine_duration : M t unit :=
  modify (fun r => set_mDuration (clip_duration r) r).

(** [ForceDuration(duration)] on an external reader. *)
Definition ForceDuration (duration' : Z) (e : t) : Result t :=
  if duration' <=? mDuration e then Ok (set_mDuration duration' e)
  else Raise (BMXException "duration <= mDuration").

(** Force external readers to have the clip's duration. *)
Fixpoint force_durations (r : t) (i : nat) (es : list t) : Result (list t) :=
  match es with
  | [] => Ok []
  | e :: es' =>
      match ForceDuration (CONVERT_INTERNAL_POS r i (mDuration r)) e with
      | Raise ex => Raise ex
      | Ok e' =>
          match force_durations r (Datatypes.S i) es' with
          | Raise ex => Raise ex
          | Ok es'' => Ok (e' :: es'')
          end
      end
  end.

(** The external readers as the loop leaves them when a [ForceDuration]
    fails its check: the readers before the failing one are forced
    already. *)
Fixpoint forced_until_failure (r : t) (i : nat) (es : list t) : list t :=
  match es with
  | [] => []
  | e :: es' =>
      match ForceDuration (CONVERT_INTERNAL_POS r i (mDuration r)) e with
      | Raise _ => e :: es'
      | Ok e' => e' :: forced_until_failure r (Datatypes.S i) es'
      end
  end.

Definition force_external_durations : M t unit :=
  fun r =>
    if 0 <=? mDuration r then
      match force_durations r O (mExternalReaders r) with
      | Ok es => (Done tt, set_mExternalReaders es r)
      | Raise ex =>
          (Throw ex, set_mExternalReaders (forced_until_failure r O (mExternalReaders r)) r)
      end
    else (Done tt, r).

(** *** The clip origin *)

Fixpoint clip_origin (r : t) (i : nat) (es : list t) (mOrigin' : Z) : Z :=
  match es with
  | [] => mOrigin'
  | e :: es' =>
      let external_origin := CONVERT_EXTERNAL_POS r i (mOrigin e) in
      clip_origin r (Datatypes.S i) es'
                  (if mOrigin' <? external_origin then external_origin else mOrigin')
  end.

Definition determine_origin : M t unit :=
  modify (fun r => set_mOrigin (clip_origin r O (mExternalReaders r) (mFileOrigin r)) r).

(** *** The whole *)

Definition ProcessMetadata (mp_tracks : list MaterialTrack) : M t unit :=
  (* create track readers for each material package picture, sound or data track *)
  add_tracks mp_tracks ;;;
  tracks <- gets mTrackReaders ;;
  (if Nat.eqb (length tracks) O then THROW_RESULT MXF_RESULT_NO_ESSENCE else ret tt) ;;;
  check_lead_filler ;;;
  (* order tracks by material track number / id *)
  modify sort_track_readers ;;;
  modify disable_unused_external_tracks ;;;
  set_clip_edit_rate ;;;
  externals <- gets mExternalReaders ;;
  extract_sample_sequences externals ;;;
  determine_duration ;;;
  force_external_durations ;;;
  determine_origin.

(** ** Available precharge and rollout *)

(** [GetInternalAvailablePrecharge(position)]: how far the essence of this
    file reaches back from the target position. *)
Definition GetInternalAvailablePrecharge (r : t) (position : Z) : Result Z :=
  if negb (IsComplete r) then Raise PC_RO_NOT_AVAILABLE
  else
    match mEssenceReader r with
    | None => Ok 0
    | Some er =>
        let target_position :=
          if position =? CURRENT_POSITION_VALUE then GetPosition r else position in
        let available_precharge :=
          sint64 (FROM_ESS_READER_POS r (er_legitimise er 0) - target_position) in
        Ok (if 0 <? available_precharge then 0 else available_precharge)
    end.

(** [GetInternalAvailableRollout(position)]. *)
Definition GetInternalAvailableRollout (r : t) (position : Z) : Result Z :=
  if negb (IsComplete r) then Raise PC_RO_NOT_AVAILABLE
  else
    match mEssenceReader r with
    | None => Ok 0
    | Some er =>
        let target_position :=
          if position =? CURRENT_POSITION_VALUE then GetPosition r else position in
        let available_rollout :=
          sint64 (FROM_ESS_READER_POS r (er_legitimise er INT64_MAX) - target_position) in
        Ok (if available_rollout <? 0 then 0 else available_rollout)
    end.

(** The loop of [GetMaxAvailablePrecharge] over the external readers from
    index [i] on; [max_available] stands for the method on an external
    reader.  An external reader at another edit rate is passed over with a
    warning. *)
Fixpoint available_precharge_externals (max_available : t -> Z -> Result Z)
         (r : t) (target_position : Z) (i : nat) (es : list t)
         (max_available_precharge : Z) {struct es} : Result Z :=
  match es with
  | [] => Ok max_available_precharge
  | e :: es' =>
      if negb (IsEnabled e) then
        available_precharge_externals max_available r target_position (Datatypes.S i) es'
                                      max_available_precharge
      else
        match max_available e (CONVERT_INTERNAL_POS r i target_position) with
        | Raise ex => Raise ex
        | Ok ext_max_available_precharge =>
            available_precharge_externals max_available r target_position (Datatypes.S i) es'
              (if negb (ext_max_available_precharge =? 0) then
                 if negb (Rational_eqb (mEditRate e) (mEditRate r)) then
                   max_available_precharge
                 else if ext_max_available_precharge <? max_available_precharge then
                   ext_max_available_precharge
                 else max_available_precharge
               else max_available_precharge)
        end
  end.

Fixpoint GetMaxAvailablePrecharge (r : t) (position : Z) {struct r} : Result Z :=
  if negb (IsComplete r) then Raise PC_RO_NOT_AVAILABLE
  else
    let target_position :=
      if position =? CURRENT_POSITION_VALUE then GetPosition r else position in
    match (if InternalIsEnabled r then GetInternalAvailablePrecharge r target_position
           else Ok 0) with
    | Raise ex => Raise ex
    | Ok max_available_precharge =>
        available_precharge_externals GetMaxAvailablePrecharge r target_position O
                                      (mExternalReaders r) max_available_precharge
    end.

(** The loop of [GetMaxAvailableRollout]. *)
Fixpoint available_rollout_externals (max_available : t -> Z -> Result Z)
         (r : t) (target_position : Z) (i : nat) (es : list t)
         (max_available_rollout : Z) {struct es} : Result Z :=
  match es with
  | [] => Ok max_available_rollout
  | e :: es' =>
      if negb (IsEnabled e) then
        available_rollout_externals max_available r target_position (Datatypes.S i) es'
                                    max_available_rollout
      else
        match max_available e
                (sint64 (CONVERT_INTERNAL_POS r i (sint64 (target_position + 1)) - 1)) with
        | Raise ex => Raise ex
        | Ok ext_max_available_rollout =>
            available_rollout_externals max_available r target_position (Datatypes.S i) es'
              (if negb (ext_max_available_rollout =? 0) then
                 if negb (Rational_eqb (mEditRate e) (mEditRate r)) then
                   max_available_rollout
                 else if max_available_rollout <? ext_max_available_rollout then
                   ext_max_available_rollout
                 else max_available_rollout
               else max_available_rollout)
        end
  end.

Fixpoint GetMaxAvailableRollout (r : t) (position : Z) {struct r} : Result Z :=
  if negb (IsComplete r) then Raise PC_RO_NOT_AVAILABLE
  else
    let target_position :=
      if position =? CURRENT_POSITION_VALUE then GetPosition r else position in
    match (if InternalIsEnabled r then GetInternalAvailableRollout r target_position
           else Ok 0) with
    | Raise ex => Raise ex
    | Ok max_available_rollout =>
        available_rollout_externals GetMaxAvailableRollout r target_position O
                                    (mExternalReaders r) max_available_rollout
    end.

(** ** [GetFileReader] *)

(** The loop of [GetFileReader] over the external readers: the first
    that has a reader with the file id. *)
Fixpoint first_file_reader (file_reader : t -> option t) (es : list t) : option t :=
  match es with
  | [] => None
  | e :: es' =>
      match file_reader e with
      | Some reader => Some reader
      | None => first_file_reader file_reader es'
      end
  end.

Fixpoint GetFileReader (r : t) (file_id : nat) : option t :=
  if Nat.eqb file_id (mFileId r) then Some r
  else first_file_reader (fun e => GetFileReader e file_id) (mExternalReaders r).

(** ** [CheckRequireFrameInfo] *)

(** The essence types whose track information is completed from the
    first frame, and those completed from the first frames up to the
    manifest count. *)
Definition needs_first_frame (e : EssenceType) : bool :=
  match e with
  | D10_AES3_PCM
  | AVCI200_1080I | AVCI200_1080P | AVCI200_720P
  | AVCI100_1080I | AVCI100_1080P | AVCI100_720P
  | AVCI50_1080I | AVCI50_1080P | AVCI50_720P => true
  | _ => false
  end.

Definition needs_manifest (e : EssenceType) : bool :=
  match e with
  | VBI_DATA | ANC_DATA => true
  | _ => false
  end.

(** The loop over the internal track readers, from the count so far;
    [mST436ManifestCount] is a field the model passes in. *)
Fixpoint require_frame_info (mST436ManifestCount : Z) (trs : list MXFTrackReader)
         (count : Z) : Z :=
  match trs with
  | [] => count
  | tr :: trs' =>
      require_frame_info mST436ManifestCount trs'
        (if tr_enabled tr then
           if needs_first_frame (essence_type (GetTrackInfo tr)) then
             if count <? 1 then 1 else count
           else if needs_manifest (essence_type (GetTrackInfo tr)) then
             if count <? mST436ManifestCount then mST436ManifestCount else count
           else count
         else count)
  end.

Definition CheckRequireFrameInfo (mST436ManifestCount : Z) (r : t) : t :=
  set_mRequireFrameInfoCount
    (require_frame_info mST436ManifestCount (mInternalTrackReaders r)
                        (mRequireFrameInfoCount r)) r.

End Clip.

Arguments Ok {A} a.
Arguments Raise {A} e.

End MXFFileReader.

(** * Reference orders on tracks *)

Module TrackOrder.

Import MXFFileReader.

(** [x] sorts before [y] when 0 is the sentinel that sorts last: [x] is
    not the sentinel, and [y] is the sentinel or greater. *)
Definition zero_last_lt (x y : Z) : Prop := x <> 0 /\ (y = 0 \/ x < y).

(** The lexicographic order on the key (data definition, material track
    number, material track id), with 0 last in the number and in the id. *)
Definition lexicographic_before (a b : MXFTrackReader) : Prop :=
  let a := GetTrackInfo a in
  let b := GetTrackInfo b in
  data_def a < data_def b
  \/ (data_def a = data_def b
      /\ (zero_last_lt (material_track_number a) (material_track_number b)
          \/ (material_track_number a = material_track_number b
              /\ zero_last_lt (material_track_id a) (material_track_id b)))).

(** The order in which the track id counts only between two tracks
    without a track number. *)
Definition number_then_id_before (a b : MXFTrackReader) : Prop :=
  let a := GetTrackInfo a in
  let b := GetTrackInfo b in
  data_def a < data_def b
  \/ (data_def a = data_def b
      /\ (zero_last_lt (material_track_number a) (material_track_number b)
          \/ (material_track_number a = 0 /\ material_track_number b = 0
              /\ zero_last_lt (material_track_id a) (material_track_id b)))).

(** A track with a material track number or a material track id. *)
Definition identified (a : MXFTrackReader) : Prop :=
  material_track_number (GetTrackInfo a) <> 0 \/ material_track_id (GetTrackInfo a) <> 0.

(** Two tracks that rank equal in [number_then_id_before]: the same data
    definition and the same track number, and the same track id when they
    have no track number. *)
Definition same_rank (a b : MXFTrackReader) : bool :=
  let a := GetTrackInfo a in
  let b := GetTrackInfo b in
  (data_def a =? data_def b)
  && (material_track_number a =? material_track_number b)
  && (negb (material_track_number a =? 0) || (material_track_id a =? material_track_id b)).

(** A list is in the order [before] when no element is before an earlier
    one. *)
Definition in_order {A} (before : A -> A -> Prop) (l : list A) : Prop :=
  StronglySorted (fun a b => ~ before b a) l.

End TrackOrder.

(** * The contributors to the clip duration *)

Module Contributors.

Import MXFFileReader.

Section Contributors.

Variable convert_duration_lower : Z -> list Z -> Z -> Z.
Variable convert_duration : Rational -> Z -> Rational -> Rounding -> Z.

(** The duration of an internal track converted to the clip edit rate. *)
Definition internal_contribution (r : t) (tr : MXFTrackReader) : Z :=
  sint64 (convert_duration (edit_rate (GetTrackInfo tr)) (duration (GetTrackInfo tr))
                           (mEditRate r) ROUND_AUTO).

(** The durations of the external readers from index [i] on, each
    converted with the sample sequence of its reader. *)
Fixpoint external_contributions_from (r : t) (i : nat) (es : list t) : list Z :=
  match es with
  | [] => []
  | e :: es' =>
      CONVERT_EXTERNAL_DUR convert_duration_lower r i (mDuration e)
        :: external_contributions_from r (Datatypes.S i) es'
  end.

Definition contributions (r : t) : list Z :=
  map (internal_contribution r) (mInternalTrackReaders r)
  ++ external_contributions_from r O (mExternalReaders r).

(** [m] is the minimum of the list [l]. *)
Definition is_minimum (m : Z) (l : list Z) : Prop :=
  In m l /\ Forall (fun c => m <= c) l.

End Contributors.

End Contributors.

(** * The internal tracks of a material package *)

Module InternalTracks.

Import MXFFileReader.

(** The file-source-package tracks of this file that the material tracks
    refer to: the tracks handed to [CreateInternalTrackReader]. *)
Definition internal_fsp_tracks (mp_tracks : list MaterialTrack) : list FileSourceTrack :=
  flat_map (fun mp_track =>
              match mp_essence mp_track with
              | InThisFile fsp_track => [fsp_track]
              | InExternalFile _ => []
              end) mp_tracks.

End InternalTracks.

(** * Reference values of precharge and rollout *)

Module PrechargeSpec.

Import MXFFileReader.

(** A required precharge: an [int16_t] that is not positive, or the
    exception for an external reader at another edit rate. *)
Definition precharge_result (res : Result Z) : Prop :=
  match res with
  | Ok v => -32768 <= v <= 0
  | Raise ex => ex = EDIT_RATE_MISMATCH_PRECHARGE
  end.

(** A required rollout: an [int16_t] that is not negative, or the
    exception. *)
Definition rollout_result (res : Result Z) : Prop :=
  match res with
  | Ok v => 0 <= v <= 32767
  | Raise ex => ex = EDIT_RATE_MISMATCH_ROLLOUT
  end.

(** The fields of an index entry are [int8_t]. *)
Definition int8 (z : Z) : Prop := -128 <= z <= 127.

(** The precharge that the index gives at a target position, before
    positive values are clamped: [entry] is the index entry at the target
    and [anchor] the result of the look-up at the position the temporal
    offset refers to. *)
Definition precharge_of_entry (entry : MXFIndexEntryExt)
           (anchor : option MXFIndexEntryExt) : Z :=
  if temporal_offset entry =? 0 then key_frame_offset entry
  else match anchor with
       | Some anchor_entry => temporal_offset entry + key_frame_offset anchor_entry
       | None => 0
       end.

End PrechargeSpec.

(** * The position that a seek gives *)

Module SeekSpec.

Import MXFFileReader.

(** The loop shape of [GetPosition] and [Seek]: the first enabled
    external reader from index [i] on decides, and [d] is the result when
    none is enabled. *)
Fixpoint first_enabled_with {A : Type} (f : nat -> t -> A) (d : A) (i : nat) (es : list t)
  : A :=
  match es with
  | [] => d
  | e :: es' => if IsEnabled e then f i e else first_enabled_with f d (Datatypes.S i) es'
  end.

(** A reader has a position that seeking moves when it reads essence
    itself, or when its first enabled external reader has such a position.
    Otherwise [GetPosition] is a constant. *)
Fixpoint anchored (r : t) : bool :=
  match internal_essence r with
  | Some _ => true
  | None => first_enabled_with (fun _ e => anchored e) false O (mExternalReaders r)
  end.

(** What is kept by seeking and reading: the reader without the cursors
    of the essence readers, the read-error state and the count of frames
    that await information. *)
Fixpoint skeleton (r : t) : t :=
  mk (mFileId r) (mEditRate r) (mFileOrigin r) (mOrigin r) (mDuration r)
     (option_map (fun er => er_Seek er 0) (mEssenceReader r))
     0 false EmptyString
     (mInternalTrackReaders r) (mTrackReaders r) (mExternalTrackReaders r)
     (map skeleton (mExternalReaders r))
     (mExternalSampleSequences r) (mExternalSampleSequenceSizes r).

Section Conversions.

Variable convert_position_lower : Z -> list Z -> Z -> Z.
Variable convert_position_higher : Z -> list Z -> Z -> Z.

(** The position [position] survives the conversion to the edit rate of
    the external reader that gives the position of [r], and back; and
    likewise inside that external reader, as far as the first reader that
    reads essence itself. *)
Fixpoint round_trips (r : t) (position : Z) : Prop :=
  match internal_essence r with
  | Some _ => True
  | None =>
      first_enabled_with
        (fun i e =>
           CONVERT_EXTERNAL_POS convert_position_lower r i
             (CONVERT_INTERNAL_POS convert_position_higher r i position) = position
           /\ round_trips e (CONVERT_INTERNAL_POS convert_position_higher r i position))
        True O (mExternalReaders r)
  end.

(** The position of [r] after [Seek(position)], read off the reader
    before the seek. *)
Fixpoint position_after_seek (r : t) (position : Z) : Z :=
  match internal_essence r with
  | Some _ => FROM_ESS_READER_POS r (TO_ESS_READER_POS r position)
  | None =>
      first_enabled_with
        (fun i e =>
           CONVERT_EXTERNAL_POS convert_position_lower r i
             (position_after_seek
                e (CONVERT_INTERNAL_POS convert_position_higher r i position)))
        0 O (mExternalReaders r)
  end.

End Conversions.

End SeekSpec.

(** * The readers of a clip *)

Module Tree.

Import MXFFileReader.

(** A reader with the external readers it holds, at every level, in the
    order in which [GetFileReader] visits them. *)
Fixpoint readers (r : t) : list t := r :: flat_map readers (mExternalReaders r).

(** A clip without what reading writes: the reader without its essence
    reader, its error state, the count of frames that await information
    and the track infos, and its external readers likewise.  Of a track
    reader it keeps whether it is enabled and whether it is a timed-text
    track reader. *)
Fixpoint outline (r : t) : t :=
  mk (mFileId r) (mEditRate r) (mFileOrigin r) (mOrigin r) (mDuration r)
     None 0 false EmptyString
     (map (fun tr => mkTrackReader NULL_TRACK_INFO (tr_enabled tr) (tr_timed_text tr))
          (mInternalTrackReaders r))
     (mTrackReaders r) (mExternalTrackReaders r)
     (map outline (mExternalReaders r))
     (mExternalSampleSequences r) (mExternalSampleSequenceSizes r).

(** No reader of the clip has an enabled track of an inter-frame coded
    essence type. *)
Fixpoint intra_only (r : t) : bool :=
  negb (HaveInterFrameEncodingTrack r) && forallb intra_only (mExternalReaders r).

End Tree.

(** * The sample-sequence conversions *)

Module Utils.

(** Modelled from the spec: [get_sequence_size], defined in [bmx/Utils]
    outside the sources at hand; the period-sum [S] of a sample sequence. *)
Definition get_sequence_size (sequence : list Z) : Z := fold_right Z.add 0 sequence.

(** Modelled from the spec: [convert_position_higher], defined in
    [bmx/Utils] outside the sources at hand.  "Sum [seq] elements for
    [p_lo % len(seq)] and add [(p_lo / len(seq)) * S]", with the division
    and remainder of C++. *)
Definition convert_position_higher (position : Z) (sequence : list Z) (sequence_size : Z)
  : Z :=
  let len := Z.of_nat (length sequence) in
  Z.quot position len * sequence_size
  + get_sequence_size (firstn (Z.to_nat (Z.rem position len)) sequence).

(** The number of elements it takes to exhaust [remainder]. *)
Fixpoint consume (remainder : Z) (sequence : list Z) : Z :=
  match sequence with
  | [] => 0
  | x :: sequence' =>
      if remainder <=? 0 then 0 else 1 + consume (remainder - x) sequence'
  end.

(** Modelled from the spec: [convert_position_lower], defined in
    [bmx/Utils] outside the sources at hand.  "Find how many complete
    periods fit in [p_hi], multiply by [len(seq)], then consume remainder
    by summing sequence elements until it is exhausted." *)
Definition convert_position_lower (position : Z) (sequence : list Z) (sequence_size : Z)
  : Z :=
  let len := Z.of_nat (length sequence) in
  Z.quot position sequence_size * len + consume (Z.rem position sequence_size) sequence.

(** The sequence as it repeats from phase [offset] on, for one period. *)
Definition from_phase (offset : Z) (sequence : list Z) : list Z :=
  skipn (Z.to_nat offset) sequence ++ firstn (Z.to_nat offset) sequence.

(** Modelled from the spec: [convert_duration_higher] with a start
    position, defined in [bmx/Utils] outside the sources at hand; the
    position arithmetic with the phase of the sequence taken from the
    start position. *)
Definition convert_duration_higher_at (duration position : Z) (sequence : list Z)
           (sequence_size : Z) : Z :=
  let len := Z.of_nat (length sequence) in
  Z.quot duration len * sequence_size
  + get_sequence_size (firstn (Z.to_nat (Z.rem duration len))
                              (from_phase (Z.rem position len) sequence)).

(** The number of whole elements that fit in [remainder]. *)
Fixpoint whole (remainder : Z) (sequence : list Z) : Z :=
  match sequence with
  | [] => 0
  | x :: sequence' =>
      if x <=? remainder then 1 + whole (remainder - x) sequence' else 0
  end.

(** Modelled from the spec: [convert_duration_lower] with a start position
    (a position at the higher rate), defined in [bmx/Utils] outside the
    sources at hand. *)
Definition convert_duration_lower_at (duration position : Z) (sequence : list Z)
           (sequence_size : Z) : Z :=
  let len := Z.of_nat (length sequence) in
  Z.quot duration sequence_size * len
  + whole (Z.rem duration sequence_size)
          (from_phase (Z.rem (convert_position_lower position sequence sequence_size) len)
                      sequence).

(** Modelled from the spec: the overloads without a start position, which
    start at phase 0. *)
Definition convert_duration_higher (duration : Z) (sequence : list Z) (sequence_size : Z)
  : Z := convert_duration_higher_at duration 0 sequence sequence_size.

Definition convert_duration_lower (duration : Z) (sequence : list Z) (sequence_size : Z)
  : Z := convert_duration_lower_at duration 0 sequence sequence_size.

End Utils.

(** * Instances of the remaining parameters, for the examples *)

Module Instances.

Import MXFFileReader.

(** A conversion between edit rates by exact scaling, rounding as asked
    ([ROUND_AUTO] rounds down); it stands in for [convert_position] and
    [convert_duration] of [bmx/Utils] in the examples. *)
Definition scale (in_rate : Rational) (value : Z) (out_rate : Rational) (rounding : Rounding)
  : Z :=
  let top := numerator out_rate * denominator in_rate in
  let bottom := denominator out_rate * numerator in_rate in
  if bottom <=? 0 then value
  else match rounding with
       | ROUND_UP => (value * top + bottom - 1) / bottom
       | ROUND_NEAREST => (value * top + bottom / 2) / bottom
       | _ => value * top / bottom
       end.

(** The sample sequence when the external rate is a whole multiple of the
    clip rate: one element, the multiple. *)
Definition whole_multiple_sequence (clip_rate external_rate : Rational) : option (list Z) :=
  let top := numerator external_rate * denominator clip_rate in
  let bottom := denominator external_rate * numerator clip_rate in
  if (0 <? bottom) && (0 <? top) && (top mod bottom =? 0) then Some [top / bottom]
  else None.

(** Exact rational arithmetic in place of single precision, for the
    examples: the rationals of the Standard Library and their order. *)
Definition exact : Type := Q.
Definition exact_of_int (z : Z) : exact := inject_Z z.
Definition exact_div (a b : exact) : exact := Qdiv a b.
Definition exact_lt (a b : exact) : bool := negb (Qle_bool b a).
Definition EXACT_1000000 : exact := inject_Z 1000000.

(** A track reader that gives the edit rate of the file reader it belongs
    to. *)
Definition file_reader_rate (r : t) (ref : TrackRef) : Rational :=
  match ref with
  | OwnTrack _ => mEditRate r
  | ExternalTrack i _ =>
      match nth_error (mExternalReaders r) i with
      | Some e => mEditRate e
      | None => ZERO_RATIONAL
      end
  end.

(** [INT64_MIN], the value of [CURRENT_POSITION_VALUE]. *)
Definition CURRENT_POSITION_VALUE : Z := INT64_MIN.

(** [ProcessMetadata] and the reading methods with these instances. *)
Abbreviation ProcessMetadata :=
  (MXFFileReader.ProcessMetadata
     Utils.convert_position_lower Utils.convert_position_higher
     Utils.convert_duration_lower
     scale scale exact exact_of_int exact_div exact_lt EXACT_1000000
     file_reader_rate whole_multiple_sequence Utils.get_sequence_size).

End Instances.
(** * Proofs *)

(** ** Facts about the machine integers *)

Lemma uint32_range z : 0 <= uint32 z <= UINT32_MAX.
Proof. unfold uint32, UINT32_MAX. pose proof (Z.mod_pos_bound z (2 ^ 32)). lia. Qed.

Lemma uint32_small z : 0 <= z <= UINT32_MAX -> uint32 z = z.
Proof. unfold uint32, UINT32_MAX. intros. apply Z.mod_small. lia. Qed.

Lemma sint64_range z : INT64_MIN <= sint64 z <= INT64_MAX.
Proof.
  unfold sint64, swrap, INT64_MIN, INT64_MAX.
  pose proof (Z.mod_pos_bound (z + 2 ^ (64 - 1)) (2 ^ 64)). lia.
Qed.

Lemma sint64_small z : INT64_MIN <= z <= INT64_MAX -> sint64 z = z.
Proof.
  unfold sint64, swrap, INT64_MIN, INT64_MAX. intros.
  rewrite Z.mod_small; lia.
Qed.

Lemma sint16_range z : -32768 <= sint16 z <= 32767.
Proof.
  unfold sint16, swrap.
  pose proof (Z.mod_pos_bound (z + 2 ^ (16 - 1)) (2 ^ 16)). lia.
Qed.

Lemma sint16_small z : -32768 <= z <= 32767 -> sint16 z = z.
Proof. unfold sint16, swrap. intros. rewrite Z.mod_small; lia. Qed.

Lemma sint8_range z : -128 <= sint8 z <= 127.
Proof.
  unfold sint8, swrap.
  pose proof (Z.mod_pos_bound (z + 2 ^ (8 - 1)) (2 ^ 8)). lia.
Qed.

Lemma sint8_small z : -128 <= z <= 127 -> sint8 z = z.
Proof. unfold sint8, swrap. intros. rewrite Z.mod_small; lia. Qed.

(** [sint64] is a ring morphism modulo [2^64]: adding and then removing an
    offset with wrapping arithmetic gives the value back. *)
Lemma sint64_add_sub p o :
  INT64_MIN <= p <= INT64_MAX -> sint64 (sint64 (p + o) - o) = p.
Proof.
  intros Hp. unfold sint64, swrap.
  replace ((p + o + 2 ^ (64 - 1)) mod 2 ^ 64 - 2 ^ (64 - 1) - o + 2 ^ (64 - 1))
    with ((p + o + 2 ^ (64 - 1)) mod 2 ^ 64 - o) by lia.
  rewrite Zminus_mod_idemp_l.
  replace (p + o + 2 ^ (64 - 1) - o) with (p + 2 ^ (64 - 1)) by lia.
  unfold INT64_MIN, INT64_MAX in Hp. rewrite Z.mod_small; lia.
Qed.


(** ** Facts about the monad *)

Lemma bind_Done {St A B} (c : M St A) (k : A -> M St B) s b s' :
  bind c k s = (Done b, s') ->
  exists a s1, c s = (Done a, s1) /\ k a s1 = (Done b, s').
Proof.
  unfold bind. destruct (c s) as [[a | e |] s1]; intros Heq.
  - exists a, s1. split; [reflexivity | exact Heq].
  - discriminate.
  - discriminate.
Qed.

(** A computation that leaves an observation [f] of the state as it is,
    however it ends. *)
Definition preserves {St A X} (f : St -> X) (c : M St A) : Prop :=
  forall s o s', c s = (o, s') -> f s' = f s.

Lemma preserves_ret {St A X} (f : St -> X) (a : A) : preserves f (ret a).
Proof. intros s o s' Heq. inversion Heq. reflexivity. Qed.

Lemma preserves_throw {St A X} (f : St -> X) e : preserves f (@throw St A e).
Proof. intros s o s' Heq. inversion Heq. reflexivity. Qed.

Lemma preserves_gets {St A X} (f : St -> X) (g : St -> A) : preserves f (gets g).
Proof. intros s o s' Heq. inversion Heq. reflexivity. Qed.

Lemma preserves_modify {St X} (f : St -> X) (g : St -> St) :
  (forall s, f (g s) = f s) -> preserves f (modify g).
Proof. intros Hg s o s' Heq. inversion Heq. apply Hg. Qed.

Lemma preserves_bind {St A B X} (f : St -> X) (c : M St A) (k : A -> M St B) :
  preserves f c -> (forall a, preserves f (k a)) -> preserves f (bind c k).
Proof.
  intros Hc Hk s o s'. unfold bind.
  destruct (c s) as [[a | e |] s1] eqn:Ec; intros Heq.
  - rewrite (Hk a s1 o s' Heq). apply (Hc s _ s1 Ec).
  - inversion Heq; subst. apply (Hc s _ _ Ec).
  - inversion Heq; subst. apply (Hc s _ _ Ec).
Qed.

Lemma preserves_bmx_check {St X} (f : St -> X) cond what :
  preserves f (@bmx_check St cond what).
Proof.
  unfold bmx_check. destruct cond; [apply preserves_ret | apply preserves_throw].
Qed.

(** ** RawEssenceReader *)

Module RawEssenceReaderProofs.

Import RawEssenceReader.

Ltac run_monad :=
  repeat (progress (unfold bind, gets, modify, ret, throw, bmx_check, out_of_fuel;
                    cbn beta iota)).

Section Proofs.

Context {S P : Type} `{EssenceSource S} `{EssenceParser P}.
Variable CompleteSize : ParsedFrameSize -> Z -> option ParsedFrameSize.

Abbreviation reader := (@t S P).

(** The read budget is in force and respected: a positive
    [mMaxReadLength], small enough for [mTotalReadLength + size] not to
    leave [int64_t], and a total within it. *)
Definition budget_ok (r : reader) : Prop :=
  0 < mMaxReadLength r <= INT64_MAX - UINT32_MAX
  /\ 0 <= mTotalReadLength r <= mMaxReadLength r.

(** What is left of the budget. *)
Definition budget_left (r : reader) : Z := mMaxReadLength r - mTotalReadLength r.

(** The request a call makes after truncation to the budget. *)
Definition truncated (r : reader) (size : Z) : Z := Z.min size (budget_left r).

Lemma actual_size_truncated (r : reader) size :
  budget_ok r -> 0 <= size <= UINT32_MAX ->
  (if (0 <? mMaxReadLength r) && (mMaxReadLength r <? sint64 (mTotalReadLength r + size))
   then uint32 (sint64 (mMaxReadLength r - mTotalReadLength r))
   else size) = truncated r size.
Proof.
  intros [[Hm1 Hm2] [Ht1 Ht2]] Hs.
  unfold truncated, budget_left.
  unfold INT64_MAX, UINT32_MAX in *.
  rewrite (sint64_small (mTotalReadLength r + size)) by (unfold INT64_MIN, INT64_MAX; lia).
  destruct (0 <? mMaxReadLength r) eqn:E1; [| apply Z.ltb_ge in E1; lia].
  cbn [andb].
  destruct (mMaxReadLength r <? mTotalReadLength r + size) eqn:E2.
  - apply Z.ltb_lt in E2.
    rewrite sint64_small by (unfold INT64_MIN, INT64_MAX; lia).
    rewrite uint32_small by (unfold UINT32_MAX; lia). lia.
  - apply Z.ltb_ge in E2. lia.
Qed.

Lemma budget_check_passes (r : reader) :
  budget_ok r ->
  (mMaxReadLength r =? 0) || (mTotalReadLength r <=? mMaxReadLength r) = true.
Proof.
  intros [_ [_ Ht]]. apply orb_true_iff. right. apply Z.leb_le. exact Ht.
Qed.

(** [ReadBytes] under a budget: the request to the source is the size
    truncated to what is left, nothing is asked of the source when that is
    0, and the total grows by the number of bytes delivered. *)
Lemma ReadBytes_budget (r : reader) size :
  budget_ok r -> 0 <= size <= UINT32_MAX ->
  exists k r',
    ReadBytes size r = (Done k, r')
    /\ 0 <= k <= truncated r size
    /\ mMaxReadLength r' = mMaxReadLength r
    /\ mTotalReadLength r' = mTotalReadLength r + k
    /\ (truncated r size = 0 -> r' = r)
    /\ (truncated r size <> 0 ->
        mEssenceSource r' = snd (es_Read (mEssenceSource r) (truncated r size))
        /\ mSampleBuffer r'
           = mSampleBuffer r ++ fst (es_Read (mEssenceSource r) (truncated r size))
        /\ k = Z.of_nat (length (fst (es_Read (mEssenceSource r) (truncated r size))))).
Proof.
  intros Hb Hs.
  assert (Htr : 0 <= truncated r size).
  { destruct Hb as [_ [_ Ht]]. unfold truncated, budget_left. lia. }
  unfold ReadBytes. run_monad.
  rewrite (budget_check_passes r Hb). run_monad.
  rewrite (actual_size_truncated r size Hb Hs).
  destruct (truncated r size =? 0) eqn:E0.
  - apply Z.eqb_eq in E0. exists 0, r. repeat split; try lia; try reflexivity.
  - apply Z.eqb_neq in E0.
    pose proof (es_Read_bound (mEssenceSource r) (truncated r size) Htr) as Hbound.
    destruct (es_Read (mEssenceSource r) (truncated r size)) as [bytes src'] eqn:Er.
    cbn [fst snd] in *. cbn.
    eexists. eexists. split; [reflexivity |].
    destruct Hb as [[Hm1 Hm2] [Ht1 Ht2]].
    assert (Hk : Z.of_nat (length bytes) <= mMaxReadLength r - mTotalReadLength r).
    { unfold truncated, budget_left in Hbound. lia. }
    cbn. rewrite sint64_small
      by (unfold INT64_MIN, INT64_MAX, UINT32_MAX in *; lia).
    repeat split; try lia; try reflexivity.
Qed.

(** [AppendBytes] under a budget: exactly the truncated size is taken. *)
Lemma AppendBytes_budget (r : reader) bytes size :
  budget_ok r -> 0 <= size <= UINT32_MAX ->
  exists r',
    AppendBytes bytes size r = (Done (truncated r size), r')
    /\ mMaxReadLength r' = mMaxReadLength r
    /\ mTotalReadLength r' = mTotalReadLength r + truncated r size
    /\ mEssenceSource r' = mEssenceSource r
    /\ (truncated r size = 0 -> r' = r)
    /\ mSampleBuffer r'
       = mSampleBuffer r ++ firstn (Z.to_nat (truncated r size)) bytes.
Proof.
  intros Hb Hs.
  assert (Htr : 0 <= truncated r size).
  { destruct Hb as [_ [_ Ht]]. unfold truncated, budget_left. lia. }
  unfold AppendBytes. run_monad.
  rewrite (budget_check_passes r Hb). run_monad.
  rewrite (actual_size_truncated r size Hb Hs).
  destruct (truncated r size =? 0) eqn:E0.
  - apply Z.eqb_eq in E0. exists r. rewrite E0.
    repeat split; try lia; try reflexivity.
    cbn. rewrite app_nil_r. reflexivity.
  - eexists. split; [reflexivity |].
    destruct Hb as [[Hm1 Hm2] [Ht1 Ht2]].
    assert (Hk : truncated r size <= mMaxReadLength r - mTotalReadLength r).
    { unfold truncated, budget_left. lia. }
    cbn. rewrite sint64_small
      by (unfold INT64_MIN, INT64_MAX, UINT32_MAX in *; lia).
    apply Z.eqb_neq in E0.
    repeat split; try lia; try reflexivity.
Qed.

(** The calls the budget is about, with arguments in the range of their
    C++ types: a [uint32_t] size and, for [AppendBytes], that many bytes. *)
Definition byte_call (c : @Call P) : Prop :=
  match c with
  | CallReadBytes size => 0 <= size <= UINT32_MAX
  | CallAppendBytes bytes size =>
      0 <= size <= UINT32_MAX /\ Z.of_nat (length bytes) = size
  | _ => False
  end.

Lemma byte_call_budget (c : @Call P) (r : reader) :
  budget_ok r -> byte_call c ->
  exists k r',
    run_call CompleteSize c r = (Done k, r')
    /\ 0 <= k <= budget_left r
    /\ mMaxReadLength r' = mMaxReadLength r
    /\ mTotalReadLength r' = mTotalReadLength r + k
    /\ (budget_left r = 0 -> k = 0 /\ r' = r)
    /\ budget_ok r'.
Proof.
  intros Hb Hc. destruct c; cbn in Hc; try contradiction.
  - destruct (ReadBytes_budget r size Hb Hc) as (k & r' & Hrun & Hk & Hmax & Htot & Hzero & _).
    exists k, r'. cbn [run_call]. rewrite Hrun.
    assert (Hle : truncated r size <= budget_left r) by (unfold truncated; lia).
    assert (Hb' := Hb). destruct Hb' as [[Hm1 Hm2] [Ht1 Ht2]].
    unfold budget_ok. rewrite Hmax, Htot. unfold budget_left in *.
    repeat split; try lia; try assumption.
    apply Hzero. unfold truncated, budget_left. lia.
  - destruct Hc as [Hs Hlen].
    destruct (AppendBytes_budget r bytes size Hb Hs)
      as (r' & Hrun & Hmax & Htot & _ & Hzero & _).
    exists (truncated r size), r'. cbn [run_call]. rewrite Hrun.
    assert (Hle : truncated r size <= budget_left r) by (unfold truncated; lia).
    assert (Hge : 0 <= truncated r size).
    { unfold truncated, budget_left. destruct Hb as [_ [_ Ht]]. lia. }
    assert (Hb' := Hb). destruct Hb' as [[Hm1 Hm2] [Ht1 Ht2]].
    unfold budget_ok. rewrite Hmax, Htot. unfold budget_left in *.
    repeat split; try lia; try assumption.
    apply Hzero. unfold truncated, budget_left. lia.
Qed.

(** C7.  With a maximum read length configured, the total number of bytes
    pulled from the essence source never exceeds it, over any sequence of
    [ReadBytes] and [AppendBytes] calls.  Every such call returns, its
    count is within what was left of the budget before it, hence 0 (and the
    reader is untouched) once the budget is exhausted; after the sequence
    the total is the initial total plus the counts returned and is within
    the maximum. *)
Theorem max_read_length_respected (cs : list (@Call P)) (r : reader) :
  budget_ok r ->
  Forall byte_call cs ->
  (forall c, In c cs -> forall r0 : reader, budget_ok r0 ->
     exists k r1, run_call CompleteSize c r0 = (Done k, r1)
                  /\ 0 <= k <= mMaxReadLength r0 - mTotalReadLength r0
                  /\ (mTotalReadLength r0 = mMaxReadLength r0 -> k = 0 /\ r1 = r0))
  /\ length (fst (run_calls CompleteSize cs r)) = length cs
  /\ mMaxReadLength (snd (run_calls CompleteSize cs r)) = mMaxReadLength r
  /\ mTotalReadLength (snd (run_calls CompleteSize cs r))
     = mTotalReadLength r + fold_right Z.add 0 (fst (run_calls CompleteSize cs r))
  /\ mTotalReadLength (snd (run_calls CompleteSize cs r)) <= mMaxReadLength r.
Proof.
  intros Hb Hcs. split.
  - intros c Hin r0 Hb0.
    rewrite Forall_forall in Hcs.
    destruct (byte_call_budget c r0 Hb0 (Hcs c Hin))
      as (k & r1 & Hrun & Hk & _ & _ & Hzero & _).
    exists k, r1. unfold budget_left in *.
    split; [exact Hrun |]. split; [lia |].
    intros Heq. apply Hzero. lia.
  - revert r Hb. induction Hcs as [| c cs Hc Hcs IH]; intros r Hb.
    + cbn. destruct Hb as [_ [_ Ht]]. repeat split; lia.
    + destruct (byte_call_budget c r Hb Hc)
        as (k & r1 & Hrun & Hk & Hmax & Htot & _ & Hb1).
      cbn [run_calls]. rewrite Hrun.
      specialize (IH r1 Hb1).
      destruct (run_calls CompleteSize cs r1) as [ks r2] eqn:Hrest.
      cbn [fst snd] in *. destruct IH as (IH1 & IH2 & IH3 & IH4).
      cbn [length fold_right]. repeat split; lia.
Qed.

(** [ReadBytes] and [AppendBytes] write the source, the total and the
    buffer, and nothing else. *)
Definition same_settings (r r' : reader) : Prop :=
  mMaxReadLength r' = mMaxReadLength r
  /\ mMaxSampleSize r' = mMaxSampleSize r
  /\ mFixedSampleSize r' = mFixedSampleSize r
  /\ mEssenceParser r' = mEssenceParser r
  /\ mSampleDataSize r' = mSampleDataSize r
  /\ mNumSamples r' = mNumSamples r
  /\ mFrameStartSize r' = mFrameStartSize r
  /\ mReadBlockSize r' = mReadBlockSize r
  /\ mReadFirstSample r' = mReadFirstSample r
  /\ mLastSampleRead r' = mLastSampleRead r.

Lemma same_settings_refl (r : reader) : same_settings r r.
Proof. unfold same_settings. repeat split. Qed.

Lemma ReadBytes_frame (r : reader) size o r' :
  ReadBytes size r = (o, r') -> same_settings r r'.
Proof.
  unfold ReadBytes. run_monad.
  destruct ((mMaxReadLength r =? 0) || (mTotalReadLength r <=? mMaxReadLength r));
    run_monad.
  - match goal with |- context [if ?c =? 0 then _ else _] => destruct (c =? 0) end.
    + intros Heq. inversion Heq. apply same_settings_refl.
    + match goal with |- context [es_Read ?a ?b] => destruct (es_Read a b) as [bytes src'] end.
      intros Heq. inversion Heq. unfold same_settings. cbn. repeat split.
  - intros Heq. inversion Heq. apply same_settings_refl.
Qed.

Lemma AppendBytes_frame (r : reader) bytes size o r' :
  AppendBytes bytes size r = (o, r') -> same_settings r r'.
Proof.
  unfold AppendBytes. run_monad.
  destruct ((mMaxReadLength r =? 0) || (mTotalReadLength r <=? mMaxReadLength r));
    run_monad.
  - match goal with |- context [if ?c =? 0 then _ else _] => destruct (c =? 0) end.
    + intros Heq. inversion Heq. apply same_settings_refl.
    + intros Heq. inversion Heq. unfold same_settings. cbn. repeat split.
  - intros Heq. inversion Heq. apply same_settings_refl.
Qed.

(** Where the budget check passes, [ReadBytes] returns. *)
Lemma ReadBytes_returns (r : reader) size :
  (mMaxReadLength r =? 0) || (mTotalReadLength r <=? mMaxReadLength r) = true ->
  exists k r', ReadBytes size r = (Done k, r').
Proof.
  intros Hc. unfold ReadBytes. run_monad. rewrite Hc. run_monad.
  match goal with |- context [if ?c =? 0 then _ else _] => destruct (c =? 0) end.
  - eexists. eexists. reflexivity.
  - match goal with |- context [es_Read ?a ?b] => destruct (es_Read a b) as [bytes src'] end.
    eexists. eexists. reflexivity.
Qed.

(** C9.  Once the last-sample flag is set, [ReadSamples] returns 0 and
    leaves the reader as it is: nothing is read from the essence source and
    the buffer, [mNumSamples] and [mSampleDataSize] are unchanged.  No
    method other than [Reset] clears the flag.  [Reset] seeks the source
    to its start and then clears the flag, the total, the buffer and the
    counters; when the seek fails it raises an exception and the flag stays
    set. *)
Theorem last_sample_read_is_final (r : reader) :
  mLastSampleRead r = true ->
  (forall fuel num_samples, ReadSamples CompleteSize fuel num_samples r = (Done 0, r))
  /\ (forall c : @Call P, c <> CallReset ->
       mLastSampleRead (snd (run_call CompleteSize c r)) = true)
  /\ match es_SeekStart (mEssenceSource r) with
     | Some src' =>
         exists r', Reset r = (Done tt, r')
                    /\ mEssenceSource r' = src'
                    /\ mLastSampleRead r' = false
                    /\ mTotalReadLength r' = 0
                    /\ mSampleBuffer r' = []
                    /\ mSampleDataSize r' = 0
                    /\ mNumSamples r' = 0
                    /\ mReadFirstSample r' = false
     | None => exists e, Reset r = (Throw e, r)
     end.
Proof.
  intros Hlast. split; [| split].
  - intros fuel n. unfold ReadSamples. run_monad. rewrite Hlast. reflexivity.
  - intros c Hc. destruct c; cbn [run_call]; unfold void.
    + unfold SetMaxReadLength. run_monad. exact Hlast.
    + unfold SetFrameStartSize. run_monad.
      destruct (len <=? UINT32_MAX); run_monad; exact Hlast.
    + unfold SetReadBlockSize. run_monad.
      destruct (len <=? UINT32_MAX); run_monad; exact Hlast.
    + unfold SetFixedSampleSize. run_monad. exact Hlast.
    + unfold SetEssenceParser. run_monad. exact Hlast.
    + unfold SetCheckMaxSampleSize. run_monad. exact Hlast.
    + unfold ReadSamples. run_monad. rewrite Hlast. exact Hlast.
    + unfold GetSampleSize. run_monad.
      destruct ((0 <? mNumSamples r) && ((0 <? mFixedSampleSize r) || (mNumSamples r =? 1)));
        run_monad; exact Hlast.
    + contradiction Hc. reflexivity.
    + destruct (ReadBytes size r) as [o r'] eqn:E.
      apply ReadBytes_frame in E. cbn [snd].
      destruct E as (_ & _ & _ & _ & _ & _ & _ & _ & _ & E). congruence.
    + destruct (AppendBytes bytes size r) as [o r'] eqn:E.
      apply AppendBytes_frame in E. cbn [snd].
      destruct E as (_ & _ & _ & _ & _ & _ & _ & _ & _ & E). congruence.
  - unfold Reset, SetSize. run_monad.
    destruct (es_SeekStart (mEssenceSource r)) as [src' |].
    + run_monad. eexists. split; [reflexivity |]. cbn. repeat split.
    + eexists. reflexivity.
Qed.
(** The reader when the fixed-size branch of [ReadSamples] asks for
    bytes: the bytes of the previous samples dropped from the buffer and
    the counters reset. *)
Definition shifted (r : reader) : reader :=
  set_mNumSamples 0
    (set_mSampleDataSize 0
       (set_mSampleBuffer (skipn (Z.to_nat (mSampleDataSize r)) (mSampleBuffer r)) r)).

(** The reader the fixed-size branch leaves, from the reader [r1] that
    [ReadBytes] left and the size [target] asked for in total. *)
Definition framed (fixed target : Z) (r1 : reader) : reader :=
  let num := BufferSize r1 / fixed in
  set_mSampleDataSize (uint32 (num * fixed))
    (set_mSampleBuffer (firstn (Z.to_nat (uint32 (num * fixed))) (mSampleBuffer r1))
       (set_mNumSamples num
          (if BufferSize r1 <? target then set_mLastSampleRead true r1 else r1))).

(** C6.  With a fixed sample size and the last-sample flag clear,
    [ReadSamples(n)] asks [ReadBytes] for [fixed * n] minus the size of the
    buffer (what the previous read left beyond its samples), in [uint32_t]
    arithmetic; it then cuts the buffer to a whole number of samples, sets
    [mNumSamples] to the buffer size divided by the sample size and
    [mSampleDataSize] to that many samples, returns [mNumSamples], and sets
    the last-sample flag exactly when the buffer holds fewer than
    [fixed * n] bytes. *)
Theorem ReadSamples_fixed_size (r : reader) (fuel : nat) (n : Z) :
  0 < mFixedSampleSize r ->
  mLastSampleRead r = false ->
  0 <= mSampleDataSize r <= BufferSize r ->
  (mMaxReadLength r =? 0) || (mTotalReadLength r <=? mMaxReadLength r) = true ->
  let fixed := mFixedSampleSize r in
  let target := uint32 (fixed * n) in
  let request := uint32 (target - BufferSize (shifted r)) in
  exists k r1,
    ReadBytes request (shifted r) = (Done k, r1)
    /\ ReadSamples CompleteSize fuel n r = (Done (BufferSize r1 / fixed), framed fixed target r1)
    /\ mNumSamples (framed fixed target r1) = BufferSize r1 / fixed
    /\ mSampleDataSize (framed fixed target r1) = uint32 (BufferSize r1 / fixed * fixed)
    /\ mSampleBuffer (framed fixed target r1)
       = firstn (Z.to_nat (uint32 (BufferSize r1 / fixed * fixed))) (mSampleBuffer r1)
    /\ (mLastSampleRead (framed fixed target r1) = true <-> BufferSize r1 < target)
    /\ (BufferSize r1 <= UINT32_MAX ->
        mSampleDataSize (framed fixed target r1) = BufferSize r1 / fixed * fixed
        /\ BufferSize (framed fixed target r1) = BufferSize r1 / fixed * fixed).
Proof.
  intros Hfixed Hlast Hsds Hcheck fixed target request.
  assert (Hcheck' : (mMaxReadLength (shifted r) =? 0)
                    || (mTotalReadLength (shifted r) <=? mMaxReadLength (shifted r)) = true)
    by exact Hcheck.
  destruct (ReadBytes_returns (shifted r) request Hcheck') as (k & r1 & Hread).
  pose proof (ReadBytes_frame _ _ _ _ Hread) as Hframe.
  destruct Hframe as (_ & _ & Hf & _ & _ & _ & _ & _ & _ & Hl).
  cbn in Hf, Hl.
  exists k, r1. split; [exact Hread |].
  assert (Hnum : 0 <= BufferSize r1 / fixed * fixed <= BufferSize r1).
  { assert (0 <= BufferSize r1) by (unfold BufferSize; lia).
    pose proof (Z.mul_div_le (BufferSize r1) fixed Hfixed).
    pose proof (Z.div_pos (BufferSize r1) fixed). nia. }
  split; [| split; [| split; [| split; [| split]]]].
  - unfold ReadSamples. run_monad. rewrite Hlast. run_monad.
    unfold ShiftSampleData. run_monad.
    replace (0 <=? mSampleDataSize r) with true by (symmetry; apply Z.leb_le; lia).
    run_monad.
    replace (mSampleDataSize r <=? BufferSize r) with true
      by (symmetry; apply Z.leb_le; lia).
    run_monad. cbn [mFixedSampleSize set_mNumSamples set_mSampleDataSize set_mSampleBuffer].
    replace (mFixedSampleSize r =? 0) with false by (symmetry; apply Z.eqb_neq; lia).
    change (Z.to_nat 0) with O. cbn [firstn app].
    fold (shifted r). fold fixed. fold target. fold request.
    rewrite Hread. run_monad. unfold SetSize. run_monad.
    unfold framed.
    destruct (BufferSize r1 <? target); run_monad; reflexivity.
  - unfold framed. cbn. reflexivity.
  - unfold framed. cbn. reflexivity.
  - unfold framed. cbn. reflexivity.
  - unfold framed. cbn [mLastSampleRead set_mSampleDataSize set_mSampleBuffer set_mNumSamples].
    destruct (BufferSize r1 <? target) eqn:E.
    + apply Z.ltb_lt in E. cbn. tauto.
    + apply Z.ltb_ge in E. rewrite Hl, Hlast. split; [discriminate | lia].
  - intros Hsmall.
    assert (Hw : uint32 (BufferSize r1 / fixed * fixed) = BufferSize r1 / fixed * fixed)
      by (apply uint32_small; lia).
    split.
    + unfold framed. cbn. exact Hw.
    + unfold framed, BufferSize at 1. cbn [mSampleBuffer set_mSampleDataSize set_mSampleBuffer].
      rewrite Hw, length_firstn. unfold BufferSize in *. lia.
Qed.
End Proofs.

(** *** Concrete readers *)

(** A ten-byte source read in samples of four bytes, a reader with a read
    budget of six bytes, and a reader whose last-sample flag is set. *)
Definition ten_bytes : list byte := repeat Byte.x2a 10.

Definition ten_byte_source : ListSource := mkListSource ten_bytes ten_bytes 0.

Definition no_complete_size : ParsedFrameSize -> Z -> option ParsedFrameSize :=
  fun _ _ => None.

Definition fixed_reader : @t ListSource FixedParser :=
  set_mFixedSampleSize 4 (new ten_byte_source).

Definition capped_reader : @t ListSource FixedParser :=
  set_mMaxReadLength 6 (new ten_byte_source).

Definition finished_reader : @t ListSource FixedParser :=
  set_mLastSampleRead true (set_mNumSamples 2 (set_mSampleDataSize 8 fixed_reader)).

Lemma ReadSamples_fixed_size_witness :
  exists k r1,
    ReadBytes (uint32 (uint32 (4 * 2) - 0)) (shifted fixed_reader) = (Done k, r1)
    /\ ReadSamples no_complete_size 0 2 fixed_reader
       = (Done (BufferSize r1 / 4), framed 4 (uint32 (4 * 2)) r1).
Proof.
  destruct (ReadSamples_fixed_size no_complete_size fixed_reader 0 2)
    as (k & r1 & Hread & Hsamples & _).
  - reflexivity.
  - reflexivity.
  - vm_compute. split; discriminate.
  - reflexivity.
  - exists k, r1. split; [exact Hread | exact Hsamples].
Defined.

Lemma max_read_length_respected_witness :
  mTotalReadLength
    (snd (run_calls no_complete_size
            [CallReadBytes 4; CallAppendBytes ten_bytes 10; CallReadBytes 4]
            capped_reader)) <= 6.
Proof.
  apply (max_read_length_respected no_complete_size
           [CallReadBytes 4; CallAppendBytes ten_bytes 10; CallReadBytes 4]
           capped_reader).
  - vm_compute. repeat split; discriminate.
  - repeat constructor; vm_compute; try discriminate; reflexivity.
Defined.

Lemma last_sample_read_is_final_witness :
  ReadSamples no_complete_size 0 2 finished_reader = (Done 0, finished_reader).
Proof.
  apply (last_sample_read_is_final no_complete_size finished_reader).
  reflexivity.
Defined.

(** The samples of the ten-byte source: two whole samples, then none and
    the last-sample flag; the capped reader stops at its six bytes. *)
Example fixed_reader_reads :
  let '(o1, r1) := ReadSamples no_complete_size 0 2 fixed_reader in
  let '(o2, r2) := ReadSamples no_complete_size 0 2 r1 in
  (o1, mSampleDataSize r1, mLastSampleRead r1, o2, BufferSize r2, mLastSampleRead r2)
  = (Done 2, 8, false, Done 0, 0, true).
Proof. vm_compute. reflexivity. Qed.

Example capped_reader_reads :
  fst (run_calls no_complete_size
         [CallReadBytes 4; CallAppendBytes ten_bytes 10; CallReadBytes 4]
         capped_reader)
  = [4; 2; 0].
Proof. vm_compute. reflexivity. Qed.

End RawEssenceReaderProofs.
(** ** RawEssenceReader: reading, counting and the setters *)

Module RawEssenceReaderFacts.

Import RawEssenceReader.
Import RawEssenceReaderProofs.

Section Facts.

Context {S P : Type} `{EssenceSource S} `{EssenceParser P}.
Variable CompleteSize : ParsedFrameSize -> Z -> option ParsedFrameSize.

Abbreviation reader := (@t S P).

(** The limit on the bytes read is off, or in force and respected. *)
Definition limit_ok (r : reader) : Prop :=
  (mMaxReadLength r = 0 /\ 0 <= mTotalReadLength r <= INT64_MAX - UINT32_MAX)
  \/ budget_ok r.

(** What [ReadBytes(size)] asks of the source. *)
Definition request (r : reader) (size : Z) : Z :=
  if mMaxReadLength r =? 0 then size else truncated r size.

Lemma request_range (r : reader) size :
  limit_ok r -> 0 <= size <= UINT32_MAX -> 0 <= request r size <= size.
Proof.
  intros [[Hmax Htot] | Hb] Hs; unfold request.
  - rewrite Hmax. cbn. lia.
  - destruct Hb as [[Hm1 Hm2] [Ht1 Ht2]].
    replace (mMaxReadLength r =? 0) with false by (symmetry; apply Z.eqb_neq; lia).
    unfold truncated, budget_left. lia.
Qed.

Lemma ReadBytes_request (r : reader) size :
  limit_ok r -> 0 <= size <= UINT32_MAX ->
  exists bytes r',
    ReadBytes size r = (Done (Z.of_nat (length bytes)), r')
    /\ mSampleBuffer r' = mSampleBuffer r ++ bytes
    /\ Z.of_nat (length bytes) <= request r size
    /\ mTotalReadLength r' = mTotalReadLength r + Z.of_nat (length bytes)
    /\ same_settings r r'
    /\ (request r size = 0 -> r' = r)
    /\ (request r size <> 0 ->
        bytes = fst (es_Read (mEssenceSource r) (request r size))
        /\ mEssenceSource r' = snd (es_Read (mEssenceSource r) (request r size))).
Proof.
  intros Hlimit Hs. pose proof (request_range r size Hlimit Hs) as Hreq.
  destruct Hlimit as [[Hmax Htot] | Hb].
  - unfold request in *. rewrite Hmax in *. cbn [Z.eqb] in *.
    unfold ReadBytes. run_monad. rewrite Hmax. cbn [Z.eqb orb Z.ltb Z.compare andb].
    run_monad.
    destruct (size =? 0) eqn:E0.
    + apply Z.eqb_eq in E0. exists [], r. cbn [length Z.of_nat]. rewrite app_nil_r.
      split; [reflexivity |]. split; [reflexivity |]. split; [lia |].
      split; [lia |]. split; [apply same_settings_refl |].
      split; [reflexivity | intros Hne; contradiction].
    + apply Z.eqb_neq in E0.
      pose proof (es_Read_bound (mEssenceSource r) size ltac:(lia)) as Hbound.
      destruct (es_Read (mEssenceSource r) size) as [bytes src'] eqn:Er.
      cbn [fst snd] in *.
      exists bytes. eexists. split; [reflexivity |]. cbn.
      rewrite sint64_small by (unfold INT64_MIN, INT64_MAX, UINT32_MAX in *; lia).
      split; [reflexivity |]. split; [lia |]. split; [reflexivity |].
      split; [unfold same_settings; cbn; tauto |].
      split; [intros Heq; contradiction | intros _; split; reflexivity].
  - assert (Hmax : (mMaxReadLength r =? 0) = false).
    { destruct Hb as [[Hm1 _] _]. apply Z.eqb_neq. lia. }
    unfold request in *. rewrite Hmax in *.
    destruct (ReadBytes_budget r size Hb Hs)
      as (k & r' & Hrun & Hk & _ & Htotal & Hzero & Hread).
    pose proof (ReadBytes_frame r size _ _ Hrun) as Hframe.
    destruct (Z.eq_dec (truncated r size) 0) as [E0 | E0].
    + exists [], r'. cbn [length Z.of_nat]. rewrite app_nil_r.
      assert (k = 0) by lia. subst k.
      rewrite (Hzero E0) in *.
      split; [exact Hrun |]. split; [reflexivity |]. split; [lia |].
      split; [lia |]. split; [apply same_settings_refl |].
      split; [reflexivity | intros Hne; contradiction].
    + destruct (Hread E0) as (Hsrc & Hbuf & Hlen).
      exists (fst (es_Read (mEssenceSource r) (truncated r size))), r'.
      rewrite <- Hlen.
      split; [exact Hrun |]. split; [exact Hbuf |]. split; [lia |].
      split; [exact Htotal |]. split; [exact Hframe |].
      split; [intros Heq; contradiction | intros _; split; [reflexivity | exact Hsrc]].
Qed.

(** [ReadBytes(size)] returns the number of bytes it appended to the
    sample buffer; these are the bytes the source delivered on a request of
    at most [size] bytes, and the total grows by their number.  The reader
    is otherwise unchanged, and untouched when nothing is requested. *)
Theorem ReadBytes_appends_what_it_returns (r : reader) (size : Z) :
  limit_ok r ->
  0 <= size <= UINT32_MAX ->
  exists bytes r',
    ReadBytes size r = (Done (Z.of_nat (length bytes)), r')
    /\ mSampleBuffer r' = mSampleBuffer r ++ bytes
    /\ BufferSize r' = BufferSize r + Z.of_nat (length bytes)
    /\ Z.of_nat (length bytes) <= size
    /\ mTotalReadLength r' = mTotalReadLength r + Z.of_nat (length bytes)
    /\ (mMaxReadLength r <> 0 -> mTotalReadLength r' <= mMaxReadLength r)
    /\ same_settings r r'
    /\ (size = 0 -> r' = r).
Proof.
  intros Hlimit Hs.
  pose proof (request_range r size Hlimit Hs) as Hreq.
  destruct (ReadBytes_request r size Hlimit Hs)
    as (bytes & r' & Hrun & Hbuf & Hlen & Htot & Hframe & Hzero & _).
  exists bytes, r'.
  split; [exact Hrun |]. split; [exact Hbuf |].
  split; [unfold BufferSize; rewrite Hbuf, length_app; lia |].
  split; [lia |]. split; [exact Htot |].
  split.
  - intros Hmax. destruct Hlimit as [[Hoff _] | Hb]; [contradiction |].
    unfold request in Hlen.
    replace (mMaxReadLength r =? 0) with false in Hlen by (symmetry; apply Z.eqb_neq; lia).
    unfold truncated, budget_left in Hlen. lia.
  - split; [exact Hframe |]. intros Hsize. apply Hzero. lia.
Qed.

(** [AppendBytes(bytes, size)] appends the first bytes of [bytes], as many
    as it returns: [size] of them, or what is left of the read limit when
    that is less.  The total grows by the count returned and the essence
    source is not touched. *)
Theorem AppendBytes_appends_a_prefix (r : reader) (bytes : list byte) (size : Z) :
  limit_ok r ->
  0 <= size <= UINT32_MAX ->
  size <= Z.of_nat (length bytes) ->
  exists r',
    AppendBytes bytes size r = (Done (request r size), r')
    /\ mSampleBuffer r' = mSampleBuffer r ++ firstn (Z.to_nat (request r size)) bytes
    /\ BufferSize r' = BufferSize r + request r size
    /\ mTotalReadLength r' = mTotalReadLength r + request r size
    /\ mEssenceSource r' = mEssenceSource r
    /\ same_settings r r'.
Proof.
  intros Hlimit Hs Hbytes. pose proof (request_range r size Hlimit Hs) as Hreq.
  assert (Hgrow : forall r' : reader,
            mSampleBuffer r' = mSampleBuffer r ++ firstn (Z.to_nat (request r size)) bytes ->
            BufferSize r' = BufferSize r + request r size).
  { intros r' Hbuf. unfold BufferSize. rewrite Hbuf, length_app, length_firstn. lia. }
  destruct Hlimit as [[Hmax Htot] | Hb].
  - unfold request in *. rewrite Hmax in *. cbn [Z.eqb] in *.
    unfold AppendBytes. run_monad. rewrite Hmax. cbn [Z.eqb orb Z.ltb Z.compare andb].
    run_monad.
    destruct (size =? 0) eqn:E0.
    + apply Z.eqb_eq in E0. exists r. subst size. cbn [Z.to_nat firstn].
      rewrite app_nil_r.
      split; [reflexivity |]. split; [reflexivity |]. split; [lia |].
      split; [lia |]. split; [reflexivity | apply same_settings_refl].
    + eexists. split; [reflexivity |]. cbn.
      rewrite sint64_small by (unfold INT64_MIN, INT64_MAX, UINT32_MAX in *; lia).
      split; [reflexivity |]. split; [apply Hgrow; reflexivity |].
      split; [reflexivity |]. split; [reflexivity |].
      unfold same_settings. cbn. tauto.
  - assert (Hmax : (mMaxReadLength r =? 0) = false).
    { destruct Hb as [[Hm1 _] _]. apply Z.eqb_neq. lia. }
    unfold request in *. rewrite Hmax in *.
    destruct (AppendBytes_budget r bytes size Hb Hs)
      as (r' & Hrun & _ & Htotal & Hsrc & _ & Hbuf).
    exists r'. split; [exact Hrun |]. split; [exact Hbuf |].
    split; [apply Hgrow; exact Hbuf |]. split; [exact Htotal |].
    split; [exact Hsrc |]. apply (AppendBytes_frame r bytes size _ _ Hrun).
Qed.

(** [SetFrameStartSize(len)] and [SetReadBlockSize(len)] take an
    [int64_t] and check only that it is not above [UINT32_MAX]: a greater
    length raises an exception and leaves the reader as it is, a length
    from 0 to [UINT32_MAX] is stored, and a negative length passes the
    check and is stored converted to [uint32_t], that is, [2^32] greater. *)
Theorem block_size_setters (r : reader) (len : Z) :
  (UINT32_MAX < len ->
   (exists e, SetFrameStartSize len r = (Throw e, r))
   /\ (exists e, SetReadBlockSize len r = (Throw e, r)))
  /\ (0 <= len <= UINT32_MAX ->
      SetFrameStartSize len r = (Done tt, set_mFrameStartSize len r)
      /\ SetReadBlockSize len r = (Done tt, set_mReadBlockSize len r))
  /\ (- 2 ^ 32 <= len < 0 ->
      SetFrameStartSize len r = (Done tt, set_mFrameStartSize (len + 2 ^ 32) r)
      /\ SetReadBlockSize len r = (Done tt, set_mReadBlockSize (len + 2 ^ 32) r)).
Proof.
  unfold SetFrameStartSize, SetReadBlockSize. run_monad.
  split; [| split].
  - intros Hlen.
    replace (len <=? UINT32_MAX) with false by (symmetry; apply Z.leb_gt; exact Hlen).
    run_monad. split; eexists; reflexivity.
  - intros Hlen.
    replace (len <=? UINT32_MAX) with true by (symmetry; apply Z.leb_le; lia).
    run_monad. rewrite uint32_small by exact Hlen. split; reflexivity.
  - intros Hlen.
    replace (len <=? UINT32_MAX) with true
      by (symmetry; apply Z.leb_le; unfold UINT32_MAX; lia).
    run_monad.
    replace (uint32 len) with (len + 2 ^ 32); [split; reflexivity |].
    unfold uint32. apply Z.mod_unique with (q := -1); lia.
Qed.

(** **** Samples of a fixed size *)

(** [ReadSamples(n)] with a fixed sample size, on a reader whose buffer
    holds nothing beyond the samples of the previous read. *)
Lemma ReadSamples_fixed_whole (r : reader) (fuel : nat) (n : Z) :
  0 < mFixedSampleSize r ->
  mLastSampleRead r = false ->
  mSampleDataSize r = BufferSize r ->
  limit_ok r ->
  0 <= n ->
  mFixedSampleSize r * n <= UINT32_MAX ->
  exists len r',
    ReadSamples CompleteSize fuel n r = (Done (len / mFixedSampleSize r), r')
    /\ 0 <= len <= mFixedSampleSize r * n
    /\ mNumSamples r' = len / mFixedSampleSize r
    /\ mSampleDataSize r' = len / mFixedSampleSize r * mFixedSampleSize r
    /\ BufferSize r' = len / mFixedSampleSize r * mFixedSampleSize r
    /\ mFixedSampleSize r' = mFixedSampleSize r
    /\ mLastSampleRead r' = (len <? mFixedSampleSize r * n).
Proof.
  intros Hfixed Hlast Hwhole Hlimit Hn Hbound.
  set (fixed := mFixedSampleSize r) in *.
  assert (Hsize0 : 0 <= BufferSize r) by (unfold BufferSize; lia).
  assert (Hempty : mSampleBuffer (shifted r) = []).
  { unfold shifted. cbn. rewrite Hwhole. unfold BufferSize.
    rewrite Nat2Z.id. apply skipn_all. }
  assert (Hlimit' : limit_ok (shifted r)) by exact Hlimit.
  assert (Htarget : 0 <= fixed * n <= UINT32_MAX) by (split; [nia | lia]).
  destruct (ReadBytes_request (shifted r) (fixed * n) Hlimit' Htarget)
    as (bytes & r1 & Hrun & Hbuf & Hlen & _ & Hframe & _).
  pose proof (request_range (shifted r) (fixed * n) Hlimit' Htarget) as Hreq.
  rewrite Hempty in Hbuf. cbn [app] in Hbuf.
  set (len := Z.of_nat (length bytes)) in *.
  assert (Hlen0 : 0 <= len) by (unfold len; lia).
  assert (Hsize1 : BufferSize r1 = len) by (unfold BufferSize; rewrite Hbuf; reflexivity).
  destruct Hframe as (_ & _ & Hf & _ & _ & _ & _ & _ & _ & Hl).
  cbn in Hf, Hl.
  assert (Hnum : 0 <= len / fixed * fixed <= len).
  { pose proof (Z.mul_div_le len fixed Hfixed).
    pose proof (Z.div_pos len fixed Hlen0 Hfixed). nia. }
  assert (Hw : uint32 (len / fixed * fixed) = len / fixed * fixed)
    by (apply uint32_small; lia).
  exists len, (framed fixed (uint32 (fixed * n)) r1).
  split.
  - unfold ReadSamples. run_monad. rewrite Hlast. run_monad.
    unfold ShiftSampleData. run_monad.
    replace (0 <=? mSampleDataSize r) with true by (symmetry; apply Z.leb_le; lia).
    run_monad.
    replace (mSampleDataSize r <=? BufferSize r) with true
      by (symmetry; apply Z.leb_le; lia).
    run_monad. cbn [mFixedSampleSize set_mNumSamples set_mSampleDataSize set_mSampleBuffer].
    fold fixed.
    replace (fixed =? 0) with false by (symmetry; apply Z.eqb_neq; lia).
    change (Z.to_nat 0) with O. cbn [firstn app].
    fold (shifted r).
    replace (BufferSize (shifted r)) with 0 by (unfold BufferSize; rewrite Hempty; reflexivity).
    rewrite (uint32_small (fixed * n)) by exact Htarget.
    rewrite Z.sub_0_r, (uint32_small (fixed * n)) by exact Htarget.
    rewrite Hrun. run_monad. unfold SetSize. run_monad.
    rewrite Hsize1. unfold framed. rewrite Hsize1.
    destruct (len <? fixed * n); run_monad; reflexivity.
  - rewrite (uint32_small (fixed * n)) by exact Htarget.
    unfold framed. rewrite Hsize1.
    split; [lia |]. split; [reflexivity |]. split; [cbn; exact Hw |].
    split.
    + unfold BufferSize at 1. cbn [mSampleBuffer set_mSampleDataSize set_mSampleBuffer].
      rewrite Hw, length_firstn.
      replace (length (mSampleBuffer (set_mNumSamples (len / fixed)
                 (if len <? fixed * n then set_mLastSampleRead true r1 else r1))))
        with (length (mSampleBuffer r1)) by (destruct (len <? fixed * n); reflexivity).
      rewrite Hbuf. fold len. unfold len in *. lia.
    + split.
      * cbn. destruct (len <? fixed * n); cbn; exact Hf.
      * cbn. destruct (len <? fixed * n); cbn; [reflexivity | rewrite Hl; exact Hlast].
Qed.

(** With a fixed sample size, [ReadSamples(n)] returns at most [n]
    samples, and fewer than [n] exactly when it sets the last-sample flag:
    a short count means the essence has ended.  The buffer then holds the
    samples returned and nothing else. *)
Theorem ReadSamples_fixed_short_count (r : reader) (fuel : nat) (n : Z) :
  0 < mFixedSampleSize r ->
  mLastSampleRead r = false ->
  mSampleDataSize r = BufferSize r ->
  limit_ok r ->
  0 <= n ->
  mFixedSampleSize r * n <= UINT32_MAX ->
  exists k r',
    ReadSamples CompleteSize fuel n r = (Done k, r')
    /\ 0 <= k <= n
    /\ (k < n <-> mLastSampleRead r' = true)
    /\ mNumSamples r' = k
    /\ BufferSize r' = k * mFixedSampleSize r
    /\ mSampleDataSize r' = BufferSize r'.
Proof.
  intros Hfixed Hlast Hwhole Hlimit Hn Hbound.
  destruct (ReadSamples_fixed_whole r fuel n Hfixed Hlast Hwhole Hlimit Hn Hbound)
    as (len & r' & Hrun & Hlen & Hnum & Hdata & Hsize & _ & Hflag).
  set (fixed := mFixedSampleSize r) in *.
  exists (len / fixed), r'.
  split; [exact Hrun |].
  assert (Hk : 0 <= len / fixed) by (apply Z.div_pos; lia).
  assert (Hiff : len / fixed < n <-> len < fixed * n).
  { split; intros Hlt.
    - pose proof (Z.mul_succ_div_gt len fixed Hfixed). nia.
    - apply Z.div_lt_upper_bound; lia. }
  split; [| split; [| split; [exact Hnum | split; [exact Hsize | congruence]]]].
  - split; [exact Hk |].
    destruct (Z.eq_dec len (fixed * n)) as [E | E].
    + rewrite E, Z.mul_comm, Z.div_mul by lia. lia.
    + assert (len / fixed < n) by (apply Hiff; lia). lia.
  - rewrite Hflag, Hiff. symmetry. apply Z.ltb_lt.
Qed.

(** After [ReadSamples(n)] with a fixed sample size has returned a
    positive count, [GetSampleSize()] returns the fixed sample size; after
    it has returned 0, [GetSampleSize()] fails its check. *)
Theorem GetSampleSize_after_fixed_read (r : reader) (fuel : nat) (n : Z) :
  0 < mFixedSampleSize r ->
  mLastSampleRead r = false ->
  mSampleDataSize r = BufferSize r ->
  limit_ok r ->
  0 <= n ->
  mFixedSampleSize r * n <= UINT32_MAX ->
  exists k r',
    ReadSamples CompleteSize fuel n r = (Done k, r')
    /\ (0 < k -> GetSampleSize r' = (Done (mFixedSampleSize r), r'))
    /\ (k = 0 -> exists e, GetSampleSize r' = (Throw e, r')).
Proof.
  intros Hfixed Hlast Hwhole Hlimit Hn Hbound.
  destruct (ReadSamples_fixed_whole r fuel n Hfixed Hlast Hwhole Hlimit Hn Hbound)
    as (len & r' & Hrun & Hlen & Hnum & Hdata & _ & Hfix & _).
  set (fixed := mFixedSampleSize r) in *.
  exists (len / fixed), r'.
  split; [exact Hrun |]. split.
  - intros Hk. unfold GetSampleSize. run_monad. rewrite Hnum, Hfix.
    replace (0 <? len / fixed) with true by (symmetry; apply Z.ltb_lt; exact Hk).
    replace (0 <? fixed) with true by (symmetry; apply Z.ltb_lt; exact Hfixed).
    cbn [andb orb]. cbv beta iota.
    rewrite Hdata, (Z.mul_comm (len / fixed) fixed), Z.div_mul by lia.
    reflexivity.
  - intros Hk. unfold GetSampleSize. run_monad. rewrite Hnum, Hk.
    cbn [Z.ltb Z.compare andb]. cbv beta iota. eexists. reflexivity.
Qed.

(** **** Samples found by the parser *)

(** The sample count and the last-sample flag. *)
Definition counters (r : reader) : Z * bool := (mNumSamples r, mLastSampleRead r).

Lemma ReadBytes_counters (r : reader) size o r1 :
  ReadBytes size r = (o, r1) -> counters r1 = counters r.
Proof.
  intros Hrun. apply ReadBytes_frame in Hrun.
  destruct Hrun as (_ & _ & _ & _ & _ & Hn & _ & _ & _ & Hl).
  unfold counters. rewrite Hn, Hl. reflexivity.
Qed.

Lemma with_parser_counters {A : Type} (f : P -> A * P) (r : reader) o r1 :
  with_parser f r = (o, r1) -> counters r1 = counters r.
Proof.
  unfold with_parser. run_monad. destruct (mEssenceParser r) as [p |].
  - destruct (f p) as [a p']. run_monad. intros Heq. inversion Heq. reflexivity.
  - intros Heq. inversion Heq. reflexivity.
Qed.

Lemma ShiftSampleData_counters (r : reader) to_offset from_offset o r1 :
  ShiftSampleData to_offset from_offset r = (o, r1) -> counters r1 = counters r.
Proof.
  unfold ShiftSampleData. run_monad.
  destruct (to_offset <=? from_offset); run_monad;
    [| intros Heq; inversion Heq; reflexivity].
  destruct (from_offset <=? BufferSize r); run_monad;
    intros Heq; inversion Heq; reflexivity.
Qed.

Lemma parse_size_loop_counters (fuel : nat) :
  forall sample_start_offset sample_num_read (r : reader) o r1,
    parse_size_loop fuel sample_start_offset sample_num_read r = (o, r1) ->
    counters r1 = counters r.
Proof.
  induction fuel as [| fuel IH]; intros start num_read r o r1; cbn [parse_size_loop].
  - unfold out_of_fuel. intros Heq. inversion Heq. reflexivity.
  - unfold bind at 1, gets at 1. cbn beta iota. unfold bind at 1.
    destruct (with_parser _ r) as [[sample_size | e |] r2] eqn:Ep;
      apply with_parser_counters in Ep;
      [| intros Heq; inversion Heq; subst; exact Ep
       | intros Heq; inversion Heq; subst; exact Ep].
    destruct (negb (IsUnknown sample_size)).
    + unfold ret. intros Heq. inversion Heq. subst. exact Ep.
    + run_monad.
      destruct ((mMaxSampleSize r2 =? 0) || _); run_monad;
        [| intros Heq; inversion Heq; subst; exact Ep].
      destruct (ReadBytes (mReadBlockSize r2) r2) as [[k | e |] r3] eqn:Er;
        apply ReadBytes_counters in Er;
        [| intros Heq; inversion Heq; subst; congruence
         | intros Heq; inversion Heq; subst; congruence].
      destruct (k =? 0).
      * intros Heq. inversion Heq. subst. congruence.
      * intros Heq. apply IH in Heq. congruence.
Qed.

Ltac split_calls :=
  repeat (cbv beta iota;
          match goal with
          | |- context [ReadBytes ?n ?s] =>
              let E := fresh "E" in
              destruct (ReadBytes n s) as [[? | ? |] ?] eqn:E;
              apply ReadBytes_counters in E
          | |- context [with_parser ?f ?s] =>
              let E := fresh "E" in
              destruct (with_parser f s) as [[? | ? |] ?] eqn:E;
              apply with_parser_counters in E
          | |- context [ShiftSampleData ?a ?b ?s] =>
              let E := fresh "E" in
              destruct (ShiftSampleData a b s) as [[? | ? |] ?] eqn:E;
              apply ShiftSampleData_counters in E
          | |- context [parse_size_loop ?f ?a ?b ?s] =>
              let E := fresh "E" in
              destruct (parse_size_loop f a b s) as [[[? ?] | ? |] ?] eqn:E;
              apply parse_size_loop_counters in E
          | |- context [if ?c then _ else _] => destruct c
          | |- context [match ?x with Some _ => _ | None => _ end] => destruct x
          end).

Ltac use_counters :=
  repeat match goal with
         | E : counters _ = counters _ |- _ =>
             unfold counters in E; inversion E; clear E
         end.

Lemma ReadAndParseSample_counters (fuel : nat) (r : reader) b r1 :
  ReadAndParseSample CompleteSize fuel r = (Done b, r1) ->
  (b = true -> counters r1 = (uint32 (mNumSamples r + 1), mLastSampleRead r))
  /\ (b = false ->
      mLastSampleRead r1 = true
      /\ (mNumSamples r1 = mNumSamples r \/ mNumSamples r1 = uint32 (mNumSamples r + 1))).
Proof.
  unfold ReadAndParseSample. run_monad. split_calls;
    intros Heq; inversion Heq; subst; clear Heq; use_counters;
    (split; intros Hb; try discriminate Hb; unfold counters; cbn;
     first [ f_equal; congruence
           | split; [reflexivity | (left; congruence) || (right; congruence)] ]).
Qed.

Lemma read_parse_loop_count (fuel : nat) (count : nat) :
  forall (r r' : reader),
    read_parse_loop CompleteSize fuel count r = (Done tt, r') ->
    0 <= mNumSamples r ->
    mNumSamples r + Z.of_nat count <= UINT32_MAX ->
    mNumSamples r <= mNumSamples r' <= mNumSamples r + Z.of_nat count
    /\ (mNumSamples r' < mNumSamples r + Z.of_nat count -> mLastSampleRead r' = true).
Proof.
  induction count as [| count IH]; intros r r' Hrun Hpos Hmax; cbn [read_parse_loop] in Hrun.
  - unfold ret in Hrun. inversion Hrun. subst. cbn. lia.
  - apply bind_Done in Hrun. destruct Hrun as (more & r1 & Hstep & Hrun).
    apply ReadAndParseSample_counters in Hstep. destruct Hstep as [Htrue Hfalse].
    destruct more.
    + specialize (Htrue eq_refl). unfold counters in Htrue. inversion Htrue as [[Hn Hl]].
      rewrite uint32_small in Hn by (unfold UINT32_MAX in *; lia).
      destruct (IH r1 r' Hrun) as [Hle Hflag]; [lia | lia |].
      rewrite Hn in *. split; [lia |]. intros Hlt. apply Hflag. lia.
    + unfold ret in Hrun. inversion Hrun. subst r'.
      destruct (Hfalse eq_refl) as [Hl [Hn | Hn]].
      * rewrite Hn. split; [lia | intros _; exact Hl].
      * rewrite Hn, uint32_small by (unfold UINT32_MAX in *; lia).
        split; [lia | intros _; exact Hl].
Qed.

(** Without a fixed sample size, [ReadSamples(n)] returns at most [n]
    samples, the number it leaves in [mNumSamples], and whenever it returns
    fewer than [n] it has set the last-sample flag. *)
Theorem ReadSamples_parsed_short_count (r : reader) (fuel : nat) (n k : Z) (r' : reader) :
  mFixedSampleSize r = 0 ->
  0 <= n <= UINT32_MAX ->
  ReadSamples CompleteSize fuel n r = (Done k, r') ->
  (mLastSampleRead r = true -> k = 0 /\ r' = r)
  /\ (mLastSampleRead r = false ->
      0 <= k <= n
      /\ mNumSamples r' = k
      /\ (k < n -> mLastSampleRead r' = true)).
Proof.
  intros Hfixed Hn Hrun. unfold ReadSamples in Hrun.
  unfold bind at 1, gets at 1 in Hrun. cbn beta iota in Hrun.
  destruct (mLastSampleRead r) eqn:Hlast.
  - unfold ret in Hrun. inversion Hrun. split; [tauto | discriminate].
  - split; [discriminate | intros _].
    unfold bind at 1, gets at 1 in Hrun. cbn beta iota in Hrun.
    apply bind_Done in Hrun. destruct Hrun as ([] & r1 & Hshift & Hrun).
    assert (Hfixed1 : mFixedSampleSize r1 = 0).
    { unfold ShiftSampleData in Hshift. revert Hshift. run_monad.
      destruct (0 <=? mSampleDataSize r); run_monad; [| discriminate].
      destruct (mSampleDataSize r <=? BufferSize r); run_monad; [| discriminate].
      intros Heq. inversion Heq. cbn. exact Hfixed. }
    clear Hshift. revert Hrun. run_monad.
    cbn [mFixedSampleSize set_mNumSamples set_mSampleDataSize].
    rewrite Hfixed1. cbn [Z.eqb].
    destruct (read_parse_loop CompleteSize fuel (Z.to_nat n) _) as [[[] | e |] r2] eqn:Hloop;
      [| discriminate | discriminate].
    intros Heq. inversion Heq. subst.
    apply read_parse_loop_count in Hloop; cbn [mNumSamples set_mNumSamples] in *;
      rewrite ?Z2Nat.id in * by lia; [| lia | lia].
    destruct Hloop as [Hle Hflag].
    split; [lia |]. split; [reflexivity |]. intros Hlt. apply Hflag. lia.
Qed.

(** **** Termination under a read limit *)

(** A read limit is in force and respected, and the block sizes are
    [uint32_t] values. *)
Definition limited (r : reader) : Prop :=
  budget_ok r
  /\ 0 <= mReadBlockSize r <= UINT32_MAX
  /\ 0 <= mFrameStartSize r <= UINT32_MAX.

Lemma ReadBytes_ends (r : reader) size o r1 :
  ReadBytes size r = (o, r1) -> o <> OutOfFuel.
Proof.
  unfold ReadBytes. run_monad.
  destruct ((mMaxReadLength r =? 0) || _); run_monad; [| intros Heq; inversion Heq; discriminate].
  match goal with |- context [if ?c =? 0 then _ else _] => destruct (c =? 0) end.
  - intros Heq. inversion Heq. discriminate.
  - match goal with |- context [es_Read ?a ?b] => destruct (es_Read a b) as [bytes src'] end.
    intros Heq. inversion Heq. discriminate.
Qed.

Lemma ReadBytes_limited (r : reader) size o r1 :
  limited r ->
  0 <= size <= UINT32_MAX ->
  ReadBytes size r = (o, r1) ->
  limited r1
  /\ budget_left r1 <= budget_left r
  /\ exists k, o = Done k /\ budget_left r1 = budget_left r - k /\ 0 <= k.
Proof.
  intros (Hb & Hblock & Hstart) Hs Hrun.
  pose proof (ReadBytes_frame r size _ _ Hrun) as Hframe.
  destruct (ReadBytes_budget r size Hb Hs) as (k & r' & Hrun' & Hk & Hmax & Htot & _).
  rewrite Hrun in Hrun'. inversion Hrun'. subst o r'.
  destruct Hframe as (_ & _ & _ & _ & _ & _ & Hfs & Hbs & _).
  assert (Hle : truncated r size <= budget_left r) by (unfold truncated; lia).
  unfold limited, budget_ok, budget_left in *. rewrite Hmax, Htot, Hfs, Hbs.
  split; [| split; [lia | exists k; split; [reflexivity | lia]]].
  destruct Hb as [[Hm1 Hm2] [Ht1 Ht2]]. lia.
Qed.

Lemma with_parser_limited {A : Type} (f : P -> A * P) (r : reader) o r1 :
  with_parser f r = (o, r1) ->
  o <> OutOfFuel
  /\ (limited r -> limited r1 /\ budget_left r1 <= budget_left r).
Proof.
  unfold with_parser. run_monad. destruct (mEssenceParser r) as [p |].
  - destruct (f p) as [a p']. run_monad. intros Heq. inversion Heq.
    split; [discriminate |]. intros Hl. split; [exact Hl |]. unfold budget_left. cbn. lia.
  - intros Heq. inversion Heq. subst.
    split; [discriminate |]. intros Hl. split; [exact Hl | lia].
Qed.

Lemma ShiftSampleData_limited (r : reader) to_offset from_offset o r1 :
  ShiftSampleData to_offset from_offset r = (o, r1) ->
  o <> OutOfFuel
  /\ (limited r -> limited r1 /\ budget_left r1 <= budget_left r).
Proof.
  unfold ShiftSampleData. run_monad.
  destruct (to_offset <=? from_offset); run_monad;
    [| intros Heq; inversion Heq; subst; split; [discriminate | intros Hl; split; [exact Hl | lia]]].
  destruct (from_offset <=? BufferSize r); run_monad;
    intros Heq; inversion Heq; subst;
    (split; [discriminate | intros Hl; split; [exact Hl | unfold budget_left; cbn; lia]]).
Qed.

(** The loop that grows the buffer ends within as many rounds as bytes
    are left of the limit, and one more. *)
Lemma parse_size_loop_limited (fuel : nat) :
  forall sample_start_offset sample_num_read (r : reader) o r1,
    limited r ->
    (Z.to_nat (budget_left r) < fuel)%nat ->
    parse_size_loop fuel sample_start_offset sample_num_read r = (o, r1) ->
    o <> OutOfFuel /\ limited r1 /\ budget_left r1 <= budget_left r.
Proof.
  induction fuel as [| fuel IH]; intros start num_read r o r1 Hl Hfuel; [lia |].
  cbn [parse_size_loop].
  unfold bind at 1, gets at 1. cbn beta iota. unfold bind at 1.
  destruct (with_parser _ r) as [[sample_size | e |] r2] eqn:Ep;
    apply with_parser_limited in Ep; destruct Ep as [Hne Hp];
    destruct (Hp Hl) as [Hl2 Hle2];
    [| intros Heq; inversion Heq; subst; split; [discriminate | tauto]
     | contradiction Hne; reflexivity].
  destruct (negb (IsUnknown sample_size)).
  - unfold ret. intros Heq. inversion Heq. subst. split; [discriminate | tauto].
  - run_monad.
    destruct ((mMaxSampleSize r2 =? 0) || _); run_monad;
      [| intros Heq; inversion Heq; subst; split; [discriminate | tauto]].
    destruct (ReadBytes (mReadBlockSize r2) r2) as [o3 r3] eqn:Er.
    apply ReadBytes_limited in Er; [| exact Hl2 | apply Hl2].
    destruct Er as (Hl3 & Hle3 & k & Ho & Hleft & Hk). subst o3.
    destruct (k =? 0) eqn:E0.
    + intros Heq. inversion Heq. subst. split; [discriminate |]. split; [exact Hl3 | lia].
    + apply Z.eqb_neq in E0. intros Heq.
      apply IH in Heq; [| exact Hl3 |].
      * destruct Heq as (Hne' & Hl' & Hle'). split; [exact Hne' |]. split; [exact Hl' | lia].
      * assert (0 <= budget_left r3).
        { destruct Hl3 as [[_ [_ Ht]] _]. unfold budget_left. lia. }
        lia.
Qed.

Ltac size_in_range :=
  first [ apply uint32_range
        | match goal with Hl : limited ?s |- _ <= mFrameStartSize ?s <= _ => apply Hl end
        | match goal with Hl : limited ?s |- _ <= mReadBlockSize ?s <= _ => apply Hl end ].

Ltac left_of_limit :=
  unfold budget_left in *;
  cbn [mMaxReadLength mTotalReadLength set_mReadFirstSample set_mLastSampleRead
       set_mNumSamples set_mSampleDataSize set_mSampleBuffer] in *;
  lia.

Ltac split_limited :=
  repeat (cbv beta iota;
          match goal with
          | |- context [ReadBytes ?n ?s] =>
              let E := fresh "E" in
              let o' := fresh "o" in
              destruct (ReadBytes n s) as [o' ?] eqn:E;
              apply ReadBytes_limited in E; [| assumption | size_in_range];
              let k := fresh "k" in
              let Ho := fresh "Ho" in
              destruct E as (? & ? & k & Ho & _ & _); subst o'
          | |- context [with_parser ?f ?s] =>
              let E := fresh "E" in
              let Hne := fresh "Hne" in
              let Hp := fresh "Hp" in
              let Hl := fresh "Hl" in
              assert (Hl : limited s) by assumption;
              destruct (with_parser f s) as [[? | ? |] ?] eqn:E;
              apply with_parser_limited in E; destruct E as [Hne Hp];
              [| | contradiction Hne; reflexivity];
              destruct (Hp Hl) as [? ?]; clear Hp Hne
          | |- context [ShiftSampleData ?a ?b ?s] =>
              let E := fresh "E" in
              let Hne := fresh "Hne" in
              let Hp := fresh "Hp" in
              let Hl := fresh "Hl" in
              assert (Hl : limited s) by assumption;
              destruct (ShiftSampleData a b s) as [[? | ? |] ?] eqn:E;
              apply ShiftSampleData_limited in E; destruct E as [Hne Hp];
              [| | contradiction Hne; reflexivity];
              destruct (Hp Hl) as [? ?]; clear Hp Hne
          | |- context [parse_size_loop ?f ?a ?b ?s] =>
              let E := fresh "E" in
              let Hne := fresh "Hne" in
              destruct (parse_size_loop f a b s) as [[[? ?] | ? |] ?] eqn:E;
              (apply parse_size_loop_limited in E; [| assumption | left_of_limit]);
              destruct E as (Hne & ? & ?);
              [| | contradiction Hne; reflexivity]; clear Hne
          | |- context [if ?c then _ else _] => destruct c
          | |- context [match ?x with Some _ => _ | None => _ end] => destruct x
          end).

Lemma ReadAndParseSample_limited (fuel : nat) (r : reader) o r1 :
  limited r ->
  (Z.to_nat (budget_left r) < fuel)%nat ->
  ReadAndParseSample CompleteSize fuel r = (o, r1) ->
  o <> OutOfFuel /\ limited r1 /\ budget_left r1 <= budget_left r.
Proof.
  intros Hl Hfuel. unfold ReadAndParseSample. run_monad. split_limited;
    intros Heq; inversion Heq; subst; clear Heq;
    (split; [discriminate |]);
    (split; [assumption | left_of_limit]).
Qed.

Lemma read_parse_loop_limited (fuel : nat) (count : nat) :
  forall (r : reader) o r1,
    limited r ->
    (Z.to_nat (budget_left r) < fuel)%nat ->
    read_parse_loop CompleteSize fuel count r = (o, r1) ->
    o <> OutOfFuel /\ limited r1 /\ budget_left r1 <= budget_left r.
Proof.
  induction count as [| count IH]; intros r o r1 Hl Hfuel; cbn [read_parse_loop].
  - unfold ret. intros Heq. inversion Heq. subst. split; [discriminate |]. split; [exact Hl | lia].
  - unfold bind.
    destruct (ReadAndParseSample CompleteSize fuel r) as [o2 r2] eqn:Es.
    apply (ReadAndParseSample_limited fuel r o2 r2 Hl Hfuel) in Es.
    destruct Es as (Hne & Hl2 & Hle2).
    destruct o2 as [more | e |]; [| | contradiction Hne; reflexivity].
    + destruct more.
      * intros Heq. apply IH in Heq; [| exact Hl2 | lia].
        destruct Heq as (Hne' & Hl' & Hle'). split; [exact Hne' |]. split; [exact Hl' | lia].
      * unfold ret. intros Heq. inversion Heq. subst. split; [discriminate | tauto].
    + intros Heq. inversion Heq. subst. split; [discriminate | tauto].
Qed.

(** With a read limit in force, [ReadSamples] ends: given as many rounds
    of the loop that grows the buffer as bytes are left of the limit, and
    one more, it returns a count or raises an exception, and leaves the
    reader within its limit. *)
Theorem ReadSamples_ends_under_limit (r : reader) (fuel : nat) (n : Z) :
  limited r ->
  (Z.to_nat (budget_left r) < fuel)%nat ->
  fst (ReadSamples CompleteSize fuel n r) <> OutOfFuel
  /\ limited (snd (ReadSamples CompleteSize fuel n r))
  /\ budget_left (snd (ReadSamples CompleteSize fuel n r)) <= budget_left r.
Proof.
  intros Hl Hfuel.
  assert (Hgoal : forall o r', ReadSamples CompleteSize fuel n r = (o, r') ->
                    o <> OutOfFuel /\ limited r' /\ budget_left r' <= budget_left r).
  { intros o r'. unfold ReadSamples.
    unfold bind at 1, gets at 1. cbn beta iota.
    destruct (mLastSampleRead r).
    - unfold ret. intros Heq. inversion Heq. subst.
      split; [discriminate |]. split; [exact Hl | lia].
    - unfold bind at 1, gets at 1. cbn beta iota. unfold bind at 1.
      destruct (ShiftSampleData 0 (mSampleDataSize r) r) as [[[] | e |] r1] eqn:Eshift;
        apply ShiftSampleData_limited in Eshift; destruct Eshift as [Hne Hp];
        destruct (Hp Hl) as [Hl1 Hle1];
        [| intros Heq; inversion Heq; subst; split; [discriminate | tauto]
         | contradiction Hne; reflexivity].
      run_monad.
      cbn [mFixedSampleSize set_mNumSamples set_mSampleDataSize].
      destruct (mFixedSampleSize r1 =? 0).
      + destruct (read_parse_loop _ _ _ _) as [o2 r2] eqn:Eloop.
        apply read_parse_loop_limited in Eloop; [| exact Hl1 | left_of_limit].
        destruct Eloop as (Hne2 & Hl2 & Hle2).
        destruct o2 as [[] | e |]; [| | contradiction Hne2; reflexivity];
          intros Heq; inversion Heq; subst;
          (split; [discriminate |]); (split; [exact Hl2 | left_of_limit]).
      + destruct (ReadBytes _ _) as [o2 r2] eqn:Eread.
        apply ReadBytes_limited in Eread; [| exact Hl1 | apply uint32_range].
        destruct Eread as (Hl2 & Hle2 & k & Ho & _ & _). subst o2.
        unfold SetSize. run_monad.
        destruct (BufferSize r2 <? _); run_monad;
          intros Heq; inversion Heq; subst;
          (split; [discriminate |]); (split; [exact Hl2 | left_of_limit]). }
  destruct (ReadSamples CompleteSize fuel n r) as [o r'] eqn:Erun.
  destruct (Hgoal o r' eq_refl) as (Hne & Hl' & Hle).
  cbn [fst snd]. split; [exact Hne |]. split; [exact Hl' | exact Hle].
Qed.

End Facts.

(** *** Concrete readers *)

(** The ten-byte source read by a parser of four-byte frames, without and
    with a read limit of six bytes. *)
Definition parsing_reader : @t ListSource FixedParser :=
  set_mEssenceParser (Some (mkFixedParser 4)) (new ten_byte_source).

Definition capped_parsing_reader : @t ListSource FixedParser :=
  set_mMaxReadLength 6 parsing_reader.

Lemma ReadBytes_appends_what_it_returns_witness :
  exists bytes r',
    ReadBytes 4 capped_reader = (Done (Z.of_nat (length bytes)), r')
    /\ mSampleBuffer r' = mSampleBuffer capped_reader ++ bytes
    /\ BufferSize r' = BufferSize capped_reader + Z.of_nat (length bytes)
    /\ Z.of_nat (length bytes) <= 4
    /\ mTotalReadLength r' = mTotalReadLength capped_reader + Z.of_nat (length bytes)
    /\ (mMaxReadLength capped_reader <> 0 -> mTotalReadLength r' <= mMaxReadLength capped_reader)
    /\ same_settings capped_reader r'
    /\ (4 = 0 -> r' = capped_reader).
Proof.
  apply (ReadBytes_appends_what_it_returns capped_reader 4).
  - right. unfold budget_ok, INT64_MAX, UINT32_MAX. cbn. lia.
  - unfold UINT32_MAX. lia.
Defined.

Lemma AppendBytes_appends_a_prefix_witness :
  exists r',
    AppendBytes ten_bytes 10 capped_reader = (Done (request capped_reader 10), r')
    /\ mSampleBuffer r'
       = mSampleBuffer capped_reader ++ firstn (Z.to_nat (request capped_reader 10)) ten_bytes
    /\ BufferSize r' = BufferSize capped_reader + request capped_reader 10
    /\ mTotalReadLength r' = mTotalReadLength capped_reader + request capped_reader 10
    /\ mEssenceSource r' = mEssenceSource capped_reader
    /\ same_settings capped_reader r'.
Proof.
  apply (AppendBytes_appends_a_prefix capped_reader ten_bytes 10).
  - right. unfold budget_ok, INT64_MAX, UINT32_MAX. cbn. lia.
  - unfold UINT32_MAX. lia.
  - cbn. lia.
Defined.

Lemma ReadSamples_fixed_short_count_witness :
  exists k r',
    ReadSamples no_complete_size 0 3 fixed_reader = (Done k, r')
    /\ 0 <= k <= 3
    /\ (k < 3 <-> mLastSampleRead r' = true)
    /\ mNumSamples r' = k
    /\ BufferSize r' = k * mFixedSampleSize fixed_reader
    /\ mSampleDataSize r' = BufferSize r'.
Proof.
  apply (ReadSamples_fixed_short_count no_complete_size fixed_reader 0 3).
  - cbn. lia.
  - reflexivity.
  - reflexivity.
  - left. unfold INT64_MAX, UINT32_MAX. cbn. lia.
  - lia.
  - unfold UINT32_MAX. cbn. lia.
Defined.

Lemma GetSampleSize_after_fixed_read_witness :
  exists k r',
    ReadSamples no_complete_size 0 2 fixed_reader = (Done k, r')
    /\ (0 < k -> GetSampleSize r' = (Done (mFixedSampleSize fixed_reader), r'))
    /\ (k = 0 -> exists e, GetSampleSize r' = (Throw e, r')).
Proof.
  apply (GetSampleSize_after_fixed_read no_complete_size fixed_reader 0 2).
  - cbn. lia.
  - reflexivity.
  - reflexivity.
  - left. unfold INT64_MAX, UINT32_MAX. cbn. lia.
  - lia.
  - unfold UINT32_MAX. cbn. lia.
Defined.

Lemma ReadSamples_parsed_short_count_witness :
  (mLastSampleRead parsing_reader = true ->
   2 = 0 /\ snd (ReadSamples no_complete_size 1 3 parsing_reader) = parsing_reader)
  /\ (mLastSampleRead parsing_reader = false ->
      0 <= 2 <= 3
      /\ mNumSamples (snd (ReadSamples no_complete_size 1 3 parsing_reader)) = 2
      /\ (2 < 3 ->
          mLastSampleRead (snd (ReadSamples no_complete_size 1 3 parsing_reader)) = true)).
Proof.
  apply (ReadSamples_parsed_short_count no_complete_size parsing_reader 1 3 2
           (snd (ReadSamples no_complete_size 1 3 parsing_reader))).
  - reflexivity.
  - unfold UINT32_MAX. lia.
  - vm_compute. reflexivity.
Defined.

Lemma ReadSamples_ends_under_limit_witness :
  fst (ReadSamples no_complete_size 7 3 capped_parsing_reader) <> OutOfFuel
  /\ limited (snd (ReadSamples no_complete_size 7 3 capped_parsing_reader))
  /\ budget_left (snd (ReadSamples no_complete_size 7 3 capped_parsing_reader))
     <= budget_left capped_parsing_reader.
Proof.
  apply (ReadSamples_ends_under_limit no_complete_size capped_parsing_reader 7 3).
  - unfold limited, budget_ok. repeat split; vm_compute; (reflexivity || discriminate).
  - vm_compute. lia.
Defined.

(** The parser finds two frames of four bytes in the ten-byte source and
    then the end of the essence; under the limit of six bytes it finds
    one. *)
Example parsing_reader_reads :
  fst (ReadSamples no_complete_size 1 3 parsing_reader) = Done 2
  /\ fst (ReadSamples no_complete_size 7 3 capped_parsing_reader) = Done 1.
Proof. split; vm_compute; reflexivity. Qed.

End RawEssenceReaderFacts.

(** ** MXFFileReader *)

Module MXFFileReaderProofs.

Import MXFFileReader.

Ltac run_monad :=
  repeat (progress (unfold bind, gets, modify, ret, throw, bmx_check, out_of_fuel,
                    THROW_RESULT; cbn beta iota)).

(** *** Induction over a reader and its external readers *)

Section ReaderInduction.

Variable P : t -> Prop.

Hypothesis P_step : forall r, Forall P (mExternalReaders r) -> P r.

Fixpoint reader_ind (r : t) : P r :=
  P_step r
    (match r as r0 return Forall P (mExternalReaders r0) with
     | mk _ _ _ _ _ _ _ _ _ _ _ _ externals _ _ =>
         (fix all (es : list t) : Forall P es :=
            match es with
            | [] => Forall_nil P
            | e :: es' => Forall_cons e (reader_ind e) (all es')
            end) externals
     end).

End ReaderInduction.

(** *** The fixed lead-filler offset *)

Section LeadFiller.

Variable convert_position : Rational -> Z -> Rational -> Rounding -> Z.

Abbreviation offset_of := (lead_filler_at_clip_rate convert_position).




End LeadFiller.




(** *** The stable sort *)

Section StableSort.

Context {A : Type}.
Variable comp : A -> A -> bool.

(** The elements on which [comp] behaves as a strict weak ordering. *)
Variable well_compared : A -> Prop.

Hypothesis comp_asym :
  forall a b, well_compared a -> well_compared b -> comp a b = true -> comp b a = false.

Hypothesis comp_cotrans :
  forall a b c, well_compared a -> well_compared b -> well_compared c ->
    comp a c = true -> comp a b = true \/ comp b c = true.

(** [a] is not after [b]. *)
Definition not_after (a b : A) : Prop := comp b a = false.

(** Neither is before the other. *)
Definition equivalent (a b : A) : bool := negb (comp a b) && negb (comp b a).

Lemma stable_insert_perm x l : Permutation (x :: l) (stable_insert comp x l).
Proof.
  induction l as [| y l IH]; cbn [stable_insert].
  - apply Permutation_refl.
  - destruct (comp y x).
    + eapply Permutation_trans; [apply perm_swap |]. apply perm_skip. exact IH.
    + apply Permutation_refl.
Qed.

Lemma stable_sort_perm l : Permutation l (stable_sort comp l).
Proof.
  induction l as [| x l IH]; cbn [stable_sort fold_right].
  - apply Permutation_refl.
  - eapply Permutation_trans; [apply perm_skip; exact IH |].
    apply stable_insert_perm.
Qed.

Lemma stable_sort_Forall (Q : A -> Prop) l : Forall Q l -> Forall Q (stable_sort comp l).
Proof.
  intros HQ. rewrite Forall_forall in *. intros x Hin. apply HQ.
  eapply Permutation_in; [apply Permutation_sym, stable_sort_perm | exact Hin].
Qed.

Lemma stable_insert_sorted x l :
  well_compared x -> Forall well_compared l ->
  StronglySorted not_after l -> StronglySorted not_after (stable_insert comp x l).
Proof.
  intros Hx Hl Hs. induction Hs as [| y l Hs IH Hy]; cbn [stable_insert].
  - constructor; constructor.
  - inversion Hl as [| ? ? Hwy Hwl]; subst.
    destruct (comp y x) eqn:E.
    + constructor; [apply IH; exact Hwl |].
      rewrite Forall_forall. intros z Hz.
      apply (Permutation_in _ (Permutation_sym (stable_insert_perm x l))) in Hz.
      destruct Hz as [Hz | Hz].
      * subst z. unfold not_after. apply comp_asym; assumption.
      * rewrite Forall_forall in Hy. apply Hy. exact Hz.
    + constructor; [constructor; assumption |].
      constructor; [exact E |].
      rewrite Forall_forall in *. intros z Hz. unfold not_after in *.
      destruct (comp z x) eqn:Ezx; [| reflexivity].
      destruct (comp_cotrans z y x (Hwl z Hz) Hwy Hx Ezx) as [Hc | Hc].
      * rewrite (Hy z Hz) in Hc. discriminate.
      * congruence.
Qed.

Lemma stable_sort_sorted l :
  Forall well_compared l -> StronglySorted not_after (stable_sort comp l).
Proof.
  induction l as [| x l IH]; intros Hl; cbn [stable_sort fold_right].
  - constructor.
  - inversion Hl; subst. apply stable_insert_sorted.
    + assumption.
    + apply stable_sort_Forall. assumption.
    + apply IH. assumption.
Qed.

Lemma equivalent_trans k x y :
  well_compared k -> well_compared x -> well_compared y ->
  equivalent k x = true -> equivalent k y = true -> equivalent y x = true.
Proof.
  unfold equivalent. intros Hk Hx Hy Hkx Hky.
  apply andb_prop in Hkx. destruct Hkx as [Hkx Hxk].
  apply andb_prop in Hky. destruct Hky as [Hky Hyk].
  apply negb_true_iff in Hkx, Hxk, Hky, Hyk.
  apply andb_true_intro. split; apply negb_true_iff.
  - destruct (comp y x) eqn:E; [| reflexivity].
    destruct (comp_cotrans y k x Hy Hk Hx E); congruence.
  - destruct (comp x y) eqn:E; [| reflexivity].
    destruct (comp_cotrans x k y Hx Hk Hy E); congruence.
Qed.

Lemma stable_insert_filter k x l :
  well_compared k -> well_compared x -> Forall well_compared l ->
  filter (equivalent k) (stable_insert comp x l) = filter (equivalent k) (x :: l).
Proof.
  intros Hk Hx Hl. induction l as [| y l IH]; cbn [stable_insert].
  - reflexivity.
  - inversion Hl as [| ? ? Hy Hl']; subst.
    destruct (comp y x) eqn:E; [| reflexivity].
    cbn [filter]. rewrite (IH Hl'). cbn [filter].
    destruct (equivalent k y) eqn:Eky; destruct (equivalent k x) eqn:Ekx; try reflexivity.
    pose proof (equivalent_trans k x y Hk Hx Hy Ekx Eky) as Hyx.
    unfold equivalent in Hyx. rewrite E in Hyx. discriminate.
Qed.

Lemma stable_sort_stable k l :
  well_compared k -> Forall well_compared l ->
  filter (equivalent k) (stable_sort comp l) = filter (equivalent k) l.
Proof.
  intros Hk. induction l as [| x l IH]; intros Hl; cbn [stable_sort fold_right].
  - reflexivity.
  - inversion Hl; subst.
    rewrite stable_insert_filter; try assumption.
    + cbn [filter]. fold (stable_sort comp l). rewrite IH by assumption. reflexivity.
    + apply stable_sort_Forall. assumption.
Qed.

End StableSort.

(** *** The track order *)

Import TrackOrder.

(** On identified tracks the comparison of the code is the order by data
    definition, then track number, then (without numbers) track id. *)
Lemma compare_track_reader_spec a b :
  identified a \/ identified b ->
  compare_track_reader a b = true <-> number_then_id_before a b.
Proof.
  unfold identified, compare_track_reader, number_then_id_before, zero_last_lt.
  destruct a as [[dda ida tna ? ? ? ? ? ?] ? ?], b as [[ddb idb tnb ? ? ? ? ? ?] ? ?].
  cbn [GetTrackInfo data_def material_track_id material_track_number].
  intros Hid.
  destruct (dda =? ddb) eqn:Edd; cbn [negb];
    [apply Z.eqb_eq in Edd | apply Z.eqb_neq in Edd].
  - destruct (tna =? 0) eqn:Ea; cbn [negb];
      [apply Z.eqb_eq in Ea | apply Z.eqb_neq in Ea].
    + destruct (tnb =? 0) eqn:Eb; cbn [negb];
        [apply Z.eqb_eq in Eb | apply Z.eqb_neq in Eb].
      * destruct (ida =? 0) eqn:Eia; cbn [negb];
          [apply Z.eqb_eq in Eia | apply Z.eqb_neq in Eia].
        -- rewrite Z.eqb_eq. lia.
        -- rewrite orb_true_iff, Z.eqb_eq, Z.ltb_lt. lia.
      * split; [discriminate | lia].
    + rewrite orb_true_iff, Z.eqb_eq, Z.ltb_lt. lia.
  - rewrite Z.ltb_lt. lia.
Qed.

Lemma compare_track_reader_false a b :
  identified a \/ identified b ->
  compare_track_reader a b = false <-> ~ number_then_id_before a b.
Proof.
  intros Hid. rewrite <- (compare_track_reader_spec a b Hid).
  destruct (compare_track_reader a b); split; congruence.
Qed.

Lemma compare_track_reader_asym a b :
  identified a -> identified b ->
  compare_track_reader a b = true -> compare_track_reader b a = false.
Proof.
  intros Ha Hb. rewrite compare_track_reader_spec, compare_track_reader_false by tauto.
  unfold number_then_id_before, zero_last_lt. cbn zeta. lia.
Qed.

Lemma zero_last_lt_cotrans x y z :
  zero_last_lt x z -> y <> 0 -> zero_last_lt x y \/ zero_last_lt y z.
Proof.
  unfold zero_last_lt. intros [H1 H2] Hy.
  destruct (Z.lt_trichotomy x y) as [Hxy | [Hxy | Hxy]]; [left | right | right]; lia.
Qed.

Lemma zero_last_lt_zero x z : zero_last_lt x z -> zero_last_lt x 0.
Proof. unfold zero_last_lt. intros [H1 _]. split; [exact H1 | left; reflexivity]. Qed.

Lemma number_then_id_cotrans na nb nc ia ib ic :
  nb <> 0 \/ ib <> 0 ->
  zero_last_lt na nc \/ (na = 0 /\ nc = 0 /\ zero_last_lt ia ic) ->
  (zero_last_lt na nb \/ (na = 0 /\ nb = 0 /\ zero_last_lt ia ib))
  \/ (zero_last_lt nb nc \/ (nb = 0 /\ nc = 0 /\ zero_last_lt ib ic)).
Proof.
  intros Hb [Hac | (Hna & Hnc & Hac)].
  - destruct (Z.eq_dec nb 0) as [Hnb | Hnb].
    + subst nb. left. left. eapply zero_last_lt_zero. exact Hac.
    + destruct (zero_last_lt_cotrans na nb nc Hac Hnb); [left | right]; left; assumption.
  - subst na nc. destruct (Z.eq_dec nb 0) as [Hnb | Hnb].
    + subst nb. destruct Hb as [Hb | Hb]; [contradiction |].
      destruct (zero_last_lt_cotrans ia ib ic Hac Hb); [left | right]; right; tauto.
    + right. left. unfold zero_last_lt. tauto.
Qed.

Lemma compare_track_reader_cotrans a b c :
  identified a -> identified b -> identified c ->
  compare_track_reader a c = true ->
  compare_track_reader a b = true \/ compare_track_reader b c = true.
Proof.
  intros Ha Hb Hc. rewrite !compare_track_reader_spec by tauto.
  unfold identified in *.
  unfold number_then_id_before. cbn zeta.
  destruct a as [[da ia na ? ? ? ? ? ?] ? ?], b as [[db ib nb ? ? ? ? ? ?] ? ?],
           c as [[dc ic nc ? ? ? ? ? ?] ? ?].
  cbn [GetTrackInfo data_def material_track_id material_track_number] in *.
  intros Hac.
  destruct (Z.lt_trichotomy da db) as [Hab | [Hab | Hab]].
  - left. left. exact Hab.
  - destruct (Z.lt_trichotomy db dc) as [Hbc | [Hbc | Hbc]].
    + right. left. exact Hbc.
    + subst db dc. destruct Hac as [Hac | [_ Hac]]; [lia |].
      destruct (number_then_id_cotrans na nb nc ia ib ic Hb Hac) as [Hcase | Hcase];
        [left | right]; right; (split; [reflexivity | exact Hcase]).
    + exfalso. destruct Hac as [Hac | [Hac _]]; lia.
  - right. left. destruct Hac as [Hac | [Hac _]]; lia.
Qed.

(** Tracks rank equal exactly when the comparison puts neither first. *)
Lemma same_rank_equivalent a b :
  identified a -> identified b ->
  same_rank a b = equivalent compare_track_reader a b.
Proof.
  intros Ha Hb. unfold equivalent.
  destruct (same_rank a b) eqn:Es; symmetry.
  - unfold same_rank in Es. cbn zeta in Es.
    apply andb_prop in Es. destruct Es as [Es E3].
    apply andb_prop in Es. destruct Es as [E1 E2].
    apply Z.eqb_eq in E1, E2. apply orb_prop in E3.
    apply andb_true_intro.
    split; apply negb_true_iff; apply compare_track_reader_false; try tauto;
      unfold number_then_id_before, zero_last_lt; cbn zeta;
      (destruct E3 as [E3 | E3];
       [apply negb_true_iff in E3; apply Z.eqb_neq in E3 | apply Z.eqb_eq in E3]); lia.
  - apply andb_false_iff.
    destruct (compare_track_reader a b) eqn:Eab; [left; reflexivity |].
    destruct (compare_track_reader b a) eqn:Eba; [right; reflexivity |].
    exfalso.
    apply compare_track_reader_false in Eab, Eba; try tauto.
    unfold same_rank in Es. cbn zeta in Es.
    unfold number_then_id_before, zero_last_lt, identified in *. cbn zeta in *.
    destruct a as [[da ia na ? ? ? ? ? ?] ? ?], b as [[db ib nb ? ? ? ? ? ?] ? ?].
    cbn [GetTrackInfo data_def material_track_id material_track_number] in *.
    assert (Hd : da = db) by lia. subst db.
    rewrite Z.eqb_refl in Es. cbn [andb] in Es.
    assert (Hn : na = nb).
    { destruct (Z.eq_dec na 0), (Z.eq_dec nb 0); lia. }
    subst nb. rewrite Z.eqb_refl in Es. cbn [andb] in Es.
    apply orb_false_iff in Es. destruct Es as [E1 E2].
    apply negb_false_iff, Z.eqb_eq in E1. apply Z.eqb_neq in E2.
    subst na. destruct (Z.eq_dec ia 0), (Z.eq_dec ib 0); lia.
Qed.

Lemma StronglySorted_map {X Y} (f : X -> Y) (R : Y -> Y -> Prop) l :
  StronglySorted (fun a b => R (f a) (f b)) l -> StronglySorted R (map f l).
Proof.
  induction 1 as [| x l Hs IH Hx]; cbn [map]; constructor.
  - exact IH.
  - rewrite Forall_forall in *. intros y Hy.
    apply in_map_iff in Hy. destruct Hy as (z & Hz & Hin). subst y. apply Hx. exact Hin.
Qed.

Lemma filter_ext_Forall {X} (p q : X -> bool) (Q : X -> Prop) l :
  (forall x, Q x -> p x = q x) -> Forall Q l -> filter p l = filter q l.
Proof.
  intros Hpq Hl. induction Hl as [| x l Hx Hl IH]; cbn [filter].
  - reflexivity.
  - rewrite (Hpq x Hx), IH. reflexivity.
Qed.

(** The sort of [ProcessMetadata] on its own, on any reader: it orders
    the track readers by data definition, then by material track number
    with 0 last; the material track id, with 0 last, orders only tracks
    that both have no track number.  Tracks that rank equal (the same data
    definition and the same non-zero track number, or no track number and
    the same track id) keep their relative order.  The list is a
    permutation of the one before and the track readers are untouched.
    This is for track lists in which every track has a track number or a
    track id. *)
Theorem track_readers_sorted (r : t) :
  Forall (fun ref => identified (GetTrackReader r ref)) (mTrackReaders r) ->
  let sorted := mTrackReaders (sort_track_readers r) in
  Permutation (mTrackReaders r) sorted
  /\ in_order number_then_id_before (map (GetTrackReader r) sorted)
  /\ (forall k, In k (mTrackReaders r) ->
        filter (fun ref => same_rank (GetTrackReader r k) (GetTrackReader r ref)) sorted
        = filter (fun ref => same_rank (GetTrackReader r k) (GetTrackReader r ref))
                 (mTrackReaders r))
  /\ (forall ref, GetTrackReader (sort_track_readers r) ref = GetTrackReader r ref).
Proof.
  intros Hid sorted.
  set (comp := fun a b => compare_track_reader (GetTrackReader r a) (GetTrackReader r b)).
  set (Q := fun ref => identified (GetTrackReader r ref)).
  assert (Hasym : forall a b, Q a -> Q b -> comp a b = true -> comp b a = false).
  { intros a b Ha Hb. apply compare_track_reader_asym; assumption. }
  assert (Hcotrans : forall a b c, Q a -> Q b -> Q c ->
            comp a c = true -> comp a b = true \/ comp b c = true).
  { intros a b c Ha Hb Hc. apply compare_track_reader_cotrans; assumption. }
  assert (Hsorted : sorted = stable_sort comp (mTrackReaders r)) by reflexivity.
  assert (HQs : Forall Q sorted).
  { rewrite Hsorted. apply stable_sort_Forall. exact Hid. }
  split; [| split; [| split]].
  - rewrite Hsorted. apply stable_sort_perm.
  - unfold in_order. apply StronglySorted_map.
    pose proof (stable_sort_sorted comp Q Hasym Hcotrans (mTrackReaders r) Hid) as Hs.
    rewrite <- Hsorted in Hs.
    clear Hsorted. induction Hs as [| x l Hs IH Hx]; constructor.
    + apply IH. inversion HQs; assumption.
    + inversion HQs as [| ? ? HQx HQl]; subst.
      rewrite Forall_forall in *. intros y Hy.
      apply compare_track_reader_false; [right; apply HQx |].
      apply Hx. exact Hy.
  - intros k Hk.
    assert (HQk : Q k) by (rewrite Forall_forall in Hid; apply Hid; exact Hk).
    rewrite (filter_ext_Forall _ (equivalent comp k) Q sorted); [| | exact HQs].
    + rewrite (filter_ext_Forall _ (equivalent comp k) Q (mTrackReaders r)); [| | exact Hid].
      * rewrite Hsorted. apply (stable_sort_stable comp Q Hcotrans); assumption.
      * intros x Hx. apply same_rank_equivalent; assumption.
    + intros x Hx. apply same_rank_equivalent; assumption.
  - intros ref. destruct ref; reflexivity.
Qed.

(** Two sound tracks of one file with the same track number 1 and the
    track ids 5 and 2, in this order in the material package. *)
Definition RATE_25 : Rational := mkRational 25 1.

Definition SOUND_DDEF : Z := 2.

Definition sound_track (track_id track_number : Z) (fsp_id : Z) : MaterialTrack :=
  mkMaterialTrack SOUND_DDEF track_id track_number RATE_25 0 100 0
    (InThisFile (mkFileSourceTrack RATE_25 0 fsp_id fsp_id true (OTHER_ESSENCE_TYPE 0))).

Definition same_number_tracks : list MaterialTrack :=
  [sound_track 5 1 1; sound_track 2 1 2].

Definition same_number_reader : t :=
  snd (Instances.ProcessMetadata same_number_tracks (new 0)).

Lemma same_number_reader_tracks :
  fst (Instances.ProcessMetadata same_number_tracks (new 0)) = Done tt
  /\ map (fun ref => let info := GetTrackInfo (GetTrackReader same_number_reader ref) in
                     (data_def info, material_track_number info, material_track_id info))
         (mTrackReaders same_number_reader)
     = [(2, 1, 5); (2, 1, 2)].
Proof. vm_compute. split; reflexivity. Qed.

(** C8 (as stated) fails: after metadata processing of the two tracks the
    track with id 5 is still before the track with id 2, although the key
    (sound, 1, 2) is before the key (sound, 1, 5) lexicographically. *)
Lemma lexicographic_order_counterexample :
  fst (Instances.ProcessMetadata same_number_tracks (new 0)) = Done tt
  /\ ~ in_order lexicographic_before
        (map (GetTrackReader same_number_reader) (mTrackReaders same_number_reader)).
Proof.
  split; [vm_compute; reflexivity |].
  intros Hsorted.
  assert (Hlist : map (GetTrackReader same_number_reader) (mTrackReaders same_number_reader)
                  = [mkTrackReader
                       (mkTrackInfo 2 5 1 1 1 RATE_25 100 0 (OTHER_ESSENCE_TYPE 0)) true false;
                     mkTrackReader
                       (mkTrackInfo 2 2 1 2 2 RATE_25 100 0 (OTHER_ESSENCE_TYPE 0)) true false])
    by (vm_compute; reflexivity).
  rewrite Hlist in Hsorted. unfold in_order in Hsorted.
  inversion Hsorted as [| ? ? _ Hfirst]; subst.
  inversion Hfirst as [| ? ? Hnot _]; subst.
  apply Hnot. unfold lexicographic_before, zero_last_lt. cbn. lia.
Qed.

Lemma track_readers_sorted_witness :
  in_order number_then_id_before
    (map (GetTrackReader same_number_reader)
         (mTrackReaders (sort_track_readers same_number_reader))).
Proof.
  apply (track_readers_sorted same_number_reader).
  assert (Hrefs : mTrackReaders same_number_reader = [OwnTrack 0; OwnTrack 1])
    by (vm_compute; reflexivity).
  rewrite Hrefs.
  constructor; [vm_compute; left; discriminate |].
  constructor; [vm_compute; left; discriminate |].
  constructor.
Defined.

(** *** The clip duration *)

Import Contributors.

Section Duration.

Variable convert_duration_lower : Z -> list Z -> Z -> Z.
Variable convert_duration : Rational -> Z -> Rational -> Rounding -> Z.

Abbreviation contribution_of := (internal_contribution convert_duration).
Abbreviation externals_from := (external_contributions_from convert_duration_lower).
Abbreviation duration_of_internal := (internal_duration convert_duration).
Abbreviation duration_of_external := (external_duration convert_duration_lower).

(** What a loop has after known, non-negative contributions [l], from
    [acc] (-2 while no contribution was seen): still -2 when there were
    none, and else the least of what was seen. *)
Definition least_so_far (acc : Z) (l : list Z) (v : Z) : Prop :=
  (acc = -2 /\ l = [] /\ v = -2)
  \/ (0 <= v /\ (v = acc \/ In v l) /\ (acc <> -2 -> v <= acc) /\ Forall (fun c => v <= c) l).

Lemma least_so_far_step acc c l v :
  acc = -2 \/ 0 <= acc -> 0 <= c ->
  least_so_far (if (acc =? -2) || (c <? acc) then c else acc) l v ->
  least_so_far acc (c :: l) v.
Proof.
  intros Hacc Hc Hv. right.
  destruct (acc =? -2) eqn:E2; cbn [orb] in Hv.
  - apply Z.eqb_eq in E2.
    destruct Hv as [(Hc2 & _) | (Hv0 & Hin & Hle & Hall)]; [lia |].
    split; [exact Hv0 |]. split; [| split].
    + right. destruct Hin as [Hin | Hin]; [left; congruence | right; exact Hin].
    + intros Hne. contradiction.
    + constructor; [apply Hle; lia | exact Hall].
  - apply Z.eqb_neq in E2. destruct (c <? acc) eqn:Ec.
    + apply Z.ltb_lt in Ec.
      destruct Hv as [(Hc2 & _) | (Hv0 & Hin & Hle & Hall)]; [lia |].
      assert (v <= c) by (apply Hle; lia).
      split; [exact Hv0 |]. split; [| split].
      * right. destruct Hin as [Hin | Hin]; [left; congruence | right; exact Hin].
      * intros _. lia.
      * constructor; assumption.
    + apply Z.ltb_ge in Ec.
      destruct Hv as [(Hc2 & _) | (Hv0 & Hin & Hle & Hall)]; [lia |].
      assert (v <= acc) by (apply Hle; exact E2).
      split; [exact Hv0 |]. split; [| split].
      * destruct Hin as [Hin | Hin]; [left; exact Hin | right; right; exact Hin].
      * intros _. assumption.
      * constructor; [lia | exact Hall].
Qed.

Lemma internal_duration_known r trs acc :
  acc = -2 \/ 0 <= acc ->
  Forall (fun tr => 0 <= duration (GetTrackInfo tr)) trs ->
  Forall (fun c => 0 <= c) (map (contribution_of r) trs) ->
  least_so_far acc (map (contribution_of r) trs) (duration_of_internal r trs acc).
Proof.
  revert acc. induction trs as [| tr trs IH]; intros acc Hacc Hknown Hpos.
  - cbn. destruct Hacc as [Hacc | Hacc].
    + left. auto.
    + right. split; [exact Hacc |]. split; [left; reflexivity |].
      split; [intros _; lia | constructor].
  - inversion Hknown as [| ? ? Hk Hknown']; subst.
    cbn [map] in Hpos. inversion Hpos as [| ? ? Hp Hpos']; subst.
    cbn [internal_duration map].
    replace (duration (GetTrackInfo tr) <? 0) with false
      by (symmetry; apply Z.ltb_ge; exact Hk).
    fold (contribution_of r tr).
    apply least_so_far_step; try assumption.
    apply IH; try assumption.
    destruct ((acc =? -2) || (contribution_of r tr <? acc)); [right; exact Hp | exact Hacc].
Qed.

Lemma external_duration_known r i es acc :
  acc = -2 \/ 0 <= acc ->
  Forall (fun e => 0 <= mDuration e) es ->
  Forall (fun c => 0 <= c) (externals_from r i es) ->
  least_so_far acc (externals_from r i es) (duration_of_external r i es acc).
Proof.
  revert i acc. induction es as [| e es IH]; intros i acc Hacc Hknown Hpos.
  - cbn. destruct Hacc as [Hacc | Hacc].
    + left. auto.
    + right. split; [exact Hacc |]. split; [left; reflexivity |].
      split; [intros _; lia | constructor].
  - inversion Hknown as [| ? ? Hk Hknown']; subst.
    cbn [external_contributions_from] in Hpos. inversion Hpos as [| ? ? Hp Hpos']; subst.
    cbn [external_duration external_contributions_from].
    replace (mDuration e <? 0) with false by (symmetry; apply Z.ltb_ge; exact Hk).
    apply least_so_far_step; try assumption.
    apply IH; try assumption.
    match goal with |- context [if ?c then _ else _] => destruct c end;
      [right; exact Hp | exact Hacc].
Qed.

Lemma internal_duration_unknown r trs acc :
  Exists (fun tr => duration (GetTrackInfo tr) < 0) trs ->
  duration_of_internal r trs acc = -1.
Proof.
  revert acc. induction trs as [| tr trs IH]; intros acc Hex.
  - inversion Hex.
  - cbn [internal_duration].
    destruct (duration (GetTrackInfo tr) <? 0) eqn:E; [reflexivity |].
    apply Z.ltb_ge in E. inversion Hex as [? ? Hlt | ? ? Hex']; subst; [lia |].
    apply IH. exact Hex'.
Qed.

Lemma external_duration_unknown r i es acc :
  Exists (fun e => mDuration e < 0) es ->
  duration_of_external r i es acc = -1.
Proof.
  revert i acc. induction es as [| e es IH]; intros i acc Hex.
  - inversion Hex.
  - cbn [external_duration].
    destruct (mDuration e <? 0) eqn:E; [reflexivity |].
    apply Z.ltb_ge in E. inversion Hex as [? ? Hlt | ? ? Hex']; subst; [lia |].
    apply IH. exact Hex'.
Qed.

(** The two duration loops of [ProcessMetadata] on their own, on any
    reader: the result is -1 (unknown) whenever the duration of an internal
    track or of an external reader is unknown (negative); when all are
    known it is the minimum of the internal track durations converted to
    the clip edit rate and the external reader durations converted with
    their sample sequences.  The conversions are parameters; the minimum
    is stated for conversions that give non-negative results on the known
    durations, and for a reader with at least one contributor. *)
Theorem clip_duration_spec (r : t) :
  (Exists (fun tr => duration (GetTrackInfo tr) < 0) (mInternalTrackReaders r)
   \/ Exists (fun e => mDuration e < 0) (mExternalReaders r) ->
   clip_duration convert_duration_lower convert_duration r = -1)
  /\ (Forall (fun tr => 0 <= duration (GetTrackInfo tr)) (mInternalTrackReaders r) ->
      Forall (fun e => 0 <= mDuration e) (mExternalReaders r) ->
      Forall (fun c => 0 <= c) (contributions convert_duration_lower convert_duration r) ->
      contributions convert_duration_lower convert_duration r <> [] ->
      is_minimum (clip_duration convert_duration_lower convert_duration r)
                 (contributions convert_duration_lower convert_duration r)).
Proof.
  unfold clip_duration. split.
  - intros [Hint | Hext].
    + rewrite (internal_duration_unknown r _ _ Hint). reflexivity.
    + destruct (negb (duration_of_internal r (mInternalTrackReaders r) (-2) =? -1)) eqn:E.
      * apply external_duration_unknown. exact Hext.
      * apply negb_false_iff, Z.eqb_eq in E. exact E.
  - intros Hint Hext Hpos Hne. unfold contributions in *.
    apply Forall_app in Hpos. destruct Hpos as [Hpi Hpe].
    pose proof (internal_duration_known r (mInternalTrackReaders r) (-2)
                  (or_introl eq_refl) Hint Hpi) as Hi.
    set (d := duration_of_internal r (mInternalTrackReaders r) (-2)) in *.
    assert (Hd : d = -2 \/ 0 <= d).
    { destruct Hi as [(_ & _ & Hi) | (Hi & _)]; [left | right]; assumption. }
    replace (negb (d =? -1)) with true
      by (symmetry; apply negb_true_iff, Z.eqb_neq; lia).
    pose proof (external_duration_known r O (mExternalReaders r) d Hd Hext Hpe) as He.
    set (v := duration_of_external r O (mExternalReaders r) d) in *.
    unfold is_minimum.
    destruct He as [(Hd2 & Hnil & Hv) | (Hv0 & Hin & Hle & Hall)].
    + exfalso. destruct Hi as [(_ & Hnil' & _) | (Hi & _)]; [| lia].
      apply Hne. rewrite Hnil', Hnil. reflexivity.
    + destruct Hi as [(_ & Hnil' & Hd2) | (Hd0 & Hdin & _ & Hdall)].
      * rewrite Hnil'. cbn [app]. split; [| exact Hall].
        destruct Hin as [Hin | Hin]; [lia | exact Hin].
      * assert (Hvd : v <= d) by (apply Hle; lia).
        split.
        -- apply in_or_app. destruct Hin as [Hin | Hin]; [left | right; exact Hin].
           rewrite Hin. destruct Hdin as [Hdin | Hdin]; [lia | exact Hdin].
        -- apply Forall_app. split; [| exact Hall].
           rewrite Forall_forall in *. intros c Hc. specialize (Hdall c Hc). lia.
Qed.

End Duration.

(** *** The clip edit rate *)

Ltac preserves_step :=
  match goal with
  | |- preserves _ (bind _ _) => apply preserves_bind; [| intros ?]
  | |- preserves _ (ret _) => apply preserves_ret
  | |- preserves _ (throw _) => apply preserves_throw
  | |- preserves _ (THROW_RESULT _) => apply preserves_throw
  | |- preserves _ (gets _) => apply preserves_gets
  | |- preserves _ (bmx_check _ _) => apply preserves_bmx_check
  | |- preserves _ (modify _) => apply preserves_modify; intros ?
  | |- preserves _ (if ?c then _ else _) => destruct c
  | |- preserves _ (match ?x with _ => _ end) => destruct x
  end.

Ltac preserves_all := repeat preserves_step.

Lemma update_track_mEditRate ref f r : mEditRate (update_track ref f r) = mEditRate r.
Proof. destruct ref; reflexivity. Qed.

Lemma update_track_mTrackReaders ref f r :
  mTrackReaders (update_track ref f r) = mTrackReaders r.
Proof. destruct ref; reflexivity. Qed.

Lemma GetExternalTrackReader_mEditRate resolved :
  preserves mEditRate (GetExternalTrackReader resolved).
Proof. unfold GetExternalTrackReader. preserves_all; reflexivity. Qed.

Import InternalTracks.

Section EditRate.

Variable convert_position : Rational -> Z -> Rational -> Rounding -> Z.

Lemma Rational_eqb_eq a b : Rational_eqb a b = true -> a = b.
Proof.
  unfold Rational_eqb. destruct a, b. cbn. intros Heq.
  apply andb_prop in Heq. destruct Heq as [H1 H2].
  apply Z.eqb_eq in H1, H2. congruence.
Qed.

(** What [CreateInternalTrackReader] does to the clip edit rate when it
    returns, with a track reader or without: an unset rate becomes the
    rate of the file-source-package track, and a set rate is that rate
    already. *)
Lemma CreateInternalTrackReader_rate mp_track fsp_track r ref r' :
  CreateInternalTrackReader convert_position mp_track fsp_track r = (Done ref, r') ->
  mEditRate r' = fsp_edit_rate fsp_track
  /\ (numerator (mEditRate r) <> 0 -> mEditRate r = fsp_edit_rate fsp_track).
Proof.
  unfold CreateInternalTrackReader. intros Hrun.
  apply bind_Done in Hrun. destruct Hrun as (clip_rate & r1 & Hget & Hrun).
  inversion Hget; subst clip_rate r1. clear Hget.
  apply bind_Done in Hrun. destruct Hrun as ([] & r2 & Hset & Hrest).
  assert (Hrate : mEditRate r2 = fsp_edit_rate fsp_track
                  /\ (numerator (mEditRate r) <> 0 -> mEditRate r = fsp_edit_rate fsp_track)).
  { destruct (numerator (mEditRate r) =? 0) eqn:E0.
    - inversion Hset; subst r2. split; [reflexivity |].
      apply Z.eqb_eq in E0. intros Hne. contradiction.
    - destruct (negb (Rational_eqb (mEditRate r) (fsp_edit_rate fsp_track))) eqn:Eq.
      + discriminate.
      + inversion Hset; subst r2. apply negb_false_iff, Rational_eqb_eq in Eq.
        split; [exact Eq | intros _; exact Eq]. }
  destruct Hrate as [Hr2 Hr]. split; [| exact Hr].
  rewrite <- Hr2.
  cbv beta in Hrest.
  match type of Hrest with
  | ?c r2 = _ => assert (Hp : preserves mEditRate c) by (preserves_all; reflexivity)
  end.
  apply (Hp _ _ _ Hrest).
Qed.

Lemma add_track_external_rate mp_track resolved :
  mp_essence mp_track = InExternalFile resolved ->
  preserves mEditRate (add_track convert_position mp_track).
Proof.
  intros He. unfold add_track. rewrite He.
  apply preserves_bind; [apply GetExternalTrackReader_mEditRate |].
  intros [ref |]; preserves_all; try reflexivity.
  - apply update_track_mEditRate.
Qed.

Lemma add_track_internal_rate mp_track fsp_track r r' :
  mp_essence mp_track = InThisFile fsp_track ->
  add_track convert_position mp_track r = (Done tt, r') ->
  mEditRate r' = fsp_edit_rate fsp_track
  /\ (numerator (mEditRate r) <> 0 -> mEditRate r = fsp_edit_rate fsp_track).
Proof.
  intros He. unfold add_track. rewrite He. intros Hrun.
  apply bind_Done in Hrun. destruct Hrun as (ref & r1 & Hcreate & Hrest).
  apply CreateInternalTrackReader_rate in Hcreate. destruct Hcreate as [Hr1 Hr].
  split; [| exact Hr]. rewrite <- Hr1.
  match type of Hrest with
  | ?c r1 = _ => assert (Hp : preserves mEditRate c)
  end.
  { destruct ref; preserves_all; try reflexivity. apply update_track_mEditRate. }
  apply (Hp _ _ _ Hrest).
Qed.

(** The clip edit rate after the loop over the material tracks: it is the
    rate of every internal file-source-package track; a rate that was set
    before stays, and so does any rate when there is no such track. *)
Lemma add_tracks_rate mp_tracks r r' :
  Forall (fun fsp_track => numerator (fsp_edit_rate fsp_track) <> 0)
         (internal_fsp_tracks mp_tracks) ->
  add_tracks convert_position mp_tracks r = (Done tt, r') ->
  (numerator (mEditRate r) <> 0 -> mEditRate r' = mEditRate r)
  /\ (internal_fsp_tracks mp_tracks = [] -> mEditRate r' = mEditRate r)
  /\ (forall fsp_track, In fsp_track (internal_fsp_tracks mp_tracks) ->
        mEditRate r' = fsp_edit_rate fsp_track).
Proof.
  revert r. induction mp_tracks as [| mp_track mp_tracks IH]; intros r Hvalid Hrun.
  - inversion Hrun; subst. repeat split. intros ? [].
  - cbn [add_tracks] in Hrun.
    apply bind_Done in Hrun. destruct Hrun as ([] & r1 & Hone & Hrest).
    unfold internal_fsp_tracks in *. cbn [flat_map] in *.
    destruct (mp_essence mp_track) as [fsp_track | resolved] eqn:He.
    + cbn [app] in Hvalid. inversion Hvalid as [| ? ? Hnum Hvalid']; subst.
      destruct (add_track_internal_rate mp_track fsp_track r r1 He Hone) as [Hr1 Hr].
      destruct (IH r1 Hvalid' Hrest) as (Hkeep & _ & Hall).
      assert (Hr' : mEditRate r' = fsp_edit_rate fsp_track).
      { rewrite <- Hr1. apply Hkeep. rewrite Hr1. exact Hnum. }
      split; [| split].
      * intros Hset. rewrite Hr'. symmetry. apply Hr. exact Hset.
      * intros Hnil. discriminate.
      * intros f [Hf | Hf]; [subst f; exact Hr' | apply Hall; exact Hf].
    + cbn [app] in *.
      pose proof (add_track_external_rate mp_track resolved He r _ r1 Hone) as Hr1.
      destruct (IH r1 Hvalid Hrest) as (Hkeep & Hnone & Hall).
      rewrite Hr1 in *. split; [| split]; assumption.
Qed.

End EditRate.

Section ClipEditRate.

Variable convert_position_lower : Z -> list Z -> Z -> Z.
Variable convert_position_higher : Z -> list Z -> Z -> Z.
Variable convert_duration_lower : Z -> list Z -> Z -> Z.
Variable convert_position : Rational -> Z -> Rational -> Rounding -> Z.
Variable convert_duration : Rational -> Z -> Rational -> Rounding -> Z.
Variable float : Type.
Variable float_of_int : Z -> float.
Variable float_div : float -> float -> float.
Variable float_lt : float -> float -> bool.
Variable FLOAT_1000000 : float.
Variable track_GetEditRate : t -> TrackRef -> Rational.
Variable get_sample_sequence : Rational -> Rational -> option (list Z).
Variable get_sequence_size : list Z -> Z.

(** The comparison of single-precision numbers is irreflexive and
    transitive. *)
Hypothesis float_lt_irrefl : forall a, float_lt a a = false.
Hypothesis float_lt_trans :
  forall a b c, float_lt a b = true -> float_lt b c = true -> float_lt a c = true.

Abbreviation rate_as_float := (float_rate float float_of_int float_div).
Abbreviation lowest_rate := (lowest_edit_rate float float_of_int float_div float_lt track_GetEditRate).
Abbreviation process_metadata :=
  (ProcessMetadata convert_position_lower convert_position_higher convert_duration_lower
     convert_position convert_duration float float_of_int float_div float_lt
     FLOAT_1000000 track_GetEditRate get_sample_sequence get_sequence_size).

(** The loop that picks the lowest rate either finds no track below the
    starting value and keeps the rate it had, or ends on a track whose rate
    no track is below. *)
Lemma lowest_edit_rate_spec r refs rate0 low0 :
  (fst (lowest_rate r refs rate0 low0) = rate0
   /\ snd (lowest_rate r refs rate0 low0) = low0
   /\ forall ref, In ref refs -> float_lt (rate_as_float (track_GetEditRate r ref)) low0 = false)
  \/ (exists ref,
        In ref refs
        /\ fst (lowest_rate r refs rate0 low0) = track_GetEditRate r ref
        /\ snd (lowest_rate r refs rate0 low0) = rate_as_float (track_GetEditRate r ref)
        /\ float_lt (snd (lowest_rate r refs rate0 low0)) low0 = true
        /\ forall ref', In ref' refs ->
             float_lt (rate_as_float (track_GetEditRate r ref'))
                      (snd (lowest_rate r refs rate0 low0)) = false).
Proof.
  revert rate0 low0. induction refs as [| ref refs IH]; intros rate0 low0.
  - left. cbn. repeat split. intros ? [].
  - cbn [lowest_edit_rate].
    destruct (float_lt (rate_as_float (track_GetEditRate r ref)) low0) eqn:E.
    + right.
      destruct (IH (track_GetEditRate r ref) (rate_as_float (track_GetEditRate r ref)))
        as [(Hf & Hs & Hall) | (ref2 & Hin & Hf & Hs & Hlt & Hall)].
      * exists ref. split; [left; reflexivity |]. split; [exact Hf |]. split; [exact Hs |].
        rewrite Hs. split; [exact E |].
        intros ref' [Heq | Hin]; [subst ref'; apply float_lt_irrefl | apply Hall; exact Hin].
      * exists ref2. split; [right; exact Hin |]. split; [exact Hf |]. split; [exact Hs |].
        split; [eapply float_lt_trans; [exact Hlt | exact E] |].
        intros ref' [Heq | Hin'].
        -- subst ref'.
           match goal with |- float_lt ?a ?b = false => destruct (float_lt a b) eqn:E' end;
             [| reflexivity].
           pose proof (float_lt_trans _ _ _ E' Hlt) as Hbad.
           rewrite float_lt_irrefl in Hbad. discriminate.
        -- apply Hall. exact Hin'.
    + destruct (IH rate0 low0) as [(Hf & Hs & Hall) | (ref2 & Hin & Hf & Hs & Hlt & Hall)].
      * left. split; [exact Hf |]. split; [exact Hs |].
        intros ref' [Heq | Hin]; [subst ref'; exact E | apply Hall; exact Hin].
      * right. exists ref2. split; [right; exact Hin |]. split; [exact Hf |].
        split; [exact Hs |]. split; [exact Hlt |].
        intros ref' [Heq | Hin'].
        -- subst ref'.
           match goal with |- float_lt ?a ?b = false => destruct (float_lt a b) eqn:E' end;
             [| reflexivity].
           pose proof (float_lt_trans _ _ _ E' Hlt) as Hbad. congruence.
        -- apply Hall. exact Hin'.
Qed.

(** The statements of [ProcessMetadata] around the one that sets the clip
    edit rate keep the rate and the track list. *)
Lemma fold_lead_filler_mEditRate refs : preserves mEditRate (fold_lead_filler refs).
Proof.
  induction refs as [| ref refs IH]; cbn [fold_lead_filler].
  - apply preserves_ret.
  - preserves_all; try reflexivity; try exact IH. apply update_track_mEditRate.
Qed.

Lemma check_lead_filler_mEditRate :
  preserves mEditRate (check_lead_filler convert_position).
Proof.
  unfold check_lead_filler. preserves_all; try reflexivity.
  apply fold_lead_filler_mEditRate.
Qed.

Lemma extract_sample_sequences_mEditRate es :
  preserves mEditRate (extract_sample_sequences get_sample_sequence get_sequence_size es).
Proof.
  induction es as [| e es IH]; cbn [extract_sample_sequences].
  - apply preserves_ret.
  - preserves_all; try reflexivity. exact IH.
Qed.

Lemma extract_sample_sequences_mTrackReaders es :
  preserves mTrackReaders (extract_sample_sequences get_sample_sequence get_sequence_size es).
Proof.
  induction es as [| e es IH]; cbn [extract_sample_sequences].
  - apply preserves_ret.
  - preserves_all; try reflexivity. exact IH.
Qed.

Lemma force_external_durations_mEditRate :
  preserves mEditRate (force_external_durations convert_position_higher).
Proof.
  intros r o r'. unfold force_external_durations.
  destruct (0 <=? mDuration r).
  - destruct (force_durations convert_position_higher r O (mExternalReaders r));
      intros Heq; inversion Heq; reflexivity.
  - intros Heq; inversion Heq; reflexivity.
Qed.

Lemma force_external_durations_mTrackReaders :
  preserves mTrackReaders (force_external_durations convert_position_higher).
Proof.
  intros r o r'. unfold force_external_durations.
  destruct (0 <=? mDuration r).
  - destruct (force_durations convert_position_higher r O (mExternalReaders r));
      intros Heq; inversion Heq; reflexivity.
  - intros Heq; inversion Heq; reflexivity.
Qed.

(** The statements after the one that sets the clip edit rate. *)
Definition after_edit_rate : M t unit :=
  bind (gets mExternalReaders) (fun externals =>
  bind (extract_sample_sequences get_sample_sequence get_sequence_size externals) (fun _ =>
  bind (determine_duration convert_duration_lower convert_duration) (fun _ =>
  bind (force_external_durations convert_position_higher) (fun _ =>
  determine_origin convert_position_lower)))).

Lemma after_edit_rate_mEditRate : preserves mEditRate after_edit_rate.
Proof.
  unfold after_edit_rate, determine_duration, determine_origin.
  preserves_all; try reflexivity.
  - apply extract_sample_sequences_mEditRate.
  - apply force_external_durations_mEditRate.
Qed.

Lemma after_edit_rate_mTrackReaders : preserves mTrackReaders after_edit_rate.
Proof.
  unfold after_edit_rate, determine_duration, determine_origin.
  preserves_all; try reflexivity.
  - apply extract_sample_sequences_mTrackReaders.
  - apply force_external_durations_mTrackReaders.
Qed.

(** [ProcessMetadata] in three parts: up to the statement that sets the
    clip edit rate, that statement, and the rest. *)
Lemma ProcessMetadata_parts mp_tracks r0 r :
  process_metadata mp_tracks r0 = (Done tt, r) ->
  exists r1 r5 r6,
    add_tracks convert_position mp_tracks r0 = (Done tt, r1)
    /\ mEditRate r5 = mEditRate r1
    /\ set_clip_edit_rate float float_of_int float_div float_lt FLOAT_1000000
                          track_GetEditRate r5 = (Done tt, r6)
    /\ after_edit_rate r6 = (Done tt, r).
Proof.
  unfold ProcessMetadata. intros Hrun.
  apply bind_Done in Hrun. destruct Hrun as ([] & r1 & Hadd & Hrun).
  apply bind_Done in Hrun. destruct Hrun as (tracks & r1' & Hget & Hrun).
  inversion Hget; subst tracks r1'. clear Hget.
  apply bind_Done in Hrun. destruct Hrun as ([] & r2 & Hempty & Hrun).
  assert (Hr2 : r2 = r1).
  { destruct (Nat.eqb (length (mTrackReaders r1)) O); inversion Hempty; reflexivity. }
  subst r2.
  apply bind_Done in Hrun. destruct Hrun as ([] & r3 & Hfill & Hrun).
  apply bind_Done in Hrun. destruct Hrun as ([] & r4 & Hsort & Hrun).
  apply bind_Done in Hrun. destruct Hrun as ([] & r5 & Hdisable & Hrun).
  apply bind_Done in Hrun. destruct Hrun as ([] & r6 & Hrate & Hrun).
  exists r1, r5, r6. split; [exact Hadd |]. split; [| split; [exact Hrate | exact Hrun]].
  inversion Hsort; subst r4. inversion Hdisable; subst r5.
  cbn. apply (check_lead_filler_mEditRate _ _ _ Hfill).
Qed.

Lemma set_clip_edit_rate_runs r5 r6 :
  set_clip_edit_rate float float_of_int float_div float_lt FLOAT_1000000
                     track_GetEditRate r5 = (Done tt, r6) ->
  (numerator (mEditRate r5) <> 0 -> r6 = r5)
  /\ (numerator (mEditRate r5) = 0 ->
      r6 = set_mEditRate
             (fst (lowest_rate r5 (mTrackReaders r5) (mEditRate r5) FLOAT_1000000)) r5
      /\ numerator (fst (lowest_rate r5 (mTrackReaders r5) (mEditRate r5) FLOAT_1000000))
         <> 0).
Proof.
  unfold set_clip_edit_rate. run_monad.
  destruct (negb (numerator (mEditRate r5) =? 0)
            || Nat.eqb (length (mInternalTrackReaders r5)) O); run_monad;
    [| discriminate].
  destruct (numerator (mEditRate r5) =? 0) eqn:E0.
  - apply Z.eqb_eq in E0.
    destruct (negb (numerator
                      (fst (lowest_rate r5 (mTrackReaders r5) (mEditRate r5)
                                        FLOAT_1000000)) =? 0)) eqn:En; run_monad;
      [| discriminate].
    intros Heq. inversion Heq. split; [intros Hne; contradiction |].
    intros _. split; [reflexivity |].
    apply negb_true_iff, Z.eqb_neq in En. exact En.
  - apply Z.eqb_neq in E0. intros Heq. inversion Heq. subst r6.
    split; [reflexivity | intros Hz; contradiction].
Qed.

(** What the code does with the clip edit rate.  From a reader whose
    clip edit rate is not yet set,
    metadata processing that succeeds leaves the clip edit rate equal to
    the edit rate of every file-source-package track of this file that a
    material track refers to, whether or not a track reader was created
    for it; so these tracks agree on the rate, and processing fails when
    two of them differ.  When no material track refers to a track of this
    file, the clip edit rate is the rate of a track reader (all of them
    external) that is below 1000000 and that no track reader's rate is
    below, in the single-precision comparison of the code; the rates are
    those the track readers give in the reader [r5] in which the rate is
    set, from which the result comes by setting the rate and running the
    statements that follow.  The edit rates of the file-source-package
    tracks are taken to have a non-zero numerator. *)
Theorem clip_edit_rate_set (mp_tracks : list MaterialTrack) (r0 r : t) :
  numerator (mEditRate r0) = 0 ->
  Forall (fun fsp_track => numerator (fsp_edit_rate fsp_track) <> 0)
         (internal_fsp_tracks mp_tracks) ->
  process_metadata mp_tracks r0 = (Done tt, r) ->
  (forall fsp_track, In fsp_track (internal_fsp_tracks mp_tracks) ->
     mEditRate r = fsp_edit_rate fsp_track)
  /\ (forall fsp_track fsp_track',
        In fsp_track (internal_fsp_tracks mp_tracks) ->
        In fsp_track' (internal_fsp_tracks mp_tracks) ->
        fsp_edit_rate fsp_track = fsp_edit_rate fsp_track')
  /\ (internal_fsp_tracks mp_tracks = [] ->
      exists r5 ref,
        mTrackReaders r5 = mTrackReaders r
        /\ mInternalTrackReaders r5 = []
        /\ In ref (mTrackReaders r)
        /\ mEditRate r = track_GetEditRate r5 ref
        /\ float_lt (rate_as_float (mEditRate r)) FLOAT_1000000 = true
        /\ (forall ref', In ref' (mTrackReaders r) ->
              float_lt (rate_as_float (track_GetEditRate r5 ref'))
                       (rate_as_float (mEditRate r)) = false)
        /\ after_edit_rate (set_mEditRate (mEditRate r) r5) = (Done tt, r)).
Proof.
  intros Hunset Hvalid Hrun.
  destruct (ProcessMetadata_parts mp_tracks r0 r Hrun)
    as (r1 & r5 & r6 & Hadd & Hr5 & Hrate & Hafter).
  destruct (add_tracks_rate convert_position mp_tracks r0 r1 Hvalid Hadd)
    as (_ & Hnone & Hall).
  pose proof (after_edit_rate_mEditRate _ _ _ Hafter) as Hr.
  pose proof (after_edit_rate_mTrackReaders _ _ _ Hafter) as Htr.
  destruct (set_clip_edit_rate_runs r5 r6 Hrate) as [Hset Hlowest].
  assert (Hfirst : forall fsp_track, In fsp_track (internal_fsp_tracks mp_tracks) ->
                     mEditRate r = fsp_edit_rate fsp_track).
  { intros f Hf. rewrite Hr.
    assert (Hne : numerator (mEditRate r5) <> 0).
    { rewrite Hr5, (Hall f Hf). rewrite Forall_forall in Hvalid. apply Hvalid. exact Hf. }
    rewrite (Hset Hne), Hr5. apply Hall. exact Hf. }
  split; [exact Hfirst |]. split.
  - intros f f' Hf Hf'. rewrite <- (Hfirst f Hf). apply Hfirst. exact Hf'.
  - intros Hnil.
    assert (Hz : numerator (mEditRate r5) = 0).
    { rewrite Hr5, (Hnone Hnil). exact Hunset. }
    destruct (Hlowest Hz) as [Hr6 Hnum].
    assert (Hinternal : mInternalTrackReaders r5 = []).
    { revert Hrate. unfold set_clip_edit_rate. run_monad.
      apply Z.eqb_eq in Hz. rewrite Hz. cbn [negb orb].
      destruct (mInternalTrackReaders r5); [reflexivity |].
      cbn [length Nat.eqb]. run_monad. discriminate. }
    destruct (lowest_edit_rate_spec r5 (mTrackReaders r5) (mEditRate r5) FLOAT_1000000)
      as [(Hf & _) | (ref & Hin & Hf & Hs & Hlt & Hleast)].
    + exfalso. apply Hnum. rewrite Hf. exact Hz.
    + assert (Htracks : mTrackReaders r5 = mTrackReaders r).
      { rewrite Htr, Hr6. reflexivity. }
      assert (Hrate_r : mEditRate r = track_GetEditRate r5 ref).
      { rewrite Hr, Hr6. cbn. exact Hf. }
      exists r5, ref. rewrite <- Htracks.
      split; [reflexivity |]. split; [exact Hinternal |]. split; [exact Hin |].
      split; [exact Hrate_r |].
      split; [rewrite Hrate_r, <- Hs; exact Hlt |].
      split; [rewrite Hrate_r, <- Hs; exact Hleast |].
      rewrite Hrate_r, <- Hf, <- Hr6. exact Hafter.
Qed.

(** The clip duration that [ProcessMetadata] leaves is the one determined
    from the reader as it is after the sample sequences are extracted; the
    statements that follow change the durations of the external readers and
    the clip origin only. *)
Lemma ProcessMetadata_duration mp_tracks r0 r :
  process_metadata mp_tracks r0 = (Done tt, r) ->
  exists r7,
    mDuration r = clip_duration convert_duration_lower convert_duration r7
    /\ mInternalTrackReaders r = mInternalTrackReaders r7
    /\ mEditRate r = mEditRate r7
    /\ mExternalSampleSequences r = mExternalSampleSequences r7
    /\ mExternalSampleSequenceSizes r = mExternalSampleSequenceSizes r7
    /\ length (mExternalReaders r) = length (mExternalReaders r7).
Proof.
  intros Hrun.
  destruct (ProcessMetadata_parts mp_tracks r0 r Hrun)
    as (r1 & r5 & r6 & _ & _ & _ & Hafter).
  unfold after_edit_rate in Hafter.
  apply bind_Done in Hafter. destruct Hafter as (externals & r6' & Hget & Hafter).
  inversion Hget; subst externals r6'. clear Hget.
  apply bind_Done in Hafter. destruct Hafter as ([] & r7 & _ & Hafter).
  apply bind_Done in Hafter. destruct Hafter as ([] & r8 & Hdur & Hafter).
  apply bind_Done in Hafter. destruct Hafter as ([] & r9 & Hforce & Horigin).
  exists r7. inversion Hdur; subst r8. inversion Horigin; subst r. clear Hdur Horigin.
  unfold force_external_durations in Hforce.
  cbn [mDuration set_mDuration] in Hforce.
  destruct (0 <=? clip_duration convert_duration_lower convert_duration r7).
  - cbn [mExternalReaders set_mDuration] in Hforce.
    destruct (force_durations convert_position_higher
                (set_mDuration (clip_duration convert_duration_lower convert_duration r7) r7)
                O (mExternalReaders r7)) as [es | e] eqn:Ef; [| discriminate].
    inversion Hforce; subst r9. cbn. repeat split.
    clear Hforce Hrun. revert es Ef. generalize O.
    generalize (set_mDuration (clip_duration convert_duration_lower convert_duration r7) r7).
    induction (mExternalReaders r7) as [| e es' IH]; intros r' i es Ef.
    + inversion Ef. reflexivity.
    + cbn [force_durations] in Ef.
      destruct (ForceDuration (CONVERT_INTERNAL_POS convert_position_higher r' i (mDuration r')) e);
        [| discriminate].
      destruct (force_durations convert_position_higher r' (Datatypes.S i) es')
        as [es'' |] eqn:Ef'; [| discriminate].
      inversion Ef; subst es. cbn [length]. f_equal. eapply IH. exact Ef'.
  - inversion Hforce; subst r9. cbn. repeat split.
Qed.

End ClipEditRate.

(** The exact comparison of the examples is irreflexive and transitive. *)
Lemma exact_lt_iff a b : Instances.exact_lt a b = true <-> (a < b)%Q.
Proof.
  unfold Instances.exact_lt. rewrite negb_true_iff. split.
  - intros Hf. apply Qnot_le_lt. intros Hle. apply Qle_bool_iff in Hle. congruence.
  - intros Hlt. destruct (Qle_bool b a) eqn:E; [| reflexivity].
    apply Qle_bool_iff in E. exfalso. apply (Qlt_not_le _ _ Hlt E).
Qed.

Lemma exact_lt_irrefl a : Instances.exact_lt a a = false.
Proof.
  unfold Instances.exact_lt. apply negb_false_iff. apply Qle_bool_iff. apply Qle_refl.
Qed.

Lemma exact_lt_trans a b c :
  Instances.exact_lt a b = true -> Instances.exact_lt b c = true ->
  Instances.exact_lt a c = true.
Proof. rewrite !exact_lt_iff. apply Qlt_trans. Qed.

(** *** Example clips *)

Definition RATE_48000 : Rational := mkRational 48000 1.

Definition PICTURE_DDEF : Z := 1.

(** An audio file: one sound track of 172800 samples at 48000/1. *)
Definition audio_file_tracks : list MaterialTrack :=
  [mkMaterialTrack SOUND_DDEF 1 1 RATE_48000 0 172800 0
     (InThisFile (mkFileSourceTrack RATE_48000 0 1 1 true (OTHER_ESSENCE_TYPE 0)))].

Definition audio_file : t := snd (Instances.ProcessMetadata audio_file_tracks (new 1)).

(** A picture track of this file, 100 edit units at 25/1, with or without
    a file descriptor for its file-source-package track. *)
Definition picture_track (have_file_desc : bool) : MaterialTrack :=
  mkMaterialTrack PICTURE_DDEF 1 0 RATE_25 0 100 0
    (InThisFile (mkFileSourceTrack RATE_25 0 1 1 have_file_desc MPEG2LG_422P_HL_1080I)).

(** A sound track whose essence is track 1 of the audio file. *)
Definition external_sound_track (rate : Rational) (duration' : Z) : MaterialTrack :=
  mkMaterialTrack SOUND_DDEF 2 0 rate 0 duration' 0 (InExternalFile (Some (audio_file, 1))).

(** A clip with internal picture and external sound. *)
Definition clip_tracks : list MaterialTrack :=
  [picture_track true; external_sound_track RATE_25 90].

Definition clip : t := snd (Instances.ProcessMetadata clip_tracks (new 0)).

(** A clip with external sound only. *)
Definition sound_only_tracks : list MaterialTrack := [external_sound_track RATE_48000 172800].

(** A clip whose picture track is skipped, because no file descriptor is
    found for it, and whose sound is external. *)
Definition skipped_picture_tracks : list MaterialTrack :=
  [picture_track false; external_sound_track RATE_48000 172800].

Definition skipped_picture_clip : t :=
  snd (Instances.ProcessMetadata skipped_picture_tracks (new 0)).

Example clip_processed :
  fst (Instances.ProcessMetadata clip_tracks (new 0)) = Done tt
  /\ mEditRate clip = RATE_25
  /\ mDuration clip = 90
  /\ mTrackReaders clip = [OwnTrack 0; ExternalTrack 0 0]
  /\ mExternalSampleSequences clip = [[1920]]
  /\ map mDuration (mExternalReaders clip) = [172800].
Proof. vm_compute. repeat split; reflexivity. Qed.

(** C5.  The code departs from the claim, and from its own comment that
    the clip edit rate is set from the track readers when there are no
    internal essence tracks: [CreateInternalTrackReader] stores the edit
    rate of the file-source-package track before it gives up on a track
    without a file descriptor.  No internal track reader exists after
    metadata processing of the clip with the skipped picture track, and
    the clip edit rate is 25/1, the rate of the skipped track; the one
    track reader is external and neither its track's edit rate nor its
    file reader's is 25/1 (both are 48000/1). *)
Lemma clip_edit_rate_counterexample :
  fst (Instances.ProcessMetadata skipped_picture_tracks (new 0)) = Done tt
  /\ mInternalTrackReaders skipped_picture_clip = []
  /\ mTrackReaders skipped_picture_clip = [ExternalTrack 0 0]
  /\ mEditRate skipped_picture_clip = RATE_25
  /\ ~ (exists ref, In ref (mTrackReaders skipped_picture_clip)
                    /\ (mEditRate skipped_picture_clip
                        = edit_rate (GetTrackInfo (GetTrackReader skipped_picture_clip ref))
                        \/ mEditRate skipped_picture_clip
                           = Instances.file_reader_rate skipped_picture_clip ref)).
Proof.
  split; [vm_compute; reflexivity |].
  split; [vm_compute; reflexivity |].
  split; [vm_compute; reflexivity |].
  split; [vm_compute; reflexivity |].
  intros (ref & Hin & Hrate).
  assert (Hrefs : mTrackReaders skipped_picture_clip = [ExternalTrack 0 0])
    by (vm_compute; reflexivity).
  rewrite Hrefs in Hin. destruct Hin as [Href | []]. subst ref.
  assert (Hclip : mEditRate skipped_picture_clip = RATE_25) by (vm_compute; reflexivity).
  assert (Htrack : edit_rate (GetTrackInfo (GetTrackReader skipped_picture_clip
                                                          (ExternalTrack 0 0)))
                   = RATE_48000) by (vm_compute; reflexivity).
  assert (Hfile : Instances.file_reader_rate skipped_picture_clip (ExternalTrack 0 0)
                  = RATE_48000) by (vm_compute; reflexivity).
  rewrite Hclip, Htrack, Hfile in Hrate.
  clear Hclip Htrack Hfile Hrefs.
  destruct Hrate as [Hrate | Hrate]; discriminate Hrate.
Qed.

Definition sound_only_clip : t :=
  snd (Instances.ProcessMetadata sound_only_tracks (new 0)).

Lemma clip_edit_rate_set_witness :
  mEditRate clip
  = fsp_edit_rate (mkFileSourceTrack RATE_25 0 1 1 true MPEG2LG_422P_HL_1080I)
  /\ exists r5 ref,
       mTrackReaders r5 = mTrackReaders sound_only_clip
       /\ mEditRate sound_only_clip = Instances.file_reader_rate r5 ref.
Proof.
  assert (Hclip : Instances.ProcessMetadata clip_tracks (new 0) = (Done tt, clip))
    by (vm_compute; reflexivity).
  assert (Hsound : Instances.ProcessMetadata sound_only_tracks (new 0)
                   = (Done tt, sound_only_clip))
    by (vm_compute; reflexivity).
  assert (Hvalid : Forall (fun fsp_track => numerator (fsp_edit_rate fsp_track) <> 0)
                          (internal_fsp_tracks clip_tracks)).
  { constructor; [cbn; discriminate | constructor]. }
  split.
  - pose proof (clip_edit_rate_set
             Utils.convert_position_lower Utils.convert_position_higher
             Utils.convert_duration_lower Instances.scale Instances.scale
             Instances.exact Instances.exact_of_int Instances.exact_div Instances.exact_lt
             Instances.EXACT_1000000 Instances.file_reader_rate
             Instances.whole_multiple_sequence Utils.get_sequence_size
             exact_lt_irrefl exact_lt_trans
             clip_tracks (new 0) clip eq_refl Hvalid Hclip) as (Hall & _ & _).
    apply Hall. left. reflexivity.
  - pose proof (clip_edit_rate_set
             Utils.convert_position_lower Utils.convert_position_higher
             Utils.convert_duration_lower Instances.scale Instances.scale
             Instances.exact Instances.exact_of_int Instances.exact_div Instances.exact_lt
             Instances.EXACT_1000000 Instances.file_reader_rate
             Instances.whole_multiple_sequence Utils.get_sequence_size
             exact_lt_irrefl exact_lt_trans
             sound_only_tracks (new 0) sound_only_clip eq_refl
             (Forall_nil _) Hsound) as (_ & _ & Hlowest).
    destruct (Hlowest eq_refl) as (r5 & ref & Htracks & _ & _ & Hrate & _).
    exists r5, ref. split; [exact Htracks | exact Hrate].
Defined.

(** The clip with internal picture and external sound, as it is when the
    clip duration is determined. *)
Definition clip_before_duration : t :=
  set_mExternalSampleSequenceSizes [1920]
    (set_mExternalSampleSequences [[1920]]
       (set_mExternalReaders [audio_file]
          (snd (Instances.ProcessMetadata [picture_track true] (new 0))))).

Lemma clip_duration_spec_witness :
  is_minimum
    (clip_duration Utils.convert_duration_lower Instances.scale clip_before_duration)
    (contributions Utils.convert_duration_lower Instances.scale clip_before_duration).
Proof.
  apply (clip_duration_spec Utils.convert_duration_lower Instances.scale
           clip_before_duration).
  - constructor; [vm_compute; discriminate | constructor].
  - constructor; [vm_compute; discriminate | constructor].
  - assert (Hc : contributions Utils.convert_duration_lower Instances.scale
                               clip_before_duration = [100; 90])
      by (vm_compute; reflexivity).
    rewrite Hc. constructor; [vm_compute; discriminate |].
    constructor; [vm_compute; discriminate | constructor].
  - assert (Hc : contributions Utils.convert_duration_lower Instances.scale
                               clip_before_duration = [100; 90])
      by (vm_compute; reflexivity).
    rewrite Hc. discriminate.
Defined.

Example clip_before_duration_minimum :
  clip_duration Utils.convert_duration_lower Instances.scale clip_before_duration = 90
  /\ contributions Utils.convert_duration_lower Instances.scale clip_before_duration
     = [100; 90].
Proof. vm_compute. split; reflexivity. Qed.

(** *** Precharge and rollout *)

Import PrechargeSpec.

Section Precharge.

Variable convert_position_lower : Z -> list Z -> Z -> Z.
Variable convert_position_higher : Z -> list Z -> Z -> Z.
Variable convert_duration_lower : Z -> list Z -> Z -> Z.
Variable CURRENT_POSITION_VALUE : Z.

Abbreviation get_position := (GetPosition convert_position_lower).
Abbreviation internal_precharge :=
  (GetInternalPrecharge convert_position_lower CURRENT_POSITION_VALUE).
Abbreviation internal_rollout :=
  (GetInternalRollout convert_position_lower CURRENT_POSITION_VALUE).
Abbreviation max_precharge :=
  (GetMaxPrecharge convert_position_lower convert_position_higher convert_duration_lower
                   CURRENT_POSITION_VALUE).
Abbreviation max_rollout :=
  (GetMaxRollout convert_position_lower convert_position_higher convert_duration_lower
                 CURRENT_POSITION_VALUE).

Lemma clamp_precharge_range v :
  -32768 <= v <= 32767 -> -32768 <= (if v <? 0 then v else 0) <= 0.
Proof. intros Hv. destruct (v <? 0) eqn:E; [apply Z.ltb_lt in E |]; lia. Qed.

Lemma clamp_rollout_range v :
  -32768 <= v <= 32767 -> 0 <= (if 0 <? v then v else 0) <= 32767.
Proof. intros Hv. destruct (0 <? v) eqn:E; [apply Z.ltb_lt in E |]; lia. Qed.

Lemma sint8_in_int16 z : -32768 <= sint8 z <= 32767.
Proof. pose proof (sint8_range z). lia. Qed.

(** On a complete file the internal precharge is a value, and it is an
    [int16_t] that is not positive. *)
Lemma GetInternalPrecharge_range r position limit :
  IsComplete r = true ->
  exists v, internal_precharge r position limit = Ok v /\ -32768 <= v <= 0.
Proof.
  intros Hc. unfold GetInternalPrecharge. rewrite Hc. cbn [negb].
  destruct (mEssenceReader r) as [er |]; [| exists 0; split; [reflexivity | lia]].
  destruct (negb (HaveInterFrameEncodingTrack r)); [exists 0; split; [reflexivity | lia] |].
  match goal with |- context [if negb ?c then Ok 0 else _] => destruct (negb c) end;
    [exists 0; split; [reflexivity | lia] |].
  eexists. split; [reflexivity |].
  apply clamp_precharge_range.
  match goal with
  | |- _ <= (if 0 <? ?p then _ else _) <= _ =>
      assert (Hp : -32768 <= p <= 32767)
  end.
  { destruct (GetInternalIndexEntry r _) as [entry |]; [| lia].
    destruct (negb (sint8 (temporal_offset entry) =? 0)).
    - destruct (GetInternalIndexEntry r _) as [entry' |]; [apply sint16_range | lia].
    - apply sint8_in_int16. }
  match goal with
  | |- _ <= (if ?a then _ else if ?b then _ else _) <= _ => destruct a; [exact Hp |]; destruct b
  end; [apply sint16_range | exact Hp].
Qed.

Lemma GetInternalRollout_range r position limit :
  IsComplete r = true ->
  exists v, internal_rollout r position limit = Ok v /\ 0 <= v <= 32767.
Proof.
  intros Hc. unfold GetInternalRollout. rewrite Hc. cbn [negb].
  destruct (mEssenceReader r) as [er |]; [| exists 0; split; [reflexivity | lia]].
  destruct (negb (HaveInterFrameEncodingTrack r)); [exists 0; split; [reflexivity | lia] |].
  match goal with |- context [if negb ?c then Ok 0 else _] => destruct (negb c) end;
    [exists 0; split; [reflexivity | lia] |].
  eexists. split; [reflexivity |].
  apply clamp_rollout_range.
  match goal with
  | |- _ <= (if ?p <? 0 then _ else _) <= _ =>
      assert (Hp : -32768 <= p <= 32767)
  end.
  { destruct (GetInternalIndexEntry r _) as [entry |]; [| lia].
    destruct (0 <? sint8 (temporal_offset entry)); [apply sint8_in_int16 | lia]. }
  match goal with
  | |- _ <= (if ?a then _ else if ?b then _ else _) <= _ => destruct a; [exact Hp |]; destruct b
  end; [apply sint16_range | exact Hp].
Qed.

(** The loops over the external readers keep the value in range, given
    that each external reader's own result is in range. *)
Lemma precharge_externals_result
      (pre : t -> Z -> bool -> Result Z) (limits : t -> Result (Z * Z))
      (r : t) (target : Z) (es : list t) :
  Forall (fun e => forall p, precharge_result (pre e p false)) es ->
  forall i precharge m,
    -32768 <= precharge <= 0 ->
    match precharge_externals convert_position_lower convert_position_higher
                              pre limits r target false i es precharge m with
    | Ok (v, _) => -32768 <= v <= 0
    | Raise ex => ex = EDIT_RATE_MISMATCH_PRECHARGE
    end.
Proof.
  induction 1 as [| e es He _ IH]; intros i precharge m Hp; cbn [precharge_externals].
  - exact Hp.
  - destruct (negb (IsEnabled e)); [apply IH; exact Hp |].
    match goal with |- context [pre e ?p false] => specialize (He p) end.
    destruct (pre e _ false) as [v | ex]; cbn [precharge_result] in He; cbn beta iota;
      [| exact He].
    destruct (negb (v =? 0)); [| apply IH; exact Hp].
    destruct (Rational_eqb (mEditRate e) (mEditRate r)); [| reflexivity].
    apply IH. destruct (v <? precharge); lia.
Qed.

Lemma rollout_externals_result
      (ro : t -> Z -> bool -> Result Z) (limits : t -> Result (Z * Z))
      (r : t) (target : Z) (es : list t) :
  Forall (fun e => forall p, rollout_result (ro e p false)) es ->
  forall i rollout m,
    0 <= rollout <= 32767 ->
    match rollout_externals convert_position_higher convert_duration_lower
                            ro limits r target false i es rollout m with
    | Ok (v, _) => 0 <= v <= 32767
    | Raise ex => ex = EDIT_RATE_MISMATCH_ROLLOUT
    end.
Proof.
  induction 1 as [| e es He _ IH]; intros i rollout m Hp; cbn [rollout_externals].
  - exact Hp.
  - destruct (negb (IsEnabled e)); [apply IH; exact Hp |].
    match goal with |- context [ro e ?p false] => specialize (He p) end.
    destruct (ro e _ false) as [v | ex]; cbn [rollout_result] in He; cbn beta iota;
      [| exact He].
    destruct (negb (v =? 0)); [| apply IH; exact Hp].
    destruct (Rational_eqb (mEditRate e) (mEditRate r)); [| reflexivity].
    apply IH. destruct (rollout <? v); lia.
Qed.

Lemma precharge_externals_value
      (pre : t -> Z -> bool -> Result Z) (limits : t -> Result (Z * Z))
      (r : t) (target : Z) (es : list t) :
  Forall (fun e => forall p, exists v, pre e p false = Ok v) es ->
  forallb (fun e => Rational_eqb (mEditRate e) (mEditRate r)) es = true ->
  forall i precharge m,
    exists v m',
      precharge_externals convert_position_lower convert_position_higher
                          pre limits r target false i es precharge m = Ok (v, m').
Proof.
  induction 1 as [| e es He _ IH]; intros Hrates i precharge m; cbn [precharge_externals].
  - exists precharge, m. reflexivity.
  - cbn [forallb] in Hrates. apply andb_true_iff in Hrates. destruct Hrates as [Hrate Hrates].
    destruct (negb (IsEnabled e)); [apply IH; exact Hrates |].
    match goal with |- context [pre e ?p false] => destruct (He p) as [v Hv] end.
    rewrite Hv, Hrate. cbn beta iota.
    destruct (negb (v =? 0)); apply IH; exact Hrates.
Qed.

Lemma rollout_externals_value
      (ro : t -> Z -> bool -> Result Z) (limits : t -> Result (Z * Z))
      (r : t) (target : Z) (es : list t) :
  Forall (fun e => forall p, exists v, ro e p false = Ok v) es ->
  forallb (fun e => Rational_eqb (mEditRate e) (mEditRate r)) es = true ->
  forall i rollout m,
    exists v m',
      rollout_externals convert_position_higher convert_duration_lower
                        ro limits r target false i es rollout m = Ok (v, m').
Proof.
  induction 1 as [| e es He _ IH]; intros Hrates i rollout m; cbn [rollout_externals].
  - exists rollout, m. reflexivity.
  - cbn [forallb] in Hrates. apply andb_true_iff in Hrates. destruct Hrates as [Hrate Hrates].
    destruct (negb (IsEnabled e)); [apply IH; exact Hrates |].
    match goal with |- context [ro e ?p false] => destruct (He p) as [v Hv] end.
    rewrite Hv, Hrate. cbn beta iota.
    destruct (negb (v =? 0)); apply IH; exact Hrates.
Qed.

Lemma rates_agree_externals r :
  rates_agree r = true ->
  forallb (fun e => Rational_eqb (mEditRate e) (mEditRate r)) (mExternalReaders r) = true
  /\ Forall (fun e => rates_agree e = true) (mExternalReaders r).
Proof.
  destruct r. cbn. intros H. rewrite forallb_forall in H. split.
  - apply forallb_forall. intros e He. specialize (H e He).
    apply andb_true_iff in H. apply H.
  - apply Forall_forall. intros e He. specialize (H e He).
    apply andb_true_iff in H. apply H.
Qed.

Lemma IsComplete_externals r :
  IsComplete r = true -> Forall (fun e => IsComplete e = true) (mExternalReaders r).
Proof.
  destruct r. cbn. intros H.
  destruct (_ || _); [discriminate |].
  apply Forall_forall. apply forallb_forall. exact H.
Qed.

Lemma GetMaxPrecharge_unfold r position limit :
  max_precharge r position limit
  = if negb (IsComplete r) then Raise PC_RO_NOT_AVAILABLE
    else
      let target_position :=
        if position =? CURRENT_POSITION_VALUE then get_position r else position in
      match precharge_internal convert_position_lower CURRENT_POSITION_VALUE
                               r target_position limit with
      | Raise e => Raise e
      | Ok (precharge0, max_start_position0) =>
          match precharge_externals convert_position_lower convert_position_higher
                  max_precharge
                  (fun e => read_limits_of (IsComplete e) (mDuration e)
                                           (max_precharge e) (max_rollout e) true)
                  r target_position limit O (mExternalReaders r)
                  precharge0 max_start_position0 with
          | Raise e => Raise e
          | Ok (precharge, max_start_position) =>
              let precharge' :=
                if limit && (precharge <? sint64 (max_start_position - target_position))
                then sint64 (max_start_position - target_position)
                else precharge in
              Ok (if precharge' <? 0 then sint16 precharge' else 0)
          end
      end.
Proof. destruct r; reflexivity. Qed.

Lemma GetMaxRollout_unfold r position limit :
  max_rollout r position limit
  = if negb (IsComplete r) then Raise PC_RO_NOT_AVAILABLE
    else
      let target_position :=
        if position =? CURRENT_POSITION_VALUE then get_position r else position in
      match rollout_internal convert_position_lower CURRENT_POSITION_VALUE
                             r target_position limit with
      | Raise e => Raise e
      | Ok (rollout0, min_end_position0) =>
          match rollout_externals convert_position_higher convert_duration_lower
                  max_rollout
                  (fun e => read_limits_of (IsComplete e) (mDuration e)
                                           (max_precharge e) (max_rollout e) true)
                  r target_position limit O (mExternalReaders r)
                  rollout0 min_end_position0 with
          | Raise e => Raise e
          | Ok (rollout, min_end_position) =>
              let rollout' :=
                if limit && (sint64 (min_end_position - target_position) <? rollout)
                then sint64 (min_end_position - target_position)
                else rollout in
              Ok (if 0 <? rollout' then sint16 rollout' else 0)
          end
      end.
Proof. destruct r; reflexivity. Qed.

(** The two queries without limiting, on a complete reader: a value in
    range or the edit-rate exception. *)
Lemma GetMaxPrecharge_GetMaxRollout_result r :
  IsComplete r = true ->
  forall position,
    precharge_result (max_precharge r position false)
    /\ rollout_result (max_rollout r position false).
Proof.
  induction r as [r IH] using reader_ind. intros Hc position.
  pose proof (IsComplete_externals r Hc) as Hce.
  assert (Hpre : Forall (fun e => forall p, precharge_result (max_precharge e p false))
                        (mExternalReaders r)).
  { rewrite Forall_forall in *. intros e He p. apply (IH e He (Hce e He) p). }
  assert (Hro : Forall (fun e => forall p, rollout_result (max_rollout e p false))
                       (mExternalReaders r)).
  { rewrite Forall_forall in *. intros e He p. apply (IH e He (Hce e He) p). }
  split.
  - rewrite GetMaxPrecharge_unfold, Hc. cbn [negb andb]. cbv zeta.
    unfold precharge_internal.
    match goal with |- context [internal_precharge r ?t false] =>
      destruct (GetInternalPrecharge_range r t false Hc) as (v0 & Hv0 & Hr0); rewrite Hv0
    end.
    match goal with
    | |- context [precharge_externals _ _ ?pre ?lim r ?t false O _ _ _] =>
        assert (H0 := precharge_externals_result pre lim r t _ Hpre O 0 INT64_MIN
                                                 ltac:(lia));
        assert (H1 := precharge_externals_result pre lim r t _ Hpre O v0 INT64_MIN Hr0)
    end.
    destruct (InternalIsEnabled r); cbv beta iota.
    + clear H0. destruct (precharge_externals _ _ _ _ _ _ _ _ _ _ _) as [[v m] | ex];
        cbn [precharge_result]; [| exact H1].
      destruct (v <? 0) eqn:E; [rewrite sint16_small; lia | lia].
    + clear H1. destruct (precharge_externals _ _ _ _ _ _ _ _ _ _ _) as [[v m] | ex];
        cbn [precharge_result]; [| exact H0].
      destruct (v <? 0) eqn:E; [rewrite sint16_small; lia | lia].
  - rewrite GetMaxRollout_unfold, Hc. cbn [negb andb]. cbv zeta.
    unfold rollout_internal.
    match goal with |- context [internal_rollout r ?t false] =>
      destruct (GetInternalRollout_range r t false Hc) as (v0 & Hv0 & Hr0); rewrite Hv0
    end.
    match goal with
    | |- context [rollout_externals _ _ ?ro ?lim r ?t false O _ _ _] =>
        assert (H0 := rollout_externals_result ro lim r t _ Hro O 0 INT64_MAX
                                               ltac:(lia));
        assert (H1 := rollout_externals_result ro lim r t _ Hro O v0 INT64_MAX Hr0)
    end.
    destruct (InternalIsEnabled r); cbv beta iota.
    + clear H0. destruct (rollout_externals _ _ _ _ _ _ _ _ _ _ _) as [[v m] | ex];
        cbn [rollout_result]; [| exact H1].
      destruct (0 <? v) eqn:E; [rewrite sint16_small; lia | lia].
    + clear H1. destruct (rollout_externals _ _ _ _ _ _ _ _ _ _ _) as [[v m] | ex];
        cbn [rollout_result]; [| exact H0].
      destruct (0 <? v) eqn:E; [rewrite sint16_small; lia | lia].
Qed.

(** When the edit rates agree the two queries give a value. *)
Lemma GetMaxPrecharge_GetMaxRollout_value r :
  IsComplete r = true ->
  rates_agree r = true ->
  forall position,
    (exists v, max_precharge r position false = Ok v)
    /\ (exists v, max_rollout r position false = Ok v).
Proof.
  induction r as [r IH] using reader_ind. intros Hc Hr position.
  pose proof (IsComplete_externals r Hc) as Hce.
  destruct (rates_agree_externals r Hr) as [Hrates Hre].
  assert (Hpre : Forall (fun e => forall p, exists v, max_precharge e p false = Ok v)
                        (mExternalReaders r)).
  { rewrite Forall_forall in *. intros e He p. apply (IH e He (Hce e He) (Hre e He) p). }
  assert (Hro : Forall (fun e => forall p, exists v, max_rollout e p false = Ok v)
                       (mExternalReaders r)).
  { rewrite Forall_forall in *. intros e He p. apply (IH e He (Hce e He) (Hre e He) p). }
  split.
  - rewrite GetMaxPrecharge_unfold, Hc. cbn [negb andb]. cbv zeta.
    unfold precharge_internal.
    match goal with |- context [internal_precharge r ?t false] =>
      destruct (GetInternalPrecharge_range r t false Hc) as (v0 & Hv0 & _); rewrite Hv0
    end.
    match goal with
    | |- context [precharge_externals _ _ ?pre ?lim r ?t false O _ _ _] =>
        destruct (precharge_externals_value pre lim r t _ Hpre Hrates O 0 INT64_MIN)
          as (v & m & H0);
        destruct (precharge_externals_value pre lim r t _ Hpre Hrates O v0 INT64_MIN)
          as (v' & m' & H1)
    end.
    destruct (InternalIsEnabled r); cbv beta iota.
    + rewrite H1. eexists. reflexivity.
    + rewrite H0. eexists. reflexivity.
  - rewrite GetMaxRollout_unfold, Hc. cbn [negb andb]. cbv zeta.
    unfold rollout_internal.
    match goal with |- context [internal_rollout r ?t false] =>
      destruct (GetInternalRollout_range r t false Hc) as (v0 & Hv0 & _); rewrite Hv0
    end.
    match goal with
    | |- context [rollout_externals _ _ ?ro ?lim r ?t false O _ _ _] =>
        destruct (rollout_externals_value ro lim r t _ Hro Hrates O 0 INT64_MAX)
          as (v & m & H0);
        destruct (rollout_externals_value ro lim r t _ Hro Hrates O v0 INT64_MAX)
          as (v' & m' & H1)
    end.
    destruct (InternalIsEnabled r); cbv beta iota.
    + rewrite H1. eexists. reflexivity.
    + rewrite H0. eexists. reflexivity.
Qed.

Lemma GetInternalPrecharge_entry r position er entry :
  let target := if position =? CURRENT_POSITION_VALUE then get_position r else position in
  IsComplete r = true ->
  mEssenceReader r = Some er ->
  HaveInterFrameEncodingTrack r = true ->
  FROM_ESS_READER_POS r (er_legitimise er (TO_ESS_READER_POS r target)) = target ->
  GetInternalIndexEntry r target = Some entry ->
  int8 (temporal_offset entry) ->
  int8 (key_frame_offset entry) ->
  INT64_MIN <= target + temporal_offset entry <= INT64_MAX ->
  (forall anchor,
     GetInternalIndexEntry r (target + temporal_offset entry) = Some anchor ->
     int8 (key_frame_offset anchor)) ->
  internal_precharge r position false
  = Ok (Z.min 0 (precharge_of_entry
                   entry (GetInternalIndexEntry r (target + temporal_offset entry)))).
Proof.
  intros target Hc Her Hinter Hlegit Hentry Ht Hk Hrange Hanchor.
  unfold GetInternalPrecharge. fold target.
  rewrite Hc, Her, Hinter. cbn [negb].
  rewrite Hlegit, Z.eqb_refl. cbn [negb].
  rewrite Hentry. unfold int8 in *.
  rewrite (sint8_small (temporal_offset entry)) by exact Ht.
  rewrite (sint64_small (target + temporal_offset entry)) by exact Hrange.
  unfold precharge_of_entry.
  rewrite andb_false_r.
  f_equal.
  destruct (temporal_offset entry =? 0) eqn:Ezero; cbn [negb].
  - rewrite (sint8_small (key_frame_offset entry)) by exact Hk.
    destruct (0 <? key_frame_offset entry) eqn:E1.
    + apply Z.ltb_lt in E1.
      destruct (key_frame_offset entry <? 0) eqn:E2; [apply Z.ltb_lt in E2 |]; lia.
    + apply Z.ltb_ge in E1.
      destruct (key_frame_offset entry <? 0) eqn:E2;
        [apply Z.ltb_lt in E2 | apply Z.ltb_ge in E2]; lia.
  - destruct (GetInternalIndexEntry r (target + temporal_offset entry)) as [anchor |].
    + specialize (Hanchor anchor eq_refl).
      rewrite (sint8_small (key_frame_offset anchor)) by exact Hanchor.
      rewrite sint16_small by lia.
      set (v := temporal_offset entry + key_frame_offset anchor).
      destruct (0 <? v) eqn:E1.
      * apply Z.ltb_lt in E1.
        destruct (v <? 0) eqn:E2; [apply Z.ltb_lt in E2 |]; lia.
      * apply Z.ltb_ge in E1.
        destruct (v <? 0) eqn:E2; [apply Z.ltb_lt in E2 | apply Z.ltb_ge in E2]; lia.
    + reflexivity.
Qed.

(** C3 (as amended).  On a complete file, [GetMaxPrecharge(position,
    false)] is an [int16_t] that is at most 0 and [GetMaxRollout(position,
    false)] one that is at least 0, unless the call raises the exception
    of the edit-rate check, for an external reader with a precharge or
    rollout at another edit rate; when the edit rates of the external
    readers agree with their holders' both calls return.  The internal precharge at a legitimate target position
    that has an index entry is the minimum of 0 and the value read from
    the index: the entry's key-frame offset when its temporal offset is 0,
    otherwise the temporal offset plus the key-frame offset of the entry
    at the target position plus the temporal offset (and 0 when that
    entry is missing). *)
Theorem precharge_and_rollout (r : t) (position : Z) :
  IsComplete r = true ->
  precharge_result (max_precharge r position false)
  /\ rollout_result (max_rollout r position false)
  /\ (rates_agree r = true ->
      exists precharge rollout,
        max_precharge r position false = Ok precharge /\ precharge <= 0
        /\ max_rollout r position false = Ok rollout /\ 0 <= rollout)
  /\ (forall er entry,
        let target :=
          if position =? CURRENT_POSITION_VALUE then get_position r else position in
        mEssenceReader r = Some er ->
        HaveInterFrameEncodingTrack r = true ->
        FROM_ESS_READER_POS r (er_legitimise er (TO_ESS_READER_POS r target)) = target ->
        GetInternalIndexEntry r target = Some entry ->
        int8 (temporal_offset entry) ->
        int8 (key_frame_offset entry) ->
        INT64_MIN <= target + temporal_offset entry <= INT64_MAX ->
        (forall anchor,
           GetInternalIndexEntry r (target + temporal_offset entry) = Some anchor ->
           int8 (key_frame_offset anchor)) ->
        internal_precharge r position false
        = Ok (Z.min 0 (precharge_of_entry
                         entry
                         (GetInternalIndexEntry r (target + temporal_offset entry))))).
Proof.
  intros Hc.
  destruct (GetMaxPrecharge_GetMaxRollout_result r Hc position) as [Hpre Hro].
  split; [exact Hpre |]. split; [exact Hro |]. split.
  - intros Hrates.
    destruct (GetMaxPrecharge_GetMaxRollout_value r Hc Hrates position)
      as [[v Hv] [w Hw]].
    rewrite Hv in Hpre |- *. rewrite Hw in Hro |- *.
    cbn [precharge_result rollout_result] in Hpre, Hro.
    exists v, w. split; [reflexivity |]. split; [lia |]. split; [reflexivity | lia].
  - intros er entry target Her Hinter Hlegit Hentry Ht Hk Hrange Hanchor.
    apply (GetInternalPrecharge_entry r position er entry Hc Her Hinter Hlegit Hentry
                                      Ht Hk Hrange Hanchor).
Qed.

End Precharge.

(** A complete file of ten edit units of long-GOP MPEG-2 at 25/1, with an
    index of the given entries. *)
Definition gop_essence (index : Z -> option MXFIndexEntryExt) : EssenceReader :=
  mkEssenceReader 0 true (fun position n => (inr n, position + n)) index
                  (fun position => Z.max 0 (Z.min 9 position))
                  (fun _ => NoFrame).

Definition gop_track : MXFTrackReader :=
  mkTrackReader (mkTrackInfo 1 1 1 1 1 (mkRational 25 1) 10 0 MPEG2LG_422P_HL_1080I)
                true false.

Definition gop_reader (index : Z -> option MXFIndexEntryExt) : t :=
  mk 0 (mkRational 25 1) 0 0 10 (Some (gop_essence index)) 0 false EmptyString
     [gop_track] [OwnTrack 0] [] [] [] [].

(** Key-frame offsets 0, -1, -2, 0, -1, -2, 0, -1, -2, 0 and no temporal
    offsets. *)
Definition key_frame_index (position : Z) : option MXFIndexEntryExt :=
  if (0 <=? position) && (position <? 10)
  then Some (mkIndexEntry 0 (- (position mod 3)) 0 0)
  else None.

(** The same, with a temporal offset of -2 at position 4. *)
Definition b_frame_index (position : Z) : option MXFIndexEntryExt :=
  if position =? 4 then Some (mkIndexEntry (-2) (-1) 0 0)
  else key_frame_index position.

(** A clip at 25/1 whose one track is in an external long-GOP file: the
    file with the index that has a B-frame at position 4, at the edit rate
    [rate], [ratio] edit units of the file to one of the clip. *)
Definition gop_file (rate : Rational) : t :=
  mk 1 rate 0 0 10 (Some (gop_essence b_frame_index)) 0 false EmptyString
     [mkTrackReader (mkTrackInfo 1 1 1 1 1 rate 10 0 MPEG2LG_422P_HL_1080I) true false]
     [OwnTrack 0] [] [] [] [].

Definition gop_clip (rate : Rational) (ratio : Z) : t :=
  mk 0 (mkRational 25 1) 0 0 (10 / ratio) None 0 false EmptyString
     [] [ExternalTrack 0 0] [ExternalTrack 0 0] [gop_file rate] [[ratio]] [ratio].

(** C3 (as stated) fails: the clip at 25/1 over the long-GOP file at 50/1
    is complete, and at position 2, which is position 4 of the file where
    the precharge is -4, [GetMaxPrecharge] raises the exception of its
    edit-rate check and returns no value. *)
Lemma precharge_mismatch_counterexample :
  IsComplete (gop_clip (mkRational 50 1) 2) = true
  /\ GetMaxPrecharge Utils.convert_position_lower Utils.convert_position_higher
                     Utils.convert_duration_lower Instances.CURRENT_POSITION_VALUE
                     (gop_file (mkRational 50 1)) 4 false = Ok (-4)
  /\ GetMaxPrecharge Utils.convert_position_lower Utils.convert_position_higher
                     Utils.convert_duration_lower Instances.CURRENT_POSITION_VALUE
                     (gop_clip (mkRational 50 1) 2) 2 false
     = Raise EDIT_RATE_MISMATCH_PRECHARGE
  /\ ~ (exists precharge,
          GetMaxPrecharge Utils.convert_position_lower Utils.convert_position_higher
                          Utils.convert_duration_lower Instances.CURRENT_POSITION_VALUE
                          (gop_clip (mkRational 50 1) 2) 2 false = Ok precharge
          /\ precharge <= 0).
Proof.
  assert (Hraise : GetMaxPrecharge Utils.convert_position_lower Utils.convert_position_higher
                     Utils.convert_duration_lower Instances.CURRENT_POSITION_VALUE
                     (gop_clip (mkRational 50 1) 2) 2 false
                   = Raise EDIT_RATE_MISMATCH_PRECHARGE) by (vm_compute; reflexivity).
  split; [vm_compute; reflexivity |].
  split; [vm_compute; reflexivity |].
  split; [exact Hraise |].
  intros (precharge & Hvalue & _). rewrite Hraise in Hvalue. discriminate.
Qed.

Lemma precharge_and_rollout_witness :
  (exists precharge rollout,
     GetMaxPrecharge Utils.convert_position_lower Utils.convert_position_higher
                     Utils.convert_duration_lower Instances.CURRENT_POSITION_VALUE
                     (gop_clip (mkRational 25 1) 1) 4 false = Ok precharge
     /\ precharge <= 0
     /\ GetMaxRollout Utils.convert_position_lower Utils.convert_position_higher
                      Utils.convert_duration_lower Instances.CURRENT_POSITION_VALUE
                      (gop_clip (mkRational 25 1) 1) 4 false = Ok rollout
     /\ 0 <= rollout)
  /\ GetInternalPrecharge Utils.convert_position_lower Instances.CURRENT_POSITION_VALUE
                          (gop_reader b_frame_index) 4 false
     = Ok (Z.min 0 (-2 + -2)).
Proof.
  split.
  - assert (Hc : IsComplete (gop_clip (mkRational 25 1) 1) = true) by reflexivity.
    pose proof (precharge_and_rollout
                  Utils.convert_position_lower Utils.convert_position_higher
                  Utils.convert_duration_lower Instances.CURRENT_POSITION_VALUE
                  (gop_clip (mkRational 25 1) 1) 4 Hc) as (_ & _ & Hvalues & _).
    apply Hvalues. reflexivity.
  - assert (Hc : IsComplete (gop_reader b_frame_index) = true) by reflexivity.
    pose proof (precharge_and_rollout
                  Utils.convert_position_lower Utils.convert_position_higher
                  Utils.convert_duration_lower Instances.CURRENT_POSITION_VALUE
                  (gop_reader b_frame_index) 4 Hc) as (_ & _ & _ & Hinternal).
    apply (Hinternal (gop_essence b_frame_index) (mkIndexEntry (-2) (-1) 0 0)).
    + reflexivity.
    + reflexivity.
    + reflexivity.
    + reflexivity.
    + unfold int8. cbn. lia.
    + unfold int8. cbn. lia.
    + vm_compute. split; discriminate.
    + intros anchor Hanchor. vm_compute in Hanchor. inversion Hanchor. unfold int8. cbn. lia.
Defined.

(** The clip over the file at its own edit rate has the precharge of the
    file. *)
Example gop_clip_precharge :
  GetMaxPrecharge Utils.convert_position_lower Utils.convert_position_higher
                  Utils.convert_duration_lower Instances.CURRENT_POSITION_VALUE
                  (gop_clip (mkRational 25 1) 1) 4 false = Ok (-4).
Proof. vm_compute. reflexivity. Qed.

(** The required precharge over the two indexes. *)
Example precharge_key_frames :
  GetMaxPrecharge Utils.convert_position_lower Utils.convert_position_higher
                  Utils.convert_duration_lower Instances.CURRENT_POSITION_VALUE
                  (gop_reader key_frame_index) 2 false = Ok (-2)
  /\ GetMaxPrecharge Utils.convert_position_lower Utils.convert_position_higher
                     Utils.convert_duration_lower Instances.CURRENT_POSITION_VALUE
                     (gop_reader key_frame_index) 3 false = Ok 0
  /\ GetMaxPrecharge Utils.convert_position_lower Utils.convert_position_higher
                     Utils.convert_duration_lower Instances.CURRENT_POSITION_VALUE
                     (gop_reader key_frame_index) 5 false = Ok (-2)
  /\ GetMaxPrecharge Utils.convert_position_lower Utils.convert_position_higher
                     Utils.convert_duration_lower Instances.CURRENT_POSITION_VALUE
                     (gop_reader b_frame_index) 4 false = Ok (-4).
Proof. repeat split; vm_compute; reflexivity. Qed.


(** *** [Read] *)

Import SeekSpec.

Section ReadProofs.

Variable convert_position_lower : Z -> list Z -> Z -> Z.
Variable convert_position_higher : Z -> list Z -> Z -> Z.
Variable convert_duration_lower_at : Z -> Z -> list Z -> Z -> Z.
Variable convert_duration_higher_at : Z -> Z -> list Z -> Z -> Z.

Abbreviation position_of := (GetPosition convert_position_lower).
Abbreviation seek := (Seek convert_position_higher).
Abbreviation read :=
  (Read convert_position_lower convert_position_higher
        convert_duration_lower_at convert_duration_higher_at).
Abbreviation read_try :=
  (Read_try convert_position_lower convert_position_higher
            convert_duration_lower_at convert_duration_higher_at).
Abbreviation read_loop :=
  (read_externals convert_position_lower convert_position_higher
                  convert_duration_lower_at convert_duration_higher_at).

Lemma depth_unfold r :
  depth r = Datatypes.S (fold_right Nat.max O (map depth (mExternalReaders r))).
Proof. destruct r; reflexivity. Qed.

Lemma Seek_unfold r position :
  seek r position
  = set_mExternalReaders
      (seek_externals convert_position_higher seek r position O (mExternalReaders r))
      (set_mEssenceReader
         (match internal_essence r with
          | Some er => Some (er_Seek er (TO_ESS_READER_POS r position))
          | None => mEssenceReader r
          end) r).
Proof. destruct r; reflexivity. Qed.

Lemma depth_externals r fuel :
  (depth r <= Datatypes.S fuel)%nat ->
  Forall (fun e => (depth e <= fuel)%nat) (mExternalReaders r).
Proof.
  rewrite depth_unfold. intros H. apply le_S_n in H.
  induction (mExternalReaders r) as [| e es IH]; [constructor |].
  cbn [map fold_right] in H. constructor; [lia | apply IH; lia].
Qed.

(** Seeking keeps the nesting of the external readers. *)
Lemma depth_Seek r : forall position, depth (seek r position) = depth r.
Proof.
  induction r as [r IH] using reader_ind. intros position.
  rewrite Seek_unfold, (depth_unfold r), depth_unfold. cbn [mExternalReaders].
  replace (mExternalReaders (set_mExternalReaders _ _))
    with (seek_externals convert_position_higher seek r position O (mExternalReaders r))
    by reflexivity.
  f_equal. f_equal.
  generalize O as i.
  induction IH as [| e es He _ IHes]; intros i; cbn [seek_externals map]; [reflexivity |].
  f_equal; [| apply IHes].
  destruct (IsEnabled e); [apply He | reflexivity].
Qed.

(** **** The position after a seek *)

Abbreviation seek_position := (position_after_seek convert_position_lower convert_position_higher).
Abbreviation position_round_trips :=
  (round_trips convert_position_lower convert_position_higher).

Lemma GetPosition_unfold r :
  position_of r
  = match internal_essence r with
    | Some er => FROM_ESS_READER_POS r (er_position er)
    | None => first_enabled_position convert_position_lower position_of r O
                                     (mExternalReaders r)
    end.
Proof. destruct r; reflexivity. Qed.

Lemma anchored_unfold r :
  anchored r
  = match internal_essence r with
    | Some _ => true
    | None => first_enabled_with (fun _ e => anchored e) false O (mExternalReaders r)
    end.
Proof. destruct r; reflexivity. Qed.

Lemma skeleton_unfold r :
  skeleton r
  = mk (mFileId r) (mEditRate r) (mFileOrigin r) (mOrigin r) (mDuration r)
       (option_map (fun er => er_Seek er 0) (mEssenceReader r))
       0 false EmptyString
       (mInternalTrackReaders r) (mTrackReaders r) (mExternalTrackReaders r)
       (map skeleton (mExternalReaders r))
       (mExternalSampleSequences r) (mExternalSampleSequenceSizes r).
Proof. destruct r; reflexivity. Qed.

Lemma round_trips_unfold r position :
  position_round_trips r position
  = match internal_essence r with
    | Some _ => True
    | None =>
        first_enabled_with
          (fun i e =>
             CONVERT_EXTERNAL_POS convert_position_lower r i
               (CONVERT_INTERNAL_POS convert_position_higher r i position) = position
             /\ position_round_trips
                  e (CONVERT_INTERNAL_POS convert_position_higher r i position))
          True O (mExternalReaders r)
    end.
Proof. destruct r; reflexivity. Qed.

Lemma position_after_seek_unfold r position :
  seek_position r position
  = match internal_essence r with
    | Some _ => FROM_ESS_READER_POS r (TO_ESS_READER_POS r position)
    | None =>
        first_enabled_with
          (fun i e =>
             CONVERT_EXTERNAL_POS convert_position_lower r i
               (seek_position e (CONVERT_INTERNAL_POS convert_position_higher r i position)))
          0 O (mExternalReaders r)
    end.
Proof. destruct r; reflexivity. Qed.

(** Whether a reader is enabled depends on its track readers only. *)
Lemma existsb_pointwise {A : Type} (f g : A -> bool) (l : list A) :
  (forall x, f x = g x) -> existsb f l = existsb g l.
Proof.
  intros H. induction l as [| x l IH]; [reflexivity |]. cbn. rewrite H, IH. reflexivity.
Qed.

Lemma IsEnabled_tracks r r' :
  mTrackReaders r = mTrackReaders r' ->
  mInternalTrackReaders r = mInternalTrackReaders r' ->
  map mInternalTrackReaders (mExternalReaders r)
  = map mInternalTrackReaders (mExternalReaders r') ->
  IsEnabled r = IsEnabled r'.
Proof.
  intros Htr Hint Hext. unfold IsEnabled. rewrite Htr.
  apply existsb_pointwise. intros ref. unfold ref_enabled.
  replace (deref r ref) with (deref r' ref); [reflexivity |].
  destruct ref as [k | i k]; cbn [deref]; [rewrite Hint; reflexivity |].
  assert (H : nth_error (map mInternalTrackReaders (mExternalReaders r)) i
              = nth_error (map mInternalTrackReaders (mExternalReaders r')) i)
    by (rewrite Hext; reflexivity).
  rewrite !nth_error_map in H.
  destruct (nth_error (mExternalReaders r) i), (nth_error (mExternalReaders r') i);
    cbn in H; try discriminate; [| reflexivity].
  inversion H. reflexivity.
Qed.

Lemma Seek_mInternalTrackReaders r position :
  mInternalTrackReaders (seek r position) = mInternalTrackReaders r.
Proof. rewrite Seek_unfold. reflexivity. Qed.

Lemma seek_externals_mInternalTrackReaders r position es :
  forall i,
    map mInternalTrackReaders (seek_externals convert_position_higher seek r position i es)
    = map mInternalTrackReaders es.
Proof.
  induction es as [| e es IH]; intros i; cbn [seek_externals map]; [reflexivity |].
  rewrite IH. f_equal.
  destruct (IsEnabled e); [apply Seek_mInternalTrackReaders | reflexivity].
Qed.

Lemma IsEnabled_Seek r position : IsEnabled (seek r position) = IsEnabled r.
Proof.
  apply IsEnabled_tracks; rewrite Seek_unfold; cbn; try reflexivity.
  apply seek_externals_mInternalTrackReaders.
Qed.

Lemma Seek_mExternalReaders r position :
  mExternalReaders (seek r position)
  = seek_externals convert_position_higher seek r position O (mExternalReaders r).
Proof. rewrite Seek_unfold. reflexivity. Qed.

Lemma internal_essence_Seek r position :
  internal_essence (seek r position)
  = match internal_essence r with
    | Some er => Some (er_Seek er (TO_ESS_READER_POS r position))
    | None => None
    end.
Proof.
  rewrite Seek_unfold. unfold internal_essence, InternalIsEnabled. cbn.
  destruct (existsb tr_enabled (mInternalTrackReaders r)); [| reflexivity].
  destruct (mEssenceReader r); reflexivity.
Qed.

Lemma FROM_ESS_READER_POS_Seek r position x :
  FROM_ESS_READER_POS (seek r position) x = FROM_ESS_READER_POS r x.
Proof. rewrite Seek_unfold. reflexivity. Qed.

Lemma CONVERT_EXTERNAL_POS_Seek r position i x :
  CONVERT_EXTERNAL_POS convert_position_lower (seek r position) i x
  = CONVERT_EXTERNAL_POS convert_position_lower r i x.
Proof. rewrite Seek_unfold. reflexivity. Qed.

Lemma first_enabled_position_with (f : t -> Z) r es :
  forall i,
    first_enabled_position convert_position_lower f r i es
    = first_enabled_with (fun j e => CONVERT_EXTERNAL_POS convert_position_lower r j (f e))
                         0 i es.
Proof.
  induction es as [| e es IH]; intros i; cbn; [reflexivity |].
  rewrite IH. reflexivity.
Qed.

Lemma first_enabled_with_seek {A : Type} (g : nat -> t -> A) (d : A) r position es :
  forall i,
    first_enabled_with g d i (seek_externals convert_position_higher seek r position i es)
    = first_enabled_with
        (fun j e => g j (seek e (CONVERT_INTERNAL_POS convert_position_higher r j position)))
        d i es.
Proof.
  induction es as [| e es IH]; intros i; cbn [seek_externals first_enabled_with];
    [reflexivity |].
  destruct (IsEnabled e) eqn:E.
  - rewrite IsEnabled_Seek, E. reflexivity.
  - rewrite E. apply IH.
Qed.

Lemma first_enabled_with_ext {A : Type} (g g' : nat -> t -> A) (d : A) es :
  Forall (fun e => forall j, g j e = g' j e) es ->
  forall i, first_enabled_with g d i es = first_enabled_with g' d i es.
Proof.
  induction 1 as [| e es He _ IH]; intros i; cbn [first_enabled_with]; [reflexivity |].
  rewrite He, IH. reflexivity.
Qed.

(** The position after a seek is the one read off the reader before. *)
Lemma GetPosition_Seek r :
  forall position, position_of (seek r position) = seek_position r position.
Proof.
  induction r as [r IH] using reader_ind. intros position.
  rewrite GetPosition_unfold, position_after_seek_unfold, internal_essence_Seek.
  destruct (internal_essence r) as [er |].
  - rewrite FROM_ESS_READER_POS_Seek. reflexivity.
  - rewrite Seek_mExternalReaders, first_enabled_position_with, first_enabled_with_seek.
    apply first_enabled_with_ext.
    rewrite Forall_forall in *. intros e He j.
    rewrite CONVERT_EXTERNAL_POS_Seek, (IH e He). reflexivity.
Qed.

(** A position is an [int64_t]. *)
Lemma GetPosition_range r : INT64_MIN <= position_of r <= INT64_MAX.
Proof.
  rewrite GetPosition_unfold. destruct (internal_essence r); [apply sint64_range |].
  rewrite first_enabled_position_with. generalize O as i.
  induction (mExternalReaders r) as [| e es IH]; intros i; cbn [first_enabled_with].
  - unfold INT64_MIN, INT64_MAX. lia.
  - destruct (IsEnabled e); [apply sint64_range | apply IH].
Qed.

(** Seeking does not move a reader without an anchor. *)
Lemma seek_position_not_anchored r :
  anchored r = false -> forall position, seek_position r position = position_of r.
Proof.
  induction r as [r IH] using reader_ind. intros Hanchor position.
  rewrite anchored_unfold in Hanchor.
  rewrite GetPosition_unfold, position_after_seek_unfold.
  destruct (internal_essence r); [discriminate |].
  rewrite first_enabled_position_with.
  revert Hanchor. generalize O as i.
  induction IH as [| e es He _ IHes]; intros i Hanchor; cbn [first_enabled_with] in *;
    [reflexivity |].
  destruct (IsEnabled e); [| apply IHes; exact Hanchor].
  rewrite (He Hanchor). reflexivity.
Qed.

(** Seeking moves an anchored reader to the position asked for, when the
    position survives the conversions. *)
Lemma seek_position_anchored r :
  anchored r = true ->
  forall position,
    INT64_MIN <= position <= INT64_MAX ->
    position_round_trips r position ->
    seek_position r position = position.
Proof.
  induction r as [r IH] using reader_ind. intros Hanchor position Hrange Htrips.
  rewrite anchored_unfold in Hanchor. rewrite round_trips_unfold in Htrips.
  rewrite position_after_seek_unfold.
  destruct (internal_essence r).
  - unfold FROM_ESS_READER_POS, TO_ESS_READER_POS. apply sint64_add_sub. exact Hrange.
  - revert Hanchor Htrips. generalize O as i.
    induction IH as [| e es He _ IHes]; intros i Hanchor Htrips;
      cbn [first_enabled_with] in *; [discriminate |].
    destruct (IsEnabled e); [| apply IHes; assumption].
    destruct Htrips as [Hback Htrips].
    rewrite (He Hanchor (CONVERT_INTERNAL_POS convert_position_higher r i position)
                (sint64_range _) Htrips).
    exact Hback.
Qed.

(** Seeking to the current position keeps it. *)
Lemma seek_position_current r :
  position_round_trips r (position_of r) ->
  seek_position r (position_of r) = position_of r.
Proof.
  intros Htrips. destruct (anchored r) eqn:E.
  - apply seek_position_anchored; [exact E | apply GetPosition_range | exact Htrips].
  - apply seek_position_not_anchored. exact E.
Qed.

(** **** The skeleton of a reader *)

Lemma skeleton_mInternalTrackReaders r :
  mInternalTrackReaders (skeleton r) = mInternalTrackReaders r.
Proof. rewrite skeleton_unfold. reflexivity. Qed.

Lemma IsEnabled_skeleton r : IsEnabled (skeleton r) = IsEnabled r.
Proof.
  apply IsEnabled_tracks; rewrite skeleton_unfold; cbn; try reflexivity.
  rewrite map_map. apply map_ext. intros e. apply skeleton_mInternalTrackReaders.
Qed.

Lemma internal_essence_skeleton r :
  internal_essence (skeleton r)
  = option_map (fun er => er_Seek er 0) (internal_essence r).
Proof.
  rewrite skeleton_unfold. unfold internal_essence, InternalIsEnabled. cbn.
  destruct (existsb tr_enabled (mInternalTrackReaders r)); reflexivity.
Qed.

Lemma first_enabled_with_skeleton {A : Type} (g : nat -> t -> A) (d : A) es :
  forall i,
    first_enabled_with g d i (map skeleton es)
    = first_enabled_with (fun j e => g j (skeleton e)) d i es.
Proof.
  induction es as [| e es IH]; intros i; cbn [map first_enabled_with]; [reflexivity |].
  rewrite IsEnabled_skeleton, IH. reflexivity.
Qed.

(** The position after a seek depends on the skeleton only. *)
Lemma seek_position_skeleton r :
  forall position, seek_position (skeleton r) position = seek_position r position.
Proof.
  induction r as [r IH] using reader_ind. intros position.
  rewrite (position_after_seek_unfold (skeleton r)), (position_after_seek_unfold r).
  rewrite internal_essence_skeleton.
  destruct (internal_essence r) as [er |]; cbn [option_map].
  - rewrite skeleton_unfold. reflexivity.
  - replace (mExternalReaders (skeleton r)) with (map skeleton (mExternalReaders r))
      by (rewrite (skeleton_unfold r); reflexivity).
    rewrite first_enabled_with_skeleton.
    apply first_enabled_with_ext.
    rewrite Forall_forall in *. intros e He j.
    rewrite (IH e He). rewrite (skeleton_unfold r). reflexivity.
Qed.

Lemma skeleton_Seek r : forall position, skeleton (seek r position) = skeleton r.
Proof.
  induction r as [r IH] using reader_ind. intros position.
  rewrite (skeleton_unfold (seek r position)), (skeleton_unfold r).
  rewrite Seek_unfold. cbn. f_equal.
  - unfold internal_essence.
    destruct (InternalIsEnabled r); [| reflexivity].
    destruct (mEssenceReader r); reflexivity.
  - generalize O as i.
    induction IH as [| e es He _ IHes]; intros i; cbn [seek_externals map]; [reflexivity |].
    rewrite IHes. f_equal. destruct (IsEnabled e); [apply He | reflexivity].
Qed.

Lemma er_Read_same er num_samples :
  er_Seek (snd (er_Read er num_samples)) 0 = er_Seek er 0.
Proof.
  unfold er_Read. destruct (er_read er (er_position er) num_samples). reflexivity.
Qed.

Lemma extract_loop_same count :
  forall er have_first,
    er_Seek (snd (fst (extract_loop count er have_first))) 0 = er_Seek er 0.
Proof.
  induction count as [| count IH]; intros er have_first; cbn [extract_loop];
    [reflexivity |].
  pose proof (er_Read_same er 1) as Hread.
  destruct (er_Read er 1) as [o er']. cbn [snd] in Hread.
  destruct o as [ex | k]; [exact Hread |].
  destruct (negb (k =? 1)); [exact Hread |].
  destruct (er_frame_info er (er_position er));
    [rewrite IH; exact Hread | rewrite IH; exact Hread | exact Hread].
Qed.

Lemma skeleton_ExtractFrameInfo r : skeleton (ExtractFrameInfo r) = skeleton r.
Proof.
  unfold ExtractFrameInfo. destruct (mEssenceReader r) as [er |] eqn:E; [| reflexivity].
  pose proof (extract_loop_same (Z.to_nat (mRequireFrameInfoCount r)) (er_Seek er 0) false)
    as Hloop.
  destruct (extract_loop _ _ _) as [[how er'] have_first]. cbn [fst snd] in Hloop.
  rewrite !skeleton_unfold. cbn. rewrite E. cbn [option_map].
  f_equal. f_equal.
  change (er_Seek (er_Seek er' (er_position er)) 0) with (er_Seek er' 0).
  rewrite Hloop. reflexivity.
Qed.

Lemma skeleton_Read_enter r : skeleton (Read_enter r) = skeleton r.
Proof.
  unfold Read_enter. destruct (0 <? _); [rewrite skeleton_ExtractFrameInfo |];
    rewrite !skeleton_unfold; reflexivity.
Qed.

Lemma ExtractFrameInfo_mExternalReaders r :
  mExternalReaders (ExtractFrameInfo r) = mExternalReaders r.
Proof.
  unfold ExtractFrameInfo. destruct (mEssenceReader r); [| reflexivity].
  destruct (extract_loop _ _ _) as [[how er'] have_first]. reflexivity.
Qed.

Lemma Read_enter_mExternalReaders r :
  mExternalReaders (Read_enter r) = mExternalReaders r.
Proof.
  unfold Read_enter. destruct (0 <? _); [rewrite ExtractFrameInfo_mExternalReaders |];
    reflexivity.
Qed.

(** What a call that has enough fuel gives: a count, never the end of the
    fuel. *)
Definition returns (res : Outcome Z * t * Trace) : Prop :=
  exists k r' tr, res = (Done k, r', tr).

(** How the [try] block ends when the calls on the external readers
    return: with a count that is at most the number asked for, or with an
    exception. *)
Definition try_result (num_samples : Z) (o : Outcome Z) : Prop :=
  match o with
  | Done k => k <= num_samples
  | Throw _ => True
  | OutOfFuel => False
  end.

Section Loop.

Variable rec : t -> Z -> bool -> Outcome Z * t * Trace.
Variable fuel : nat.

Hypothesis rec_returns :
  forall e n is_top, (depth e <= fuel)%nat -> returns (rec e n is_top).

Lemma read_externals_in_fuel r num_samples current_position es :
  Forall (fun e => (depth e <= fuel)%nat) es ->
  forall i max_num_read,
    fst (fst (read_loop rec r num_samples current_position i es max_num_read))
    <> OutOfFuel.
Proof.
  induction 1 as [| e es He _ IH]; intros i max_num_read; cbn [read_externals].
  - cbn. discriminate.
  - destruct (negb (IsEnabled e)).
    + specialize (IH (Datatypes.S i) max_num_read).
      destruct (read_externals _ _ _ _ _ _ _ _ _ _ _) as [[o es''] tr]. exact IH.
    + cbv zeta.
      match goal with
      | |- context [rec ?e1 ?n false] =>
          assert (He1 : (depth e1 <= fuel)%nat)
            by (destruct (_ =? _); [exact He | rewrite depth_Seek; exact He]);
          destruct (rec_returns e1 n false He1) as (k & e2 & tr_e & Hk); rewrite Hk
      end.
      destruct (_ && _); [cbn; discriminate |].
      match goal with
      | |- context [read_externals _ _ _ _ _ ?r0 ?n0 ?c0 ?i0 es ?m0] =>
          specialize (IH i0 m0)
      end.
      destruct (read_externals _ _ _ _ _ _ _ _ _ _ _) as [[o es''] tr]. exact IH.
Qed.

Lemma Read_try_in_fuel r num_samples is_top current_position :
  Forall (fun e => (depth e <= fuel)%nat) (mExternalReaders r) ->
  try_result num_samples
             (fst (fst (read_try rec r num_samples is_top current_position))).
Proof.
  intros Hdepth. unfold Read_try.
  match goal with
  | |- context [let '(o, r1) := ?c in _] =>
      assert (Hext : mExternalReaders (snd c) = mExternalReaders r)
        by (destruct (internal_essence r) as [er |];
            [destruct (er_Read er num_samples) |]; reflexivity);
      destruct c as [o r1]
  end.
  cbn [snd] in Hext.
  destruct o as [ex | max_num_read]; [exact I |].
  rewrite <- Hext in Hdepth.
  pose proof (read_externals_in_fuel r1 num_samples current_position
                                     (mExternalReaders r1) Hdepth O max_num_read) as Hloop.
  destruct (read_externals _ _ _ _ _ _ _ _ _ _ _) as [[o' es'] tr_ext].
  cbn [fst] in Hloop.
  destruct o' as [k | ex |]; [| exact I | contradiction].
  destruct (k <=? num_samples) eqn:E; cbn [fst try_result]; [| exact I].
  apply Z.leb_le. exact E.
Qed.

End Loop.

(** Reading keeps the skeleton. *)
Section Kept.

Variable rec : t -> Z -> bool -> Outcome Z * t * Trace.

Hypothesis rec_keeps :
  forall e n is_top, skeleton (snd (fst (rec e n is_top))) = skeleton e.

Lemma read_externals_skeleton r num_samples current_position es :
  forall i max_num_read,
    map skeleton
        (snd (fst (read_loop rec r num_samples current_position i es max_num_read)))
    = map skeleton es.
Proof.
  induction es as [| e es IH]; intros i max_num_read; cbn [read_externals];
    [reflexivity |].
  destruct (negb (IsEnabled e)).
  - specialize (IH (Datatypes.S i) max_num_read).
    destruct (read_externals _ _ _ _ _ _ _ _ _ _ _) as [[o es''] tr].
    cbn [fst snd map] in *. rewrite IH. reflexivity.
  - cbv zeta.
    match goal with
    | |- context [rec ?e1 ?n false] =>
        assert (He1 : skeleton e1 = skeleton e)
          by (destruct (_ =? _); [reflexivity | apply skeleton_Seek]);
        pose proof (rec_keeps e1 n false) as Hk;
        destruct (rec e1 n false) as [[o e2] tr_e]
    end.
    cbn [fst snd] in Hk. rewrite He1 in Hk.
    destruct o as [k | ex |]; cbn [fst snd map]; try (rewrite Hk; reflexivity).
    destruct (_ && _); cbn [fst snd map]; [rewrite Hk; reflexivity |].
    match goal with
    | |- context [read_externals _ _ _ _ _ ?r0 ?n0 ?c0 ?i0 es ?m0] =>
        specialize (IH i0 m0)
    end.
    destruct (read_externals _ _ _ _ _ _ _ _ _ _ _) as [[o' es''] tr].
    cbn [fst snd map] in *. rewrite Hk, IH. reflexivity.
Qed.

Lemma Read_try_skeleton r num_samples is_top current_position :
  skeleton (snd (fst (read_try rec r num_samples is_top current_position))) = skeleton r.
Proof.
  unfold Read_try. cbv zeta.
  match goal with
  | |- context [let '(o, r1) := ?c in _] =>
      assert (Hr1 : skeleton (snd c) = skeleton r
                    /\ mExternalReaders (snd c) = mExternalReaders r)
  end.
  { destruct (internal_essence r) as [er |] eqn:E; [| split; reflexivity].
    pose proof (er_Read_same er num_samples) as Hread.
    destruct (er_Read er num_samples) as [res er']. cbn [snd] in *.
    split; [| reflexivity].
    unfold internal_essence in E.
    destruct (InternalIsEnabled r); [| discriminate].
    rewrite !skeleton_unfold. cbn. rewrite E. cbn [option_map]. rewrite Hread.
    reflexivity. }
  match goal with
  | |- context [let '(o, r1) := ?c in _] => destruct c as [o r1]
  end.
  cbn [snd] in Hr1. destruct Hr1 as [Hskeleton Hexternals].
  destruct o as [ex | max_num_read]; [exact Hskeleton |].
  pose proof (read_externals_skeleton r1 num_samples current_position
                                      (mExternalReaders r1) O max_num_read) as Hloop.
  destruct (read_externals _ _ _ _ _ _ _ _ _ _ _) as [[o' es'] tr_ext].
  cbn [fst snd] in Hloop.
  assert (Hset : skeleton (set_mExternalReaders es' r1) = skeleton r).
  { rewrite <- Hskeleton. rewrite !skeleton_unfold. cbn. rewrite Hloop. reflexivity. }
  destruct o' as [k | ex |]; [destruct (k <=? num_samples) | |]; exact Hset.
Qed.

End Kept.

Lemma skeleton_Read fuel :
  forall r num_samples is_top,
    skeleton (snd (fst (read fuel r num_samples is_top))) = skeleton r.
Proof.
  induction fuel as [| fuel IH]; intros r num_samples is_top; [reflexivity |].
  cbn [Read]. unfold Read_body. cbv zeta.
  destruct (0 <? mRequireFrameInfoCount (Read_enter r)).
  - cbn [fst snd]. rewrite <- (skeleton_Read_enter r). rewrite !skeleton_unfold. reflexivity.
  - pose proof (Read_try_skeleton (read fuel) IH (Read_enter r) num_samples is_top
                                  (position_of (Read_enter r))) as Htry.
    destruct (Read_try _ _ _ _ _ _ _ _ _) as [[o r2] tr].
    cbn [fst snd] in Htry. rewrite skeleton_Read_enter in Htry.
    destruct o as [k | ex |]; cbn [fst snd]; [exact Htry | | exact Htry].
    rewrite skeleton_Seek. rewrite <- Htry. rewrite !skeleton_unfold. reflexivity.
Qed.

(** A call with as much fuel as external readers are nested returns; it
    returns 0 or a count that is at most the number asked for. *)
Lemma Read_returns fuel :
  forall r num_samples is_top,
    (depth r <= fuel)%nat ->
    exists k r' tr,
      read fuel r num_samples is_top = (Done k, r', tr)
      /\ (k = 0 \/ k <= num_samples).
Proof.
  induction fuel as [| fuel IH]; intros r num_samples is_top Hdepth.
  - rewrite depth_unfold in Hdepth. lia.
  - cbn [Read]. unfold Read_body. cbv zeta.
    destruct (0 <? mRequireFrameInfoCount (Read_enter r)).
    + do 3 eexists. split; [reflexivity | left; reflexivity].
    + assert (Hrec : forall e n top, (depth e <= fuel)%nat -> returns (read fuel e n top)).
      { intros e n top He. destruct (IH e n top He) as (k & r' & tr & Hk & _).
        exists k, r', tr. exact Hk. }
      apply depth_externals in Hdepth. rewrite <- Read_enter_mExternalReaders in Hdepth.
      pose proof (Read_try_in_fuel (read fuel) fuel Hrec (Read_enter r) num_samples is_top
                                   (position_of (Read_enter r)) Hdepth) as Htry.
      destruct (Read_try _ _ _ _ _ _ _ _ _) as [[o r2] tr].
      cbn [fst] in Htry.
      destruct o as [k | ex |]; [| | contradiction].
      * do 3 eexists. split; [reflexivity | right; exact Htry].
      * do 3 eexists. split; [reflexivity | left; reflexivity].
Qed.

(** C2.  A call [Read(num_samples, is_top)], on a reader with external
    readers nested to any depth and for any conversions between the edit
    rates, returns a count that is at most [num_samples]. *)
Theorem Read_at_most_num_samples (fuel : nat) (r : t) (num_samples : Z) (is_top : bool) :
  0 <= num_samples ->
  (depth r <= fuel)%nat ->
  exists k r' tr,
    read fuel r num_samples is_top = (Done k, r', tr) /\ k <= num_samples.
Proof.
  intros Hn Hdepth.
  destruct (Read_returns fuel r num_samples is_top Hdepth) as (k & r' & tr & Hk & Hle).
  exists k, r', tr. split; [exact Hk | lia].
Qed.

(** [AbortRead] reaches the same tracks after the seek. *)
Lemma ref_enabled_Seek r position ref :
  ref_enabled (seek r position) ref = ref_enabled r ref.
Proof.
  unfold ref_enabled. replace (deref (seek r position) ref) with (deref r ref);
    [reflexivity |].
  destruct ref as [k | i k]; cbn [deref];
    [rewrite Seek_mInternalTrackReaders; reflexivity |].
  pose proof (seek_externals_mInternalTrackReaders r position (mExternalReaders r) O) as H.
  apply (f_equal (fun l => nth_error l i)) in H. rewrite !nth_error_map in H.
  rewrite Seek_mExternalReaders.
  destruct (nth_error (seek_externals _ _ _ _ _ _) i), (nth_error (mExternalReaders r) i);
    cbn in H; try discriminate; [| reflexivity].
  inversion H. reflexivity.
Qed.

Lemma AbortRead_Seek r position : AbortRead (seek r position) = AbortRead r.
Proof.
  unfold AbortRead, for_enabled_tracks.
  replace (mFileId (seek r position)) with (mFileId r) by (rewrite Seek_unfold; reflexivity).
  replace (mTrackReaders (seek r position)) with (mTrackReaders r)
    by (rewrite Seek_unfold; reflexivity).
  f_equal. apply filter_ext. intros ref. apply ref_enabled_Seek.
Qed.

(** C1.  When the [try] block of [Read(num_samples, is_top)] raises an
    exception, whatever it is and whether it comes from the essence
    reader, from an external reader that reports a read error or from the
    check of the count, [Read] returns 0, the frame-buffer calls end with
    [AbortRead] on the enabled tracks, the read-error flag is set, and
    [GetPosition()] afterwards is the position taken at entry.  The
    [try] block is entered when no frame awaits information after
    [ExtractFrameInfo]; the position at entry is taken to survive the
    conversion to the edit rate of the external reader that gives the
    position, and back. *)
Theorem Read_aborts_on_exception (fuel : nat) (r : t) (num_samples : Z) (is_top : bool)
        (ex : Exn) (r2 : t) (tr : Trace) :
  mRequireFrameInfoCount (Read_enter r) <= 0 ->
  read_try (read fuel) (Read_enter r) num_samples is_top (position_of (Read_enter r))
  = (Throw ex, r2, tr) ->
  position_round_trips (Read_enter r) (position_of (Read_enter r)) ->
  exists r',
    read (Datatypes.S fuel) r num_samples is_top
    = (Done 0, r', StartRead (Read_enter r) ++ tr ++ AbortRead r')
    /\ mReadError r' = true
    /\ position_of r' = position_of (Read_enter r).
Proof.
  intros Hcount Htry Htrips.
  pose proof (Read_try_skeleton (read fuel) (skeleton_Read fuel) (Read_enter r)
                                num_samples is_top (position_of (Read_enter r))) as Hkept.
  rewrite Htry in Hkept. cbn [fst snd] in Hkept.
  cbn [Read]. unfold Read_body. cbv zeta.
  replace (0 <? mRequireFrameInfoCount (Read_enter r)) with false
    by (symmetry; apply Z.ltb_ge; exact Hcount).
  rewrite Htry.
  set (r4 := set_mReadError true
               (set_mReadErrorMessage (catch_message ex (mReadErrorMessage r2)) r2)).
  exists (seek r4 (position_of (Read_enter r))).
  split; [rewrite AbortRead_Seek; reflexivity |].
  split; [rewrite Seek_unfold; reflexivity |].
  rewrite GetPosition_Seek, <- seek_position_skeleton.
  replace (skeleton r4) with (skeleton (Read_enter r))
    by (rewrite <- Hkept; unfold r4; rewrite !skeleton_unfold; reflexivity).
  rewrite seek_position_skeleton. apply seek_position_current. exact Htrips.
Qed.

End ReadProofs.

(** A sound file of 19200 samples at 48000/1, whose essence reader reads
    what is left of them, and a clip at 25/1 that wraps it as its only
    external reader, 1920 samples to the edit unit. *)
Definition wav_essence : EssenceReader :=
  mkEssenceReader 0 true
                  (fun position n =>
                     let k := Z.max 0 (Z.min n (19200 - position)) in
                     (inr k, position + k))
                  (fun _ => None)
                  (fun position => Z.max 0 (Z.min 19199 position))
                  (fun _ => NoFrame).

Definition wav_track : MXFTrackReader :=
  mkTrackReader (mkTrackInfo 2 1 1 1 1 (mkRational 48000 1) 19200 0 (OTHER_ESSENCE_TYPE 0))
                true false.

Definition wav_file : t :=
  mk 1 (mkRational 48000 1) 0 0 19200 (Some wav_essence) 0 false EmptyString
     [wav_track] [OwnTrack 0] [] [] [] [].

Definition wrapping_clip : t :=
  mk 0 (mkRational 25 1) 0 0 10 None 0 false EmptyString
     [] [ExternalTrack 0 0] [ExternalTrack 0 0] [wav_file] [[1920]] [1920].

Lemma Read_at_most_num_samples_witness :
  exists k r' tr,
    Read Utils.convert_position_lower Utils.convert_position_higher
         Utils.convert_duration_lower_at Utils.convert_duration_higher_at
         2 wrapping_clip 3 true = (Done k, r', tr)
    /\ k <= 3.
Proof.
  apply (Read_at_most_num_samples
           Utils.convert_position_lower Utils.convert_position_higher
           Utils.convert_duration_lower_at Utils.convert_duration_higher_at
           2 wrapping_clip 3 true).
  - lia.
  - cbn. lia.
Defined.

(** The clip reads three edit units, 5760 samples of the sound file; near
    the end it reads the two that are left. *)
Example wrapping_clip_reads :
  fst (fst (Read Utils.convert_position_lower Utils.convert_position_higher
                 Utils.convert_duration_lower_at Utils.convert_duration_higher_at
                 2 wrapping_clip 3 true)) = Done 3
  /\ fst (fst (Read Utils.convert_position_lower Utils.convert_position_higher
                    Utils.convert_duration_lower_at Utils.convert_duration_higher_at
                    2 (Seek Utils.convert_position_higher wrapping_clip 8) 3 true))
     = Done 2.
Proof. split; vm_compute; reflexivity. Qed.

(** The sound file cut short: a read that would go past sample 5000
    moves the cursor by 100 samples and raises an exception.  The clip that
    wraps it, seeked to edit unit 2 (sample 3840). *)
Definition short_wav_essence : EssenceReader :=
  mkEssenceReader 0 true
                  (fun position n =>
                     if 5000 <? position + n
                     then (inl (MXFException "short read"), position + 100)
                     else (inr n, position + n))
                  (fun _ => None)
                  (fun position => Z.max 0 (Z.min 19199 position))
                  (fun _ => NoFrame).

Definition short_wav_file : t :=
  mk 1 (mkRational 48000 1) 0 0 19200 (Some short_wav_essence) 0 false EmptyString
     [wav_track] [OwnTrack 0] [] [] [] [].

Definition short_clip : t :=
  Seek Utils.convert_position_higher
       (mk 0 (mkRational 25 1) 0 0 10 None 0 false EmptyString
           [] [ExternalTrack 0 0] [ExternalTrack 0 0] [short_wav_file] [[1920]] [1920])
       2.

(** The [try] block of [Read(3, true)] on the clip. *)
Definition short_clip_try : Outcome Z * t * Trace :=
  Read_try Utils.convert_position_lower Utils.convert_position_higher
           Utils.convert_duration_lower_at Utils.convert_duration_higher_at
           (Read Utils.convert_position_lower Utils.convert_position_higher
                 Utils.convert_duration_lower_at Utils.convert_duration_higher_at 1)
           (Read_enter short_clip) 3 true
           (GetPosition Utils.convert_position_lower (Read_enter short_clip)).

Lemma Read_aborts_on_exception_witness :
  exists r',
    Read Utils.convert_position_lower Utils.convert_position_higher
         Utils.convert_duration_lower_at Utils.convert_duration_higher_at
         2 short_clip 3 true
    = (Done 0, r',
       StartRead (Read_enter short_clip) ++ snd short_clip_try ++ AbortRead r')
    /\ mReadError r' = true
    /\ GetPosition Utils.convert_position_lower r'
       = GetPosition Utils.convert_position_lower (Read_enter short_clip).
Proof.
  apply (Read_aborts_on_exception
           Utils.convert_position_lower Utils.convert_position_higher
           Utils.convert_duration_lower_at Utils.convert_duration_higher_at
           1 short_clip 3 true
           (BMXException "short read") (snd (fst short_clip_try)) (snd short_clip_try)).
  - vm_compute. discriminate.
  - vm_compute. reflexivity.
  - vm_compute. split; [reflexivity | exact I].
Defined.

(** The clip is at edit unit 2 before the read; the read returns 0 with
    the error of the sound file, and leaves the clip at edit unit 2 and the
    sound file at sample 3840. *)
Example short_clip_read :
  let '(o, r', _) :=
    Read Utils.convert_position_lower Utils.convert_position_higher
         Utils.convert_duration_lower_at Utils.convert_duration_higher_at
         2 short_clip 3 true in
  GetPosition Utils.convert_position_lower short_clip = 2
  /\ o = Done 0
  /\ mReadError r' = true
  /\ mReadErrorMessage r' = "short read"%string
  /\ GetPosition Utils.convert_position_lower r' = 2
  /\ map (GetPosition Utils.convert_position_lower) (mExternalReaders r') = [3840].
Proof. vm_compute. repeat split; reflexivity. Qed.

End MXFFileReaderProofs.
(** ** MXFFileReader: look-ups, positions, limits and metadata *)

Module MXFFileReaderFacts.

Import MXFFileReader.
Import MXFFileReaderProofs.
Import TrackOrder SeekSpec PrechargeSpec Tree Contributors.

Ltac bool_cases :=
  repeat match goal with
         | |- context [?a =? ?b] => destruct (Z.eqb_spec a b)
         | |- context [?a <? ?b] => destruct (Z.ltb_spec a b)
         end; cbn [negb orb andb].

(** *** The comparison of track readers *)

(** [compare_track_reader] holds in both directions between two track
    readers exactly when they have the same data definition and neither a
    track number nor a track id; in particular a track reader compares
    before itself exactly when it has neither.  On all other pairs the
    comparison is asymmetric. *)
Theorem compare_track_reader_both_ways (a b : MXFTrackReader) :
  (compare_track_reader a b = true /\ compare_track_reader b a = true
   <-> data_def (GetTrackInfo a) = data_def (GetTrackInfo b)
       /\ material_track_number (GetTrackInfo a) = 0
       /\ material_track_number (GetTrackInfo b) = 0
       /\ material_track_id (GetTrackInfo a) = 0
       /\ material_track_id (GetTrackInfo b) = 0)
  /\ (compare_track_reader a a = true
      <-> material_track_number (GetTrackInfo a) = 0
          /\ material_track_id (GetTrackInfo a) = 0).
Proof.
  unfold compare_track_reader.
  destruct a as [[dda ida tna ? ? ? ? ? ?] ? ?], b as [[ddb idb tnb ? ? ? ? ? ?] ? ?].
  cbn [GetTrackInfo data_def material_track_id material_track_number].
  split.
  - bool_cases; split; intros Hx; try lia;
      try (destruct Hx as [Hx1 Hx2]; discriminate || lia).
  - bool_cases; split; intros Hx; try lia; try discriminate.
Qed.

(** *** Look-ups *)

Lemma find_index_Some {A : Type} (p : A -> bool) (l : list A) :
  forall k,
    find_index p l = Some k ->
    exists x, nth_error l k = Some x /\ p x = true
              /\ forall j y, (j < k)%nat -> nth_error l j = Some y -> p y = false.
Proof.
  induction l as [| x l IH]; intros k; cbn [find_index]; [discriminate |].
  destruct (p x) eqn:Ex.
  - intros Heq. inversion Heq. subst k. exists x.
    split; [reflexivity |]. split; [exact Ex |]. intros j y Hj. lia.
  - destruct (find_index p l) as [i |]; [| discriminate].
    intros Heq. inversion Heq. subst k.
    destruct (IH i eq_refl) as (z & Hz & Hpz & Hbefore).
    exists z. split; [exact Hz |]. split; [exact Hpz |].
    intros j y Hj Hy. destruct j as [| j]; cbn in Hy.
    + inversion Hy. subst y. exact Ex.
    + apply (Hbefore j y); [lia | exact Hy].
Qed.

Lemma find_index_None {A : Type} (p : A -> bool) (l : list A) :
  find_index p l = None <-> forall x, In x l -> p x = false.
Proof.
  induction l as [| x l IH]; cbn [find_index].
  - split; [intros _ x [] | reflexivity].
  - destruct (p x) eqn:Ex.
    + split; [discriminate |]. intros Hall.
      rewrite (Hall x (or_introl eq_refl)) in Ex. discriminate.
    + destruct (find_index p l) as [i |].
      * split; [discriminate |]. intros Hall.
        destruct IH as [_ IH]. discriminate IH.
        intros y Hy. apply Hall. right. exact Hy.
      * split; [| reflexivity]. intros _ y [Hy | Hy]; [subst y; exact Ex |].
        apply IH; [reflexivity | exact Hy].
Qed.

(** [GetInternalTrackReaderById(id)] gives the first internal track
    reader whose file track id is [id], and none exactly when no internal
    track reader has that id. *)
Theorem GetInternalTrackReaderById_first (r : t) (id : Z) :
  (forall k, GetInternalTrackReaderById r id = Some k ->
     exists tr, nth_error (mInternalTrackReaders r) k = Some tr
                /\ file_track_id (GetTrackInfo tr) = id
                /\ forall j tr', (j < k)%nat ->
                     nth_error (mInternalTrackReaders r) j = Some tr' ->
                     file_track_id (GetTrackInfo tr') <> id)
  /\ (GetInternalTrackReaderById r id = None
      <-> forall tr, In tr (mInternalTrackReaders r) ->
            file_track_id (GetTrackInfo tr) <> id).
Proof.
  unfold GetInternalTrackReaderById. split.
  - intros k Hk. destruct (find_index_Some _ _ k Hk) as (tr & Hnth & Hp & Hbefore).
    exists tr. split; [exact Hnth |]. split; [apply Z.eqb_eq; exact Hp |].
    intros j tr' Hj Hnth'. apply Z.eqb_neq. apply (Hbefore j tr' Hj Hnth').
  - rewrite find_index_None. split; intros Hall tr Hin.
    + apply Z.eqb_neq. apply Hall. exact Hin.
    + apply Z.eqb_neq. apply Hall. exact Hin.
Qed.

Lemma readers_unfold r : readers r = r :: flat_map readers (mExternalReaders r).
Proof. destruct r; reflexivity. Qed.

Lemma GetFileReader_unfold r file_id :
  GetFileReader r file_id
  = if Nat.eqb file_id (mFileId r) then Some r
    else first_file_reader (fun e => GetFileReader e file_id) (mExternalReaders r).
Proof. destruct r; reflexivity. Qed.

(** [GetFileReader(file_id)] gives a reader of the clip that has the file
    id: the reader itself or one that it holds as an external reader, at
    any level; it gives none exactly when no reader of the clip has the
    file id. *)
Theorem GetFileReader_finds (r : t) (file_id : nat) :
  (forall reader, GetFileReader r file_id = Some reader ->
     mFileId reader = file_id /\ In reader (readers r))
  /\ (GetFileReader r file_id = None <-> ~ In file_id (map mFileId (readers r))).
Proof.
  induction r as [r IH] using reader_ind.
  rewrite GetFileReader_unfold, readers_unfold. cbn [map In].
  destruct (Nat.eqb_spec file_id (mFileId r)) as [E | E].
  - split.
    + intros reader Heq. inversion Heq. subst reader. split; [congruence | left; reflexivity].
    + split; [discriminate |]. intros Hnot. contradiction Hnot. left. congruence.
  - assert (Hloop :
      (forall reader,
         first_file_reader (fun e => GetFileReader e file_id) (mExternalReaders r)
         = Some reader ->
         mFileId reader = file_id /\ In reader (flat_map readers (mExternalReaders r)))
      /\ (first_file_reader (fun e => GetFileReader e file_id) (mExternalReaders r) = None
          <-> ~ In file_id (map mFileId (flat_map readers (mExternalReaders r))))).
    { induction IH as [| e es He _ IHes]; cbn [first_file_reader flat_map].
      - split; [discriminate |]. split; [intros _ [] | reflexivity].
      - destruct He as [Hsome Hnone]. destruct IHes as [Hsome' Hnone'].
        rewrite map_app, in_app_iff.
        destruct (GetFileReader e file_id) as [found |].
        + split.
          * intros reader Heq. inversion Heq. subst reader.
            destruct (Hsome found eq_refl) as [Hid Hin].
            split; [exact Hid | apply in_or_app; left; exact Hin].
          * split; [discriminate |]. intros Hnot.
            destruct (Hsome found eq_refl) as [Hid Hin].
            contradiction Hnot. left. rewrite <- Hid. apply in_map. exact Hin.
        + split.
          * intros reader Heq. destruct (Hsome' reader Heq) as [Hid Hin].
            split; [exact Hid | apply in_or_app; right; exact Hin].
          * rewrite Hnone'. destruct Hnone as [Hnone _]. specialize (Hnone eq_refl).
            tauto. }
    destruct Hloop as [Hsome Hnone]. split.
    + intros reader Heq. destruct (Hsome reader Heq) as [Hid Hin].
      split; [exact Hid | right; exact Hin].
    + rewrite Hnone. split; intros Hnot; [intros [Hx | Hx]; [congruence | tauto] | tauto].
Qed.

(** *** Frames that await information *)

Lemma require_frame_info_max (manifest : Z) (trs : list MXFTrackReader) :
  forall count,
    require_frame_info manifest trs count
    = Z.max count
        (Z.max (if existsb (fun tr => tr_enabled tr
                                      && needs_first_frame (essence_type (GetTrackInfo tr)))
                           trs
                then 1 else count)
               (if existsb (fun tr => tr_enabled tr
                                      && needs_manifest (essence_type (GetTrackInfo tr)))
                           trs
                then manifest else count)).
Proof.
  induction trs as [| tr trs IH]; intros count; cbn [require_frame_info existsb].
  - lia.
  - rewrite IH. clear IH.
    destruct (tr_enabled tr); cbn [andb orb]; [| reflexivity].
    destruct (essence_type (GetTrackInfo tr)); cbn [needs_first_frame needs_manifest orb];
      repeat match goal with
             | |- context [existsb ?f ?l] => destruct (existsb f l)
             | |- context [?a <? ?b] => destruct (Z.ltb_spec a b)
             end; lia.
Qed.

(** [CheckRequireFrameInfo] never lowers the count of frames that await
    information: afterwards it is the greatest of the count before, 1 if an
    enabled internal track is D-10 AES-3 or AVC-Intra, and the ST 436
    manifest count if an enabled internal track is VBI or ANC data.  A
    second call changes nothing. *)
Theorem CheckRequireFrameInfo_count (manifest : Z) (r : t) :
  let first_frame :=
    existsb (fun tr => tr_enabled tr && needs_first_frame (essence_type (GetTrackInfo tr)))
            (mInternalTrackReaders r) in
  let first_frames :=
    existsb (fun tr => tr_enabled tr && needs_manifest (essence_type (GetTrackInfo tr)))
            (mInternalTrackReaders r) in
  mRequireFrameInfoCount (CheckRequireFrameInfo manifest r)
  = Z.max (mRequireFrameInfoCount r)
          (Z.max (if first_frame then 1 else mRequireFrameInfoCount r)
                 (if first_frames then manifest else mRequireFrameInfoCount r))
  /\ mRequireFrameInfoCount r <= mRequireFrameInfoCount (CheckRequireFrameInfo manifest r)
  /\ CheckRequireFrameInfo manifest (CheckRequireFrameInfo manifest r)
     = CheckRequireFrameInfo manifest r.
Proof.
  intros first_frame first_frames.
  assert (Hcount : mRequireFrameInfoCount (CheckRequireFrameInfo manifest r)
                   = Z.max (mRequireFrameInfoCount r)
                       (Z.max (if first_frame then 1 else mRequireFrameInfoCount r)
                              (if first_frames then manifest
                               else mRequireFrameInfoCount r))).
  { unfold CheckRequireFrameInfo. cbn [mRequireFrameInfoCount set_mRequireFrameInfoCount].
    apply require_frame_info_max. }
  split; [exact Hcount |]. split; [rewrite Hcount; lia |].
  set (count := mRequireFrameInfoCount (CheckRequireFrameInfo manifest r)) in *.
  assert (Hagain : require_frame_info manifest (mInternalTrackReaders r) count = count).
  { rewrite require_frame_info_max. fold first_frame first_frames.
    rewrite Hcount. destruct first_frame, first_frames; lia. }
  unfold CheckRequireFrameInfo at 1.
  replace (mInternalTrackReaders (CheckRequireFrameInfo manifest r))
    with (mInternalTrackReaders r) by reflexivity.
  fold count. rewrite Hagain.
  unfold count, CheckRequireFrameInfo. reflexivity.
Qed.

(** *** Complete files *)

Lemma IsComplete_unfold r :
  IsComplete r
  = if (mDuration r <? 0)
       || match mEssenceReader r with Some er => negb (er_complete er) | None => false end
    then false
    else forallb IsComplete (mExternalReaders r).
Proof. destruct r; reflexivity. Qed.

(** A reader is complete exactly when every reader of the clip has a
    known duration and an essence reader, if any, that is complete. *)
Theorem IsComplete_every_reader (r : t) :
  IsComplete r = true
  <-> Forall (fun e => 0 <= mDuration e
                       /\ forall er, mEssenceReader e = Some er -> er_complete er = true)
             (readers r).
Proof.
  induction r as [r IH] using reader_ind.
  rewrite IsComplete_unfold, readers_unfold.
  assert (Hexts : forallb IsComplete (mExternalReaders r) = true
                  <-> Forall (fun e => 0 <= mDuration e
                                       /\ forall er, mEssenceReader e = Some er ->
                                                     er_complete er = true)
                             (flat_map readers (mExternalReaders r))).
  { induction IH as [| e es He _ IHes]; cbn [forallb flat_map].
    - split; [constructor | reflexivity].
    - rewrite andb_true_iff, Forall_app, He, IHes. reflexivity. }
  split.
  - intros Hc. destruct (Z.ltb_spec (mDuration r) 0) as [Hd | Hd]; [discriminate |].
    cbn [orb] in Hc. constructor.
    + split; [exact Hd |]. intros er Her. rewrite Her in Hc.
      destruct (er_complete er); [reflexivity | discriminate].
    + apply Hexts. destruct (mEssenceReader r) as [er |];
        [destruct (negb (er_complete er)); [discriminate | exact Hc] | exact Hc].
  - intros Hall. inversion Hall as [| x l [Hd Her] Hrest]. subst.
    replace (mDuration r <? 0) with false by (symmetry; apply Z.ltb_ge; exact Hd).
    cbn [orb]. destruct (mEssenceReader r) as [er |].
    + rewrite (Her er eq_refl). cbn [negb]. apply Hexts. exact Hrest.
    + apply Hexts. exact Hrest.
Qed.

(** *** Seeking *)

Section Seeking.

Variable convert_position_lower : Z -> list Z -> Z -> Z.
Variable convert_position_higher : Z -> list Z -> Z -> Z.

Abbreviation position_of := (GetPosition convert_position_lower).
Abbreviation seek := (Seek convert_position_higher).

(** After [Seek(position)], [GetPosition()] is [position] on a reader
    that reads enabled essence of its own, for every [int64_t] position;
    it is [position] on a reader whose position comes from an external
    reader when the position survives the conversion to that reader's edit
    rate and back; and [Seek] does not move a reader in which no essence
    is reached through enabled tracks. *)
Theorem GetPosition_after_Seek (r : t) (position : Z) :
  INT64_MIN <= position <= INT64_MAX ->
  (internal_essence r <> None -> position_of (seek r position) = position)
  /\ (anchored r = true ->
      round_trips convert_position_lower convert_position_higher r position ->
      position_of (seek r position) = position)
  /\ (anchored r = false -> position_of (seek r position) = position_of r).
Proof.
  intros Hrange. rewrite GetPosition_Seek. split; [| split].
  - intros Hinternal. apply seek_position_anchored; [| exact Hrange |].
    + rewrite anchored_unfold. destruct (internal_essence r); [reflexivity | contradiction].
    + rewrite round_trips_unfold. destruct (internal_essence r); [exact I | contradiction].
  - intros Hanchor Htrips. apply seek_position_anchored; assumption.
  - intros Hanchor. apply seek_position_not_anchored. exact Hanchor.
Qed.

Lemma seek_externals_again r r' p q es :
  Forall (fun e => forall x y, seek (seek e x) y = seek e y) es ->
  mExternalSampleSequences r' = mExternalSampleSequences r ->
  mExternalSampleSequenceSizes r' = mExternalSampleSequenceSizes r ->
  forall i,
    seek_externals convert_position_higher seek r' q i
                   (seek_externals convert_position_higher seek r p i es)
    = seek_externals convert_position_higher seek r q i es.
Proof.
  intros Hall Hseq Hsizes.
  induction Hall as [| e es He _ IH]; intros i; cbn [seek_externals]; [reflexivity |].
  rewrite IH. f_equal.
  replace (CONVERT_INTERNAL_POS convert_position_higher r' i q)
    with (CONVERT_INTERNAL_POS convert_position_higher r i q)
    by (unfold CONVERT_INTERNAL_POS, sample_sequence, sample_sequence_size;
        rewrite Hseq, Hsizes; reflexivity).
  destruct (IsEnabled e) eqn:E.
  - rewrite IsEnabled_Seek, E. apply He.
  - rewrite E. reflexivity.
Qed.

(** A second [Seek] undoes the first: seeking to one position and then to
    another leaves the reader as seeking to the other alone does. *)
Theorem Seek_after_Seek (r : t) :
  forall p q, seek (seek r p) q = seek r q.
Proof.
  induction r as [r IH] using reader_ind. intros p q.
  rewrite (Seek_unfold convert_position_higher (seek r p) q).
  rewrite internal_essence_Seek, Seek_mExternalReaders.
  rewrite (seek_externals_again r (seek r p) p q (mExternalReaders r) IH)
    by (rewrite Seek_unfold; reflexivity).
  rewrite (Seek_unfold convert_position_higher r q).
  rewrite (Seek_unfold convert_position_higher r p).
  unfold internal_essence.
  destruct (InternalIsEnabled r); [| reflexivity].
  destruct (mEssenceReader r); reflexivity.
Qed.

End Seeking.

(** *** Frame information and reading *)

Section Reading.

Variable convert_position_lower : Z -> list Z -> Z -> Z.
Variable convert_position_higher : Z -> list Z -> Z -> Z.
Variable convert_duration_lower_at : Z -> Z -> list Z -> Z -> Z.
Variable convert_duration_higher_at : Z -> Z -> list Z -> Z -> Z.

Abbreviation position_of := (GetPosition convert_position_lower).
Abbreviation read :=
  (Read convert_position_lower convert_position_higher
        convert_duration_lower_at convert_duration_higher_at).
Abbreviation read_try :=
  (Read_try convert_position_lower convert_position_higher
            convert_duration_lower_at convert_duration_higher_at).

(** The position depends on the cursor of the essence reader, the track
    readers, the file origin, the external readers and their sample
    sequences. *)
Lemma GetPosition_same (r r' : t) :
  mInternalTrackReaders r' = mInternalTrackReaders r ->
  mFileOrigin r' = mFileOrigin r ->
  option_map er_position (mEssenceReader r') = option_map er_position (mEssenceReader r) ->
  mExternalReaders r' = mExternalReaders r ->
  mExternalSampleSequences r' = mExternalSampleSequences r ->
  mExternalSampleSequenceSizes r' = mExternalSampleSequenceSizes r ->
  position_of r' = position_of r.
Proof.
  intros Hint Horigin Hess Hext Hseq Hsizes.
  rewrite (GetPosition_unfold convert_position_lower r'),
          (GetPosition_unfold convert_position_lower r).
  unfold internal_essence, InternalIsEnabled, FROM_ESS_READER_POS.
  rewrite Hint, Horigin, Hext.
  assert (Hloop : forall i es,
            first_enabled_position convert_position_lower position_of r' i es
            = first_enabled_position convert_position_lower position_of r i es).
  { intros i es. revert i. induction es as [| e es IH]; intros i; cbn; [reflexivity |].
    rewrite IH. unfold CONVERT_EXTERNAL_POS, sample_sequence, sample_sequence_size.
    rewrite Hseq, Hsizes. reflexivity. }
  rewrite Hloop.
  destruct (existsb tr_enabled (mInternalTrackReaders r)); [| reflexivity].
  destruct (mEssenceReader r') as [er' |], (mEssenceReader r) as [er |];
    cbn in Hess; try discriminate; [| reflexivity].
  inversion Hess. reflexivity.
Qed.

Lemma ExtractFrameInfo_fields (r : t) :
  mInternalTrackReaders (ExtractFrameInfo r) = mInternalTrackReaders r
  /\ mFileOrigin (ExtractFrameInfo r) = mFileOrigin r
  /\ option_map er_position (mEssenceReader (ExtractFrameInfo r))
     = option_map er_position (mEssenceReader r)
  /\ mExternalReaders (ExtractFrameInfo r) = mExternalReaders r
  /\ mExternalSampleSequences (ExtractFrameInfo r) = mExternalSampleSequences r
  /\ mExternalSampleSequenceSizes (ExtractFrameInfo r) = mExternalSampleSequenceSizes r
  /\ mReadError (ExtractFrameInfo r) = mReadError r
  /\ mReadErrorMessage (ExtractFrameInfo r) = mReadErrorMessage r
  /\ (mRequireFrameInfoCount (ExtractFrameInfo r) = 0
      \/ mRequireFrameInfoCount (ExtractFrameInfo r) = mRequireFrameInfoCount r).
Proof.
  unfold ExtractFrameInfo. destruct (mEssenceReader r) as [er |] eqn:E.
  - destruct (extract_loop _ _ _) as [[how er'] have_first]. cbn.
    repeat (split; [reflexivity |]).
    destruct how; [left; reflexivity | destruct have_first; [left | right]; reflexivity
                  | right; reflexivity].
  - repeat (split; [try rewrite E; reflexivity |]). right. reflexivity.
Qed.

(** [ExtractFrameInfo] seeks the essence reader back to where it was:
    the cursor of the essence reader and [GetPosition()] are as before.
    The count of frames that await information is afterwards 0 or
    unchanged. *)
Theorem ExtractFrameInfo_restores_position (r : t) (er : EssenceReader) :
  mEssenceReader r = Some er ->
  (exists er', mEssenceReader (ExtractFrameInfo r) = Some er'
               /\ er_position er' = er_position er)
  /\ position_of (ExtractFrameInfo r) = position_of r
  /\ (mRequireFrameInfoCount (ExtractFrameInfo r) = 0
      \/ mRequireFrameInfoCount (ExtractFrameInfo r) = mRequireFrameInfoCount r).
Proof.
  intros Her.
  destruct (ExtractFrameInfo_fields r)
    as (Hint & Horigin & Hess & Hext & Hseq & Hsizes & _ & _ & Hcount).
  split; [| split].
  - rewrite Her in Hess. destruct (mEssenceReader (ExtractFrameInfo r)) as [er' |];
      cbn in Hess; [| discriminate].
    exists er'. split; [reflexivity |]. inversion Hess. reflexivity.
  - apply GetPosition_same; assumption.
  - exact Hcount.
Qed.

Lemma Read_enter_fields (r : t) :
  position_of (Read_enter r) = position_of r
  /\ mReadError (Read_enter r) = false
  /\ mReadErrorMessage (Read_enter r) = EmptyString.
Proof.
  unfold Read_enter.
  set (r0 := set_mReadErrorMessage EmptyString (set_mReadError false r)).
  assert (H0 : position_of r0 = position_of r) by (apply GetPosition_same; reflexivity).
  destruct (0 <? mRequireFrameInfoCount r0).
  - destruct (ExtractFrameInfo_fields r0)
      as (Hint & Horigin & Hess & Hext & Hseq & Hsizes & Herr & Hmsg & _).
    split; [| split; [rewrite Herr; reflexivity | rewrite Hmsg; reflexivity]].
    rewrite <- H0. apply GetPosition_same; assumption.
  - split; [exact H0 | split; reflexivity].
Qed.

(** When frames still await information after [ExtractFrameInfo],
    [Read] gives up before it starts to read: it returns 0 with the read
    error set and its message, and the position is as before. *)
Theorem Read_without_frame_info (fuel : nat) (r : t) (num_samples : Z) (is_top : bool) :
  0 < mRequireFrameInfoCount (Read_enter r) ->
  exists r' tr,
    read (Datatypes.S fuel) r num_samples is_top = (Done 0, r', tr)
    /\ mReadError r' = true
    /\ mReadErrorMessage r' = "Failed to extract information from frame(s)"%string
    /\ position_of r' = position_of r.
Proof.
  intros Hcount. cbn [Read]. unfold Read_body. cbv zeta.
  replace (0 <? mRequireFrameInfoCount (Read_enter r)) with true
    by (symmetry; apply Z.ltb_lt; exact Hcount).
  do 2 eexists. split; [reflexivity |]. split; [reflexivity |]. split; [reflexivity |].
  destruct (Read_enter_fields r) as [Hpos _]. rewrite <- Hpos.
  apply GetPosition_same; reflexivity.
Qed.

(** How the [try] block ends when it gives a count: the error state is
    untouched and the last calls are [CompleteRead] on the enabled
    tracks. *)
Lemma Read_try_done (rec : t -> Z -> bool -> Outcome Z * t * Trace)
      (r : t) num_samples is_top current_position k r2 tr :
  read_try rec r num_samples is_top current_position = (Done k, r2, tr) ->
  mReadError r2 = mReadError r
  /\ mReadErrorMessage r2 = mReadErrorMessage r
  /\ exists before, tr = before ++ CompleteRead r2.
Proof.
  unfold Read_try. cbv zeta.
  match goal with
  | |- context [let '(o, r1) := ?c in _] =>
      assert (Hr1 : mReadError (snd c) = mReadError r
                    /\ mReadErrorMessage (snd c) = mReadErrorMessage r)
        by (destruct (internal_essence r) as [er |];
            [destruct (er_Read er num_samples) |]; split; reflexivity);
      destruct c as [o r1]
  end.
  cbn [snd] in Hr1. destruct Hr1 as [Herr Hmsg].
  destruct o as [ex | max_num_read]; [discriminate |].
  destruct (read_externals _ _ _ _ _ _ _ _ _ _ _) as [[o' es'] tr_ext].
  destruct o' as [k' | ex |]; [| discriminate | discriminate].
  destruct (k' <=? num_samples); [| discriminate].
  intros Heq. inversion Heq. subst.
  split; [exact Herr |]. split; [exact Hmsg |].
  eexists. rewrite app_assoc. reflexivity.
Qed.

(** After [Read], the read-error flag tells how the call went: either it
    is clear and the error message is empty, or it is set and [Read] has
    returned 0.  So a count other than 0 is never returned together with
    a read error. *)
Theorem Read_error_flag (fuel : nat) (r : t) (num_samples : Z) (is_top : bool) :
  (depth r <= fuel)%nat ->
  exists k r' tr,
    read fuel r num_samples is_top = (Done k, r', tr)
    /\ ((mReadError r' = false /\ mReadErrorMessage r' = EmptyString)
        \/ (mReadError r' = true /\ k = 0)).
Proof.
  intros Hdepth. destruct fuel as [| fuel].
  - rewrite (depth_unfold r) in Hdepth. lia.
  - cbn [Read]. unfold Read_body. cbv zeta.
    destruct (0 <? mRequireFrameInfoCount (Read_enter r)).
    + do 3 eexists. split; [reflexivity |]. right. split; reflexivity.
    + assert (Hrec : forall e n top, (depth e <= fuel)%nat -> returns (read fuel e n top)).
      { intros e n top He.
        destruct (Read_returns convert_position_lower convert_position_higher
                               convert_duration_lower_at convert_duration_higher_at
                               fuel e n top He) as (k & r' & tr & Hk & _).
        exists k, r', tr. exact Hk. }
      apply depth_externals in Hdepth. rewrite <- Read_enter_mExternalReaders in Hdepth.
      pose proof (Read_try_in_fuel convert_position_lower convert_position_higher
                                   convert_duration_lower_at convert_duration_higher_at
                                   (read fuel) fuel Hrec (Read_enter r) num_samples is_top
                                   (position_of (Read_enter r)) Hdepth) as Htry.
      destruct (Read_try _ _ _ _ _ _ _ _ _) as [[o r2] tr] eqn:Erun.
      cbn [fst] in Htry.
      destruct o as [k | ex |]; [| | contradiction].
      * do 3 eexists. split; [reflexivity |]. left.
        destruct (Read_try_done _ _ _ _ _ _ _ _ Erun) as (Herr & Hmsg & _).
        destruct (Read_enter_fields r) as (_ & Herr0 & Hmsg0).
        split; congruence.
      * do 3 eexists. split; [reflexivity |]. right.
        split; [rewrite Seek_unfold; reflexivity | reflexivity].
Qed.

Lemma outline_unfold (r : t) :
  outline r
  = mk (mFileId r) (mEditRate r) (mFileOrigin r) (mOrigin r) (mDuration r)
       None 0 false EmptyString
       (map (fun tr => mkTrackReader NULL_TRACK_INFO (tr_enabled tr) (tr_timed_text tr))
            (mInternalTrackReaders r))
       (mTrackReaders r) (mExternalTrackReaders r)
       (map outline (mExternalReaders r))
       (mExternalSampleSequences r) (mExternalSampleSequenceSizes r).
Proof. destruct r; reflexivity. Qed.

Lemma outline_skeleton (r : t) : outline (skeleton r) = outline r.
Proof.
  induction r as [r IH] using reader_ind.
  rewrite (outline_unfold (skeleton r)), (outline_unfold r), (skeleton_unfold r). cbn.
  f_equal. rewrite map_map. apply map_ext_Forall. exact IH.
Qed.

(** [Read] leaves the clip as it is laid out: the track list, which
    track readers are enabled, the edit rate, the duration, the origins
    and the sample sequences of the reader are as before, and so are those
    of its external readers at every level, however the call ends. *)
Theorem Read_keeps_the_clip (fuel : nat) (r : t) (num_samples : Z) (is_top : bool) :
  let r' := snd (fst (read fuel r num_samples is_top)) in
  outline r' = outline r
  /\ mTrackReaders r' = mTrackReaders r
  /\ mEditRate r' = mEditRate r
  /\ mDuration r' = mDuration r
  /\ mOrigin r' = mOrigin r
  /\ mFileOrigin r' = mFileOrigin r
  /\ mExternalSampleSequences r' = mExternalSampleSequences r
  /\ length (mExternalReaders r') = length (mExternalReaders r)
  /\ IsEnabled r' = IsEnabled r.
Proof.
  intros r'.
  assert (Hkept : skeleton r' = skeleton r) by apply skeleton_Read.
  assert (Hfield : forall {A : Type} (f : t -> A),
            (forall x, f (skeleton x) = f x) -> f r' = f r).
  { intros A f Hf. rewrite <- (Hf r'), <- (Hf r), Hkept. reflexivity. }
  split; [apply Hfield; apply outline_skeleton |].
  repeat (split; [apply Hfield; intros x; rewrite skeleton_unfold; reflexivity |]).
  split.
  - apply (Hfield _ (fun x => length (mExternalReaders x))).
    intros x. rewrite skeleton_unfold. cbn. apply length_map.
  - apply Hfield. apply IsEnabled_skeleton.
Qed.

End Reading.

(** *** Precharge, rollout and read limits *)

Section Limits.

Variable convert_position_lower : Z -> list Z -> Z -> Z.
Variable convert_position_higher : Z -> list Z -> Z -> Z.
Variable convert_duration_lower : Z -> list Z -> Z -> Z.
Variable CURRENT_POSITION_VALUE : Z.

Abbreviation position_of := (GetPosition convert_position_lower).
Abbreviation max_precharge :=
  (GetMaxPrecharge convert_position_lower convert_position_higher convert_duration_lower
                   CURRENT_POSITION_VALUE).
Abbreviation max_rollout :=
  (GetMaxRollout convert_position_lower convert_position_higher convert_duration_lower
                 CURRENT_POSITION_VALUE).
Abbreviation available_precharge :=
  (GetMaxAvailablePrecharge convert_position_lower convert_position_higher
                            CURRENT_POSITION_VALUE).
Abbreviation available_rollout :=
  (GetMaxAvailableRollout convert_position_lower convert_position_higher
                          CURRENT_POSITION_VALUE).

Lemma GetMaxAvailablePrecharge_unfold r position :
  available_precharge r position
  = if negb (IsComplete r) then Raise PC_RO_NOT_AVAILABLE
    else
      let target_position :=
        if position =? CURRENT_POSITION_VALUE then position_of r else position in
      match (if InternalIsEnabled r
             then GetInternalAvailablePrecharge convert_position_lower
                    CURRENT_POSITION_VALUE r target_position
             else Ok 0) with
      | Raise ex => Raise ex
      | Ok max_available_precharge =>
          available_precharge_externals convert_position_higher available_precharge
            r target_position O (mExternalReaders r) max_available_precharge
      end.
Proof. destruct r; reflexivity. Qed.

Lemma GetMaxAvailableRollout_unfold r position :
  available_rollout r position
  = if negb (IsComplete r) then Raise PC_RO_NOT_AVAILABLE
    else
      let target_position :=
        if position =? CURRENT_POSITION_VALUE then position_of r else position in
      match (if InternalIsEnabled r
             then GetInternalAvailableRollout convert_position_lower
                    CURRENT_POSITION_VALUE r target_position
             else Ok 0) with
      | Raise ex => Raise ex
      | Ok max_available_rollout =>
          available_rollout_externals convert_position_higher available_rollout
            r target_position O (mExternalReaders r) max_available_rollout
      end.
Proof. destruct r; reflexivity. Qed.

Lemma available_precharge_externals_sign
      (available : t -> Z -> Result Z) (r : t) (target : Z) (es : list t) :
  Forall (fun e => forall p, exists v, available e p = Ok v /\ v <= 0) es ->
  forall i so_far,
    so_far <= 0 ->
    exists v,
      available_precharge_externals convert_position_higher available r target i es so_far
      = Ok v /\ v <= so_far.
Proof.
  induction 1 as [| e es He _ IH]; intros i so_far Hso;
    cbn [available_precharge_externals].
  - exists so_far. split; [reflexivity | lia].
  - destruct (negb (IsEnabled e)); [apply IH; exact Hso |].
    match goal with |- context [available e ?p] => destruct (He p) as (v & Hv & Hle) end.
    rewrite Hv.
    match goal with
    | |- context [available_precharge_externals _ _ _ _ _ es ?next] =>
        assert (Hnext : next <= so_far)
          by (destruct (negb (v =? 0)); [| lia];
              destruct (negb (Rational_eqb (mEditRate e) (mEditRate r))); [lia |];
              destruct (Z.ltb_spec v so_far); lia);
        destruct (IH (Datatypes.S i) next ltac:(lia)) as (w & Hw & Hlew)
    end.
    exists w. split; [exact Hw | lia].
Qed.

Lemma available_rollout_externals_sign
      (available : t -> Z -> Result Z) (r : t) (target : Z) (es : list t) :
  Forall (fun e => forall p, exists v, available e p = Ok v /\ 0 <= v) es ->
  forall i so_far,
    0 <= so_far ->
    exists v,
      available_rollout_externals convert_position_higher available r target i es so_far
      = Ok v /\ so_far <= v.
Proof.
  induction 1 as [| e es He _ IH]; intros i so_far Hso;
    cbn [available_rollout_externals].
  - exists so_far. split; [reflexivity | lia].
  - destruct (negb (IsEnabled e)); [apply IH; exact Hso |].
    match goal with |- context [available e ?p] => destruct (He p) as (v & Hv & Hle) end.
    rewrite Hv.
    match goal with
    | |- context [available_rollout_externals _ _ _ _ _ es ?next] =>
        assert (Hnext : so_far <= next)
          by (destruct (negb (v =? 0)); [| lia];
              destruct (negb (Rational_eqb (mEditRate e) (mEditRate r))); [lia |];
              destruct (Z.ltb_spec so_far v); lia);
        destruct (IH (Datatypes.S i) next ltac:(lia)) as (w & Hw & Hlew)
    end.
    exists w. split; [exact Hw | lia].
Qed.

(** On a complete file [GetMaxAvailablePrecharge] and
    [GetMaxAvailableRollout] return, whatever the edit rates of the
    external readers: the available precharge is at most 0 and the
    available rollout at least 0.  On an incomplete file both raise the
    exception that the information is not available. *)
Theorem available_precharge_and_rollout (r : t) (position : Z) :
  (IsComplete r = true ->
   (exists v, available_precharge r position = Ok v /\ v <= 0)
   /\ (exists v, available_rollout r position = Ok v /\ 0 <= v))
  /\ (IsComplete r = false ->
      available_precharge r position = Raise PC_RO_NOT_AVAILABLE
      /\ available_rollout r position = Raise PC_RO_NOT_AVAILABLE).
Proof.
  split.
  - revert position. induction r as [r IH] using reader_ind. intros position Hc.
    pose proof (IsComplete_externals r Hc) as Hce.
    assert (Hpre : Forall (fun e => forall p, exists v, available_precharge e p = Ok v
                                                        /\ v <= 0)
                          (mExternalReaders r)).
    { rewrite Forall_forall in *. intros e He p. apply (IH e He p (Hce e He)). }
    assert (Hro : Forall (fun e => forall p, exists v, available_rollout e p = Ok v
                                                       /\ 0 <= v)
                         (mExternalReaders r)).
    { rewrite Forall_forall in *. intros e He p. apply (IH e He p (Hce e He)). }
    split.
    + rewrite GetMaxAvailablePrecharge_unfold, Hc. cbn [negb]. cbv zeta.
      match goal with
      | |- context [match ?c with Ok _ => _ | Raise _ => _ end] =>
          assert (Hint : exists v, c = Ok v /\ v <= 0)
      end.
      { destruct (InternalIsEnabled r); [| exists 0; split; [reflexivity | lia]].
        unfold GetInternalAvailablePrecharge. rewrite Hc. cbn [negb].
        destruct (mEssenceReader r); [| exists 0; split; [reflexivity | lia]].
        eexists. split; [reflexivity |].
        match goal with |- context [0 <? ?x] => destruct (Z.ltb_spec 0 x) end; lia. }
      destruct Hint as (v0 & Hv0 & Hle0). rewrite Hv0.
      match goal with
      | |- context [available_precharge_externals _ ?f r ?t O _ _] =>
          destruct (available_precharge_externals_sign f r t _ Hpre O v0 Hle0)
            as (v & Hv & Hle)
      end.
      exists v. split; [exact Hv | lia].
    + rewrite GetMaxAvailableRollout_unfold, Hc. cbn [negb]. cbv zeta.
      match goal with
      | |- context [match ?c with Ok _ => _ | Raise _ => _ end] =>
          assert (Hint : exists v, c = Ok v /\ 0 <= v)
      end.
      { destruct (InternalIsEnabled r); [| exists 0; split; [reflexivity | lia]].
        unfold GetInternalAvailableRollout. rewrite Hc. cbn [negb].
        destruct (mEssenceReader r); [| exists 0; split; [reflexivity | lia]].
        eexists. split; [reflexivity |].
        match goal with |- context [?x <? 0] => destruct (Z.ltb_spec x 0) end; lia. }
      destruct Hint as (v0 & Hv0 & Hle0). rewrite Hv0.
      match goal with
      | |- context [available_rollout_externals _ ?f r ?t O _ _] =>
          destruct (available_rollout_externals_sign f r t _ Hro O v0 Hle0)
            as (v & Hv & Hle)
      end.
      exists v. split; [exact Hv | lia].
  - intros Hc. rewrite GetMaxAvailablePrecharge_unfold, GetMaxAvailableRollout_unfold, Hc.
    split; reflexivity.
Qed.

Lemma intra_only_unfold r :
  intra_only r
  = negb (HaveInterFrameEncodingTrack r) && forallb intra_only (mExternalReaders r).
Proof. destruct r; reflexivity. Qed.

Lemma internal_limits_intra (r : t) :
  IsComplete r = true ->
  HaveInterFrameEncodingTrack r = false ->
  (forall position limit,
     GetInternalPrecharge convert_position_lower CURRENT_POSITION_VALUE r position limit
     = Ok 0)
  /\ (forall position limit,
        GetInternalRollout convert_position_lower CURRENT_POSITION_VALUE r position limit
        = Ok 0)
  /\ exists limits,
       GetInternalAvailableReadLimits convert_position_lower CURRENT_POSITION_VALUE r
       = Ok limits.
Proof.
  intros Hc Hintra.
  assert (Hpre : forall position limit,
            GetInternalPrecharge convert_position_lower CURRENT_POSITION_VALUE r
                                 position limit = Ok 0).
  { intros position limit. unfold GetInternalPrecharge. rewrite Hc, Hintra. cbn [negb].
    destruct (mEssenceReader r); reflexivity. }
  assert (Hro : forall position limit,
            GetInternalRollout convert_position_lower CURRENT_POSITION_VALUE r
                               position limit = Ok 0).
  { intros position limit. unfold GetInternalRollout. rewrite Hc, Hintra. cbn [negb].
    destruct (mEssenceReader r); reflexivity. }
  split; [exact Hpre |]. split; [exact Hro |].
  unfold GetInternalAvailableReadLimits. rewrite Hc, Hpre, Hro. cbn [negb].
  eexists. reflexivity.
Qed.

Lemma precharge_externals_intra
      (pre : t -> Z -> bool -> Result Z) (limits : t -> Result (Z * Z))
      (r : t) (target : Z) (limit : bool) (es : list t) :
  Forall (fun e => (forall p l, pre e p l = Ok 0) /\ exists v, limits e = Ok v) es ->
  forall i m,
    exists m',
      precharge_externals convert_position_lower convert_position_higher
                          pre limits r target limit i es 0 m = Ok (0, m').
Proof.
  induction 1 as [| e es [He [[a b] Hl]] _ IH]; intros i m; cbn [precharge_externals].
  - exists m. reflexivity.
  - destruct (negb (IsEnabled e)); [apply IH |].
    rewrite He. cbn [Z.eqb negb]. rewrite Hl.
    destruct limit; apply IH.
Qed.

Lemma rollout_externals_intra
      (ro : t -> Z -> bool -> Result Z) (limits : t -> Result (Z * Z))
      (r : t) (target : Z) (limit : bool) (es : list t) :
  Forall (fun e => (forall p l, ro e p l = Ok 0) /\ exists v, limits e = Ok v) es ->
  forall i m,
    exists m',
      rollout_externals convert_position_higher convert_duration_lower
                        ro limits r target limit i es 0 m = Ok (0, m').
Proof.
  induction 1 as [| e es [He [[a b] Hl]] _ IH]; intros i m; cbn [rollout_externals].
  - exists m. reflexivity.
  - destruct (negb (IsEnabled e)); [apply IH |].
    rewrite He. cbn [Z.eqb negb]. rewrite Hl.
    destruct limit; apply IH.
Qed.

(** When no reader of a complete clip has an enabled track of an
    inter-frame coded essence type, no precharge and no rollout is
    required: [GetMaxPrecharge] and [GetMaxRollout] return 0 at every
    position, limited to what is available or not, and whatever the edit
    rates of the external readers. *)
Theorem intra_only_needs_no_precharge (r : t) :
  IsComplete r = true ->
  intra_only r = true ->
  forall position limit,
    max_precharge r position limit = Ok 0 /\ max_rollout r position limit = Ok 0.
Proof.
  induction r as [r IH] using reader_ind. intros Hc Hintra position limit.
  pose proof (IsComplete_externals r Hc) as Hce.
  rewrite intra_only_unfold in Hintra. apply andb_true_iff in Hintra.
  destruct Hintra as [Hhere Hexts]. apply negb_true_iff in Hhere.
  rewrite forallb_forall in Hexts.
  destruct (internal_limits_intra r Hc Hhere) as (Hpre & Hro & [[start dur] Hlimits]).
  set (limits := fun e : t =>
                   read_limits_of (IsComplete e) (mDuration e)
                                  (max_precharge e) (max_rollout e) true).
  assert (Hall : Forall (fun e => ((forall p l, max_precharge e p l = Ok 0)
                                   /\ exists v, limits e = Ok v)
                                  /\ (forall p l, max_rollout e p l = Ok 0))
                        (mExternalReaders r)).
  { rewrite Forall_forall in *. intros e He.
    assert (Hboth : forall p l, max_precharge e p l = Ok 0 /\ max_rollout e p l = Ok 0)
      by (intros p l; apply (IH e He (Hce e He) (Hexts e He) p l)).
    split; [split |].
    - intros p l. apply Hboth.
    - unfold limits, read_limits_of. rewrite (Hce e He). cbn [negb].
      destruct (Hboth 0 true) as [H0 _]. rewrite H0.
      destruct (Hboth (sint64 (mDuration e - 1)) true) as [_ H1]. rewrite H1.
      eexists. reflexivity.
    - intros p l. apply Hboth. }
  split.
  - rewrite GetMaxPrecharge_unfold, Hc. cbn [negb]. cbv zeta.
    unfold precharge_internal. rewrite Hpre, Hlimits.
    set (target := if position =? CURRENT_POSITION_VALUE then position_of r else position).
    assert (Hloop : forall m, exists m',
              precharge_externals convert_position_lower convert_position_higher
                max_precharge limits r target limit O (mExternalReaders r) 0 m
              = Ok (0, m')).
    { intros m. apply precharge_externals_intra.
      eapply Forall_impl; [| exact Hall]. intros e [He _]. exact He. }
    fold limits.
    destruct (InternalIsEnabled r), limit; cbv beta iota;
      match goal with
      | |- context [precharge_externals _ _ _ _ r ?t _ O _ 0 ?m] =>
          destruct (Hloop m) as (m' & Hm'); rewrite Hm'
      end; cbn [andb];
      try reflexivity;
      match goal with
      | |- context [0 <? ?x] => destruct (Z.ltb_spec 0 x); [| reflexivity];
                                 destruct (Z.ltb_spec x 0); [lia | reflexivity]
      end.
  - rewrite GetMaxRollout_unfold, Hc. cbn [negb]. cbv zeta.
    unfold rollout_internal. rewrite Hro, Hlimits.
    set (target := if position =? CURRENT_POSITION_VALUE then position_of r else position).
    assert (Hloop : forall m, exists m',
              rollout_externals convert_position_higher convert_duration_lower
                max_rollout limits r target limit O (mExternalReaders r) 0 m
              = Ok (0, m')).
    { intros m. apply rollout_externals_intra.
      eapply Forall_impl; [| exact Hall]. intros e [[_ He] Hr]. split; assumption. }
    fold limits.
    destruct (InternalIsEnabled r), limit; cbv beta iota;
      match goal with
      | |- context [rollout_externals _ _ _ _ r ?t _ O _ 0 ?m] =>
          destruct (Hloop m) as (m' & Hm'); rewrite Hm'
      end; cbn [andb];
      try reflexivity;
      match goal with
      | |- context [?x <? 0] => destruct (Z.ltb_spec x 0); [| reflexivity];
                                 destruct (Z.ltb_spec 0 x); [lia | reflexivity]
      end.
Qed.

(** [GetReadLimits] raises its exception on an incomplete file.  On a
    complete file whose external readers have the edit rate of their
    holders, the limits without limiting to what is available begin at the
    precharge of position 0, which is at most 0, and have the duration of
    the clip lengthened by that precharge and by the rollout of the last
    position: they enclose the clip. *)
Theorem GetReadLimits_enclose_the_clip (r : t) :
  (IsComplete r = false ->
   forall limit,
     GetReadLimits convert_position_lower convert_position_higher convert_duration_lower
                   CURRENT_POSITION_VALUE r limit = Raise READ_LIMITS_NOT_SUPPORTED)
  /\ (IsComplete r = true ->
      rates_agree r = true ->
      mDuration r <= INT64_MAX - 65535 ->
      exists precharge rollout,
        max_precharge r 0 false = Ok precharge
        /\ max_rollout r (mDuration r - 1) false = Ok rollout
        /\ GetReadLimits convert_position_lower convert_position_higher
                         convert_duration_lower CURRENT_POSITION_VALUE r false
           = Ok (precharge, mDuration r - precharge + rollout)
        /\ -32768 <= precharge <= 0
        /\ 0 <= rollout <= 32767).
Proof.
  unfold GetReadLimits, read_limits_of. split.
  - intros Hc limit. rewrite Hc. reflexivity.
  - intros Hc Hrates Hdur. rewrite Hc. cbn [negb].
    assert (Hd : 0 <= mDuration r).
    { rewrite IsComplete_unfold in Hc.
      destruct (Z.ltb_spec (mDuration r) 0); [discriminate | assumption]. }
    rewrite (sint64_small (mDuration r - 1))
      by (unfold INT64_MIN, INT64_MAX in *; lia).
    destruct (GetMaxPrecharge_GetMaxRollout_value
                convert_position_lower convert_position_higher convert_duration_lower
                CURRENT_POSITION_VALUE r Hc Hrates 0) as [[pre Hpre] _].
    destruct (GetMaxPrecharge_GetMaxRollout_value
                convert_position_lower convert_position_higher convert_duration_lower
                CURRENT_POSITION_VALUE r Hc Hrates (mDuration r - 1)) as [_ [ro Hro]].
    destruct (GetMaxPrecharge_GetMaxRollout_result
                convert_position_lower convert_position_higher convert_duration_lower
                CURRENT_POSITION_VALUE r Hc 0) as [Hpre_range _].
    destruct (GetMaxPrecharge_GetMaxRollout_result
                convert_position_lower convert_position_higher convert_duration_lower
                CURRENT_POSITION_VALUE r Hc (mDuration r - 1)) as [_ Hro_range].
    rewrite Hpre in Hpre_range. rewrite Hro in Hro_range.
    cbn [precharge_result rollout_result] in Hpre_range, Hro_range.
    exists pre, ro. rewrite Hpre, Hro.
    split; [reflexivity |]. split; [reflexivity |].
    split; [| split; assumption].
    rewrite (sint64_small (0 + pre)) by (unfold INT64_MIN, INT64_MAX in *; lia).
    rewrite (sint64_small (- pre + mDuration r))
      by (unfold INT64_MIN, INT64_MAX in *; lia).
    rewrite sint64_small by (unfold INT64_MIN, INT64_MAX in *; lia).
    f_equal. f_equal; lia.
Qed.

End Limits.

(** *** Metadata processing *)

Section Metadata.

Variable convert_position_lower : Z -> list Z -> Z -> Z.
Variable convert_position_higher : Z -> list Z -> Z -> Z.
Variable convert_duration_lower : Z -> list Z -> Z -> Z.
Variable convert_position : Rational -> Z -> Rational -> Rounding -> Z.
Variable convert_duration : Rational -> Z -> Rational -> Rounding -> Z.
Variable float : Type.
Variable float_of_int : Z -> float.
Variable float_div : float -> float -> float.
Variable float_lt : float -> float -> bool.
Variable FLOAT_1000000 : float.
Variable track_GetEditRate : t -> TrackRef -> Rational.
Variable get_sample_sequence : Rational -> Rational -> option (list Z).
Variable get_sequence_size : list Z -> Z.

Abbreviation process_metadata :=
  (ProcessMetadata convert_position_lower convert_position_higher convert_duration_lower
     convert_position convert_duration float float_of_int float_div float_lt
     FLOAT_1000000 track_GetEditRate get_sample_sequence get_sequence_size).
Abbreviation set_rate :=
  (set_clip_edit_rate float float_of_int float_div float_lt FLOAT_1000000 track_GetEditRate).
Abbreviation external_position := (CONVERT_EXTERNAL_POS convert_position_lower).
Abbreviation internal_position := (CONVERT_INTERNAL_POS convert_position_higher).

(** The statements of [ProcessMetadata] one after the other, with the
    reader each leaves. *)
Lemma ProcessMetadata_stages mp_tracks r0 r :
  process_metadata mp_tracks r0 = (Done tt, r) ->
  exists r1 r3 r6 r7 r9,
    add_tracks convert_position mp_tracks r0 = (Done tt, r1)
    /\ mTrackReaders r1 <> []
    /\ check_lead_filler convert_position r1 = (Done tt, r3)
    /\ set_rate (disable_unused_external_tracks (sort_track_readers r3)) = (Done tt, r6)
    /\ extract_sample_sequences get_sample_sequence get_sequence_size
                                (mExternalReaders r6) r6 = (Done tt, r7)
    /\ force_external_durations
         convert_position_higher
         (set_mDuration (clip_duration convert_duration_lower convert_duration r7) r7)
       = (Done tt, r9)
    /\ r = set_mOrigin (clip_origin convert_position_lower r9 O (mExternalReaders r9)
                                    (mFileOrigin r9)) r9.
Proof.
  unfold ProcessMetadata. intros Hrun.
  apply bind_Done in Hrun. destruct Hrun as ([] & r1 & Hadd & Hrun).
  apply bind_Done in Hrun. destruct Hrun as (tracks & r1' & Hget & Hrun).
  inversion Hget; subst tracks r1'. clear Hget.
  apply bind_Done in Hrun. destruct Hrun as ([] & r2 & Hempty & Hrun).
  assert (Hr2 : r2 = r1 /\ mTrackReaders r1 <> []).
  { destruct (mTrackReaders r1); cbn in Hempty; inversion Hempty.
    split; [reflexivity | discriminate]. }
  destruct Hr2 as [Hr2 Hne]. subst r2.
  apply bind_Done in Hrun. destruct Hrun as ([] & r3 & Hfill & Hrun).
  apply bind_Done in Hrun. destruct Hrun as ([] & r4 & Hsort & Hrun).
  apply bind_Done in Hrun. destruct Hrun as ([] & r5 & Hdisable & Hrun).
  apply bind_Done in Hrun. destruct Hrun as ([] & r6 & Hrate & Hrun).
  apply bind_Done in Hrun. destruct Hrun as (externals & r6' & Hget & Hrun).
  inversion Hget; subst externals r6'. clear Hget.
  apply bind_Done in Hrun. destruct Hrun as ([] & r7 & Hseq & Hrun).
  apply bind_Done in Hrun. destruct Hrun as ([] & r8 & Hdur & Hrun).
  apply bind_Done in Hrun. destruct Hrun as ([] & r9 & Hforce & Hrun).
  inversion Hsort; subst r4. inversion Hdisable; subst r5.
  inversion Hdur; subst r8. inversion Hrun.
  exists r1, r3, r6, r7, r9.
  repeat (split; [assumption |]). reflexivity.
Qed.

(** **** The clip origin *)

Lemma clip_origin_max (r : t) (es : list t) :
  forall i origin0,
    let origin := clip_origin convert_position_lower r i es origin0 in
    origin0 <= origin
    /\ (forall j e, nth_error es j = Some e ->
          external_position r (i + j) (mOrigin e) <= origin)
    /\ (origin = origin0
        \/ exists j e, nth_error es j = Some e
                       /\ origin = external_position r (i + j) (mOrigin e)).
Proof.
  induction es as [| e es IH]; intros i origin0; cbn [clip_origin].
  - split; [lia |]. split; [| left; reflexivity].
    intros j e' Hnth. destruct j; discriminate.
  - cbv zeta. specialize (IH (Datatypes.S i)).
    match goal with
    | |- context [clip_origin _ r _ es ?next] =>
        assert (Hnext : origin0 <= next
                        /\ external_position r i (mOrigin e) <= next
                        /\ (next = origin0 \/ next = external_position r i (mOrigin e)))
          by (destruct (Z.ltb_spec origin0 (external_position r i (mOrigin e))); lia);
        destruct (IH next) as (Hge & Hall & Hone)
    end.
    destruct Hnext as (Hn0 & Hn1 & Hn2).
    split; [lia |]. split.
    + intros j e' Hnth. destruct j as [| j]; cbn in Hnth.
      * inversion Hnth. subst e'. rewrite Nat.add_0_r. lia.
      * replace (i + Datatypes.S j)%nat with (Datatypes.S i + j)%nat by lia.
        apply (Hall j e' Hnth).
    + destruct Hone as [Hone | (j & e' & Hnth & Hone)].
      * destruct Hn2 as [Hn2 | Hn2].
        -- left. lia.
        -- right. exists O, e. split; [reflexivity |]. rewrite Nat.add_0_r. lia.
      * right. exists (Datatypes.S j), e'. split; [exact Hnth |].
        replace (i + Datatypes.S j)%nat with (Datatypes.S i + j)%nat by lia. exact Hone.
Qed.

(** After metadata processing the clip origin is the greatest of the
    file origin and the origins of the external readers converted to the
    clip edit rate: it is one of them and none of them is greater. *)
Theorem ProcessMetadata_origin (mp_tracks : list MaterialTrack) (r0 r : t) :
  process_metadata mp_tracks r0 = (Done tt, r) ->
  mFileOrigin r <= mOrigin r
  /\ (forall i e, nth_error (mExternalReaders r) i = Some e ->
        external_position r i (mOrigin e) <= mOrigin r)
  /\ (mOrigin r = mFileOrigin r
      \/ exists i e, nth_error (mExternalReaders r) i = Some e
                     /\ mOrigin r = external_position r i (mOrigin e)).
Proof.
  intros Hrun.
  destruct (ProcessMetadata_stages mp_tracks r0 r Hrun)
    as (r1 & r3 & r6 & r7 & r9 & _ & _ & _ & _ & _ & _ & Hr).
  pose proof (clip_origin_max r9 (mExternalReaders r9) O (mFileOrigin r9)) as Hmax.
  cbv zeta in Hmax. cbn [Nat.add] in Hmax.
  subst r. exact Hmax.
Qed.

(** **** The durations of the external readers *)

Lemma force_durations_each (r : t) (es : list t) :
  forall i es',
    force_durations convert_position_higher r i es = Ok es' ->
    forall j e', nth_error es' j = Some e' ->
      exists e, nth_error es j = Some e
                /\ e' = set_mDuration (internal_position r (i + j) (mDuration r)) e
                /\ internal_position r (i + j) (mDuration r) <= mDuration e.
Proof.
  induction es as [| e es IH]; intros i es'; cbn [force_durations].
  - intros Heq. inversion Heq. intros j e' Hnth. destruct j; discriminate.
  - unfold ForceDuration.
    destruct (Z.leb_spec (internal_position r i (mDuration r)) (mDuration e)) as [Hle | Hle];
      [| discriminate].
    destruct (force_durations convert_position_higher r (Datatypes.S i) es) as [es'' | ex]
      eqn:Erest; [| discriminate].
    intros Heq. inversion Heq. subst es'. intros j e' Hnth.
    destruct j as [| j]; cbn in Hnth.
    + inversion Hnth. subst e'. exists e. rewrite Nat.add_0_r.
      split; [reflexivity |]. split; [reflexivity | exact Hle].
    + destruct (IH (Datatypes.S i) es'' Erest j e' Hnth) as (e0 & Hnth0 & He' & Hle').
      replace (i + Datatypes.S j)%nat with (Datatypes.S i + j)%nat by lia.
      exists e0. split; [exact Hnth0 |]. split; assumption.
Qed.

(** After metadata processing that has found the clip duration, every
    external reader has been forced to it: the duration of the external
    reader is the clip duration converted to its edit rate
    ([CONVERT_INTERNAL_POS] of it). *)
Theorem ProcessMetadata_forces_durations (mp_tracks : list MaterialTrack) (r0 r : t) :
  process_metadata mp_tracks r0 = (Done tt, r) ->
  0 <= mDuration r ->
  forall i e, nth_error (mExternalReaders r) i = Some e ->
    mDuration e = internal_position r i (mDuration r).
Proof.
  intros Hrun Hd i e Hnth.
  destruct (ProcessMetadata_stages mp_tracks r0 r Hrun)
    as (r1 & r3 & r6 & r7 & r9 & _ & _ & _ & _ & _ & Hforce & Hr).
  set (r8 := set_mDuration (clip_duration convert_duration_lower convert_duration r7) r7)
    in *.
  unfold force_external_durations in Hforce.
  assert (Hd9 : mDuration r = mDuration r8).
  { destruct (0 <=? mDuration r8);
      [destruct (force_durations convert_position_higher r8 O (mExternalReaders r8)) |];
      inversion Hforce; subst r9; subst r; reflexivity. }
  rewrite Hd9 in Hd.
  replace (0 <=? mDuration r8) with true in Hforce by (symmetry; apply Z.leb_le; exact Hd).
  destruct (force_durations convert_position_higher r8 O (mExternalReaders r8)) as [es |]
    eqn:Efd; [| discriminate].
  inversion Hforce. subst r9. subst r. cbn [mExternalReaders set_mOrigin] in Hnth.
  replace (mExternalReaders (set_mExternalReaders es r8)) with es in Hnth by reflexivity.
  destruct (force_durations_each r8 _ O es Efd i e Hnth) as (e0 & _ & He & _).
  subst e. reflexivity.
Qed.

(** **** The sample sequences *)

Lemma extract_sample_sequences_all (es : list t) :
  forall r r',
    extract_sample_sequences get_sample_sequence get_sequence_size es r = (Done tt, r') ->
    exists sequences,
      Forall2 (fun e sequence =>
                 get_sample_sequence (mEditRate r) (mEditRate e) = Some sequence)
              es sequences
      /\ r' = set_mExternalSampleSequenceSizes
                (mExternalSampleSequenceSizes r ++ map get_sequence_size sequences)
                (set_mExternalSampleSequences
                   (mExternalSampleSequences r ++ sequences) r).
Proof.
  induction es as [| e es IH]; intros r r'; cbn [extract_sample_sequences].
  - unfold ret. intros Heq. inversion Heq. subst r'. exists [].
    split; [constructor |]. cbn [map]. rewrite !app_nil_r. destruct r; reflexivity.
  - unfold bind at 1, gets at 1. cbn beta iota.
    destruct (get_sample_sequence (mEditRate r) (mEditRate e)) as [sequence |] eqn:Eseq;
      [| discriminate].
    run_monad. intros Hrest. apply IH in Hrest.
    destruct Hrest as (sequences & Hall & Hr').
    exists (sequence :: sequences). split; [constructor; assumption |].
    rewrite Hr'. cbn. rewrite <- !app_assoc. reflexivity.
Qed.

(** The sample sequences and their sizes. *)
Definition sequences_of (r : t) : list (list Z) * list Z :=
  (mExternalSampleSequences r, mExternalSampleSequenceSizes r).

Lemma update_track_sequences ref f r :
  sequences_of (update_track ref f r) = sequences_of r.
Proof. destruct ref; reflexivity. Qed.

Lemma add_tracks_sequences mp_tracks :
  preserves sequences_of (add_tracks convert_position mp_tracks).
Proof.
  induction mp_tracks as [| mp_track mp_tracks IH]; cbn [add_tracks].
  - apply preserves_ret.
  - apply preserves_bind; [| intros ?; exact IH].
    unfold add_track, CreateInternalTrackReader, GetExternalTrackReader.
    preserves_all; try reflexivity; apply update_track_sequences.
Qed.

Lemma fold_lead_filler_sequences refs : preserves sequences_of (fold_lead_filler refs).
Proof.
  induction refs as [| ref refs IH]; cbn [fold_lead_filler].
  - apply preserves_ret.
  - preserves_all; try exact IH; try apply update_track_sequences.
Qed.

Lemma before_sequences mp_tracks r0 r1 r3 r6 :
  add_tracks convert_position mp_tracks r0 = (Done tt, r1) ->
  check_lead_filler convert_position r1 = (Done tt, r3) ->
  set_rate (disable_unused_external_tracks (sort_track_readers r3)) = (Done tt, r6) ->
  sequences_of r6 = sequences_of r0.
Proof.
  intros Hadd Hfill Hrate.
  apply add_tracks_sequences in Hadd.
  assert (H3 : preserves sequences_of (check_lead_filler convert_position)).
  { unfold check_lead_filler. preserves_all; try apply fold_lead_filler_sequences. }
  apply H3 in Hfill.
  assert (H6 : preserves sequences_of set_rate).
  { unfold set_clip_edit_rate. preserves_all; reflexivity. }
  apply H6 in Hrate.
  rewrite Hrate. unfold sequences_of in *. cbn. congruence.
Qed.

Lemma force_external_durations_kept (r8 r9 : t) :
  force_external_durations convert_position_higher r8 = (Done tt, r9) ->
  r9 = set_mExternalReaders (mExternalReaders r9) r8
  /\ length (mExternalReaders r9) = length (mExternalReaders r8)
  /\ forall i e', nth_error (mExternalReaders r9) i = Some e' ->
       exists e, nth_error (mExternalReaders r8) i = Some e
                 /\ mEditRate e' = mEditRate e /\ mOrigin e' = mOrigin e
                 /\ mFileId e' = mFileId e.
Proof.
  unfold force_external_durations.
  destruct (0 <=? mDuration r8).
  - destruct (force_durations convert_position_higher r8 O (mExternalReaders r8)) as [es |]
      eqn:Efd; [| discriminate].
    intros Heq. inversion Heq. subst r9. cbn [mExternalReaders set_mExternalReaders].
    replace (mExternalReaders (set_mExternalReaders es r8)) with es by reflexivity.
    split; [reflexivity |]. split.
    + clear Heq. revert Efd. generalize O as i. revert es.
      induction (mExternalReaders r8) as [| e l IH]; intros es i; cbn [force_durations].
      * intros Heq. inversion Heq. reflexivity.
      * destruct (ForceDuration _ e); [| discriminate].
        destruct (force_durations convert_position_higher r8 (Datatypes.S i) l) eqn:El;
          [| discriminate].
        intros Heq. inversion Heq. cbn. f_equal. apply (IH _ _ El).
    + intros i e' Hnth.
      destruct (force_durations_each r8 _ O es Efd i e' Hnth) as (e & Hnth0 & He' & _).
      exists e. split; [exact Hnth0 |]. subst e'. repeat split.
  - intros Heq. inversion Heq. subst r9.
    split; [destruct r8; reflexivity |]. split; [reflexivity |].
    intros i e' Hnth. exists e'. repeat split. exact Hnth.
Qed.

Lemma Forall2_nth {A B : Type} (R : A -> B -> Prop) (d : B) (l : list A) (l' : list B) :
  Forall2 R l l' ->
  length l' = length l
  /\ forall i x, nth_error l i = Some x -> R x (nth i l' d).
Proof.
  induction 1 as [| x y l l' Hxy _ [IHlen IH]].
  - split; [reflexivity |]. intros i x Hnth. destruct i; discriminate.
  - split; [cbn; congruence |]. intros i z Hnth. destruct i as [| i]; cbn in *.
    + inversion Hnth. subst z. exact Hxy.
    + apply IH. exact Hnth.
Qed.

(** Metadata processing of a reader that has no sample sequences yet
    gives each external reader its sample sequence: the sequence that
    [get_sample_sequence] finds from the clip edit rate to the edit rate of
    the external reader, with its size.  So the sequences are as many as
    the external readers, and processing succeeds only when every external
    reader has an edit rate with a sample sequence. *)
Theorem ProcessMetadata_sample_sequences (mp_tracks : list MaterialTrack) (r0 r : t) :
  mExternalSampleSequences r0 = [] ->
  mExternalSampleSequenceSizes r0 = [] ->
  process_metadata mp_tracks r0 = (Done tt, r) ->
  length (mExternalSampleSequences r) = length (mExternalReaders r)
  /\ length (mExternalSampleSequenceSizes r) = length (mExternalReaders r)
  /\ forall i e, nth_error (mExternalReaders r) i = Some e ->
       get_sample_sequence (mEditRate r) (mEditRate e) = Some (sample_sequence r i)
       /\ sample_sequence_size r i = get_sequence_size (sample_sequence r i).
Proof.
  intros Hseq0 Hsizes0 Hrun.
  destruct (ProcessMetadata_stages mp_tracks r0 r Hrun)
    as (r1 & r3 & r6 & r7 & r9 & Hadd & _ & Hfill & Hrate & Hextract & Hforce & Hr).
  pose proof (before_sequences _ _ _ _ _ Hadd Hfill Hrate) as Hbefore.
  unfold sequences_of in Hbefore. rewrite Hseq0, Hsizes0 in Hbefore.
  inversion Hbefore as [[Hseq6 Hsizes6]]. clear Hbefore.
  destruct (extract_sample_sequences_all _ _ _ Hextract) as (sequences & Hall & Hr7).
  rewrite Hseq6, Hsizes6 in Hr7. cbn [app] in Hr7.
  destruct (force_external_durations_kept _ _ Hforce) as (Hr9 & Hlen9 & Hnth9).
  destruct (Forall2_nth _ [] _ _ Hall) as [Hlen Hnth].
  assert (Hexts7 : mExternalReaders r7 = mExternalReaders r6) by (rewrite Hr7; reflexivity).
  assert (Hseqs : mExternalSampleSequences r = sequences).
  { rewrite Hr, Hr9, Hr7. reflexivity. }
  assert (Hsizes : mExternalSampleSequenceSizes r = map get_sequence_size sequences).
  { rewrite Hr, Hr9, Hr7. reflexivity. }
  assert (Hexts : mExternalReaders r = mExternalReaders r9) by (rewrite Hr; reflexivity).
  assert (Hrate_r : mEditRate r = mEditRate r6).
  { rewrite Hr, Hr9, Hr7. reflexivity. }
  cbn [mExternalReaders set_mDuration] in Hlen9, Hnth9.
  rewrite Hexts7 in Hlen9, Hnth9.
  rewrite Hseqs, Hsizes, Hexts, length_map, Hlen9.
  split; [exact Hlen |]. split; [exact Hlen |].
  intros i e' Hnth'.
  destruct (Hnth9 i e' Hnth') as (e & Hnth6 & Hrate_e & _).
  unfold sample_sequence, sample_sequence_size. rewrite Hseqs, Hsizes, Hrate_r, Hrate_e.
  split; [apply (Hnth i e Hnth6) |].
  assert (Hi : (i < length sequences)%nat).
  { rewrite Hlen. apply nth_error_Some. rewrite Hnth6. discriminate. }
  rewrite (nth_indep _ 0 (get_sequence_size [])) by (rewrite length_map; exact Hi).
  apply map_nth.
Qed.

(** An entry of [mTrackReaders] that points into the reader: to one of
    its own track readers, or into one of its external readers. *)
Definition in_range (r : t) (ref : TrackRef) : Prop :=
  match ref with
  | OwnTrack k => (k < length (mInternalTrackReaders r))%nat
  | ExternalTrack i _ => (i < length (mExternalReaders r))%nat
  end.

Definition distinct_tracks (r : t) : Prop :=
  NoDup (mTrackReaders r) /\ Forall (in_range r) (mTrackReaders r).

Definition sizes_of (r : t) : nat * nat :=
  (length (mInternalTrackReaders r), length (mExternalReaders r)).

Lemma in_range_sizes r r' ref : sizes_of r' = sizes_of r -> in_range r ref -> in_range r' ref.
Proof.
  unfold sizes_of. intros Heq. inversion Heq as [[Hint Hext]].
  destruct ref; cbn; congruence.
Qed.

Lemma distinct_tracks_sizes r r' :
  sizes_of r' = sizes_of r -> Permutation (mTrackReaders r) (mTrackReaders r') ->
  distinct_tracks r -> distinct_tracks r'.
Proof.
  intros Hsizes Hperm [Hnodup Hall]. split.
  - apply (Permutation_NoDup Hperm Hnodup).
  - rewrite Forall_forall in *. intros ref Hin. apply (in_range_sizes r); [exact Hsizes |].
    apply Hall. apply (Permutation_in _ (Permutation_sym Hperm) Hin).
Qed.

Lemma update_nth_length {A : Type} (f : A -> A) (l : list A) :
  forall n, length (update_nth n f l) = length l.
Proof.
  induction l as [| x l IH]; intros [| n]; cbn; try reflexivity. f_equal. apply IH.
Qed.

Lemma update_track_sizes ref f r : sizes_of (update_track ref f r) = sizes_of r.
Proof.
  destruct ref; unfold sizes_of; cbn; rewrite update_nth_length; reflexivity.
Qed.

Lemma TrackRef_eqb_refl ref : TrackRef_eqb ref ref = true.
Proof. destruct ref; cbn; rewrite ?Nat.eqb_refl; reflexivity. Qed.

Lemma distinct_tracks_add (r r' : t) (ref : TrackRef) :
  distinct_tracks r ->
  mTrackReaders r' = mTrackReaders r ++ [ref] ->
  (length (mInternalTrackReaders r) <= length (mInternalTrackReaders r'))%nat ->
  (length (mExternalReaders r) <= length (mExternalReaders r'))%nat ->
  in_range r' ref ->
  ~ In ref (mTrackReaders r) ->
  distinct_tracks r'.
Proof.
  intros [Hnodup Hall] Htracks Hint Hext Href Hfresh. unfold distinct_tracks.
  rewrite Htracks. split.
  - apply (Permutation_NoDup (l := ref :: mTrackReaders r)).
    + apply Permutation_cons_append.
    + constructor; assumption.
  - apply Forall_app. split; [| constructor; [exact Href | constructor]].
    rewrite Forall_forall in *. intros x Hin. specialize (Hall x Hin).
    destruct x; cbn in *; lia.
Qed.

Lemma add_track_distinct (mp_track : MaterialTrack) (r r' : t) :
  distinct_tracks r ->
  add_track convert_position mp_track r = (Done tt, r') ->
  distinct_tracks r'.
Proof.
  intros Hinv. unfold add_track.
  destruct (mp_essence mp_track) as [fsp_track | resolved].
  - unfold CreateInternalTrackReader. run_monad.
    repeat match goal with
           | |- context [if ?c then _ else _] => destruct c; cbn beta iota
           end;
      intros Heq; inversion Heq; subst r'; try exact Hinv.
    all: try (apply (distinct_tracks_sizes r); [reflexivity | apply Permutation_refl
                                                | exact Hinv]).
    all: eapply distinct_tracks_add;
      [exact Hinv
      | reflexivity
      | cbn; rewrite update_nth_length, length_app; cbn; lia
      | cbn; lia
      | cbn; rewrite update_nth_length, length_app; cbn; lia
      | intros Hin; destruct Hinv as [_ Hall]; rewrite Forall_forall in Hall;
        specialize (Hall _ Hin); cbn in Hall; lia].
  - unfold GetExternalTrackReader.
    destruct resolved as [[file_reader track_id] |]; run_monad;
      [| intros Heq; inversion Heq; subst r'; exact Hinv].
    destruct (GetInternalTrackReaderById file_reader track_id) as [k |]; run_monad;
      [| intros Heq; inversion Heq; subst r'; exact Hinv].
    destruct (find_index _ (mExternalReaders r)) as [i |] eqn:Efind; run_monad.
    + destruct (existsb _ (mTrackReaders r)) eqn:Eused; run_monad; [discriminate |].
      intros Heq; inversion Heq; subst r'.
      destruct (find_index_Some _ _ i Efind) as (e & Hnth & _).
      assert (Hi : (i < length (mExternalReaders r))%nat).
      { apply nth_error_Some. rewrite Hnth. discriminate. }
      eapply distinct_tracks_add;
        [exact Hinv
        | reflexivity
        | cbn; lia
        | cbn; rewrite update_nth_length; lia
        | cbn; rewrite update_nth_length; exact Hi
        | ].
      intros Hin.
      assert (Hex : existsb (TrackRef_eqb (ExternalTrack i k)) (mTrackReaders r) = true).
      { apply existsb_exists. exists (ExternalTrack i k).
        split; [exact Hin | apply TrackRef_eqb_refl]. }
      rewrite Hex in Eused. discriminate.
    + intros Heq; inversion Heq; subst r'.
      eapply distinct_tracks_add;
        [exact Hinv
        | reflexivity
        | cbn; lia
        | cbn; rewrite update_nth_length, length_app; cbn; lia
        | cbn; rewrite update_nth_length, length_app; cbn; lia
        | intros Hin; destruct Hinv as [_ Hall]; rewrite Forall_forall in Hall;
          specialize (Hall _ Hin); cbn in Hall; lia].
Qed.

Lemma add_tracks_distinct (mp_tracks : list MaterialTrack) :
  forall r r',
    distinct_tracks r ->
    add_tracks convert_position mp_tracks r = (Done tt, r') ->
    distinct_tracks r'.
Proof.
  induction mp_tracks as [| mp_track mp_tracks IH]; intros r r' Hinv; cbn [add_tracks].
  - intros Heq. inversion Heq. subst r'. exact Hinv.
  - intros Hrun. apply bind_Done in Hrun. destruct Hrun as ([] & r1 & Hone & Hrest).
    apply (IH r1 r' (add_track_distinct _ _ _ Hinv Hone) Hrest).
Qed.

Lemma fold_lead_filler_sizes refs :
  preserves (fun r => (sizes_of r, mTrackReaders r)) (fold_lead_filler refs).
Proof.
  induction refs as [| ref refs IH]; cbn [fold_lead_filler].
  - apply preserves_ret.
  - preserves_all; try exact IH.
    rewrite update_track_sizes, update_track_mTrackReaders. reflexivity.
Qed.

Lemma disable_unused_in_sizes used i e :
  length (mInternalTrackReaders (disable_unused_in used i e))
  = length (mInternalTrackReaders e).
Proof.
  unfold disable_unused_in. generalize (mTrackReaders e) as refs. intros refs. revert e.
  induction refs as [| ref refs IH]; intros e; cbn [fold_left]; [reflexivity |].
  rewrite IH. destruct (existsb _ used); [reflexivity |].
  pose proof (update_track_sizes ref (SetEnable false) e) as Hs.
  unfold sizes_of in Hs. congruence.
Qed.

Lemma disable_unused_external_tracks_sizes r :
  sizes_of (disable_unused_external_tracks r) = sizes_of r.
Proof.
  unfold sizes_of, disable_unused_external_tracks. cbn. f_equal.
  generalize O as i. induction (mExternalReaders r) as [| e es IH]; intros i;
    [reflexivity |].
  cbn. f_equal. apply IH.
Qed.

(** The track readers that metadata processing collects for a reader
    without track readers are distinct: no track reader is a track of the
    clip twice, as an external track that two material tracks reference is
    refused.  Each entry points to one of the reader's own track readers
    or into one of its external readers, and there is at least one. *)
Theorem ProcessMetadata_distinct_tracks (mp_tracks : list MaterialTrack) (r0 r : t) :
  mTrackReaders r0 = [] ->
  process_metadata mp_tracks r0 = (Done tt, r) ->
  mTrackReaders r <> []
  /\ NoDup (mTrackReaders r)
  /\ forall ref, In ref (mTrackReaders r) ->
       match ref with
       | OwnTrack k => (k < length (mInternalTrackReaders r))%nat
       | ExternalTrack i _ => (i < length (mExternalReaders r))%nat
       end.
Proof.
  intros Hempty Hrun.
  destruct (ProcessMetadata_stages mp_tracks r0 r Hrun)
    as (r1 & r3 & r6 & r7 & r9 & Hadd & Hsome & Hfill & Hrate & Hextract & Hforce & Hr).
  assert (H0 : distinct_tracks r0).
  { unfold distinct_tracks. rewrite Hempty. split; constructor. }
  pose proof (add_tracks_distinct _ _ _ H0 Hadd) as H1.
  assert (Hp3 : preserves (fun x => (sizes_of x, mTrackReaders x))
                          (check_lead_filler convert_position)).
  { unfold check_lead_filler. preserves_all; try apply fold_lead_filler_sizes. }
  apply Hp3 in Hfill. inversion Hfill as [[Hint3 Hext3 Htracks3]].
  assert (Hp6 : preserves (fun x => (sizes_of x, mTrackReaders x)) set_rate).
  { unfold set_clip_edit_rate. preserves_all; reflexivity. }
  apply Hp6 in Hrate. inversion Hrate as [[Hint6 Hext6 Htracks6]].
  destruct (extract_sample_sequences_all _ _ _ Hextract) as (sequences & _ & Hr7).
  destruct (force_external_durations_kept _ _ Hforce) as (Hr9 & Hlen9 & _).
  cbn [mExternalReaders set_mDuration] in Hlen9.
  assert (Htracks : Permutation (mTrackReaders r1) (mTrackReaders r)).
  { rewrite Hr, Hr9, Hr7. cbn. rewrite Htracks6, <- Htracks3. cbn. apply stable_sort_perm. }
  assert (Hsizes : sizes_of r = sizes_of r1).
  { unfold sizes_of. rewrite Hr. cbn. rewrite Hlen9. rewrite Hr9, Hr7. cbn.
    rewrite Hint6, Hext6.
    pose proof (disable_unused_external_tracks_sizes (sort_track_readers r3)) as Hd.
    apply (f_equal snd) in Hd. unfold sizes_of in Hd.
    cbn in Hd |- *. rewrite Hd. cbn. rewrite Hint3, Hext3. reflexivity. }
  destruct (distinct_tracks_sizes r1 r Hsizes Htracks H1) as [Hnodup Hall].
  split; [| split; [exact Hnodup |]].
  - intros Hnil. rewrite Hnil in Htracks. apply Permutation_sym, Permutation_nil in Htracks.
    contradiction.
  - intros ref Hin. rewrite Forall_forall in Hall. apply (Hall ref Hin).
Qed.


(** A material track whose essence is in an external file that the
    resolver does not give, or that has no track with the id. *)
Definition unresolved (mp_track : MaterialTrack) : Prop :=
  match mp_essence mp_track with
  | InThisFile _ => False
  | InExternalFile None => True
  | InExternalFile (Some (file_reader, track_id)) =>
      GetInternalTrackReaderById file_reader track_id = None
  end.

Lemma add_tracks_unresolved (mp_tracks : list MaterialTrack) (r : t) :
  Forall unresolved mp_tracks ->
  add_tracks convert_position mp_tracks r = (Done tt, r).
Proof.
  induction 1 as [| mp_track mp_tracks Hone _ IH]; cbn [add_tracks]; [reflexivity |].
  unfold bind at 1.
  assert (Hskip : add_track convert_position mp_track r = (Done tt, r)).
  { unfold add_track, unresolved in *.
    destruct (mp_essence mp_track) as [fsp_track | [[file_reader track_id] |]];
      [contradiction | |].
    - unfold GetExternalTrackReader. rewrite Hone. reflexivity.
    - reflexivity. }
  rewrite Hskip. exact IH.
Qed.

(** A clip without essence is refused.  When the reader has no track
    readers and the material tracks, of which there is one at least, are
    all skipped because their external essence is not resolved or has no
    such track, metadata processing throws the open result
    [MXF_RESULT_NO_ESSENCE]. *)
Theorem ProcessMetadata_no_essence (mp_tracks : list MaterialTrack) (r0 : t) :
  mTrackReaders r0 = [] ->
  mp_tracks <> [] ->
  Forall unresolved mp_tracks ->
  fst (process_metadata mp_tracks r0) = Throw (OpenResultException MXF_RESULT_NO_ESSENCE).
Proof.
  intros Hempty _ Hall. unfold ProcessMetadata.
  unfold bind at 1. rewrite (add_tracks_unresolved mp_tracks r0 Hall).
  run_monad. rewrite Hempty. reflexivity.
Qed.

(** **** From the loop over the material tracks to the result *)

(** The durations of the external readers. *)
Definition external_durations (r : t) : list Z := map mDuration (mExternalReaders r).

(** The track infos of a reader and of its external readers. *)
Definition track_infos (r : t) : list MXFTrackInfo * list (list MXFTrackInfo) :=
  (map GetTrackInfo (mInternalTrackReaders r),
   map (fun e => map GetTrackInfo (mInternalTrackReaders e)) (mExternalReaders r)).

Lemma map_update_nth {A X : Type} (f : A -> X) (g : A -> A) (l : list A) :
  (forall x, f (g x) = f x) -> forall n, map f (update_nth n g l) = map f l.
Proof.
  intros Hg. induction l as [| x l IH]; intros [| n]; cbn; try reflexivity.
  - rewrite Hg. reflexivity.
  - rewrite IH. reflexivity.
Qed.

Lemma update_track_external_durations ref f r :
  external_durations (update_track ref f r) = external_durations r.
Proof.
  destruct ref; unfold external_durations; cbn; [reflexivity |].
  apply map_update_nth. intros e. reflexivity.
Qed.

Lemma update_track_SetEnable_infos ref b r :
  track_infos (update_track ref (SetEnable b) r) = track_infos r.
Proof.
  destruct ref; unfold track_infos; cbn; f_equal.
  - apply map_update_nth. intros tr. reflexivity.
  - apply map_update_nth. intros e. cbn. apply map_update_nth. intros tr. reflexivity.
Qed.

Lemma track_infos_GetTrackReader (r r' : t) :
  track_infos r' = track_infos r ->
  forall ref, GetTrackInfo (GetTrackReader r' ref) = GetTrackInfo (GetTrackReader r ref).
Proof.
  unfold track_infos. intros Heq. inversion Heq as [[Hint Hext]]. clear Heq.
  assert (Hown : forall l l' : list MXFTrackReader,
             map GetTrackInfo l' = map GetTrackInfo l ->
             forall k, GetTrackInfo (match nth_error l' k with
                                     | Some tr => tr
                                     | None => NULL_TRACK_READER
                                     end)
                       = GetTrackInfo (match nth_error l k with
                                       | Some tr => tr
                                       | None => NULL_TRACK_READER
                                       end)).
  { intros l l' Hmap k.
    pose proof (f_equal (fun infos => nth_error infos k) Hmap) as Hk. cbv beta in Hk.
    rewrite !nth_error_map in Hk.
    destruct (nth_error l' k), (nth_error l k); cbn in Hk; try discriminate;
      [inversion Hk; reflexivity | reflexivity]. }
  intros [k | i k]; unfold GetTrackReader, deref.
  - apply Hown. exact Hint.
  - pose proof (f_equal (fun infos => nth_error infos i) Hext) as Hi. cbv beta in Hi.
    rewrite !nth_error_map in Hi.
    destruct (nth_error (mExternalReaders r') i) as [e' |],
             (nth_error (mExternalReaders r) i) as [e |]; cbn in Hi; try discriminate.
    + inversion Hi as [Hmap]. apply Hown. exact Hmap.
    + reflexivity.
Qed.

Lemma disable_unused_in_kept used i e :
  mDuration (disable_unused_in used i e) = mDuration e
  /\ map GetTrackInfo (mInternalTrackReaders (disable_unused_in used i e))
     = map GetTrackInfo (mInternalTrackReaders e).
Proof.
  unfold disable_unused_in. generalize (mTrackReaders e) as refs. intros refs. revert e.
  induction refs as [| ref refs IH]; intros e; cbn [fold_left]; [split; reflexivity |].
  destruct (IH (if existsb (same_track_reader i ref) used then e
                else update_track ref (SetEnable false) e)) as [Hd Hi].
  rewrite Hd, Hi. destruct (existsb (same_track_reader i ref) used); [split; reflexivity |].
  split; [destruct ref; reflexivity |].
  apply (f_equal fst (update_track_SetEnable_infos ref false e)).
Qed.

Lemma disable_unused_external_tracks_kept r :
  external_durations (disable_unused_external_tracks r) = external_durations r
  /\ track_infos (disable_unused_external_tracks r) = track_infos r.
Proof.
  unfold external_durations, track_infos, disable_unused_external_tracks. cbn.
  generalize O as i. induction (mExternalReaders r) as [| e es IH]; intros i;
    [split; reflexivity |].
  destruct (IH (Datatypes.S i)) as [Hd Hi]. inversion Hi as [Hi'].
  destruct (disable_unused_in_kept (mExternalTrackReaders r) i e) as [Hde Hie].
  cbn [map]. rewrite Hd, Hde, Hie, Hi'. split; reflexivity.
Qed.

Lemma check_lead_filler_kept :
  preserves (fun r => (external_durations r, mTrackReaders r))
            (check_lead_filler convert_position).
Proof.
  assert (Hfold : forall refs,
             preserves (fun r => (external_durations r, mTrackReaders r))
                       (fold_lead_filler refs)).
  { induction refs as [| ref refs IH]; cbn [fold_lead_filler].
    - apply preserves_ret.
    - preserves_all; try exact IH.
      rewrite update_track_external_durations, update_track_mTrackReaders. reflexivity. }
  unfold check_lead_filler. preserves_all; try apply Hfold.
Qed.

Lemma force_external_durations_map {X : Type} (f : t -> X) (r8 r9 : t) :
  (forall d e, f (set_mDuration d e) = f e) ->
  force_external_durations convert_position_higher r8 = (Done tt, r9) ->
  map f (mExternalReaders r9) = map f (mExternalReaders r8).
Proof.
  intros Hf. unfold force_external_durations.
  destruct (0 <=? mDuration r8); [| intros Heq; inversion Heq; reflexivity].
  destruct (force_durations convert_position_higher r8 O (mExternalReaders r8)) as [es |]
    eqn:Efd; [| discriminate].
  intros Heq. inversion Heq. subst r9. cbn [mExternalReaders set_mExternalReaders].
  clear Heq. revert Efd. generalize O as i. revert es.
  induction (mExternalReaders r8) as [| e l IH]; intros es i; cbn [force_durations].
  - intros Heq. inversion Heq. reflexivity.
  - unfold ForceDuration.
    destruct (_ <=? mDuration e); [| discriminate].
    destruct (force_durations convert_position_higher r8 (Datatypes.S i) l) eqn:El;
      [| discriminate].
    intros Heq. inversion Heq. cbn [map]. rewrite Hf. f_equal. apply (IH _ _ El).
Qed.




(** **** The track order *)

Lemma compare_track_reader_infos (a a' b b' : MXFTrackReader) :
  GetTrackInfo a' = GetTrackInfo a -> GetTrackInfo b' = GetTrackInfo b ->
  compare_track_reader a' b' = compare_track_reader a b.
Proof. unfold compare_track_reader. intros Ha Hb. rewrite Ha, Hb. reflexivity. Qed.

Lemma stable_sort_ext {A : Type} (comp comp' : A -> A -> bool) (l : list A) :
  (forall a b, comp a b = comp' a b) -> stable_sort comp l = stable_sort comp' l.
Proof.
  intros Hext. induction l as [| x l IH]; cbn [stable_sort fold_right]; [reflexivity |].
  fold (stable_sort comp l). fold (stable_sort comp' l). rewrite IH.
  generalize (stable_sort comp' l) as sorted.
  induction sorted as [| y sorted IHs]; cbn [stable_insert]; [reflexivity |].
  rewrite Hext, IHs. reflexivity.
Qed.

(** The track list of the result is the list that the loop over the
    material tracks created, sorted at the time by the track infos that
    the result still has. *)
Lemma ProcessMetadata_when_sorted mp_tracks r0 r :
  process_metadata mp_tracks r0 = (Done tt, r) ->
  exists r3,
    mTrackReaders r3 = mTrackReaders (snd (add_tracks convert_position mp_tracks r0))
    /\ mTrackReaders r = mTrackReaders (sort_track_readers r3)
    /\ track_infos r = track_infos r3.
Proof.
  intros Hrun.
  destruct (ProcessMetadata_stages mp_tracks r0 r Hrun)
    as (r1 & r3 & r6 & r7 & r9 & Hadd & _ & Hfill & Hrate & Hextract & Hforce & Hr).
  destruct (force_external_durations_kept _ _ Hforce) as (Hr9 & _ & _).
  pose proof (force_external_durations_map
                (fun e => map GetTrackInfo (mInternalTrackReaders e)) _ _
                (fun d e => eq_refl) Hforce) as Hinfos9.
  destruct (extract_sample_sequences_all _ _ _ Hextract) as (sequences & _ & Hr7).
  assert (Hp6 : preserves (fun x => (track_infos x, mTrackReaders x)) set_rate).
  { unfold set_clip_edit_rate. preserves_all; reflexivity. }
  apply Hp6 in Hrate.
  pose proof (f_equal fst Hrate) as Hinfos6. pose proof (f_equal snd Hrate) as Htracks6.
  cbn [fst snd] in Hinfos6, Htracks6.
  destruct (disable_unused_external_tracks_kept (sort_track_readers r3)) as [_ Hinfos5].
  apply check_lead_filler_kept in Hfill. injection Hfill as _ Htracks3.
  exists r3. rewrite Hadd. cbn [snd].
  split; [exact Htracks3 |]. split.
  - rewrite Hr, Hr9, Hr7. cbn. rewrite Htracks6. reflexivity.
  - transitivity (track_infos r6).
    + unfold track_infos. rewrite Hr. cbn. rewrite Hinfos9. rewrite Hr9, Hr7. reflexivity.
    + rewrite Hinfos6. exact Hinfos5.
Qed.

(** C8 (as amended).  After metadata processing the track readers are
    those that the loop over the material tracks created, sorted by data
    definition, then by material track number with 0 last; the material
    track id, with 0 last, orders only tracks that both have no track
    number.  Tracks that rank equal (the same data definition and the same
    non-zero track number, or no track number and the same track id) are
    in the order in which they were created.  This is for clips in which
    every track has a track number or a track id: between two tracks with
    neither the comparison holds both ways, and the sort promises
    nothing. *)
Theorem ProcessMetadata_track_order (mp_tracks : list MaterialTrack) (r0 r : t) :
  process_metadata mp_tracks r0 = (Done tt, r) ->
  Forall (fun ref => identified (GetTrackReader r ref)) (mTrackReaders r) ->
  let created := mTrackReaders (snd (add_tracks convert_position mp_tracks r0)) in
  Permutation created (mTrackReaders r)
  /\ in_order number_then_id_before (map (GetTrackReader r) (mTrackReaders r))
  /\ (forall k, In k created ->
        filter (fun ref => same_rank (GetTrackReader r k) (GetTrackReader r ref))
               (mTrackReaders r)
        = filter (fun ref => same_rank (GetTrackReader r k) (GetTrackReader r ref))
                 created).
Proof.
  intros Hrun Hid created.
  destruct (ProcessMetadata_when_sorted mp_tracks r0 r Hrun) as (r3 & Hcreated & Hsorted & Hinfos).
  fold created in Hcreated.
  pose proof (track_infos_GetTrackReader r3 r Hinfos) as Hinfo.
  set (rc := set_mTrackReaders created r).
  assert (Hrc : forall ref, GetTrackReader rc ref = GetTrackReader r ref)
    by (intros ref; destruct ref; reflexivity).
  assert (Hsame : mTrackReaders r = mTrackReaders (sort_track_readers rc)).
  { rewrite Hsorted. unfold sort_track_readers. cbn [mTrackReaders set_mTrackReaders rc].
    rewrite Hcreated. apply stable_sort_ext. intros a b.
    apply compare_track_reader_infos; symmetry; apply Hinfo. }
  assert (Hperm : Permutation created (mTrackReaders r)).
  { rewrite Hsame. apply stable_sort_perm. }
  assert (Hidc : Forall (fun ref => identified (GetTrackReader rc ref)) (mTrackReaders rc)).
  { rewrite Forall_forall in *. intros ref Hin. rewrite Hrc. apply Hid.
    apply (Permutation_in _ Hperm). exact Hin. }
  destruct (track_readers_sorted rc Hidc) as (_ & Hord & Hstable & _).
  rewrite <- Hsame in Hord, Hstable.
  split; [exact Hperm |]. split.
  - rewrite (map_ext _ _ Hrc) in Hord. exact Hord.
  - intros k Hk. specialize (Hstable k Hk).
    rewrite (filter_ext _ (fun ref => same_rank (GetTrackReader r k) (GetTrackReader r ref)))
      in Hstable by (intros ref; rewrite !Hrc; reflexivity).
    rewrite Hstable. apply filter_ext. intros ref. rewrite !Hrc. reflexivity.
Qed.

End Metadata.

(** *** Examples *)

Lemma GetPosition_after_Seek_witness :
  GetPosition Utils.convert_position_lower
              (Seek Utils.convert_position_higher wrapping_clip 7) = 7.
Proof.
  assert (Hrange : INT64_MIN <= 7 <= INT64_MAX) by (split; vm_compute; discriminate).
  pose proof (GetPosition_after_Seek Utils.convert_position_lower
                Utils.convert_position_higher wrapping_clip 7 Hrange) as (_ & Hanchored & _).
  apply Hanchored.
  - reflexivity.
  - vm_compute. split; [reflexivity | exact I].
Defined.

(** The long-GOP file at edit unit 4, with the information of its first
    frame still to be extracted. *)
Definition unparsed_gop_essence : EssenceReader :=
  mkEssenceReader 4 true (fun position n => (inr n, position + n)) key_frame_index
                  (fun position => Z.max 0 (Z.min 9 position))
                  (fun position => if position =? 0 then FrameExtracted else NoFrame).

Definition unparsed_gop_reader : t :=
  mk 0 (mkRational 25 1) 0 0 10 (Some unparsed_gop_essence) 1 false EmptyString
     [gop_track] [OwnTrack 0] [] [] [] [].

Lemma ExtractFrameInfo_restores_position_witness :
  (exists er', mEssenceReader (ExtractFrameInfo unparsed_gop_reader) = Some er'
               /\ er_position er' = er_position unparsed_gop_essence)
  /\ GetPosition Utils.convert_position_lower (ExtractFrameInfo unparsed_gop_reader)
     = GetPosition Utils.convert_position_lower unparsed_gop_reader
  /\ (mRequireFrameInfoCount (ExtractFrameInfo unparsed_gop_reader) = 0
      \/ mRequireFrameInfoCount (ExtractFrameInfo unparsed_gop_reader)
         = mRequireFrameInfoCount unparsed_gop_reader).
Proof.
  apply (ExtractFrameInfo_restores_position Utils.convert_position_lower
           unparsed_gop_reader unparsed_gop_essence).
  reflexivity.
Defined.

Example unparsed_gop_reader_extracts :
  mRequireFrameInfoCount (ExtractFrameInfo unparsed_gop_reader) = 0
  /\ GetPosition Utils.convert_position_lower (ExtractFrameInfo unparsed_gop_reader) = 4.
Proof. split; vm_compute; reflexivity. Qed.

(** A file whose essence gives no frame, with the information of its first
    frame still to be extracted. *)
Definition frameless_essence : EssenceReader :=
  mkEssenceReader 0 true (fun position _ => (inr 0, position)) (fun _ => None)
                  (fun position => position) (fun _ => NoFrame).

Definition frameless_reader : t :=
  mk 0 (mkRational 25 1) 0 0 10 (Some frameless_essence) 1 false EmptyString
     [gop_track] [OwnTrack 0] [] [] [] [].

Lemma Read_without_frame_info_witness :
  exists r' tr,
    Read Utils.convert_position_lower Utils.convert_position_higher
         Utils.convert_duration_lower_at Utils.convert_duration_higher_at
         1 frameless_reader 3 true = (Done 0, r', tr)
    /\ mReadError r' = true
    /\ mReadErrorMessage r' = "Failed to extract information from frame(s)"%string
    /\ GetPosition Utils.convert_position_lower r'
       = GetPosition Utils.convert_position_lower frameless_reader.
Proof.
  apply (Read_without_frame_info
           Utils.convert_position_lower Utils.convert_position_higher
           Utils.convert_duration_lower_at Utils.convert_duration_higher_at
           0 frameless_reader 3 true).
  vm_compute. reflexivity.
Defined.

Lemma Read_error_flag_witness :
  exists k r' tr,
    Read Utils.convert_position_lower Utils.convert_position_higher
         Utils.convert_duration_lower_at Utils.convert_duration_higher_at
         2 short_clip 3 true = (Done k, r', tr)
    /\ ((mReadError r' = false /\ mReadErrorMessage r' = EmptyString)
        \/ (mReadError r' = true /\ k = 0)).
Proof.
  apply (Read_error_flag
           Utils.convert_position_lower Utils.convert_position_higher
           Utils.convert_duration_lower_at Utils.convert_duration_higher_at
           2 short_clip 3 true).
  cbn. lia.
Defined.

Lemma intra_only_needs_no_precharge_witness :
  GetMaxPrecharge Utils.convert_position_lower Utils.convert_position_higher
                  Utils.convert_duration_lower Instances.CURRENT_POSITION_VALUE
                  wrapping_clip 3 false = Ok 0
  /\ GetMaxRollout Utils.convert_position_lower Utils.convert_position_higher
                   Utils.convert_duration_lower Instances.CURRENT_POSITION_VALUE
                   wrapping_clip 3 false = Ok 0.
Proof.
  apply (intra_only_needs_no_precharge
           Utils.convert_position_lower Utils.convert_position_higher
           Utils.convert_duration_lower Instances.CURRENT_POSITION_VALUE wrapping_clip).
  - reflexivity.
  - reflexivity.
Defined.

Lemma GetReadLimits_enclose_the_clip_witness :
  exists precharge rollout,
    GetMaxPrecharge Utils.convert_position_lower Utils.convert_position_higher
                    Utils.convert_duration_lower Instances.CURRENT_POSITION_VALUE
                    (gop_reader b_frame_index) 0 false = Ok precharge
    /\ GetMaxRollout Utils.convert_position_lower Utils.convert_position_higher
                     Utils.convert_duration_lower Instances.CURRENT_POSITION_VALUE
                     (gop_reader b_frame_index)
                     (mDuration (gop_reader b_frame_index) - 1) false = Ok rollout
    /\ GetReadLimits Utils.convert_position_lower Utils.convert_position_higher
                     Utils.convert_duration_lower Instances.CURRENT_POSITION_VALUE
                     (gop_reader b_frame_index) false
       = Ok (precharge, mDuration (gop_reader b_frame_index) - precharge + rollout)
    /\ -32768 <= precharge <= 0
    /\ 0 <= rollout <= 32767.
Proof.
  pose proof (GetReadLimits_enclose_the_clip
                Utils.convert_position_lower Utils.convert_position_higher
                Utils.convert_duration_lower Instances.CURRENT_POSITION_VALUE
                (gop_reader b_frame_index)) as [_ Hcomplete].
  apply Hcomplete.
  - reflexivity.
  - reflexivity.
  - vm_compute. discriminate.
Defined.

Lemma clip_is_processed : Instances.ProcessMetadata clip_tracks (new 0) = (Done tt, clip).
Proof. vm_compute. reflexivity. Qed.

Lemma ProcessMetadata_origin_witness :
  mFileOrigin clip <= mOrigin clip
  /\ (forall i e, nth_error (mExternalReaders clip) i = Some e ->
        CONVERT_EXTERNAL_POS Utils.convert_position_lower clip i (mOrigin e) <= mOrigin clip)
  /\ (mOrigin clip = mFileOrigin clip
      \/ exists i e, nth_error (mExternalReaders clip) i = Some e
                     /\ mOrigin clip
                        = CONVERT_EXTERNAL_POS Utils.convert_position_lower clip i (mOrigin e)).
Proof.
  apply (ProcessMetadata_origin
           Utils.convert_position_lower Utils.convert_position_higher
           Utils.convert_duration_lower Instances.scale Instances.scale
           Instances.exact Instances.exact_of_int Instances.exact_div Instances.exact_lt
           Instances.EXACT_1000000 Instances.file_reader_rate
           Instances.whole_multiple_sequence Utils.get_sequence_size
           clip_tracks (new 0) clip).
  exact clip_is_processed.
Defined.

Lemma ProcessMetadata_forces_durations_witness :
  exists e,
    nth_error (mExternalReaders clip) 0 = Some e
    /\ mDuration e
       = CONVERT_INTERNAL_POS Utils.convert_position_higher clip 0 (mDuration clip).
Proof.
  assert (Hnth : nth_error (mExternalReaders clip) 0
                 = Some (nth 0 (mExternalReaders clip) clip)) by (vm_compute; reflexivity).
  exists (nth 0 (mExternalReaders clip) clip). split; [exact Hnth |].
  apply (ProcessMetadata_forces_durations
           Utils.convert_position_lower Utils.convert_position_higher
           Utils.convert_duration_lower Instances.scale Instances.scale
           Instances.exact Instances.exact_of_int Instances.exact_div Instances.exact_lt
           Instances.EXACT_1000000 Instances.file_reader_rate
           Instances.whole_multiple_sequence Utils.get_sequence_size
           clip_tracks (new 0) clip).
  - exact clip_is_processed.
  - vm_compute. discriminate.
  - exact Hnth.
Defined.

Lemma ProcessMetadata_sample_sequences_witness :
  length (mExternalSampleSequences clip) = length (mExternalReaders clip)
  /\ length (mExternalSampleSequenceSizes clip) = length (mExternalReaders clip)
  /\ forall i e, nth_error (mExternalReaders clip) i = Some e ->
       Instances.whole_multiple_sequence (mEditRate clip) (mEditRate e)
       = Some (sample_sequence clip i)
       /\ sample_sequence_size clip i = Utils.get_sequence_size (sample_sequence clip i).
Proof.
  apply (ProcessMetadata_sample_sequences
           Utils.convert_position_lower Utils.convert_position_higher
           Utils.convert_duration_lower Instances.scale Instances.scale
           Instances.exact Instances.exact_of_int Instances.exact_div Instances.exact_lt
           Instances.EXACT_1000000 Instances.file_reader_rate
           Instances.whole_multiple_sequence Utils.get_sequence_size
           clip_tracks (new 0) clip).
  - reflexivity.
  - reflexivity.
  - exact clip_is_processed.
Defined.

Lemma ProcessMetadata_distinct_tracks_witness :
  mTrackReaders clip <> []
  /\ NoDup (mTrackReaders clip)
  /\ forall ref, In ref (mTrackReaders clip) ->
       match ref with
       | OwnTrack k => (k < length (mInternalTrackReaders clip))%nat
       | ExternalTrack i _ => (i < length (mExternalReaders clip))%nat
       end.
Proof.
  apply (ProcessMetadata_distinct_tracks
           Utils.convert_position_lower Utils.convert_position_higher
           Utils.convert_duration_lower Instances.scale Instances.scale
           Instances.exact Instances.exact_of_int Instances.exact_div Instances.exact_lt
           Instances.EXACT_1000000 Instances.file_reader_rate
           Instances.whole_multiple_sequence Utils.get_sequence_size
           clip_tracks (new 0) clip).
  - reflexivity.
  - exact clip_is_processed.
Defined.




(** The picture track of [clip] lasts 100 edit units and its sound file
    172800 samples, 90 edit units of the clip. *)
Example clip_contributors :
  map (internal_contribution Instances.scale clip) (mInternalTrackReaders clip)
  ++ external_contributions_from
       Utils.convert_duration_lower clip O
       (mExternalReaders (snd (add_tracks Instances.scale clip_tracks (new 0))))
  = [100; 90]
  /\ mDuration clip = 90.
Proof. split; vm_compute; reflexivity. Qed.

(** Four tracks of one file, in this order in the material package: a
    sound track with number 2, a sound track with number 1 and id 9, a
    picture track without a number, and a sound track with number 1 and
    id 2. *)
Definition unordered_tracks : list MaterialTrack :=
  [sound_track 5 2 1;
   sound_track 9 1 2;
   mkMaterialTrack PICTURE_DDEF 7 0 RATE_25 0 100 0
     (InThisFile (mkFileSourceTrack RATE_25 0 4 4 true MPEG2LG_422P_HL_1080I));
   sound_track 2 1 3].

Definition unordered_clip : t :=
  snd (Instances.ProcessMetadata unordered_tracks (new 0)).

Lemma ProcessMetadata_track_order_witness :
  Permutation (mTrackReaders (snd (add_tracks Instances.scale unordered_tracks (new 0))))
              (mTrackReaders unordered_clip)
  /\ in_order number_then_id_before
              (map (GetTrackReader unordered_clip) (mTrackReaders unordered_clip))
  /\ (forall k,
        In k (mTrackReaders (snd (add_tracks Instances.scale unordered_tracks (new 0)))) ->
        filter (fun ref => same_rank (GetTrackReader unordered_clip k)
                                     (GetTrackReader unordered_clip ref))
               (mTrackReaders unordered_clip)
        = filter (fun ref => same_rank (GetTrackReader unordered_clip k)
                                       (GetTrackReader unordered_clip ref))
                 (mTrackReaders (snd (add_tracks Instances.scale unordered_tracks (new 0))))).
Proof.
  assert (Hrun : Instances.ProcessMetadata unordered_tracks (new 0)
                 = (Done tt, unordered_clip)) by (vm_compute; reflexivity).
  assert (Hid : Forall (fun ref => identified (GetTrackReader unordered_clip ref))
                       (mTrackReaders unordered_clip)).
  { assert (Hrefs : mTrackReaders unordered_clip
                    = [OwnTrack 2; OwnTrack 1; OwnTrack 3; OwnTrack 0])
      by (vm_compute; reflexivity).
    apply Forall_forall. intros ref Hin. rewrite Hrefs in Hin.
    destruct Hin as [Href | [Href | [Href | [Href | []]]]]; subst ref;
      vm_compute;
      first [left; intros Hzero; discriminate Hzero | right; intros Hzero; discriminate Hzero]. }
  apply (ProcessMetadata_track_order
           Utils.convert_position_lower Utils.convert_position_higher
           Utils.convert_duration_lower Instances.scale Instances.scale
           Instances.exact Instances.exact_of_int Instances.exact_div
           Instances.exact_lt Instances.EXACT_1000000 Instances.file_reader_rate
           Instances.whole_multiple_sequence Utils.get_sequence_size
           unordered_tracks (new 0) unordered_clip Hrun Hid).
Defined.

(** The tracks in the order of the material package, and as metadata
    processing leaves them: the picture track first, then the sound
    tracks with number 1 in the order in which they were created, then
    the sound track with number 2. *)
Example unordered_clip_tracks :
  let key := fun ref =>
               let info := GetTrackInfo (GetTrackReader unordered_clip ref) in
               (data_def info, material_track_number info, material_track_id info) in
  map key (mTrackReaders (snd (add_tracks Instances.scale unordered_tracks (new 0))))
  = [(2, 2, 5); (2, 1, 9); (1, 0, 7); (2, 1, 2)]
  /\ map key (mTrackReaders unordered_clip)
     = [(1, 0, 7); (2, 1, 9); (2, 1, 2); (2, 2, 5)].
Proof. split; vm_compute; reflexivity. Qed.

(** Two sound tracks without essence: the file of the first is not
    found, and the audio file has no track 7 for the second. *)
Definition lost_tracks : list MaterialTrack :=
  [mkMaterialTrack SOUND_DDEF 1 1 RATE_48000 0 172800 0 (InExternalFile None);
   mkMaterialTrack SOUND_DDEF 2 2 RATE_48000 0 172800 0 (InExternalFile (Some (audio_file, 7)))].

Lemma ProcessMetadata_no_essence_witness :
  fst (Instances.ProcessMetadata lost_tracks (new 0))
  = Throw (OpenResultException MXF_RESULT_NO_ESSENCE).
Proof.
  apply (ProcessMetadata_no_essence
           Utils.convert_position_lower Utils.convert_position_higher
           Utils.convert_duration_lower Instances.scale Instances.scale
           Instances.exact Instances.exact_of_int Instances.exact_div Instances.exact_lt
           Instances.EXACT_1000000 Instances.file_reader_rate
           Instances.whole_multiple_sequence Utils.get_sequence_size
           lost_tracks (new 0)).
  - reflexivity.
  - discriminate.
  - constructor; [exact I |]. constructor; [vm_compute; reflexivity | constructor].
Defined.

End MXFFileReaderFacts.
